(* ===== verification/_CoqProject ===== *)
-Q . S2P
Prelude.v
SqlGuard.v
Json.v
Ffi.v
Config.v
Watch.v
Inventory.v
InventoryFacts.v
Replica.v
Restart.v
Walk.v
Folder.v
InventoryWatch.v
WatchReplica.v
Queue.v
QueueFacts.v
Spawn.v
ClusterBackend.v
ClusterSlots.v
Cluster.v
ClusterFacts.v
Gateway.v
GatewayFacts.v
PluginLog.v
Gates.v
ClusterManifest.v
Stores.v
StoreFacts.v
Providers.v
ProviderFacts.v
Sinks.v
Backends.v
BackendFacts.v
Routes.v
RouteFacts.v
Streams.v
Subscribed.v
HostHandle.v
HostFacts.v
StubHost.v
Declare.v
Serving.v
ServingKinds.v
Template.v
