(* ===== verification/Prelude.v ===== *)
(** * Verification of mcpg-plugin-sdk

    The SDK (Rust, src/src/) is what an author of an MCPG plugin builds on: a
    plugin is a library the host loads, each kind of plugin talks to the host
    through a table of C functions that exchange JSON texts, and the SDK
    supplies those tables, the client side of the host's services, and the
    engines of common plugins. A plugin can also be built into the host; then
    an adapter takes the table's place. This library models the tables of every
    kind of plugin, the adapters, the client side and the engines, and proves
    them correct.

    ** The program and its files

    - SqlGuard: the read-only guard of SQL plugins (sql_guard.rs).
      [enforce_read_only] scans a statement into a skeleton without comments
      and literals, and classifies its words. A statement is bytes; a skeleton
      character is one byte, as [bytes\[i\] as char] makes it.
    - Config: [parse_config_or_fail_closed] (config.rs) on Unicode code points.
    - Watch: the diffing and polling watches (watch.rs): a thread polls, and
      emits the difference between two states; a stop flag ends it.
    - Inventory, InventoryFacts: the engine behind object-store watches
      (inventory.rs, [Inventory]). It compares a listing with what the host
      confirmed, keeps a window of changes in flight, and writes a cursor into
      each event so that a restart resumes. [poll] and [acknowledged] are its
      operations, [new] its start from a cursor.
    - Replica: the specification of that engine: the map a consumer builds from
      its events. A history interleaves polls, handled and lost events.
    - Restart: that map over a stop and a resume from a stored position
      ([Inventory::new]), where the engine is replaced and the consumer stays.
    - Walk: the directory walk that makes a listing (inventory.rs, [walk]).
    - Folder: the walk under the engine, over a tree whose directories all list.
    - InventoryWatch: the thread around the engine (inventory.rs,
      [spawn_inventory_watch_hooked]): list, poll, deliver, wait on the wake
      channel for acknowledgements and notifications.
    - WatchReplica: that thread implements the specification of Replica: each
      of its runs is one of those histories.
    - Queue, QueueFacts: queue watches (queue.rs). A receiving thread holds each
      delivery in a window and emits it; a settling thread acks what the host
      acknowledged and releases what waited too long; cancel joins both. The
      three are step relations on one state; [schedule] executes them.
    - Spawn: the starts of the threads of these watches, which may fail
      (watch.rs, inventory.rs, queue.rs), and what a failure leaves behind.
    - ClusterBackend: what a coordinator plugin implements (ffi.rs,
      [SyncClusterBackend]), its defaults, and [collect_pages].
    - ClusterSlots: the table the SDK's macro makes of a coordinator
      (macros.rs, [__mcpg_decl_cluster_backend_entity]): decode the arguments,
      call the plugin, encode the answer, catch a panic.
    - ClusterManifest: the factory of a coordinator and the features its table
      announces beside its manifest (same macro).
    - Cluster, ClusterFacts: the client that calls such a table (cluster.rs):
      leases, publishing, subscriptions and their callback boxes.
    - Gateway, GatewayFacts: the mock gateway plugins are tested with
      (testing.rs, [MockGateway]): builders, tables, the tool-call chain, HTTP
      dispatch.
    - PluginLog: the registry that forwards a plugin's logs to the host
      (plugin_log.rs), with the making and dropping of instances that feed it
      (ffi.rs, [boxed_make_with_host], [boxed_drop]).
    - Ffi: what every generated C function shares: the panic guards, reading
      an argument, printing an answer, the stream handle. [comp] is a call
      that may panic, the type of every plugin method from here on.
    - Gates (tool gates, transforms, identity providers), Stores (stores,
      caches, content stores), Providers (secrets, configuration, policy,
      approval, credentials, catalogs), Sinks (audit, log, metrics,
      telemetry), Backends (backends, watch strategies) and Routes (HTTP
      routes, transports): for each kind the sync trait a plugin implements
      (ffi.rs, [Sync...]), with its default methods; the slots of its entity
      macro (macros.rs, [__mcpg_decl_..._entity]) over the texts a host sends;
      and its in-process adapter (adapters.rs, [...Adapter]). Their properties
      are in Gates, StoreFacts, ProviderFacts, Sinks, BackendFacts, RouteFacts.
    - Streams: the tasks that forward a stream to a host callback, the drain of
      a streamed HTTP body ([__streaming]) and [cluster_forward], with their
      cancellation (ffi.rs).
    - Subscribed: the client's subscriptions (cluster.rs, [Subscription]) over
      such forwarders: one thread each, the drop of a subscription waiting on
      its task and then freeing the callback box.
    - HostHandle, HostFacts: what a plugin calls back into the host with
      (host_handle.rs, [HostHandle]), over the vtable and in process; spans,
      subscription guards, and the backend's view of it.
    - Declare: what [declare_plugin!] expands to (declare_plugin.rs): the
      loader's entry, the registrations and the in-process registrations.
    - Serving, ServingKinds: a declaration run in both builds: the host that
      reads the registration and calls the slots beside the registrar that gets
      the adapters. [BuildsAgree] is what it asks of a kind; tool gates,
      transforms, identity providers, caches, backends, configuration,
      policy, approval, credential and catalog providers and the four kinds of
      sink discharge it.
    - StubHost: the host of fixed answers that table tests use (testing.rs,
      [stub_host_ref]).
    - Template: the project templates and [to_pascal_case] (template.rs).
    - Json: the interface of serde_json the other files are written against,
      its laws, and a small instance of it for the witnesses.

    ** State and operations

    A mutable object is a Record and each of its methods a function from state
    to state; [&self] behind a lock is the same. A Result is [result]; a panic
    that the code catches is [Panicked] of [outcome], one it does not catch is
    [None]. Threads that share a state are step relations: a step ends where
    the code gives up a lock or calls out, so any interleaving the locks allow
    is a run. What the environment chooses (clocks, brokers, listings, channel
    reads, the store) is an argument or a nondeterministic step, never a fixed
    function. Clock readings are a function of the number of the reading, with
    no assumption that they grow.

    A plugin of any kind is a record of methods over a world [P], its state and
    whatever its callbacks reach. A slot is a function of the world and of the
    texts it gets to the world and the text it gives; an adapter is the same
    over the decoded values; so the two builds are compared call for call.
    The instance behind a raw handle is the world itself. The protocol's types
    are classes ([PluginApi], [StoreApi], [HostApi] and so on), with the laws a
    theorem uses in its hypotheses. A run of a forwarder is a list of events:
    what the stream answers to a poll, when the task is woken or dropped, when
    a callback returns, what the cancelling thread sees.

    Integers are [Z] with the width written out: a [u64] counter wraps with
    [as_u64], a length is compared as the code compares it. Theorems that
    need a counter not to wrap say so. Durations are nanoseconds.

    ** Groups of theorems

    - Nothing is lost: deliveries of a queue are settled, and settled once; an
      inventory reports exactly what changed, again if the host lost it; a
      restart resumes exactly or admits a gap, the consumer's replica with it
      when the position is of the event handled first; a consumer that handles
      its events in time holds the store's listing, and without losses gets
      there within counted rounds, for a folder its files; leases are released
      once; listings over pages are complete, over any backend whose pages are
      runs of one list, and within their limit over every backend.
    - Nothing is exceeded: windows, backoffs, naps, walks and listings stay
      within their bounds in every run.
    - Everything ends: scans, walks, page loops, sleeps, and threads once told
      to stop.
    - Nothing is confused: client and plugin agree across the table, acquired,
      declined and failed kept apart; cursors round-trip; digests tell entries
      apart; routes match on segment boundaries.
    - Nothing dangles: callbacks only reach live boxes, end to end for a
      coordinator that forwards its streams; logs only live host handles; and a
      cancelled stream makes no more callbacks. For a subscription to the host's
      own events this rests on the promise its comments name, that the host's
      unsubscribe returns only once the callback is not running.
    - Nothing depends on the build: a gate, transform, identity provider or
      store, a backend or an HTTP route answers alike loaded as a library and
      built in, so a whole declaration of such kinds does; a host handle acts
      alike over the vtable and in process, but for what a failed credential
      resolution leaves of its value.
    - Nothing is granted unasked: a text that does not decode never reaches the
      plugin, a panic answers with the kind's refusal, an answer that does not
      decode is an error.
    - Everything declared is registered: once, in order, under its own kind.
    - Where the code falls short, the theorem says what it does instead:
      [InventoryWatch.full_window_stalls], [ClusterFacts.unit_answers_misread],
      [Replica.late_handling_lost], [Restart.restart_forgets_handled],
      [Folder.cut_file_reported_deleted], [Subscribed.self_drop_corrupts],
      [Spawn.orphaned_receiver], parts of [HostFacts.host_callbacks_safe] (a
      guard dropped in its own callback), [ClusterFacts.acquire_parity] (a time
      to live that wraps, a null handle) and [GatewayFacts.tool_call_chain] (no
      metadata is collected),
      and the lemmas [ClusterFacts.renew_after_release],
      [ClusterFacts.alternating_pages_never_end],
      [QueueFacts.Example1.raced_twice], [InventoryFacts.empty_etag_unseen],
      [PluginLog.LogExample.reused_address_forgets],
      [HostFacts.metric_point_lost], [HostFacts.ttl_across_ffi],
      [HostFacts.failed_credentials_differ],
      [HostFacts.self_drop_frees_under_callback],
      [BackendFacts.sentinel_token_lost], [BackendFacts.watch_strategy_differs],
      [ProviderFacts.issue_panic_empty], [StoreFacts.cache_ttl_wraps],
      [StoreFacts.store_watch_differs] and [Template.protocol_version_imported].

    ** Fuel

    [skeleton_loop] takes one unit a byte ([sql_skeleton] gives the length and
    one), [walk_loop] one a directory ([walk] gives [max_dirs] and one),
    [sleep_interruptible] one a nap ([sleep_fuel]), [collect_pages] one a page;
    [skeleton_is_lex], [walk_breadth_first], [sleep_sound] and
    [listing_complete] prove the amounts enough. The watch thread runs as long
    as its stop flag is clear; [watch_stops] gives the fuel it needs.

    ** What is not modelled

    The crates the SDK calls are parameters: serde_json through [Json], blake3,
    glob patterns, the plugin protocol's types, the timestamp text. A poisoned
    lock behaves as an unpoisoned one, as the code makes it. A history of
    Replica is of one engine: Restart puts the next one in its place. Serving
    leaves out the kinds whose two builds give answers of different types, or
    none. A queue's sequence number is taken never to reach the largest [u64].
    A future that is awaited is the call it makes: of the tokio runtime only
    the scheduling of the forwarders is modelled, as the choice of events. The
    receiver left alone (Spawn) is that of an event source. The host's services do not panic. The casts between raw
    handles and instances, and the strings crossing as C pointers, are the
    identity.

    Not modelled: the exported ABI layout and version symbols, the [Debug],
    [Send] and [Sync] implementations, the re-exports of lib.rs and the unit
    tests.

    This file holds what the others share: results, machine integers, lists,
    the stable sort, deduplication, and the ordered reading of a map. *)

From stdpp Require Export base gmap sets list strings sorting pretty.
From Stdlib Require Export ZArith Lia.
From Stdlib Require Ascii String.

#[global] Open Scope Z_scope.

(** ** Notations, results *)

Declare Scope sdk_scope.
Delimit Scope sdk_scope with sdk.

(** Rust's [Result<A, E>]. *)
Inductive result (A E : Type) : Type :=
| Ok (a : A)
| Err (e : E).
Arguments Ok {A E} a.
Arguments Err {A E} e.

(** The [?] operator. *)
Notation "'let?' x := m 'in' k" :=
  (match m with Ok x => k | Err e => Err e end)
  (at level 10, x pattern, m at level 200, k at level 200) : sdk_scope.

Open Scope sdk_scope.

#[global] Instance result_eq_dec {A E} `{EqDecision A} `{EqDecision E} :
  EqDecision (result A E).
Proof.
  intros [x|x] [y|y]; try (right; congruence);
    destruct (decide (x = y)); [left|right|left|right]; congruence.
Defined.

Definition is_ok {A E} (r : result A E) : bool :=
  match r with Ok _ => true | Err _ => false end.

Definition result_ok {A E} (r : result A E) : option A :=
  match r with Ok a => Some a | Err _ => None end.

Definition map_err {A E F} (f : E -> F) (r : result A E) : result A F :=
  match r with Ok a => Ok a | Err e => Err (f e) end.

Definition map_ok {A B E} (f : A -> B) (r : result A E) : result B E :=
  match r with Ok a => Ok (f a) | Err e => Err e end.

Definition result_unwrap_or {A E} (d : A) (r : result A E) : A :=
  match r with Ok a => a | Err _ => d end.

Lemma is_ok_true {A E} (r : result A E) : is_ok r = true <-> exists a, r = Ok a.
Proof. destruct r; split; [eauto|done|done|by intros []]. Qed.

(** ** Machine integers and durations *)

(** [u64] values are [Z] in range; [as u64] wraps. *)
Definition u64_max : Z := 2 ^ 64 - 1.
Definition i64_min : Z := - 2 ^ 63.
Definition i64_max : Z := 2 ^ 63 - 1.
Definition usize_max : Z := 2 ^ 64 - 1.
Definition as_u64 (z : Z) : Z := z mod 2 ^ 64.

(** A [Duration] and an [Instant] are nanoseconds in [Z]. *)
Definition ms (n : Z) : Z := n * 1000000.
Definition secs (n : Z) : Z := n * 1000000000.
Definition as_millis (d : Z) : Z := d / 1000000.
(** [Instant::saturating_duration_since] and [Instant::elapsed]. *)
Definition saturating_since (later earlier : Z) : Z := Z.max 0 (later - earlier).

(** ** Bytes and strings *)

Abbreviation chars := String.list_ascii_of_string.
Abbreviation unchars := String.string_of_list_ascii.

Lemma chars_unchars l : chars (unchars l) = l.
Proof. induction l; simpl; congruence. Qed.
Lemma unchars_chars s : unchars (chars s) = s.
Proof. apply String.string_of_list_ascii_of_string. Qed.

(** ** Lists *)

(** Induction on the length of a list, for scans that look ahead. *)
Lemma list_len_ind {A} (P : list A -> Prop) :
  (forall l, (forall l', (length l' < length l)%nat -> P l') -> P l) -> forall l, P l.
Proof.
  intros H l. remember (length l) as n eqn:E.
  revert l E. induction (lt_wf n) as [n _ IH]. intros l ->. apply H. eauto.
Qed.

(** Positions of a sorted list are ordered. *)
Lemma sorted_lookup {A} (R : relation A) l i j x y :
  StronglySorted R l -> (i < j)%nat -> l !! i = Some x -> l !! j = Some y -> R x y.
Proof.
  intros Hs. revert i j. induction Hs as [|z l Hl IH Hz]; intros i j Hij Hi Hj; [done|].
  destruct j as [|j]; [lia|]. simpl in Hj. destruct i as [|i]; simpl in Hi.
  - injection Hi as ->. rewrite Forall_lookup in Hz. eauto.
  - eapply IH; [|done..]. lia.
Qed.

Lemma sublist_Forall {A} (P : A -> Prop) l k : l `sublist_of` k -> Forall P k -> Forall P l.
Proof.
  induction 1 as [|x l k _ IH|x l k _ IH]; intros H; [done| |];
    apply Forall_cons in H as [Hx H]; [constructor|]; auto.
Qed.

Lemma sublist_elem_of {A} (x : A) l k : l `sublist_of` k -> x ∈ l -> x ∈ k.
Proof.
  induction 1 as [|y l k _ IH|y l k _ IH]; intros Hx; [done|apply elem_of_cons in Hx as [->|Hx]|];
    [by left|right; auto|right; auto].
Qed.

Lemma fmap_sublist {A B} (f : A -> B) l k : l `sublist_of` k -> f <$> l `sublist_of` f <$> k.
Proof. induction 1; [done| |]; [by apply sublist_skip|by apply sublist_cons]. Qed.

Lemma sorted_sublist {A} (R : relation A) l k :
  l `sublist_of` k -> StronglySorted R k -> StronglySorted R l.
Proof.
  intros Hl. induction Hl as [|x l k Hl IH|x l k Hl IH]; intros Hs; [done| |];
    inversion Hs; subst; [|by apply IH].
  constructor; [by apply IH|]. by eapply sublist_Forall.
Qed.

Lemma filter_sublist_of {A} (f : A -> bool) l : List.filter f l `sublist_of` l.
Proof.
  induction l as [|x l IH]; simpl; [done|].
  destruct (f x); [by apply sublist_skip|by apply sublist_cons].
Qed.

Lemma filter_everything {A} (f : A -> bool) l :
  (forall x, x ∈ l -> f x = true) -> List.filter f l = l.
Proof.
  induction l as [|x l IH]; intros H; simpl; [done|].
  rewrite H by (by left). f_equal. apply IH. intros y Hy. apply H. by right.
Qed.

Lemma filter_nothing {A} (f : A -> bool) l :
  (forall x, x ∈ l -> f x = false) -> List.filter f l = [].
Proof.
  induction l as [|x l IH]; intros H; simpl; [done|].
  rewrite H by (by left). apply IH. intros y Hy. apply H. by right.
Qed.

(** The lemmas on sublists that automate the common cases. *)
Create HintDb sdk.
#[export] Hint Resolve sublist_Forall sorted_sublist fmap_sublist filter_sublist_of : sdk.
#[export] Hint Resolve sublist_delete sublist_take sublist_drop : sdk.

(** [slice::sort_by], a stable sort: an element stays before its equals. *)
Section StableSort.
Context {A : Type} (R : relation A) `{!RelDecision R}.

Fixpoint insert_by (x : A) (l : list A) : list A :=
  match l with
  | [] => [x]
  | y :: l' => if decide (R x y) then x :: l else y :: insert_by x l'
  end.

Definition sort_by (l : list A) : list A := foldr insert_by [] l.

Lemma insert_by_perm x l : insert_by x l ≡ₚ x :: l.
Proof.
  induction l as [|y l IH]; simpl; [done|]. destruct (decide (R x y)); [done|].
  rewrite IH. apply perm_swap.
Qed.

Lemma sort_by_perm l : sort_by l ≡ₚ l.
Proof. induction l as [|x l IH]; simpl; [done|]. by rewrite insert_by_perm, IH. Qed.

Lemma insert_by_sorted `{!Transitive R} `{!Total R} x l :
  StronglySorted R l -> StronglySorted R (insert_by x l).
Proof.
  induction 1 as [|y l Hs IH Hy]; simpl; [repeat constructor|].
  destruct (decide (R x y)) as [Hxy|Hxy].
  - constructor; [by constructor|]. constructor; [done|].
    eapply Forall_impl; [exact Hy|]. intros z Hz. by etrans.
  - constructor; [done|]. rewrite insert_by_perm. constructor; [|done].
    by destruct (total R x y).
Qed.

Lemma sort_by_sorted `{!Transitive R} `{!Total R} l : StronglySorted R (sort_by l).
Proof. induction l; simpl; [constructor|]. by apply insert_by_sorted. Qed.
End StableSort.

(** [Vec::dedup_by]: an element goes when it is the [same] as the last kept. *)
Section Dedup.
Context {A : Type} (same : A -> A -> bool).

Fixpoint dedup_from (kept : A) (l : list A) : list A :=
  match l with
  | [] => [kept]
  | x :: l => if same x kept then dedup_from kept l else kept :: dedup_from x l
  end.

Definition dedup_by (l : list A) : list A :=
  match l with [] => [] | x :: l => dedup_from x l end.

Lemma dedup_from_sublist x l : dedup_from x l `sublist_of` x :: l.
Proof.
  revert x. induction l as [|y l IH]; intros x; simpl; [done|]. destruct (same y x).
  - etrans; [apply IH|]. apply sublist_skip, sublist_cons. done.
  - apply sublist_skip, IH.
Qed.

Lemma dedup_by_sublist l : dedup_by l `sublist_of` l.
Proof. destruct l; [done|apply dedup_from_sublist]. Qed.
End Dedup.

(** ** Ordered maps

    [BTreeMap] is a [gmap] iterated in key order. *)

Class KeyOrd (K : Type) := {
  key_le : relation K;
  #[global] key_le_dec :: RelDecision key_le;
  #[global] key_le_po :: PartialOrder key_le;
  #[global] key_le_total :: Total key_le;
}.

#[global] Instance string_key_ord : KeyOrd string := {| key_le := String.le |}.
#[global] Instance Z_key_ord : KeyOrd Z := {| key_le := Z.le |}.

Section BTree.
Context {K V : Type} `{HO : KeyOrd K} `{Countable K}.

Definition entry_le : relation (K * V) := fun a b => key_le a.1 b.1.

#[local] Instance entry_le_dec : RelDecision entry_le.
Proof. intros a b. unfold entry_le. apply key_le_dec. Defined.
#[local] Instance entry_le_trans : Transitive entry_le.
Proof. intros a b c. unfold entry_le. apply transitivity. Qed.
#[local] Instance entry_le_total : Total entry_le.
Proof. intros a b. unfold entry_le. apply key_le_total. Qed.

(** The entries of the map, smallest key first. *)
Definition btree_list (m : gmap K V) : list (K * V) :=
  merge_sort entry_le (map_to_list m).

Lemma btree_perm m : btree_list m ≡ₚ map_to_list m.
Proof. apply merge_sort_Permutation. Qed.

Lemma btree_elem m k v : (k, v) ∈ btree_list m <-> m !! k = Some v.
Proof. rewrite btree_perm. apply elem_of_map_to_list. Qed.

Lemma btree_keys_NoDup m : NoDup (btree_list m).*1.
Proof. rewrite btree_perm. apply NoDup_fst_map_to_list. Qed.

Lemma btree_NoDup m : NoDup (btree_list m).
Proof. rewrite btree_perm. apply NoDup_map_to_list. Qed.

Lemma btree_length m : length (btree_list m) = size m.
Proof. rewrite btree_perm. apply length_map_to_list. Qed.

Lemma btree_keys_sorted m : StronglySorted key_le (btree_list m).*1.
Proof.
  assert (Hs : StronglySorted entry_le (btree_list m))
    by apply (StronglySorted_merge_sort _).
  induction Hs as [|a l _ IH Hall]; simpl; constructor; [done|].
  apply Forall_fmap. exact Hall.
Qed.

Lemma btree_keys_elem m k : k ∈ (btree_list m).*1 <-> is_Some (m !! k).
Proof.
  rewrite list_elem_of_fmap. split.
  - intros ([k' v] & -> & Hin). apply btree_elem in Hin. by exists v.
  - intros [v Hv]. exists (k, v). split; [done|]. by apply btree_elem.
Qed.
End BTree.
