(* ===== verification/SqlGuard.v ===== *)
(** * The read-only SQL guard (src/src/sql_guard.rs)

    [sql_skeleton] strips comments and blanks quoted regions, index by index
    as the code does; [lex] is the same scan as a structural state machine, and
    [skeleton_is_lex] proves them equal, which is also why the code's loops
    end. [enforce_read_only] classifies the skeleton. A statement is its UTF-8
    bytes; a skeleton [char] is one byte read as Latin-1 ([bytes\[i\] as char]). *)

From Stdlib Require Import Ascii String.
From S2P Require Import Prelude.
Open Scope Z_scope.

Abbreviation bytes := (list ascii).

(** ** The tables *)

(** Leading keywords that open a read-only statement. *)
Definition READ_ONLY_LEADERS : list string :=
  ["SELECT"; "WITH"; "SHOW"; "DESCRIBE"; "DESC"; "EXPLAIN"].

(** Keywords that must not appear as a bare token. *)
Definition WRITE_KEYWORDS : list string :=
  ["INSERT"; "UPDATE"; "DELETE"; "MERGE"; "UPSERT"; "REPLACE"; "TRUNCATE"; "CREATE"; "DROP";
   "ALTER"; "RENAME"; "GRANT"; "REVOKE"; "COMMENT"; "INTO"; "CALL"; "EXEC"; "EXECUTE"; "COPY";
   "LOAD"; "UNLOAD"; "PUT"; "REMOVE"; "ATTACH"; "DETACH"; "INSTALL"; "PRAGMA"; "VACUUM";
   "ANALYZE"; "OPTIMIZE"].

(** ** Characters and tokens *)

Definition is_ascii_alphanumeric (c : ascii) : bool :=
  let n := nat_of_ascii c in
  ((48 <=? n)%nat && (n <=? 57)%nat) || ((65 <=? n)%nat && (n <=? 90)%nat)
  || ((97 <=? n)%nat && (n <=? 122)%nat).

(** SQL identifier characters: whole-word token boundaries. *)
Definition is_ident_char (c : ascii) : bool :=
  is_ascii_alphanumeric c || (c =? "_")%char || (c =? "$")%char || (c =? "#")%char.

(** [char::is_whitespace] below U+0100. *)
Definition is_whitespace (c : ascii) : bool :=
  let n := nat_of_ascii c in
  ((9 <=? n)%nat && (n <=? 13)%nat) || (n =? 32)%nat || (n =? 133)%nat || (n =? 160)%nat.

Definition to_upper_char (c : ascii) : ascii :=
  let n := nat_of_ascii c in
  if (97 <=? n)%nat && (n <=? 122)%nat then ascii_of_nat (n - 32) else c.

Definition to_ascii_uppercase (l : bytes) : bytes := to_upper_char <$> l.

Fixpoint trim_start (l : bytes) : bytes :=
  match l with
  | c :: l' => if is_whitespace c then trim_start l' else l
  | [] => []
  end.

(** [str::trim]. *)
Definition trim (l : bytes) : bytes := reverse (trim_start (reverse (trim_start l))).

(** [str::find] of one character. *)
Fixpoint find_char (x : ascii) (l : bytes) : option nat :=
  match l with
  | [] => None
  | c :: l' => if (c =? x)%char then Some 0%nat else S <$> find_char x l'
  end.

(** [str::split] on a predicate: the pieces between separators, empty ones
    included. *)
Fixpoint split_on (p : ascii -> bool) (l : bytes) : list bytes :=
  match l with
  | [] => [[]]
  | c :: l' =>
      if p c then [] :: split_on p l'
      else match split_on p l' with
           | t :: ts => (c :: t) :: ts
           | [] => [[c]]
           end
  end.

Definition tokens (l : bytes) : list bytes := split_on (fun c => negb (is_ident_char c)) l.

Definition is_empty {A} (l : list A) : bool := match l with [] => true | _ => false end.

Definition in_table (tbl : list string) (l : bytes) : bool :=
  existsb (fun k => String.eqb k (unchars l)) tbl.

(** ** The skeleton *)

Section Skeleton.
Variable s : bytes.

(** [bytes\[i\] == c], false past the end. *)
Definition byte_is (i : nat) (c : ascii) : bool :=
  match s !! i with Some d => (d =? c)%char | None => false end.

(** Line comment: up to the newline, which stays. *)
Fixpoint skip_line (fuel i : nat) : nat :=
  match fuel with
  | O => i
  | S fuel =>
      if (i <? length s)%nat && negb (byte_is i "010") then skip_line fuel (i + 1) else i
  end.

(** Block comment: up to the closing star, or the last byte. *)
Fixpoint skip_block (fuel i : nat) : nat :=
  match fuel with
  | O => i
  | S fuel =>
      if (i + 1 <? length s)%nat && negb (byte_is i "*" && byte_is (i + 1) "/")
      then skip_block fuel (i + 1) else i
  end.

(** Quoted region: past the closing quote; a doubled quote stays inside. *)
Fixpoint skip_quoted (quote : ascii) (fuel i : nat) : nat :=
  match fuel with
  | O => i
  | S fuel =>
      if (i <? length s)%nat then
        if byte_is i quote then
          if (i + 1 <? length s)%nat && byte_is (i + 1) quote
          then skip_quoted quote fuel (i + 2)
          else (i + 1)%nat
        else skip_quoted quote fuel (i + 1)
      else i
  end.

(** The main loop, [i] and [out] as in the code; [None] if out of fuel. *)
Fixpoint skeleton_loop (fuel i : nat) (out : bytes) : option bytes :=
  match fuel with
  | O => None
  | S fuel =>
      match s !! i with
      | None => Some out
      | Some c =>
          if (c =? "-")%char && (i + 1 <? length s)%nat && byte_is (i + 1) "-" then
            skeleton_loop fuel (skip_line (length s) (i + 2)) out
          else if (c =? "/")%char && (i + 1 <? length s)%nat && byte_is (i + 1) "*" then
            skeleton_loop fuel
              (Nat.min (skip_block (length s) (i + 2) + 2) (length s)) (out ++ [" "%char])
          else if (c =? "'")%char || (c =? "034")%char || (c =? "`")%char then
            skeleton_loop fuel (skip_quoted c (length s) (i + 1)) (out ++ [" "%char])
          else skeleton_loop fuel (i + 1) (out ++ [c])
      end
  end.
End Skeleton.

(** Strip comments and blank quoted regions. The fuel is one more than the
    number of bytes, as each turn of the loop consumes one. *)
Definition sql_skeleton (s : bytes) : option bytes :=
  skeleton_loop s (S (length s)) 0 [].

(** ** The guard *)

Definition err_empty : string := "read-only guard: empty statement".
Definition err_multiple : string :=
  "read-only guard: multiple statements are not allowed under read_only (set read_only=false to allow writes)".
Definition err_leader (first : bytes) : string :=
  ("read-only guard: statement starts with `" ++ unchars first ++
   "`, not a read-only keyword (SELECT/WITH/SHOW/DESCRIBE/EXPLAIN); set read_only=false to allow writes")%string.
Definition err_write (upper : bytes) : string :=
  ("read-only guard: statement contains the write keyword `" ++ unchars upper ++
   "` (e.g. a data-modifying CTE or EXPLAIN ANALYZE); set read_only=false to allow writes")%string.

(** A [;] with more than whitespace after it. *)
Definition second_statement (trimmed : bytes) : bool :=
  match find_char ";" trimmed with
  | Some idx => negb (is_empty (trim (drop (idx + 1) trimmed)))
  | None => false
  end.

(** The first non-empty token. *)
Definition first_token (trimmed : bytes) : bytes :=
  default [] (head (List.filter (fun t => negb (is_empty t)) (tokens trimmed))).

(** The write-keyword loop over the tokens. *)
Fixpoint write_scan (ts : list bytes) : result unit string :=
  match ts with
  | [] => Ok tt
  | token :: ts =>
      if is_empty token then write_scan ts
      else
        let upper := to_ascii_uppercase token in
        if in_table WRITE_KEYWORDS upper then Err (err_write upper) else write_scan ts
  end.

(** The checks of [enforce_read_only] on the skeleton. *)
Definition classify (skeleton : bytes) : result unit string :=
  let trimmed := trim skeleton in
  if is_empty trimmed then Err err_empty
  else if second_statement trimmed then Err err_multiple
  else
    let first := first_token trimmed in
    if negb (in_table READ_ONLY_LEADERS (to_ascii_uppercase first)) then Err (err_leader first)
    else write_scan (tokens trimmed).

(** Enforce that [statement] is read-only. *)
Definition enforce_read_only (statement : string) : result unit string :=
  match sql_skeleton (chars statement) with
  | Some skeleton => classify skeleton
  | None => Err "out of fuel"
  end.

(** ** The scan as a state machine: the reference for [sql_skeleton] *)

Inductive lex_mode := InCode | InLine | InBlock | InQuote (q : ascii).

Definition is_quote (c : ascii) : bool :=
  (c =? "'")%char || (c =? "034")%char || (c =? "`")%char.

Fixpoint lex (m : lex_mode) (l : bytes) : bytes :=
  match l with
  | [] => match m with InCode | InLine => [] | _ => [" "%char] end
  | c :: l1 =>
      match m with
      | InCode =>
          match l1 with
          | d :: l2 =>
              if (c =? "-")%char && (d =? "-")%char then lex InLine l2
              else if (c =? "/")%char && (d =? "*")%char then lex InBlock l2
              else if is_quote c then lex (InQuote c) l1
              else c :: lex InCode l1
          | [] => if is_quote c then [" "%char] else [c]
          end
      | InLine => if (c =? "010")%char then c :: lex InCode l1 else lex InLine l1
      | InBlock =>
          match l1 with
          | d :: l2 =>
              if (c =? "*")%char && (d =? "/")%char then " "%char :: lex InCode l2
              else lex InBlock l1
          | [] => [" "%char]
          end
      | InQuote q =>
          if (c =? q)%char then
            match l1 with
            | d :: l2 => if (d =? q)%char then lex (InQuote q) l2 else " "%char :: lex InCode l1
            | [] => [" "%char]
            end
          else lex (InQuote q) l1
      end
  end.

(** What is left after a line comment, a block comment, a quoted region. *)
Fixpoint line_rest (l : bytes) : bytes :=
  match l with
  | c :: l1 => if (c =? "010")%char then l else line_rest l1
  | [] => []
  end.

Fixpoint block_rest (l : bytes) : bytes :=
  match l with
  | c :: ((d :: l2) as l1) => if (c =? "*")%char && (d =? "/")%char then l2 else block_rest l1
  | _ => []
  end.

Fixpoint quote_rest (q : ascii) (l : bytes) : bytes :=
  match l with
  | [] => []
  | c :: l1 =>
      if (c =? q)%char then
        match l1 with
        | d :: l2 => if (d =? q)%char then quote_rest q l2 else l1
        | [] => []
        end
      else quote_rest q l1
  end.

(** ** The cases of the unit tests *)

Example accepts_plain_reads :
  Forall (fun q => enforce_read_only q = Ok tt)
    ["SELECT * FROM t"; "  select 1"; "WITH x AS (SELECT 1) SELECT * FROM x"; "SHOW TABLES";
     "DESCRIBE t"; "DESC t"; "EXPLAIN SELECT * FROM t";
     "SELECT * FROM t WHERE name = 'DROP TABLE evil'";
     "SELECT update_time, created_at FROM t"; "/* c */ SELECT 1 -- trailing";
     "SELECT * FROM v$session"; "SELECT 1;"; "SELECT ';' AS sep FROM t"].
Proof. repeat constructor; vm_compute; reflexivity. Qed.

Example rejects_the_rest :
  Forall (fun q => is_ok (enforce_read_only q) = false)
    ["INSERT INTO t VALUES (1)"; "UPDATE t SET x=1"; "DELETE FROM t"; "DROP TABLE t";
     "WITH moved AS (INSERT INTO archive SELECT * FROM live RETURNING *) SELECT * FROM moved";
     "EXPLAIN ANALYZE SELECT * FROM t"; "explain analyze delete from t";
     "SELECT 1; DROP TABLE t"; "SELECT 1 ; DELETE FROM t"; "SELECT * INTO new_t FROM t";
     "CALL do_write()"; "COPY t TO 's3://x'"; "   "; "/* only a comment */"].
Proof. repeat constructor; vm_compute; reflexivity. Qed.

(** ** The loops against the state machine *)

Lemma lex_code_two c d l :
  lex InCode (c :: d :: l) =
  if (c =? "-")%char && (d =? "-")%char then lex InLine l
  else if (c =? "/")%char && (d =? "*")%char then lex InBlock l
  else if is_quote c then lex (InQuote c) (d :: l)
  else c :: lex InCode (d :: l).
Proof. reflexivity. Qed.

Lemma lex_code_one c : lex InCode [c] = if is_quote c then [" "%char] else [c].
Proof. reflexivity. Qed.

Lemma lex_line l : lex InLine l = lex InCode (line_rest l).
Proof.
  induction l as [|c l IH]; simpl; [done|].
  destruct (c =? "010")%char eqn:E; [|done].
  apply Ascii.eqb_eq in E as ->. by destruct l.
Qed.

Lemma lex_block l : lex InBlock l = " "%char :: lex InCode (block_rest l).
Proof.
  induction l as [|c l IH]; [done|]. simpl. destruct l as [|d l]; [done|].
  destruct ((c =? "*")%char && (d =? "/")%char); done.
Qed.

Lemma lex_quote q l : lex (InQuote q) l = " "%char :: lex InCode (quote_rest q l).
Proof.
  induction l as [l IH] using list_len_ind. destruct l as [|c l]; [done|]. simpl.
  destruct (c =? q)%char; [|apply IH; simpl; lia].
  destruct l as [|d l]; [done|].
  destruct (d =? q)%char; [apply IH; simpl; lia|done].
Qed.

Section SkipLemmas.
Variable s : bytes.

Lemma byte_is_drop i c :
  byte_is s i c = match drop i s with d :: _ => (d =? c)%char | [] => false end.
Proof.
  unfold byte_is. destruct (s !! i) as [d|] eqn:E.
  - by rewrite (drop_S _ _ _ E).
  - by rewrite drop_ge by (by apply lookup_ge_None).
Qed.

Lemma drop_cases i :
  (i < length s)%nat /\ (exists c, s !! i = Some c /\ drop i s = c :: drop (S i) s)
  \/ (length s <= i)%nat /\ s !! i = None /\ drop i s = [].
Proof.
  destruct (s !! i) as [c|] eqn:E.
  - left. split; [by eapply lookup_lt_Some|]. exists c. split; [done|]. by apply drop_S.
  - right. apply lookup_ge_None in E as E'. repeat split; [done|]. by apply drop_ge.
Qed.

Lemma skip_line_spec fuel i :
  (length s - i <= fuel)%nat ->
  (i <= skip_line s fuel i)%nat /\ drop (skip_line s fuel i) s = line_rest (drop i s).
Proof.
  revert i. induction fuel as [|fuel IH]; intros i Hf; simpl.
  - split; [done|]. by rewrite drop_ge by lia.
  - rewrite byte_is_drop.
    destruct (drop_cases i) as [[Hi (c & Hc & ->)]|(Hi & _ & ->)].
    + rewrite (proj2 (Nat.ltb_lt _ _) Hi). simpl. destruct (c =? "010")%char; simpl.
      * split; [done|]. by apply drop_S.
      * rewrite Nat.add_1_r. destruct (IH (S i)) as [? ->]; [lia|]. split; [lia|done].
    + rewrite (proj2 (Nat.ltb_ge _ _) Hi). split; [done|]. by apply drop_ge.
Qed.

Lemma skip_block_spec fuel i :
  (length s - i <= fuel)%nat ->
  (i <= skip_block s fuel i)%nat
  /\ drop (Nat.min (skip_block s fuel i + 2) (length s)) s = block_rest (drop i s).
Proof.
  revert i. induction fuel as [|fuel IH]; intros i Hf; simpl.
  - split; [done|]. rewrite Nat.min_r by lia. by rewrite !drop_ge by lia.
  - rewrite !byte_is_drop, Nat.add_1_r.
    destruct (drop_cases i) as [[Hi (c & Hc & ->)]|(Hi & _ & ->)].
    + destruct (drop_cases (S i)) as [[Hj (d & Hd & Hdrop)]|(Hj & _ & ->)].
      * rewrite (proj2 (Nat.ltb_lt _ _) Hj). rewrite Hdrop. cbn [andb block_rest].
        destruct ((c =? "*")%char && (d =? "/")%char); cbn [negb].
        -- split; [done|]. rewrite Nat.min_l by lia. f_equal. lia.
        -- destruct (IH (S i)) as [? ->]; [lia|]. rewrite Hdrop. split; [lia|done].
      * rewrite (proj2 (Nat.ltb_ge _ _) Hj). cbn [andb block_rest]. split; [done|].
        rewrite Nat.min_r by lia. by rewrite drop_all.
    + rewrite (proj2 (Nat.ltb_ge _ _)) by lia. cbn [andb block_rest]. split; [done|].
      rewrite Nat.min_r by lia. by rewrite drop_all.
Qed.

Lemma skip_quoted_spec q fuel i :
  (length s - i <= fuel)%nat ->
  (i <= skip_quoted s q fuel i)%nat
  /\ drop (skip_quoted s q fuel i) s = quote_rest q (drop i s).
Proof.
  revert i. induction fuel as [|fuel IH]; intros i Hf; simpl.
  - split; [done|]. by rewrite drop_ge by lia.
  - rewrite !byte_is_drop, Nat.add_1_r.
    destruct (drop_cases i) as [[Hi (c & Hc & ->)]|(Hi & _ & ->)].
    + rewrite (proj2 (Nat.ltb_lt _ _) Hi). cbn [quote_rest]. destruct (c =? q)%char.
      * destruct (drop_cases (S i)) as [[Hj (d & Hd & Hdrop)]|(Hj & _ & Hdrop)];
          rewrite Hdrop.
        -- rewrite (proj2 (Nat.ltb_lt _ _) Hj). cbn [andb]. destruct (d =? q)%char.
           ++ replace (i + 2)%nat with (S (S i)) by lia.
              destruct (IH (S (S i))) as [? ->]; [lia|]. split; [lia|done].
           ++ split; [lia|done].
        -- rewrite (proj2 (Nat.ltb_ge _ _) Hj). cbn [andb]. split; [lia|done].
      * destruct (IH (S i)) as [? ->]; [lia|]. split; [lia|done].
    + rewrite (proj2 (Nat.ltb_ge _ _) Hi). split; [done|]. by apply drop_ge.
Qed.

Lemma skeleton_loop_spec fuel i out :
  (length s - i < fuel)%nat ->
  skeleton_loop s fuel i out = Some (out ++ lex InCode (drop i s)).
Proof.
  revert i out. induction fuel as [|fuel IH]; intros i out Hf; [lia|]. cbn [skeleton_loop].
  destruct (drop_cases i) as [[Hi (c & Hc & Hd)]|(Hi & Hn & Hd)]; rewrite Hd.
  2:{ rewrite Hn. simpl. by rewrite app_nil_r. }
  rewrite Hc. rewrite !byte_is_drop, Nat.add_1_r. fold (is_quote c).
  destruct (skip_line_spec (length s) (i + 2)) as [Hl1 Hl2]; [lia|].
  destruct (skip_block_spec (length s) (i + 2)) as [Hb1 Hb2]; [lia|].
  destruct (skip_quoted_spec c (length s) (S i)) as [Hq1 Hq2]; [lia|].
  replace (i + 2)%nat with (S (S i)) in * by lia.
  destruct (drop_cases (S i)) as [[Hj (d & Hd' & Hdrop)]|(Hj & _ & Hdrop)]; rewrite Hdrop.
  - rewrite (proj2 (Nat.ltb_lt _ _) Hj), !andb_true_r, lex_code_two.
    destruct ((c =? "-")%char && (d =? "-")%char).
    { rewrite IH by lia. by rewrite Hl2, lex_line. }
    destruct ((c =? "/")%char && (d =? "*")%char).
    { rewrite IH by lia. by rewrite Hb2, lex_block, <- app_assoc. }
    destruct (is_quote c).
    + rewrite IH by lia. by rewrite Hq2, lex_quote, Hdrop, <- app_assoc.
    + rewrite IH by lia. by rewrite Hdrop, <- app_assoc.
  - rewrite !andb_false_r, lex_code_one. destruct (is_quote c).
    + rewrite IH by lia. by rewrite Hq2, Hdrop, <- app_assoc.
    + rewrite IH by lia. by rewrite Hdrop, <- app_assoc.
Qed.
End SkipLemmas.

Lemma sql_skeleton_lex s : sql_skeleton s = Some (lex InCode s).
Proof. unfold sql_skeleton. rewrite skeleton_loop_spec by lia. by rewrite drop_0. Qed.

Lemma enforce_classify st : enforce_read_only st = classify (lex InCode (chars st)).
Proof. unfold enforce_read_only. by rewrite sql_skeleton_lex. Qed.

(** ** Helper lemmas: the shape of the skeleton *)

(** Whether a scan that consumed [l] is in code with no lookahead pending. *)
Fixpoint ends_in_code (m : lex_mode) (l : bytes) : bool :=
  match l with
  | [] => match m with InCode => true | _ => false end
  | c :: l1 =>
      match m with
      | InCode =>
          match l1 with
          | d :: l2 =>
              if (c =? "-")%char && (d =? "-")%char then ends_in_code InLine l2
              else if (c =? "/")%char && (d =? "*")%char then ends_in_code InBlock l2
              else if is_quote c then ends_in_code (InQuote c) l1
              else ends_in_code InCode l1
          | [] => negb (is_quote c) && negb (c =? "-")%char && negb (c =? "/")%char
          end
      | InLine => if (c =? "010")%char then ends_in_code InCode l1 else ends_in_code InLine l1
      | InBlock =>
          match l1 with
          | d :: l2 =>
              if (c =? "*")%char && (d =? "/")%char then ends_in_code InCode l2
              else ends_in_code InBlock l1
          | [] => false
          end
      | InQuote q =>
          if (c =? q)%char then
            match l1 with
            | d :: l2 => if (d =? q)%char then ends_in_code (InQuote q) l2
                         else ends_in_code InCode l1
            | [] => false
            end
          else ends_in_code (InQuote q) l1
      end
  end.

(** One unfolding of the two scans on a list with a lookahead. *)
Lemma lex_two m c d l :
  lex m (c :: d :: l) =
  match m with
  | InCode =>
      if (c =? "-")%char && (d =? "-")%char then lex InLine l
      else if (c =? "/")%char && (d =? "*")%char then lex InBlock l
      else if is_quote c then lex (InQuote c) (d :: l)
      else c :: lex InCode (d :: l)
  | InLine => if (c =? "010")%char then c :: lex InCode (d :: l) else lex InLine (d :: l)
  | InBlock =>
      if (c =? "*")%char && (d =? "/")%char then " "%char :: lex InCode l else lex InBlock (d :: l)
  | InQuote q =>
      if (c =? q)%char then
        if (d =? q)%char then lex (InQuote q) l else " "%char :: lex InCode (d :: l)
      else lex (InQuote q) (d :: l)
  end.
Proof. by destruct m. Qed.

Lemma ends_two m c d l :
  ends_in_code m (c :: d :: l) =
  match m with
  | InCode =>
      if (c =? "-")%char && (d =? "-")%char then ends_in_code InLine l
      else if (c =? "/")%char && (d =? "*")%char then ends_in_code InBlock l
      else if is_quote c then ends_in_code (InQuote c) (d :: l)
      else ends_in_code InCode (d :: l)
  | InLine =>
      if (c =? "010")%char then ends_in_code InCode (d :: l) else ends_in_code InLine (d :: l)
  | InBlock =>
      if (c =? "*")%char && (d =? "/")%char then ends_in_code InCode l
      else ends_in_code InBlock (d :: l)
  | InQuote q =>
      if (c =? q)%char then
        if (d =? q)%char then ends_in_code (InQuote q) l else ends_in_code InCode (d :: l)
      else ends_in_code (InQuote q) (d :: l)
  end.
Proof. by destruct m. Qed.

Lemma lex_app m l r :
  ends_in_code m l = true -> lex m (l ++ r) = lex m l ++ lex InCode r.
Proof.
  revert m. induction l as [l IH] using list_len_ind. intros m.
  destruct l as [|c [|d l]].
  - destruct m; [done|discriminate..].
  - destruct m as [| | |q]; simpl.
    + intros Hc. destruct (is_quote c); [done|]. simpl in Hc.
      destruct (c =? "-")%char; [done|]. destruct (c =? "/")%char; [done|].
      by destruct r.
    + destruct (c =? "010")%char; [done|discriminate].
    + discriminate.
    + by destruct (c =? q)%char.
  - assert (IH1 : forall m, ends_in_code m (d :: l) = true ->
      lex m (d :: l ++ r) = lex m (d :: l) ++ lex InCode r)
      by (intros m' H; apply (IH (d :: l)); [simpl; lia|done]).
    assert (IH2 : forall m, ends_in_code m l = true ->
      lex m (l ++ r) = lex m l ++ lex InCode r)
      by (intros m' H; apply (IH l); [simpl; lia|done]).
    clear IH. rewrite ends_two.
    change ((c :: d :: l) ++ r) with (c :: d :: (l ++ r)). rewrite !lex_two.
    destruct m; repeat case_match; intros Hc; cbn [app];
      first [ by apply IH1 | by apply IH2
            | f_equal; first [ by apply IH1 | by apply IH2 ] ].
Qed.

(** A text inside quotes: every quote doubled. *)
Definition escape (q : ascii) (t : bytes) : bytes :=
  t ≫= fun c => if (c =? q)%char then [q; q] else [c].

Lemma lex_literal q t post :
  head post <> Some q ->
  lex (InQuote q) (escape q t ++ q :: post) = " "%char :: lex InCode post.
Proof.
  intros Hp. induction t as [|c t IH]; cbn [escape mbind list_bind app].
  - cbn [lex]. rewrite Ascii.eqb_refl. destruct post as [|d post]; [done|].
    destruct (Ascii.eqb_spec d q) as [->|]; [by destruct Hp|done].
  - fold (escape q t). destruct (Ascii.eqb_spec c q) as [->|Hne]; cbn [app lex].
    + by rewrite Ascii.eqb_refl.
    + by destruct (Ascii.eqb_spec c q).
Qed.

Lemma lex_quoted_text pre q t post :
  ends_in_code InCode pre = true -> is_quote q = true -> head post <> Some q ->
  lex InCode (pre ++ q :: escape q t ++ q :: post)
  = lex InCode pre ++ " "%char :: lex InCode post.
Proof.
  intros Hpre Hq Hp. rewrite lex_app by done. f_equal.
  assert (Hq' : q <> "-"%char /\ q <> "/"%char).
  { split; intros ->; discriminate Hq. }
  rewrite <- (lex_literal q t post Hp). remember (escape q t ++ q :: post) as l eqn:El.
  destruct l as [|d l]; [by destruct (escape q t)|].
  rewrite lex_code_two, Hq. destruct Hq' as [H1 H2].
  by rewrite (proj2 (Ascii.eqb_neq _ _) H1), (proj2 (Ascii.eqb_neq _ _) H2).
Qed.

(** ** Helper lemmas: letter case *)

Ltac by_ascii c := destruct c as [[] [] [] [] [] [] [] []]; vm_compute; done.

Lemma upper_ident c : is_ident_char (to_upper_char c) = is_ident_char c.
Proof. by_ascii c. Qed.
Lemma upper_ws c : is_whitespace (to_upper_char c) = is_whitespace c.
Proof. by_ascii c. Qed.
Lemma upper_quote c : is_quote (to_upper_char c) = is_quote c.
Proof. by_ascii c. Qed.
Lemma upper_upper c : to_upper_char (to_upper_char c) = to_upper_char c.
Proof. by_ascii c. Qed.
Lemma upper_fixed c : is_quote c = true -> to_upper_char c = c.
Proof. by_ascii c. Qed.

(** Characters that are not letters are recognised in either case. *)
Definition caseless (x : ascii) : bool :=
  negb ((65 <=? nat_of_ascii x)%nat && (nat_of_ascii x <=? 90)%nat)
  && negb ((97 <=? nat_of_ascii x)%nat && (nat_of_ascii x <=? 122)%nat).

Lemma upper_eqb c x : caseless x = true -> (to_upper_char c =? x)%char = (c =? x)%char.
Proof.
  intros Hx. destruct (Ascii.eqb_spec c x) as [->|Hne].
  - destruct (Ascii.eqb_spec (to_upper_char x) x) as [|Hn]; [done|].
    destruct Hn. revert Hx. by_ascii x.
  - destruct (Ascii.eqb_spec (to_upper_char c) x) as [<-|]; [|done].
    destruct Hne. revert Hx. by_ascii c.
Qed.

Lemma quote_caseless q : is_quote q = true -> caseless q = true.
Proof. by_ascii q. Qed.

Abbreviation up := to_ascii_uppercase.

Definition mode_ok (m : lex_mode) : bool :=
  match m with InQuote q => is_quote q | _ => true end.

Lemma lex_upper m l : mode_ok m = true -> lex m (up l) = up (lex m l).
Proof.
  revert m. induction l as [l IH] using list_len_ind. intros m Hm.
  destruct l as [|c [|d l]].
  - by destruct m.
  - destruct m as [| | |q]; cbn -[is_quote]; rewrite ?upper_quote, ?upper_eqb; try done;
      try (by destruct (is_quote c)); try (by destruct (c =? "010")%char);
      try (by destruct (c =? q)%char). by apply quote_caseless.
  - assert (IH1 : forall m, mode_ok m = true ->
      lex m (to_upper_char d :: up l) = up (lex m (d :: l)))
      by (intros m' H; apply (IH (d :: l)); [simpl; lia|done]).
    assert (IH2 : forall m, mode_ok m = true -> lex m (up l) = up (lex m l))
      by (intros m' H; apply (IH l); [simpl; lia|done]).
    clear IH.
    change (up (c :: d :: l)) with (to_upper_char c :: to_upper_char d :: up l).
    rewrite !lex_two. destruct m as [| | |q];
      rewrite ?upper_quote, ?(upper_eqb c), ?(upper_eqb d) by
        first [done | by apply quote_caseless];
      repeat case_match; try (by apply IH1); try (by apply IH2);
      try (unfold up; cbn [fmap list_fmap]; f_equal; first [by apply IH1 | by apply IH2]).
    rewrite upper_fixed by done. by apply IH1.
Qed.

Lemma trim_start_upper l : trim_start (up l) = up (trim_start l).
Proof.
  induction l as [|c l IH]; [done|]. cbn. rewrite upper_ws. by destruct (is_whitespace c).
Qed.

Lemma trim_upper l : trim (up l) = up (trim l).
Proof.
  assert (Hr : forall k, reverse (up k) = up (reverse k))
    by (intros k; symmetry; apply fmap_reverse).
  unfold trim. by rewrite trim_start_upper, Hr, trim_start_upper, Hr.
Qed.

Lemma is_empty_upper l : is_empty (up l) = is_empty l.
Proof. by destruct l. Qed.

Lemma find_char_upper x l : caseless x = true -> find_char x (up l) = find_char x l.
Proof.
  intros Hx. induction l as [|c l IH]; [done|]. cbn. rewrite upper_eqb by done.
  destruct (c =? x)%char; [done|]. by rewrite <- IH.
Qed.

Lemma second_statement_upper t : second_statement (up t) = second_statement t.
Proof.
  unfold second_statement. rewrite find_char_upper by done.
  destruct (find_char ";" t) as [i|]; [|done].
  unfold up. rewrite <- fmap_drop. fold (up (drop (i + 1) t)).
  by rewrite trim_upper, is_empty_upper.
Qed.

Lemma tokens_upper l : tokens (up l) = up <$> tokens l.
Proof.
  unfold tokens. induction l as [|c l IH]; [done|]. cbn. rewrite upper_ident.
  destruct (is_ident_char c); cbn; [|by f_equal].
  fold (up l). rewrite IH. by destruct (split_on _ l).
Qed.

Lemma up_up l : up (up l) = up l.
Proof. unfold up. rewrite <- list_fmap_compose. apply list_fmap_ext. intros. apply upper_upper. Qed.

Lemma first_token_upper l : first_token (up l) = up (first_token l).
Proof.
  unfold first_token. rewrite tokens_upper.
  induction (tokens l) as [|t ts IH]; [done|]. cbn. rewrite is_empty_upper.
  by destruct (is_empty t).
Qed.

Lemma write_scan_upper ts : is_ok (write_scan (up <$> ts)) = is_ok (write_scan ts).
Proof.
  induction ts as [|t ts IH]; [done|]. cbn -[in_table]. rewrite is_empty_upper, up_up.
  destruct (is_empty t); [done|]. destruct (in_table WRITE_KEYWORDS (up t)); [done|exact IH].
Qed.

Lemma classify_upper k : is_ok (classify (up k)) = is_ok (classify k).
Proof.
  unfold classify. rewrite trim_upper, is_empty_upper, second_statement_upper.
  rewrite first_token_upper, up_up, tokens_upper.
  destruct (is_empty (trim k)); [done|]. destruct (second_statement (trim k)); [done|].
  destruct (in_table READ_ONLY_LEADERS (up (first_token (trim k)))); [|done].
  apply write_scan_upper.
Qed.

(** ** Helper lemmas: what acceptance means *)

Definition is_read_leader (w : bytes) : Prop := unchars (up w) ∈ READ_ONLY_LEADERS.
Definition is_write_word (w : bytes) : Prop := unchars (up w) ∈ WRITE_KEYWORDS.

Lemma in_table_spec tbl l : in_table tbl l = true <-> unchars l ∈ tbl.
Proof.
  unfold in_table. rewrite existsb_exists. split.
  - intros (x & Hx & ->%String.eqb_eq). by apply list_elem_of_In.
  - intros Hx. exists (unchars l). rewrite String.eqb_refl. by rewrite <- list_elem_of_In.
Qed.

Lemma write_scan_ok ts :
  write_scan ts = Ok tt <-> forall w, w ∈ ts -> w <> [] -> ~ is_write_word w.
Proof.
  induction ts as [|t ts IH]; cbn -[in_table].
  - split; [intros _ w Hw; by apply not_elem_of_nil in Hw|done].
  - destruct t as [|c t]; cbn [is_empty].
    + rewrite IH. split; intros H w Hw Hne; apply H; try done.
      * by apply elem_of_cons in Hw as [->|].
      * by right.
    + destruct (in_table WRITE_KEYWORDS (up (c :: t))) eqn:E.
      * apply in_table_spec in E. split; [done|]. intros H. exfalso.
        apply (H (c :: t)); [left|done|exact E].
      * assert (~ is_write_word (c :: t)).
        { unfold is_write_word. rewrite <- in_table_spec. by rewrite E. }
        rewrite IH. split; intros Hall w Hw Hne; [|apply Hall; [by right|done]].
        apply elem_of_cons in Hw as [->|Hw]; [done|by apply Hall].
Qed.

Lemma trim_start_nil l : trim_start l = [] <-> Forall (fun c => is_whitespace c = true) l.
Proof.
  induction l as [|c l IH]; cbn; [done|]. rewrite Forall_cons.
  destruct (is_whitespace c); [rewrite IH; tauto|]. split; [done|by intros [? _]].
Qed.

Lemma trim_start_split l :
  exists ws, l = ws ++ trim_start l /\ Forall (fun c => is_whitespace c = true) ws.
Proof.
  induction l as [|c l (ws & Hl & Hws)]; cbn; [by exists []|].
  destruct (is_whitespace c) eqn:E; [|by exists []].
  exists (c :: ws). rewrite Forall_cons. cbn. by rewrite <- Hl.
Qed.

Lemma trim_nil l : trim l = [] <-> Forall (fun c => is_whitespace c = true) l.
Proof.
  unfold trim. rewrite <- (reverse_nil (A:=ascii)), (inj_iff reverse).
  rewrite trim_start_nil, Forall_reverse.
  destruct (trim_start_split l) as (ws & Hl & Hws). split; intros H.
  - rewrite Hl. by apply Forall_app.
  - rewrite Hl in H. by apply Forall_app in H as [_ H].
Qed.

Lemma find_char_spec x l :
  match find_char x l with
  | Some i => exists a b, (l = a ++ x :: b) /\ (x ∉ a) /\ length a = i
  | None => x ∉ l
  end.
Proof.
  induction l as [|c l IH]; cbn; [apply not_elem_of_nil|].
  destruct (Ascii.eqb_spec c x) as [->|Hne].
  - exists [], l. repeat split. apply not_elem_of_nil.
  - destruct (find_char x l) as [i|]; cbn.
    + destruct IH as (a & b & -> & Ha & <-). exists (c :: a), b.
      repeat split. rewrite not_elem_of_cons. by split; [congruence|].
    + rewrite not_elem_of_cons. by split; [congruence|].
Qed.

Lemma second_statement_false t :
  second_statement t = false <->
  forall a b, t = a ++ ";"%char :: b -> Forall (fun c => is_whitespace c = true) b.
Proof.
  unfold second_statement. pose proof (find_char_spec ";" t) as Hf.
  destruct (find_char ";" t) as [i|].
  - destruct Hf as (a & b & Ht & Ha & Hi).
    assert (Hd : drop (i + 1) t = b).
    { rewrite Ht. subst i. rewrite drop_app_ge by lia.
      by replace (length a + 1 - length a)%nat with 1%nat by lia. }
    rewrite Hd. split.
    + intros Hn a' b' Ht'. rewrite negb_false_iff in Hn.
      assert (Hw : Forall (fun c => is_whitespace c = true) b).
      { apply trim_nil. by destruct (trim b). }
      rewrite Ht in Ht'. clear - Ha Hw Ht'. revert a' Ht'.
      induction a as [|c a IH]; intros [|c' a'] Ht'; simplify_eq/=; [done| | |].
      * rewrite Forall_app in Hw. by destruct Hw as [_ [_ ?]%Forall_cons].
      * set_solver.
      * eapply IH; [set_solver|done].
    + intros H. specialize (H a b Ht). apply trim_nil in H. by rewrite H.
  - split; [|done]. intros _ a b ->. set_solver.
Qed.

Lemma write_scan_err ts e :
  write_scan ts = Err e -> exists w, w ∈ ts /\ is_write_word w /\ e = err_write (up w).
Proof.
  induction ts as [|w ts IH]; cbn -[in_table]; [done|]. intros H.
  assert (Hr : write_scan ts = Err e ->
    exists w', w' ∈ w :: ts /\ is_write_word w' /\ e = err_write (up w')).
  { intros (w' & ? & ?)%IH. exists w'. split; [by right|done]. }
  destruct (is_empty w); [by apply Hr|].
  destruct (in_table WRITE_KEYWORDS (up w)) eqn:Ew; [|by apply Hr].
  injection H as <-. exists w. apply in_table_spec in Ew. split; [by left|done].
Qed.

Lemma is_empty_true {A} (l : list A) : is_empty l = true <-> l = [].
Proof. by destruct l. Qed.

(** ** Properties *)

(** C16. The index loops of [sql_skeleton] terminate within one turn per byte
    and compute the reference scan: for every statement and every fuel above
    its length the loop returns, and returns the state machine's skeleton. *)
Theorem skeleton_is_lex s fuel :
  (length s < fuel)%nat -> skeleton_loop s fuel 0 [] = Some (lex InCode s).
Proof. intros H. rewrite skeleton_loop_spec by lia. by rewrite drop_0. Qed.

Lemma skeleton_is_lex_witness :
  skeleton_loop (chars "a--b") 5 0 [] = Some (lex InCode (chars "a--b"))
  /\ lex InCode (chars "a--b") = ["a"%char].
Proof. split; [apply skeleton_is_lex; cbn; lia|reflexivity]. Defined.

(** C3. A statement is accepted exactly when, on its trimmed skeleton, only
    whitespace follows any semicolon, the first word is one of the read
    leaders, and no word is a write keyword. *)
Theorem accepted_iff st :
  let t := trim (lex InCode (chars st)) in
  enforce_read_only st = Ok tt <->
  (forall a b, t = a ++ ";"%char :: b -> Forall (fun c => is_whitespace c = true) b)
  /\ is_read_leader (first_token t)
  /\ forall w, w ∈ tokens t -> w <> [] -> ~ is_write_word w.
Proof.
  intros t. rewrite enforce_classify, <- write_scan_ok, <- second_statement_false.
  unfold classify, is_read_leader. fold t.
  rewrite <- in_table_spec.
  destruct (is_empty t) eqn:Et.
  - apply is_empty_true in Et. rewrite Et. split; [done|]. intros (_ & H & _). discriminate H.
  - destruct (second_statement t); [split; [done|by intros [? _]]|].
    destruct (in_table READ_ONLY_LEADERS (up (first_token t))); cbn [negb].
    + split; [by intros ->|by intros (_ & _ & ?)].
    + split; [done|by intros (_ & ? & _)].
Qed.

(** Quoted text never decides: in a statement whose prefix ends in code,
    replacing the text of a literal (escaped by doubling its quote) leaves
    the verdict, message included, unchanged. *)
Theorem quoted_text_is_inert pre q t1 t2 post :
  ends_in_code InCode pre = true -> is_quote q = true -> head post <> Some q ->
  enforce_read_only (unchars (pre ++ q :: escape q t1 ++ q :: post))
  = enforce_read_only (unchars (pre ++ q :: escape q t2 ++ q :: post)).
Proof.
  intros Hpre Hq Hp. by rewrite !enforce_classify, !chars_unchars, !lex_quoted_text.
Qed.

Lemma quoted_text_is_inert_witness :
  enforce_read_only "SELECT * FROM t WHERE n = 'DROP TABLE it''s'"
  = enforce_read_only "SELECT * FROM t WHERE n = 'x'".
Proof.
  apply (quoted_text_is_inert (chars "SELECT * FROM t WHERE n = ") "'"
           (chars "DROP TABLE it's") (chars "x") []); [reflexivity|reflexivity|discriminate].
Defined.

(** The guard does not depend on letter case: a statement is accepted
    exactly when its upper-cased form is. *)
Theorem case_insensitive st :
  is_ok (enforce_read_only (unchars (up (chars st)))) = is_ok (enforce_read_only st).
Proof.
  rewrite !enforce_classify, chars_unchars, lex_upper by done. apply classify_upper.
Qed.

(** Every refusal names its cause: the four messages are given on exactly
    the four conditions, tested in the code's order. *)
Theorem refusal_causes st e :
  enforce_read_only st = Err e ->
  let t := trim (lex InCode (chars st)) in
  (t = [] /\ e = err_empty)
  \/ (t <> [] /\ second_statement t = true /\ e = err_multiple)
  \/ (second_statement t = false /\ ~ is_read_leader (first_token t) /\ e = err_leader (first_token t))
  \/ exists w, w ∈ tokens t /\ is_write_word w /\ is_read_leader (first_token t)
               /\ e = err_write (up w).
Proof.
  intros H t. rewrite enforce_classify in H. unfold classify in H. fold t in H.
  destruct (is_empty t) eqn:Et; [left; apply is_empty_true in Et; by simplify_eq|].
  destruct (second_statement t) eqn:Es.
  { right; left. split; [intros E; by rewrite E in Et|by simplify_eq]. }
  right; right. unfold is_read_leader. rewrite <- in_table_spec.
  destruct (in_table READ_ONLY_LEADERS (up (first_token t))) eqn:El; cbn [negb] in H;
    [right|left; injection H as <-; split_and!; [done|by intros ?|done]].
  apply write_scan_err in H as (w & Hw & Hk & ->). apply in_table_spec in El. eauto 6.
Qed.

Lemma refusal_causes_witness :
  let t := trim (lex InCode (chars "DELETE")) in
  let e := err_leader (chars "DELETE") in
  enforce_read_only "DELETE" = Err e
  /\ ((t = [] /\ e = err_empty)
      \/ (t <> [] /\ second_statement t = true /\ e = err_multiple)
      \/ (second_statement t = false /\ ~ is_read_leader (first_token t)
          /\ e = err_leader (first_token t))
      \/ exists w, w ∈ tokens t /\ is_write_word w /\ is_read_leader (first_token t)
                   /\ e = err_write (up w)).
Proof. split; [reflexivity|exact (refusal_causes "DELETE" _ eq_refl)]. Defined.
