(* ===== verification/Json.v ===== *)
(** * JSON values: the interface of serde_json the sources rely on

    serde_json is not part of the sources, so its [Value] is a type given by a
    class: constructors, accessors, and the text form. [JsonLaws] states the
    documented behaviour the theorems use. [Tree] is a small concrete model of
    the class for the witnesses; nothing else depends on it. *)

From Stdlib Require Import Ascii String.
From S2P Require Import Prelude.

(** ** The interface *)

Class Json (jv : Type) := {
  j_null : jv;
  j_bool : bool -> jv;
  j_u64 : Z -> jv;
  j_i64 : Z -> jv;
  j_str : string -> jv;
  j_arr : list jv -> jv;
  j_obj : gmap string jv -> jv;
  (** [Value::is_null], [as_bool], [as_u64], [as_i64], [as_str], [as_array],
      [as_object]. *)
  j_is_null : jv -> bool;
  j_as_bool : jv -> option bool;
  j_as_u64 : jv -> option Z;
  j_as_i64 : jv -> option Z;
  j_as_str : jv -> option string;
  j_as_arr : jv -> option (list jv);
  j_as_obj : jv -> option (gmap string jv);
  (** [serde_json::to_string] and [serde_json::from_str::<Value>]. *)
  j_print : jv -> string;
  j_parse : string -> result jv string;
}.

Class JsonLaws (jv : Type) `{J : Json jv} := {
  j_is_null_null : j_is_null j_null = true;
  j_is_null_obj m : j_is_null (j_obj m) = false;
  j_is_null_str s : j_is_null (j_str s) = false;
  j_is_null_bool b : j_is_null (j_bool b) = false;
  j_as_bool_bool b : j_as_bool (j_bool b) = Some b;
  j_as_u64_u64 n : 0 <= n <= u64_max -> j_as_u64 (j_u64 n) = Some n;
  j_as_i64_i64 n : i64_min <= n <= i64_max -> j_as_i64 (j_i64 n) = Some n;
  j_as_u64_str s : j_as_u64 (j_str s) = None;
  j_as_str_str s : j_as_str (j_str s) = Some s;
  j_as_str_obj m : j_as_str (j_obj m) = None;
  j_as_arr_arr l : j_as_arr (j_arr l) = Some l;
  j_as_arr_obj m : j_as_arr (j_obj m) = None;
  j_as_obj_obj m : j_as_obj (j_obj m) = Some m;
  j_as_obj_null : j_as_obj j_null = None;
  j_as_obj_str s : j_as_obj (j_str s) = None;
  j_parse_print v : j_parse (j_print v) = Ok v;
  (** The empty text is no value. *)
  j_parse_empty : is_ok (j_parse "") = false;
}.

Section Accessors.
Context `{J : Json jv}.

(** [Value::get] with a string index. *)
Definition j_get (v : jv) (k : string) : option jv :=
  match j_as_obj v with Some m => m !! k | None => None end.

(** A [BTreeMap<String, String>] or [HashMap<String, String>] as a value. *)
Definition j_strmap (m : gmap string string) : jv := j_obj (j_str <$> m).

(** Reading one back: every value a string, or nothing. *)
Definition j_as_strmap (v : jv) : option (gmap string string) :=
  match j_as_obj v with
  | Some m =>
      if decide (map_Forall (fun _ x => is_Some (j_as_str x)) m)
      then Some (omap j_as_str m) else None
  | None => None
  end.
(** The fields of a derived [Deserialize] struct: an object's by name, or an
    array's in order, absent ones [None]. *)
Definition struct_fields (names : list string) (v : jv) : option (list (option jv)) :=
  match j_as_obj v with
  | Some m => Some ((fun n => m !! n) <$> names)
  | None =>
      match j_as_arr v with
      | Some l =>
          if (length l <=? length names)%nat
          then Some (take (length names) ((Some <$> l) ++ replicate (length names) None))
          else None
      | None => None
      end
  end.

(** A required string or [u64], and an [Option<String>] with a default. *)
Definition field_str (f : option jv) : option string := f ≫= j_as_str.
Definition field_u64 (f : option jv) : option Z := f ≫= j_as_u64.
Definition field_i64 (f : option jv) : option Z := f ≫= j_as_i64.
Definition field_opt_str (f : option jv) : option (option string) :=
  match f with
  | None => Some None
  | Some v => if j_is_null v then Some None else Some <$> j_as_str v
  end.

(** A [Vec<u8>]: an array of numbers below 256. *)
Definition field_bytes (f : option jv) : option (list Z) :=
  match f ≫= j_as_arr with
  | Some l =>
      mapM (fun v => match j_as_u64 v with
                     | Some n => if n <=? 255 then Some n else None
                     | None => None
                     end) l
  | None => None
  end.

(** [serde_json] of an [Option<&str>] and of bytes. *)
Definition j_opt_str (o : option string) : jv :=
  match o with Some s => j_str s | None => j_null end.
Definition j_bytes (l : list Z) : jv := j_arr (j_u64 <$> l).
End Accessors.

Section AccessorLemmas.
Context `{JL : JsonLaws jv}.

Lemma j_get_obj m k : j_get (j_obj m) k = m !! k.
Proof. unfold j_get. by rewrite j_as_obj_obj. Qed.

Lemma j_print_nonempty v : j_print v <> ""%string.
Proof.
  intros E. pose proof (j_parse_print v) as H. rewrite E in H.
  pose proof (j_parse_empty (J := J)) as He. by rewrite H in He.
Qed.

Lemma j_as_strmap_strmap m : j_as_strmap (j_strmap m) = Some m.
Proof.
  unfold j_as_strmap, j_strmap. rewrite j_as_obj_obj. rewrite decide_True.
  - f_equal. apply map_eq. intros k. rewrite lookup_omap, lookup_fmap.
    destruct (m !! k); simpl; [apply j_as_str_str|done].
  - intros k x. rewrite lookup_fmap. intros (s & _ & ->)%fmap_Some.
    rewrite j_as_str_str. by eexists.
Qed.

Lemma struct_fields_obj names m : struct_fields names (j_obj m) = Some ((fun n => m !! n) <$> names).
Proof. unfold struct_fields. by rewrite j_as_obj_obj. Qed.

Lemma struct_fields_2 k1 k2 a b :
  k1 <> k2 -> struct_fields [k1; k2] (j_obj {[k1 := a; k2 := b]}) = Some [Some a; Some b].
Proof.
  intros H. rewrite struct_fields_obj. cbn [fmap list_fmap].
  by rewrite lookup_insert_eq, lookup_insert_ne, lookup_singleton_eq by done.
Qed.

Lemma struct_fields_3 k1 k2 k3 a b c :
  k1 <> k2 -> k1 <> k3 -> k2 <> k3 ->
  struct_fields [k1; k2; k3] (j_obj {[k1 := a; k2 := b; k3 := c]}) = Some [Some a; Some b; Some c].
Proof.
  intros H1 H2 H3. rewrite struct_fields_obj. cbn [fmap list_fmap].
  rewrite lookup_insert_eq, lookup_insert_ne, lookup_insert_eq by done.
  by rewrite !lookup_insert_ne, lookup_singleton_eq by done.
Qed.

Lemma field_opt_str_opt o : field_opt_str (Some (j_opt_str o)) = Some o.
Proof.
  unfold field_opt_str. destruct o; simpl; [|by rewrite j_is_null_null].
  by rewrite j_is_null_str, j_as_str_str.
Qed.

Lemma field_bytes_bytes l :
  Forall (fun n => 0 <= n <= 255) l -> field_bytes (Some (j_bytes l)) = Some l.
Proof.
  intros Hl. unfold field_bytes, j_bytes. simpl. rewrite j_as_arr_arr.
  apply mapM_Some. induction Hl as [|n l Hn _ IH]; constructor; [|done].
  rewrite j_as_u64_u64 by (unfold u64_max; lia). by rewrite (proj2 (Z.leb_le _ _)) by lia.
Qed.
End AccessorLemmas.

(** ** A concrete instance, for the witnesses *)

Module Tree.
#[warnings="-register-all"]
Inductive jtree :=
| TNull
| TBool (b : bool)
| TNum (z : Z)
| TStr (s : string)
| TArr (l : list jtree)
| TObj (m : list (string * jtree)).

(** Trees as stdpp's generic trees, hence as numbers. *)
Fixpoint enc (t : jtree) : gen_tree (string + Z) :=
  match t with
  | TNull => GenNode 0 []
  | TBool b => GenNode (if b then 1 else 2)%nat []
  | TNum z => GenLeaf (inr z)
  | TStr s => GenLeaf (inl s)
  | TArr l => GenNode 3 (enc <$> l)
  | TObj m => GenNode 4 ((fun kv => GenNode 5 [GenLeaf (inl kv.1); enc kv.2]) <$> m)
  end.

Fixpoint dec (g : gen_tree (string + Z)) : jtree :=
  match g with
  | GenLeaf (inl s) => TStr s
  | GenLeaf (inr z) => TNum z
  | GenNode 1 _ => TBool true
  | GenNode 2 _ => TBool false
  | GenNode 3 l => TArr (dec <$> l)
  | GenNode 4 l =>
      TObj ((fun g => match g with
                      | GenNode _ [GenLeaf (inl k); v] => (k, dec v)
                      | _ => (""%string, TNull)
                      end) <$> l)
  | GenNode _ _ => TNull
  end.

Lemma dec_enc : forall t, dec (enc t) = t.
Proof.
  fix IH 1. intros [|[]|z|s|l|m]; simpl; try done; f_equal.
  - induction l as [|t l IHl]; [done|]. cbn. f_equal; [apply IH|apply IHl].
  - induction m as [|[k t] m IHm]; [done|]. cbn. f_equal; [by rewrite IH|apply IHm].
Qed.


Fixpoint bits (p : positive) : string :=
  match p with
  | xH => "."%string
  | xO p => String "0" (bits p)
  | xI p => String "1" (bits p)
  end.

Fixpoint unbits (s : string) : option positive :=
  match s with
  | String c s =>
      if (c =? "0")%char then xO <$> unbits s
      else if (c =? "1")%char then xI <$> unbits s
      else Some xH
  | EmptyString => None
  end.

Lemma unbits_bits p : unbits (bits p) = Some p.
Proof. induction p as [p IH|p IH|]; simpl; by rewrite ?IH. Qed.

Definition tree_print (t : jtree) : string := bits (encode (enc t)).
Definition tree_parse (s : string) : result jtree string :=
  match unbits s ≫= decode with
  | Some g => Ok (dec g)
  | None => Err "not a value"%string
  end.

#[export] Instance tree_json : Json jtree := {|
  j_null := TNull;
  j_bool := TBool;
  j_u64 := TNum;
  j_i64 := TNum;
  j_str := TStr;
  j_arr := TArr;
  j_obj m := TObj (map_to_list m);
  j_is_null t := match t with TNull => true | _ => false end;
  j_as_bool t := match t with TBool b => Some b | _ => None end;
  j_as_u64 t := match t with
                | TNum z => if (0 <=? z) && (z <=? u64_max) then Some z else None
                | _ => None
                end;
  j_as_i64 t := match t with
                | TNum z => if (i64_min <=? z) && (z <=? i64_max) then Some z else None
                | _ => None
                end;
  j_as_str t := match t with TStr s => Some s | _ => None end;
  j_as_arr t := match t with TArr l => Some l | _ => None end;
  j_as_obj t := match t with TObj m => Some (list_to_map m) | _ => None end;
  j_print := tree_print;
  j_parse := tree_parse;
|}.

#[export] Instance tree_laws : JsonLaws jtree.
Proof.
  constructor; try done.
  - intros n Hn. simpl. by rewrite (proj2 (Z.leb_le _ _)), (proj2 (Z.leb_le _ _)) by apply Hn.
  - intros n Hn. simpl. by rewrite (proj2 (Z.leb_le _ _)), (proj2 (Z.leb_le _ _)) by apply Hn.
  - intros m. simpl. by rewrite list_to_map_to_list.
  - intros v. simpl. unfold tree_parse, tree_print. rewrite unbits_bits. simpl.
    by rewrite decode_encode, dec_enc.
Qed.
End Tree.

Create Rewrite HintDb json.
#[export] Hint Rewrite @j_get_obj @j_as_obj_obj @j_as_str_str @j_as_bool_bool @j_as_arr_arr
  @j_as_strmap_strmap @j_parse_print @j_is_null_obj @j_is_null_null : json.
