(* ===== verification/Ffi.v ===== *)
(** * The plugin boundary: calls that may panic, JSON in and out

    What the generated [extern "C"] wrappers of every plugin kind share
    (src/src/macros.rs) and what they use of mcpg_plugin_protocol: the
    [catch_panic_*] guards, serde's derived conversions, the result envelope
    and the ABI's stream handle. [Serialize] and [Deserialize] stand for the
    derives; the envelope and the error texts are parameters. *)

From Stdlib Require Import Ascii String.
From S2P Require Import Prelude Json.

(** ** Computations that may panic

    A plugin is a state; a method of its trait takes [&self] with interior
    mutability, so it is a function from state to state that returns or
    panics. *)

Inductive outcome (A : Type) := Returned (a : A) | Panicked.
Arguments Returned {A} a.
Arguments Panicked {A}.

Definition outcome_map {A C} (f : A -> C) (o : outcome A) : outcome C :=
  match o with Returned a => Returned (f a) | Panicked => Panicked end.

Definition comp (B A : Type) : Type := B -> B * outcome A.

Definition ret {B A} (a : A) : comp B A := fun b => (b, Returned a).
Definition panic {B A} : comp B A := fun b => (b, Panicked).
Definition bind {B A C} (m : comp B A) (f : A -> comp B C) : comp B C :=
  fun b => match m b with
           | (b, Returned a) => f a b
           | (b, Panicked) => (b, Panicked)
           end.
Notation "x <-- m ; k" := (bind m (fun x => k))
  (at level 100, m at next level, k at level 200, right associativity) : sdk_scope.

(** [catch_panic_to_empty_rstring], [catch_panic_silent], [catch_unwind]. *)
Definition catch_to_empty {B} (m : comp B string) (b : B) : B * string :=
  match m b with (b, Returned s) => (b, s) | (b, Panicked) => (b, ""%string) end.
Definition catch_silent {B} (m : comp B unit) (b : B) : B := (m b).1.
Definition catch_or {B A} (fallback : A) (m : comp B A) (b : B) : B * A :=
  match m b with (b, Returned a) => (b, a) | (b, Panicked) => (b, fallback) end.

(** What the caller of a guarded call reads: the encoding of the answer, or
    the fallback text of the guard. *)
Definition answered {B A W} (encode : A -> W) (fallback : W) (m : comp B A) (b : B) : B * W :=
  let '(b, o) := m b in
  (b, match o with Returned a => encode a | Panicked => fallback end).

Lemma catch_or_answered {B A W} (encode : A -> W) fallback (m : comp B A) b :
  catch_or fallback (a <-- m; ret (encode a)) b = answered encode fallback m b.
Proof. unfold catch_or, answered, bind, ret. by destruct (m b) as [b' []]. Qed.

Lemma catch_to_empty_answered {B A} (encode : A -> string) (m : comp B A) b :
  catch_to_empty (a <-- m; ret (encode a)) b = answered encode ""%string m b.
Proof. apply catch_or_answered. Qed.

Lemma bind_ret {B A C} (a : A) (f : A -> comp B C) : (x <-- ret a; f x) = f a.
Proof. done. Qed.

(** Case analysis on the one method a guarded call makes. *)
Ltac run_method :=
  match goal with
  | |- context [match ?m with (_, _) => _ end] =>
      lazymatch m with context [match _ with (_, _) => _ end] => fail | _ => destruct m as [? []] end
  end.

(** ** The ABI's stream handle: 0 says the stream did not start *)

Record StreamHandle := { sh_handle : Z; sh_error_json : string; sh_metadata_json : string }.

(** ** serde *)

Class Serialize (jv A : Type) := to_value : A -> jv.
Class Deserialize (jv A : Type) := from_value : jv -> option A.
#[export] Hint Mode Serialize ! ! : typeclass_instances.
#[export] Hint Mode Deserialize ! ! : typeclass_instances.

(** A type whose derives are inverse to each other. *)
Class SerdeRoundtrip (jv A : Type) `{Serialize jv A} `{Deserialize jv A} :=
  from_to_value (a : A) : from_value (to_value a : jv) = Some a.

Section Serde.
Context {jv : Type} `{J : Json jv}.

#[export] Instance value_serialize : Serialize jv jv := fun v => v.
#[export] Instance value_deserialize : Deserialize jv jv := Some.
#[export] Instance unit_serialize : Serialize jv unit := fun _ => j_null.
#[export] Instance bool_serialize : Serialize jv bool := j_bool.
#[export] Instance string_serialize : Serialize jv string := j_str.
#[export] Instance string_deserialize : Deserialize jv string := j_as_str.
#[export] Instance option_serialize {A} `{!Serialize jv A} : Serialize jv (option A) :=
  fun o => match o with Some a => to_value a | None => j_null end.
#[export] Instance list_serialize {A} `{!Serialize jv A} : Serialize jv (list A) :=
  fun l => j_arr (to_value <$> l).
#[export] Instance list_deserialize {A} `{!Deserialize jv A} : Deserialize jv (list A) :=
  fun v => match j_as_arr v with Some l => mapM from_value l | None => None end.

(** [serde_json::to_string], for types whose serialisation does not fail. *)
Definition to_string {A} `{!Serialize jv A} (a : A) : string := j_print (to_value a).

(** A field of a derived struct that must be there. *)
Definition field {A} `{!Deserialize jv A} (f : option jv) : option A := f ≫= from_value.
(** An [Option] field: absent or null is [None]. *)
Definition field_opt {A} `{!Deserialize jv A} (f : option jv) : option (option A) :=
  match f with
  | None => Some None
  | Some v => if j_is_null v then Some None else Some <$> from_value v
  end.
End Serde.

(** ** The result envelope of mcpg_plugin_protocol *)

Class Envelope (jv : Type) := {
  (** [respond_result_rstring] on serialised values. *)
  respond_value : result jv jv -> string;
  (** [decode_result_envelope] up to the types inside: the serialised
      payload, or serde's message. *)
  decode_envelope : string -> result (result jv jv) string;
  (** serde's message for a text that is not of the type asked for. *)
  serde_message : string -> string;
}.

Class EnvelopeLaws (jv : Type) `{Json jv} `{Envelope jv} := {
  decode_respond r : decode_envelope (respond_value r) = Ok r;
  decode_unparsable s : is_ok (j_parse s) = false -> is_ok (decode_envelope s) = false;
  envelope_ok v : respond_value (Ok v) = j_print (j_obj {["ok"%string := v]});
  envelope_err e : respond_value (Err e) = j_print (j_obj {["err"%string := e]});
}.

Section Wrappers.
Context {jv : Type} `{J : Json jv} `{E : Envelope jv} {P : Type}.

(** [serde_json::from_str]. *)
Definition from_str {A} (of_value : jv -> option A) (s : string) : result A string :=
  match j_parse s with
  | Ok v => match of_value v with Some a => Ok a | None => Err (serde_message s) end
  | Err _ => Err (serde_message s)
  end.

(** [from_str(..).unwrap_or(d)]. *)
Definition from_str_or {A} (of_value : jv -> option A) (d : A) (s : string) : A :=
  match from_str of_value s with Ok a => a | Err _ => d end.

(** [respond_result_rstring], [respond_ok_rstring], [respond_err_rstring]. *)
Definition respond_result {A R} `{!Serialize jv A} `{!Serialize jv R} (r : result A R) : string :=
  respond_value (match r with Ok a => Ok (to_value a) | Err e => Err (to_value e) end).
Definition respond_ok {A} `{!Serialize jv A} (a : A) : string := respond_value (Ok (to_value a)).
Definition respond_error {R} `{!Serialize jv R} (e : R) : string := respond_value (Err (to_value e)).

(** [serde_json::to_string] of a [Result]: serde's own tags. *)
Definition result_text {A R} `{!Serialize jv A} `{!Serialize jv R} (r : result A R) : string :=
  j_print (match r with
           | Ok a => j_obj {["Ok"%string := to_value a]}
           | Err e => j_obj {["Err"%string := to_value e]}
           end).

(** The slots that print what a method answers, bare or in the envelope. *)
Definition bare_slot {A} `{!Serialize jv A} (m : comp P A) : P -> P * string :=
  catch_to_empty (a <-- m; ret (to_string a)).
Definition text_slot (m : comp P string) : P -> P * string := catch_to_empty m.
Definition envelope_slot {A R} `{!Serialize jv A} `{!Serialize jv R} (m : comp P (result A R))
    : P -> P * string :=
  catch_to_empty (r <-- m; ret (respond_result r)).

(** A slot whose arguments are one JSON text: what it answers when the text is
    no [Args], and what it calls otherwise. *)
Definition args_slot {A} (of_value : jv -> option A) (bad : string -> string)
    (call : A -> comp P string) (args_json : string) : P -> P * string :=
  catch_to_empty (match from_str of_value args_json with
                  | Ok a => call a
                  | Err e => ret (bad e)
                  end).

(** A handle that reports a failure, and the handle of a started stream. *)
Definition failed_stream {R} `{!Serialize jv R} (e : R) : StreamHandle :=
  {| sh_handle := 0; sh_error_json := to_string e; sh_metadata_json := "" |}.
Definition started (h : Z) : StreamHandle :=
  {| sh_handle := h; sh_error_json := ""; sh_metadata_json := "" |}.
Definition stream_handle_of {R} `{!Serialize jv R} (r : result Z R) : StreamHandle :=
  match r with Ok h => started h | Err e => failed_stream e end.
End Wrappers.

(** ** Reading back what was printed *)

Section Readback.
Context {jv : Type} `{JL : JsonLaws jv} `{E : Envelope jv} {P : Type}.

Lemma from_str_print {A} (of_value : jv -> option A) v a :
  of_value v = Some a -> from_str of_value (j_print v) = Ok a.
Proof. intros H. unfold from_str. by rewrite j_parse_print, H. Qed.

Lemma from_str_or_print {A} (of_value : jv -> option A) d v a :
  of_value v = Some a -> from_str_or of_value d (j_print v) = a.
Proof. intros H. unfold from_str_or. by rewrite (from_str_print _ _ a). Qed.

Lemma args_slot_print {A} (of_value : jv -> option A) bad (call : A -> comp P string) v a p :
  of_value v = Some a ->
  args_slot of_value bad call (j_print v) p = catch_to_empty (call a) p.
Proof. intros H. unfold args_slot. by rewrite (from_str_print _ _ a). Qed.

Lemma args_slot_bad {A} (of_value : jv -> option A) bad (call : A -> comp P string) s e p :
  from_str of_value s = Err e -> args_slot of_value bad call s p = (p, bad e).
Proof. intros H. unfold args_slot. by rewrite H. Qed.

Lemma args_slot_cases {A} (of_value : jv -> option A) bad (call : A -> comp P string) s p :
  (exists a t, from_str of_value s = Ok a /\ (call a p).2 = Returned t
      /\ args_slot of_value bad call s p = ((call a p).1, t))
  \/ (exists e, from_str of_value s = Err e /\ args_slot of_value bad call s p = (p, bad e))
  \/ (args_slot of_value bad call s p).2 = ""%string.
Proof.
  unfold args_slot, catch_to_empty. destruct (from_str of_value s) as [a|e].
  - destruct (call a p) as [p' [t|]] eqn:Hc.
    + left. exists a, t. by rewrite Hc.
    + by right; right.
  - right. left. by exists e.
Qed.

Lemma from_str_empty {A} (of_value : jv -> option A) : from_str of_value "" = Err (serde_message "").
Proof.
  unfold from_str. pose proof (j_parse_empty (J := J)) as He. by destruct (j_parse "").
Qed.

Lemma decode_empty `{!EnvelopeLaws jv} r : decode_envelope "" <> Ok r.
Proof.
  intros H. pose proof (decode_unparsable "" (j_parse_empty (J := J))) as H'. by rewrite H in H'.
Qed.

Lemma field_roundtrip {A} `{SerdeRoundtrip jv A} (a : A) : field (Some (to_value a : jv)) = Some a.
Proof. apply from_to_value. Qed.

Lemma field_value (v : jv) : field (Some v) = Some v.
Proof. done. Qed.

Lemma field_string (s : string) : field (jv := jv) (Some (j_str s)) = Some s.
Proof. apply j_as_str_str. Qed.

Lemma field_u64_print n : 0 <= n <= u64_max -> field_u64 (Some (j_u64 n)) = Some n.
Proof. apply j_as_u64_u64. Qed.
Lemma field_i64_print n : i64_min <= n <= i64_max -> field_i64 (Some (j_i64 n)) = Some n.
Proof. apply j_as_i64_i64. Qed.

Lemma j_obj_inj m1 m2 : j_obj m1 = j_obj m2 -> m1 = m2.
Proof. intros H. apply (f_equal j_as_obj) in H. rewrite !j_as_obj_obj in H. by simplify_eq. Qed.

Lemma list_roundtrip {A} `{SerdeRoundtrip jv A} (l : list A) :
  from_value (A := list A) (to_value l : jv) = Some l.
Proof.
  unfold from_value, list_deserialize, to_value, list_serialize. rewrite j_as_arr_arr.
  apply mapM_Some. induction l as [|a l IH]; constructor; [|done]. apply from_to_value.
Qed.
End Readback.

(** The fields of an object written out. *)
Ltac read_struct :=
  rewrite struct_fields_obj; cbn [fmap list_fmap];
  repeat (rewrite lookup_insert_eq || (rewrite lookup_insert_ne by done) || rewrite lookup_singleton_eq
          || (rewrite lookup_singleton_ne by done)).

Tactic Notation "slot_cases" hyp(H) "as" simple_intropattern(pat) :=
  match type of H with
  | context [args_slot ?o ?b ?c ?s ?p] => destruct (args_slot_cases o b c s p) as pat
  end.

(** Reading back the texts of a goal. *)
Ltac read_json :=
  autorewrite with json;
  try lazymatch goal with |- JsonLaws _ => exact _ end.

(** ** Sessions

    A host talks to a plugin in a sequence of calls. If every single call over
    the wire does what the call in process does, so does every sequence. *)

Section Sessions.
Context {P Op A W : Type}.

Fixpoint session {R} (step : Op -> P -> P * R) (ops : list Op) (p : P) : P * list R :=
  match ops with
  | [] => (p, [])
  | o :: ops =>
      let '(p, r) := step o p in
      let '(p, rs) := session step ops p in
      (p, r :: rs)
  end.

Lemma session_agree (direct : Op -> P -> P * A) (wire : Op -> P -> P * W) (encode : Op -> A -> W) ops p :
  Forall (fun o => forall p, wire o p = ((direct o p).1, encode o (direct o p).2)) ops ->
  session wire ops p =
    ((session direct ops p).1, zip_with encode ops (session direct ops p).2).
Proof.
  intros H. revert p. induction H as [|o ops Ho _ IH]; intros p; [done|]. cbn [session].
  rewrite Ho. destruct (direct o p) as [p' a]. simpl. rewrite IH.
  by destruct (session direct ops p') as [p'' l].
Qed.

(** Two ways to make the calls that agree on each. *)
Lemma session_ext (f g : Op -> P -> P * A) ops p :
  Forall (fun o => forall p, f o p = g o p) ops -> session f ops p = session g ops p.
Proof.
  intros H. revert p. induction H as [|o ops Ho _ IH]; intros p; [done|]. cbn [session].
  rewrite Ho. destruct (g o p) as [q a]. by rewrite IH.
Qed.

(** An encoding that does not depend on the call. *)
Lemma session_agree_map (direct : Op -> P -> P * A) (wire : Op -> P -> P * W) (encode : A -> W) ops p :
  (forall o p, wire o p = ((direct o p).1, encode (direct o p).2)) ->
  session wire ops p = ((session direct ops p).1, encode <$> (session direct ops p).2).
Proof.
  intros H. revert p. induction ops as [|o ops IH]; intros p; [done|]. cbn [session].
  rewrite H. destruct (direct o p) as [p' a]. simpl. rewrite IH.
  by destruct (session direct ops p') as [p'' l].
Qed.
End Sessions.

(** ** A concrete envelope, for the witnesses *)

Module Wire.
Import Tree.

#[export] Instance tree_envelope : Envelope jtree := {|
  respond_value r := match r with
                     | Ok v => j_print (j_obj {["ok"%string := v]})
                     | Err e => j_print (j_obj {["err"%string := e]})
                     end;
  decode_envelope s :=
    match j_parse s with
    | Ok v => match j_get v "ok" with
              | Some a => Ok (Ok a)
              | None => match j_get v "err" with Some e => Ok (Err e) | None => Err "no envelope"%string end
              end
    | Err e => Err e
    end;
  serde_message _ := "malformed"%string;
|}.

#[export] Instance tree_envelope_laws : EnvelopeLaws jtree.
Proof.
  constructor; [| |done|done].
  2: { intros s H. simpl. simpl in H. by destruct (tree_parse s). }
  intros [v|e]; cbn -[j_print j_parse j_get j_obj];
    rewrite j_parse_print, !j_get_obj.
  - by rewrite lookup_singleton_eq.
  - by rewrite lookup_singleton_ne, lookup_singleton_eq.
Qed.

#[export] Instance unit_deserialize : Deserialize jtree unit := fun _ => Some tt.
#[export] Instance unit_roundtrip : SerdeRoundtrip jtree unit.
Proof. by intros []. Qed.
#[export] Instance string_roundtrip : SerdeRoundtrip jtree string.
Proof. intros s. apply j_as_str_str. Qed.
End Wire.
