(* ===== verification/Config.v ===== *)
(** * Operator configuration (src/src/config.rs)

    Text is a list of Unicode scalar values; the deserialiser of the config
    type (serde_json::from_str) and its default are parameters. A panic is the
    [Err] of the result: it is what the factory's caller sees. *)

From Stdlib Require Import Ascii String.
From S2P Require Import Prelude.

Abbreviation text := (list Z).

Definition of_string (s : string) : text := (fun c => Z.of_nat (nat_of_ascii c)) <$> chars s.

(** [char::is_whitespace]: the Unicode White_Space property. *)
Definition is_white_space (c : Z) : bool :=
  ((9 <=? c) && (c <=? 13)) || (c =? 32) || (c =? 133) || (c =? 160) || (c =? 5760)
  || ((8192 <=? c) && (c <=? 8202)) || (c =? 8232) || (c =? 8233) || (c =? 8239)
  || (c =? 8287) || (c =? 12288).

Fixpoint utrim_start (l : text) : text :=
  match l with
  | c :: l' => if is_white_space c then utrim_start l' else l
  | [] => []
  end.

(** [str::trim]. *)
Definition utrim (l : text) : text := reverse (utrim_start (reverse (utrim_start l))).

Section Config.
Context {T E : Type}.
Variable type_default : T.
Variable from_str : text -> result T E.

Definition parse_config_or_fail_closed (config_json : text) : result T E :=
  let trimmed := utrim config_json in
  if bool_decide (trimmed = []) || bool_decide (trimmed = of_string "{}")
     || bool_decide (trimmed = of_string "null")
  then Ok type_default
  else match from_str trimmed with Ok v => Ok v | Err e => Err e end.

(** A block that opts out of configuration. *)
Definition absent (config_json : text) : Prop :=
  utrim config_json ∈ [[]; of_string "{}"; of_string "null"].

#[global] Instance absent_dec config_json : Decision (absent config_json).
Proof. unfold absent. apply _. Defined.

(** ** Lemmas *)

Lemma parse_absent c : absent c -> parse_config_or_fail_closed c = Ok type_default.
Proof.
  unfold absent, parse_config_or_fail_closed. rewrite !elem_of_cons, elem_of_nil.
  intros [->|[->|[->|[]]]]; done.
Qed.

Lemma parse_present c :
  ~ absent c -> parse_config_or_fail_closed c = from_str (utrim c).
Proof.
  unfold absent, parse_config_or_fail_closed. rewrite !elem_of_cons. intros H.
  rewrite !bool_decide_eq_false_2 by tauto. simpl. by destruct (from_str (utrim c)).
Qed.
End Config.

Lemma utrim_start_app ws l :
  Forall (fun c => is_white_space c = true) ws -> utrim_start (ws ++ l) = utrim_start l.
Proof. induction 1 as [|c ws Hc _ IH]; simpl; [done|]. by rewrite Hc. Qed.

Lemma utrim_start_app_r ws l :
  Forall (fun c => is_white_space c = true) ws ->
  utrim_start (l ++ ws) = [] \/ utrim_start (l ++ ws) = utrim_start l ++ ws.
Proof.
  intros Hws. induction l as [|c l IH]; simpl.
  - left. rewrite <- (app_nil_r ws). by rewrite utrim_start_app.
  - destruct (is_white_space c); [exact IH|by right].
Qed.

Lemma utrim_start_all l : utrim_start l = [] <-> Forall (fun c => is_white_space c = true) l.
Proof.
  induction l as [|c l IH]; simpl; [done|]. rewrite Forall_cons.
  destruct (is_white_space c); [tauto|]. split; [done|by intros [? _]].
Qed.

Lemma utrim_pad ws1 l ws2 :
  Forall (fun c => is_white_space c = true) ws1 ->
  Forall (fun c => is_white_space c = true) ws2 ->
  utrim (ws1 ++ l ++ ws2) = utrim l.
Proof.
  intros H1 H2. unfold utrim. rewrite utrim_start_app by done.
  destruct (utrim_start_app_r ws2 l H2) as [E|E]; rewrite E.
  - apply utrim_start_all, Forall_app in E as [E _]. apply utrim_start_all in E. by rewrite E.
  - rewrite reverse_app, utrim_start_app; [done|by apply Forall_reverse].
Qed.

(** ** Properties *)

(** Fail closed: the default configuration is used for an absent block
    only. Whatever else the block holds is what the deserialiser makes of the
    trimmed text, and its error is a panic, never a default. *)
Theorem fails_closed {T E} (d : T) (from_str : text -> result T E) c :
  (absent c -> parse_config_or_fail_closed d from_str c = Ok d)
  /\ (~ absent c -> forall e, from_str (utrim c) = Err e ->
      parse_config_or_fail_closed d from_str c = Err e)
  /\ (~ absent c -> forall v, parse_config_or_fail_closed d from_str c = Ok v <->
      from_str (utrim c) = Ok v).
Proof.
  split; [apply parse_absent|]. split; intros H; [intros e He|intros v];
    by rewrite (parse_present d from_str c H).
Qed.

Lemma fails_closed_witness :
  parse_config_or_fail_closed 0 (fun _ => Err tt) (of_string "{oops") = Err tt
  /\ parse_config_or_fail_closed 7 (fun _ => Err tt) (of_string " null ") = Ok 7.
Proof.
  split.
  - apply (proj1 (proj2 (fails_closed 0 (fun _ => Err tt) (of_string "{oops"))));
      [|reflexivity].
    apply (bool_decide_eq_false_1 (absent _)). vm_compute. reflexivity.
  - apply (proj1 (fails_closed 7 (fun _ => Err tt) (of_string " null "))).
    apply (bool_decide_eq_true_1 (absent _)). vm_compute. reflexivity.
Defined.

(** Surrounding white space, Unicode spaces included, never changes the
    outcome. *)
Theorem padding_ignored {T E} (d : T) (from_str : text -> result T E) ws1 c ws2 :
  Forall (fun x => is_white_space x = true) ws1 ->
  Forall (fun x => is_white_space x = true) ws2 ->
  parse_config_or_fail_closed d from_str (ws1 ++ c ++ ws2)
  = parse_config_or_fail_closed d from_str c.
Proof.
  intros H1 H2. unfold parse_config_or_fail_closed. by rewrite utrim_pad.
Qed.

Lemma padding_ignored_witness :
  parse_config_or_fail_closed 7 (fun _ => Err tt) ([12288] ++ of_string "null" ++ [10])
  = parse_config_or_fail_closed 7 (fun _ => Err tt) (of_string "null").
Proof. apply padding_ignored; repeat constructor. Defined.
