(* ===== verification/Watch.v ===== *)
(** * The polling watch (src/src/watch.rs)

    One turn of the watch thread is [tick]; [watch_thread] is the thread, with
    its reads of the stop flag numbered so that a cancellation at any moment is
    a choice of [stop]. [moves] is what a watch promises: one difference per
    change of state. *)

From Stdlib Require Import Ascii String.
From S2P Require Import Prelude Json.

(** ** Protocol data *)

(** [mcpg_plugin_protocol::backend::WatchEvent], the fields the sources set;
    the others keep their defaults. *)
Record WatchEvent (jv : Type) := {
  event_id : option string;
  event_type : option string;
  occurred_at : option string;
  ev_data : option jv;
  upstream_cursor : option jv;
  ev_gap : bool;
}.
Arguments event_id {jv} _.
Arguments event_type {jv} _.
Arguments occurred_at {jv} _.
Arguments ev_data {jv} _.
Arguments upstream_cursor {jv} _.
Arguments ev_gap {jv} _.

Definition default_event {jv} : WatchEvent jv :=
  {| event_id := None; event_type := None; occurred_at := None; ev_data := None;
     upstream_cursor := None; ev_gap := false |}.

(** [WatchError], the constructors the sources use. *)
Inductive WatchError := InvalidSpec (message : string) | Subscribe (message : string).

#[global] Instance WatchError_eq_dec : EqDecision WatchError.
Proof. solve_decision. Defined.

(** ** The thread *)

(** Floor on the poll cadence, and the nap of [sleep_interruptible]. *)
Definition MIN_INTERVAL : Z := ms 250.
Definition slice : Z := ms 200.

(** [sleep_interruptible]: the naps taken, and the number of the next read of
    the flag; [None] out of fuel. Read [i] of the flag is [stop i]. *)
Fixpoint sleep_interruptible (fuel : nat) (stop : nat -> bool) (i : nat) (elapsed total : Z)
    : option (list Z * nat) :=
  match fuel with
  | O => None
  | S fuel =>
      if elapsed <? total then
        if stop i then Some ([], S i)
        else
          let nap := Z.min slice (total - elapsed) in
          match sleep_interruptible fuel stop (S i) (elapsed + nap) total with
          | Some (naps, i') => Some (nap :: naps, i')
          | None => None
          end
      else Some ([], i)
  end.

(** Naps enough for any sleep of [total]. *)
Definition sleep_fuel (total : Z) : nat := S (Z.to_nat ((total + slice - 1) / slice)).

Section Watch.
Context {jv S : Type} `{EqDecision S}.
(** [serde_json::to_string] on an event. *)
Variable to_string : WatchEvent jv -> result string string.
Variable event_source : bool.
Variable diff : S -> S -> list (WatchEvent jv).

Definition event_json : string := result_unwrap_or "{}"%string (to_string default_event).

(** What one advance sends to [emit_event]. *)
Definition emit_advance (prev cur : S) : list string :=
  if event_source then omap (fun event => result_ok (to_string event)) (diff prev cur)
  else [event_json].

(** One poll: the tracked state after it, and the texts emitted. *)
Definition tick (last : option S) (polled : result (option S) string)
    : option S * list string :=
  match polled with
  | Ok (Some cur) =>
      match last with
      | None => (Some cur, [])
      | Some prev =>
          if decide (prev <> cur) then (Some cur, emit_advance prev cur) else (last, [])
      end
  | Ok None => (last, [])
  | Err _ => (last, [])
  end.

Fixpoint run_ticks (last : option S) (polls : list (result (option S) string))
    : option S * list string :=
  match polls with
  | [] => (last, [])
  | p :: polls =>
      let '(last, out) := tick last p in
      let '(last, rest) := run_ticks last polls in
      (last, out ++ rest)
  end.

(** The thread: [polls k] is the answer of poll [k]. Returns the polls made
    and the texts emitted; [None] while it has not stopped. *)
Fixpoint watch_thread (fuel : nat) (stop : nat -> bool) (interval : Z)
    (polls : nat -> result (option S) string) (i k : nat) (last : option S)
    : option (nat * list string) :=
  match fuel with
  | O => None
  | Datatypes.S fuel =>
      if stop i then Some (k, [])
      else
        let '(last, out) := tick last (polls k) in
        match sleep_interruptible (sleep_fuel interval) stop (Datatypes.S i) 0 interval with
        | None => None
        | Some (_, i) =>
            match watch_thread fuel stop interval polls i (Datatypes.S k) last with
            | Some (n, rest) => Some (n, out ++ rest)
            | None => None
            end
        end
  end.

(** [spawn_diffing_watch]: the clamped interval, then the thread. *)
Definition spawn_diffing_watch (fuel : nat) (stop : nat -> bool) (interval : Z)
    (polls : nat -> result (option S) string) : option (nat * list string) :=
  watch_thread fuel stop (Z.max interval MIN_INTERVAL) polls 0 0 None.

(** [cancel_polling_watch]: nothing for the null handle; otherwise the flag is
    stored and the thread joined. [first] is the first read of the flag after
    the store; [fuel] bounds the turns the join waits for. *)
Definition cancel_polling_watch (handle : Z) (fuel first : nat) (interval : Z)
    (polls : nat -> result (option S) string) : option (option (nat * list string)) :=
  if handle =? 0 then Some None
  else Some <$> spawn_diffing_watch fuel (fun i => (first <=? i)%nat) interval polls.

(** ** Specification *)

(** The states the polls saw, failures and missing signals left out. *)
Definition seen_states (polls : list (result (option S) string)) : list S :=
  omap (fun p => match p with Ok s => s | Err _ => None end) polls.

(** The moves of a list of states: the neighbours that differ. *)
Fixpoint moves (from : option S) (l : list S) : list (S * S) :=
  match l with
  | [] => []
  | s :: l =>
      match from with
      | Some p => if decide (p = s) then moves (Some s) l else (p, s) :: moves (Some s) l
      | None => moves (Some s) l
      end
  end.
End Watch.

(** [spawn_polling_watch]: one bare event per advance. *)
Definition spawn_polling_watch {jv} (to_string : WatchEvent jv -> result string string)
    (event_source : bool) (fuel : nat) (stop : nat -> bool) (interval : Z)
    (polls : nat -> result (option string) string) : option (nat * list string) :=
  spawn_diffing_watch to_string event_source (fun _ _ => [default_event]) fuel stop interval polls.

(** ** Lemmas *)

Section SleepLemmas.
Variables (stop : nat -> bool) (total : Z).

Lemma naps_needed elapsed :
  elapsed < total ->
  (sleep_fuel (total - (elapsed + Z.min slice (total - elapsed))) < sleep_fuel (total - elapsed))%nat.
Proof.
  intros H. unfold sleep_fuel. apply -> Nat.succ_lt_mono.
  assert (Hs : 0 < slice) by reflexivity.
  apply Nat2Z.inj_lt. rewrite !Z2Nat.id by (apply Z.div_pos; lia).
  destruct (Z.min_spec slice (total - elapsed)) as [[? ->]|[? ->]].
  - replace (total - elapsed + slice - 1)
      with (total - (elapsed + slice) + slice - 1 + 1 * slice) by lia.
    rewrite Z.div_add by lia. lia.
  - replace (total - (elapsed + (total - elapsed)) + slice - 1) with (slice - 1) by lia.
    rewrite (Z.div_small (slice - 1)) by lia.
    apply Z.div_str_pos. lia.
Qed.

Lemma sleep_returns fuel i elapsed :
  (sleep_fuel (total - elapsed) <= fuel)%nat ->
  exists naps i', sleep_interruptible fuel stop i elapsed total = Some (naps, i')
    /\ (i <= i')%nat
    /\ Forall (fun nap => 0 < nap <= slice) naps
    /\ (forall j, (i <= j < i + length naps)%nat -> stop j = false)
    /\ (elapsed <= total -> foldr Z.add elapsed naps <= total)
    /\ (i' = (i + length naps)%nat /\ (elapsed <= total -> foldr Z.add elapsed naps = total)
        \/ i' = Datatypes.S (i + length naps) /\ stop (i + length naps)%nat = true).
Proof.
  revert i elapsed. induction fuel as [|fuel IH]; intros i elapsed Hf; simpl.
  { unfold sleep_fuel in Hf. lia. }
  destruct (Z.ltb_spec elapsed total) as [Hlt|Hge].
  - destruct (stop i) eqn:Ei.
    + exists [], (Datatypes.S i). simpl. rewrite Nat.add_0_r.
      repeat split; try done; try lia. right. split; [lia|done].
    + destruct (IH (Datatypes.S i) (elapsed + Z.min slice (total - elapsed)))
        as (naps & i' & -> & Hi & Hn & Hj & Hle & Hend).
      { pose proof (naps_needed elapsed Hlt). lia. }
      assert (Hsum : forall a b l, foldr Z.add (a + b) l = b + foldr Z.add a l)
        by (intros a b; induction l; simpl; lia).
      assert (Hnap : 0 < Z.min slice (total - elapsed) <= slice)
        by (assert (0 < slice) by reflexivity; lia).
      exists (Z.min slice (total - elapsed) :: naps), i'. cbn [length foldr].
      rewrite Hsum in Hle, Hend. repeat split; try lia.
      * by constructor.
      * intros j Hj'. destruct (decide (j = i)) as [->|]; [done|]. apply Hj. lia.
      * destruct Hend as [[-> He]|[-> He]]; [left|right]; (split; [lia|]).
        -- intros _. apply He. lia.
        -- by replace (i + Datatypes.S (length naps))%nat
             with (Datatypes.S i + length naps)%nat by lia.
  - exists [], i. simpl. repeat split; try done; try lia.
Qed.
End SleepLemmas.

Section WatchLemmas.
Context {jv S : Type} `{EqDecision S}.
Variable to_string : WatchEvent jv -> result string string.
Variable event_source : bool.
Variable diff : S -> S -> list (WatchEvent jv).

Lemma run_ticks_moves polls last :
  (run_ticks to_string event_source diff last polls).2
  = moves last (seen_states polls) ≫= (fun pc => emit_advance to_string event_source diff pc.1 pc.2).
Proof.
  revert last. induction polls as [|p polls IH]; intros last; [done|]. cbn [run_ticks].
  destruct (tick _ _ _ _ _) as [last' out] eqn:Et.
  specialize (IH last'). destruct (run_ticks _ _ _ _ _) as [l rest]. simpl in IH |- *.
  subst rest. unfold tick in Et. destruct p as [[cur|]|e];
    [|injection Et as <- <-; reflexivity..].
  change (seen_states (Ok (Some cur) :: polls)) with (cur :: seen_states polls). cbn [moves].
  destruct last as [prev|]; [|by simplify_eq].
  destruct (decide (prev <> cur)) as [Hne|Heq]; simplify_eq; destruct (decide (prev = cur)); try done.
  - by apply dec_stable in Heq as ->.
Qed.

Lemma run_ticks_app last p1 p2 :
  run_ticks to_string event_source diff last (p1 ++ p2) =
  let '(l1, o1) := run_ticks to_string event_source diff last p1 in
  let '(l2, o2) := run_ticks to_string event_source diff l1 p2 in (l2, o1 ++ o2).
Proof.
  revert last. induction p1 as [|p p1 IH]; intros last; simpl.
  - by destruct (run_ticks _ _ _ _ _).
  - destruct (tick _ _ _ _ _) as [l o]. rewrite IH.
    destruct (run_ticks _ _ _ l p1) as [l1 o1]. destruct (run_ticks _ _ _ l1 p2) as [l2 o2].
    by rewrite app_assoc.
Qed.

(** The thread makes the ticks of the polls it made, and nothing else. *)
Lemma watch_thread_ticks fuel stop interval polls i k last n out :
  watch_thread to_string event_source diff fuel stop interval polls i k last = Some (n, out) ->
  (k <= n)%nat /\ out = (run_ticks to_string event_source diff last (polls <$> seq k (n - k))).2.
Proof.
  revert i k last n out. induction fuel as [|fuel IH]; intros i k last n out; [done|].
  cbn [watch_thread]. destruct (stop i); [intros [= <- <-]; split; [lia|by rewrite Nat.sub_diag]|].
  destruct (tick _ _ _ _ _) as [l o] eqn:Et.
  destruct (sleep_interruptible _ _ _ _ _) as [[naps i']|]; [|done].
  destruct (watch_thread to_string event_source diff fuel stop interval polls i' _ l)
    as [[n' rest]|] eqn:Ew; [|done].
  intros [= <- <-]. apply IH in Ew as [Hk ->]. split; [lia|].
  replace (n' - k)%nat with (Datatypes.S (n' - Datatypes.S k)) by lia. cbn. rewrite Et.
  by destruct (run_ticks _ _ _ _ _).
Qed.

Lemma watch_thread_stops fuel stop interval polls i k last m :
  (forall j, (m <= j)%nat -> stop j = true) -> (m - i < fuel)%nat ->
  is_Some (watch_thread to_string event_source diff fuel stop interval polls i k last).
Proof.
  intros Hs. revert i k last. induction fuel as [|fuel IH]; intros i k last Hf; [lia|].
  cbn [watch_thread]. destruct (stop i) eqn:Ei; [by eexists|].
  assert (i < m)%nat by (destruct (le_lt_dec m i) as [Hm|]; [|lia]; rewrite (Hs i Hm) in Ei; done).
  destruct (tick _ _ _ _ _) as [l o].
  destruct (sleep_returns stop interval (sleep_fuel interval) (Datatypes.S i) 0)
    as (naps & i' & -> & Hi & _); [by rewrite Z.sub_0_r|].
  destruct (IH i' (Datatypes.S k) l) as [[n rest] ->]; [lia|]. by eexists.
Qed.
End WatchLemmas.

(** ** Properties *)

(** [sleep_interruptible] always returns. It sleeps in naps of at most a
    slice that never exceed the total; it returns early exactly when a read of
    the stop flag says so, and takes no nap after that read, and otherwise the
    naps add up to the total. *)
Theorem sleep_sound stop total :
  0 <= total ->
  exists naps i', sleep_interruptible (sleep_fuel total) stop 0 0 total = Some (naps, i')
    /\ Forall (fun nap => 0 < nap <= slice) naps
    /\ foldr Z.add 0 naps <= total
    /\ (forall j, (j < length naps)%nat -> stop j = false)
    /\ (foldr Z.add 0 naps = total \/ stop (length naps) = true).
Proof.
  intros Ht. destruct (sleep_returns stop total (sleep_fuel total) 0 0)
    as (naps & i' & Hs & _ & Hn & Hj & Hle & Hend); [by rewrite Z.sub_0_r|].
  exists naps, i'. repeat split; try done; [by apply Hle|intros j H; apply Hj; lia|].
  destruct Hend as [[_ He]|[_ He]]; [left; by apply He|by right].
Qed.

Lemma sleep_sound_witness :
  exists naps i', sleep_interruptible (sleep_fuel (ms 450)) (fun _ => false) 0 0 (ms 450)
    = Some (naps, i') /\ length naps = 3%nat.
Proof.
  destruct (sleep_sound (fun _ => false) (ms 450)) as (naps & i' & Hs & _);
    [vm_compute; discriminate|].
  exists naps, i'. split; [exact Hs|]. vm_compute in Hs. by injection Hs as <- _.
Defined.

(** What a diffing watch emits is exactly one difference per move of the
    polled state, in order: the baseline, repeats, empty polls and failed
    polls emit nothing. This holds of the running thread, whenever it is
    stopped, for the polls it made. *)
Theorem watch_emits_moves {jv S} `{EqDecision S} (to_string : WatchEvent jv -> result string string)
    event_source (diff : S -> S -> list (WatchEvent jv)) fuel stop interval polls n out :
  spawn_diffing_watch to_string event_source diff fuel stop interval polls = Some (n, out) ->
  out = moves None (seen_states (polls <$> seq 0 n))
        ≫= (fun pc => emit_advance to_string event_source diff pc.1 pc.2).
Proof.
  unfold spawn_diffing_watch. intros Hw. apply watch_thread_ticks in Hw as [_ ->].
  by rewrite run_ticks_moves, Nat.sub_0_r.
Qed.

Lemma watch_emits_moves_witness :
  let polls := fun k => match k with
    | 0 => Ok (Some 1%N) | 1 => Err "down"%string | 2 => Ok None | _ => Ok (Some 2%N) end%nat in
  ["12"%string] = moves None (seen_states (polls <$> seq 0 5))
    ≫= (fun pc => emit_advance (jv := unit) (fun e => Ok (default "" (event_id e))) true
          (fun p c => [{| event_id := Some (pretty p ++ pretty c)%string; event_type := None;
                          occurred_at := None; ev_data := None; upstream_cursor := None;
                          ev_gap := false |}]) pc.1 pc.2).
Proof.
  intros polls.
  apply (watch_emits_moves _ _ _ 20 (fun i => (12 <? i)%nat) 0 polls).
  vm_compute. reflexivity.
Defined.

(** Cancellation ends the watch: once the stop flag reads true for good,
    the thread stops, within as many turns as reads were left. *)
Theorem watch_stops {jv S} `{EqDecision S} (to_string : WatchEvent jv -> result string string)
    event_source (diff : S -> S -> list (WatchEvent jv)) fuel stop interval polls m :
  (forall j, (m <= j)%nat -> stop j = true) -> (m < fuel)%nat ->
  is_Some (spawn_diffing_watch to_string event_source diff fuel stop interval polls).
Proof. intros Hs Hf. eapply watch_thread_stops; [exact Hs|lia]. Qed.

Lemma watch_stops_witness :
  is_Some (spawn_diffing_watch (jv := unit) (S := N) (fun _ => Err ""%string) true
    (fun _ _ => []) 3 (fun i => (1 <? i)%nat) 0 (fun _ => Ok None)).
Proof. apply (watch_stops _ _ _ _ _ _ _ 2); [intros j H; apply Nat.ltb_lt; lia|lia]. Defined.

(** The join of a cancel returns whenever the store is seen, having emitted what
    the polls made until then say. *)
Lemma cancel_joins {jv S} `{EqDecision S} (to_string : WatchEvent jv -> result string string)
    event_source (diff : S -> S -> list (WatchEvent jv)) handle first interval polls :
  is_Some (cancel_polling_watch to_string event_source diff handle (Datatypes.S first) first interval polls).
Proof.
  unfold cancel_polling_watch. destruct (handle =? 0); [by eexists|]. apply fmap_is_Some.
  apply (watch_thread_stops _ _ _ _ _ _ _ _ _ _ first); [|lia]. intros j Hj. by apply Nat.leb_le.
Qed.
