(* ===== verification/Inventory.v ===== *)
(** * The diff engine of an object inventory (src/src/inventory.rs)

    [Inventory] is the state, [poll] and [acknowledged] its two operations,
    [new] its construction from the position the host stored. Time is read
    through [clock]: reading [i] of the clock during one call is [clock i].
    blake3 and the time formatter are parameters. *)

From Stdlib Require Import Ascii String.
From S2P Require Import Prelude Json Watch.

(** ** Data *)

Definition OBJECT_CHANGED_EVENT_TYPE : string := "object.changed".
Definition INVENTORY_MIN_INTERVAL : Z := ms 250.
Definition MAX_SNAPSHOT_BYTES : Z := 192 * 1024.
Definition CURSOR_VERSION : Z := 1.

(** One object a store lists. *)
Record ObjectEntry := {
  key : string;
  size : option Z;
  modified_at_ms : option Z;
  etag : option string;
  version : option string;
}.

#[global] Instance ObjectEntry_eq_dec : EqDecision ObjectEntry.
Proof. solve_decision. Defined.

Definition default_entry (k : string) : ObjectEntry :=
  {| key := k; size := None; modified_at_ms := None; etag := None; version := None |}.

Inductive ObjectOp := Created | Modified | Deleted.
#[global] Instance ObjectOp_eq_dec : EqDecision ObjectOp.
Proof. solve_decision. Defined.

(** The serialised operation, without and with its JSON quotes. *)
Definition op_str (op : ObjectOp) : string :=
  match op with Created => "created" | Modified => "modified" | Deleted => "deleted" end.
Definition quoted (s : string) : string :=
  (String "034" s ++ String "034" EmptyString)%string.

Inductive InventoryStart := Now | Existing.

Record InventoryOptions := {
  store : string;
  location : string;
  interval : Z;
  start : InventoryStart;
  snapshot_bytes : Z;
  max_in_flight : nat;
  ack_timeout : Z;
}.

(** [InventoryOptions::validate]. *)
Definition validate (o : InventoryOptions) : result unit string :=
  if interval o <? INVENTORY_MIN_INTERVAL then
    Err ("interval_ms must be at least " ++ pretty (as_millis INVENTORY_MIN_INTERVAL))%string
  else if MAX_SNAPSHOT_BYTES <? snapshot_bytes o then
    Err ("snapshot_bytes must be at most " ++ pretty MAX_SNAPSHOT_BYTES)%string
  else if negb ((1 <=? max_in_flight o)%nat && (max_in_flight o <=? 1000)%nat) then
    Err "max_in_flight must be 1 to 1000"%string
  else if ack_timeout o =? 0 then Err "ack_timeout_ms must be greater than 0"%string
  else Ok tt.

(** The position after a change. *)
Record Cursor := {
  c_v : Z;
  c_seq : Z;
  c_snap : option (gmap string string);
}.

(** A change emitted and not yet acknowledged. *)
Record Pending := {
  p_seq : Z;
  p_key : string;
  p_digest : option string;
  p_at : Z;
}.

Inductive Baseline := Silent | Report | Known.
#[global] Instance Baseline_eq_dec : EqDecision Baseline.
Proof. solve_decision. Defined.

(** What a poll found for one object. *)
Abbreviation change := (ObjectOp * ObjectEntry * option string)%type.

(** The digest input of [ObjectEntry::digest] and of an event id: each part
    after its length in eight big-endian bytes. *)
Definition byte_at (n i : Z) : ascii := ascii_of_N (Z.to_N (Z.land (Z.shiftr n (8 * i)) 255)).
Definition be_bytes (n : Z) : list ascii := byte_at n <$> [7; 6; 5; 4; 3; 2; 1; 0].

Definition str_len (s : string) : Z := Z.of_nat (String.length s).

Definition hash_input (parts : list string) : list ascii :=
  parts ≫= fun part => be_bytes (str_len part) ++ chars part.

Definition entry_parts (e : ObjectEntry) : list string :=
  [default "" (pretty <$> size e); default "" (pretty <$> modified_at_ms e);
   default "" (etag e); default "" (version e)]%string.

Section Inventory.
Context {jv : Type} `{J : Json jv} {D : Type}.
(** [blake3] as lower-case hex. *)
Variable blake3_hex : list ascii -> string.
(** [mcpg_plugin_protocol::occurred_at_from_millis]. *)
Variable occurred_at_from_millis : Z -> option string.
(** The message of a failed deserialisation. *)
Variable serde_error : jv -> string.

(** Details a plugin adds: a closure with its captured state. *)
Definition Describe : Type :=
  D * (D -> list ObjectEntry -> D * list (option (gmap string jv))).

Record Inventory := {
  options : InventoryOptions;
  confirmed : gmap string string;
  seen : gmap string ObjectEntry;
  pending : list Pending;
  next_seq : Z;
  baseline : Baseline;
  inv_gap : bool;
  warned : bool;
  describe : option Describe;
  quiet_removals : bool;
}.

Definition set_confirmed c (i : Inventory) : Inventory :=
  {| options := options i; confirmed := c; seen := seen i; pending := pending i;
     next_seq := next_seq i; baseline := baseline i; inv_gap := inv_gap i; warned := warned i;
     describe := describe i; quiet_removals := quiet_removals i |}.
Definition set_seen s (i : Inventory) : Inventory :=
  {| options := options i; confirmed := confirmed i; seen := s; pending := pending i;
     next_seq := next_seq i; baseline := baseline i; inv_gap := inv_gap i; warned := warned i;
     describe := describe i; quiet_removals := quiet_removals i |}.
Definition set_pending p (i : Inventory) : Inventory :=
  {| options := options i; confirmed := confirmed i; seen := seen i; pending := p;
     next_seq := next_seq i; baseline := baseline i; inv_gap := inv_gap i; warned := warned i;
     describe := describe i; quiet_removals := quiet_removals i |}.
Definition set_next_seq n (i : Inventory) : Inventory :=
  {| options := options i; confirmed := confirmed i; seen := seen i; pending := pending i;
     next_seq := n; baseline := baseline i; inv_gap := inv_gap i; warned := warned i;
     describe := describe i; quiet_removals := quiet_removals i |}.
Definition set_baseline b (i : Inventory) : Inventory :=
  {| options := options i; confirmed := confirmed i; seen := seen i; pending := pending i;
     next_seq := next_seq i; baseline := b; inv_gap := inv_gap i; warned := warned i;
     describe := describe i; quiet_removals := quiet_removals i |}.
Definition set_gap g (i : Inventory) : Inventory :=
  {| options := options i; confirmed := confirmed i; seen := seen i; pending := pending i;
     next_seq := next_seq i; baseline := baseline i; inv_gap := g; warned := warned i;
     describe := describe i; quiet_removals := quiet_removals i |}.
Definition set_warned w (i : Inventory) : Inventory :=
  {| options := options i; confirmed := confirmed i; seen := seen i; pending := pending i;
     next_seq := next_seq i; baseline := baseline i; inv_gap := inv_gap i; warned := w;
     describe := describe i; quiet_removals := quiet_removals i |}.
Definition with_describe d (i : Inventory) : Inventory :=
  {| options := options i; confirmed := confirmed i; seen := seen i; pending := pending i;
     next_seq := next_seq i; baseline := baseline i; inv_gap := inv_gap i; warned := warned i;
     describe := Some d; quiet_removals := quiet_removals i |}.
Definition with_quiet_removals (i : Inventory) : Inventory :=
  {| options := options i; confirmed := confirmed i; seen := seen i; pending := pending i;
     next_seq := next_seq i; baseline := baseline i; inv_gap := inv_gap i; warned := warned i;
     describe := describe i; quiet_removals := true |}.

(** [ObjectEntry::digest]. *)
Definition digest (e : ObjectEntry) : string :=
  String.substring 0 12 (blake3_hex (hash_input (entry_parts e))).

(** ** Cursors *)

(** [serde_json::to_value(Cursor)]. *)
Definition cursor_to_value (c : Cursor) : jv :=
  let m := {[ "v" := j_u64 (c_v c); "seq" := j_u64 (c_seq c) ]}%string in
  j_obj (match c_snap c with Some s => <["snap"%string := j_strmap s]> m | None => m end).

(** An [Option<BTreeMap<String, String>>] field: null is [None]. *)
Definition snap_from_value (v : jv) : option (option (gmap string string)) :=
  if j_is_null v then Some None else Some <$> j_as_strmap v.

Definition opt_snap (v : option jv) : option (option (gmap string string)) :=
  match v with Some v => snap_from_value v | None => Some None end.

Definition make_cursor (v seq snap : option jv) : option Cursor :=
  match v ≫= j_as_u64, seq ≫= j_as_u64, opt_snap snap with
  | Some v, Some s, Some snap => Some {| c_v := v; c_seq := s; c_snap := snap |}
  | _, _, _ => None
  end.

(** [serde_json::from_value::<Cursor>]: a struct is read from an object, or
    from an array of its fields in order. *)
Definition cursor_from_value (x : jv) : result Cursor string :=
  let read :=
    match j_as_obj x, j_as_arr x with
    | Some m, _ => make_cursor (m !! "v"%string) (m !! "seq"%string) (m !! "snap"%string)
    | None, Some [v; s] => make_cursor (Some v) (Some s) None
    | None, Some [v; s; snap] => make_cursor (Some v) (Some s) (Some snap)
    | None, _ => None
    end in
  match read with Some c => Ok c | None => Err (serde_error x) end.

(** [Inventory::new]. *)
Definition new (o : InventoryOptions) (resume : option jv) : result Inventory WatchError :=
  let? cursor :=
    match resume with
    | None => Ok None
    | Some x =>
        match cursor_from_value x with
        | Ok c => Ok (Some c)
        | Err e => Err (InvalidSpec (store o ++ ": the stored position is not one an inventory wrote: " ++ e))
        end
    end in
  let '(confirmed, baseline, gap) :=
    match cursor with
    | None => (∅, match start o with Now => Silent | Existing => Report end, false)
    | Some {| c_snap := Some snap |} => (snap, Known, false)
    | Some {| c_snap := None |} => (∅, Silent, true)
    end in
  Ok {| options := o; confirmed := confirmed; seen := ∅; pending := []; next_seq := 0;
        baseline := baseline; inv_gap := gap; warned := false; describe := None;
        quiet_removals := false |}.

(** ** One poll *)

(** [pending.retain(|p| p.at.elapsed() < timeout)]: each element reads the
    clock once. *)
Fixpoint retain_fresh (clock : nat -> Z) (timeout : Z) (i : nat) (ps : list Pending)
    : list Pending :=
  match ps with
  | [] => []
  | p :: ps =>
      let rest := retain_fresh clock timeout (S i) ps in
      if saturating_since (clock i) (p_at p) <? timeout then p :: rest else rest
  end.

(** The listing by key: of entries with one key the last counts. *)
Definition index_listing (listing : list ObjectEntry) : gmap string ObjectEntry :=
  foldl (fun m e => <[key e := e]> m) ∅ listing.

(** [pending_digest]: the digest of the newest pending change of [k]. *)
Definition pending_digest (ps : list Pending) (k : string) : option (option string) :=
  p_digest <$> List.find (fun p => bool_decide (p_key p = k)) (reverse ps).

(** The created and modified objects, in key order. *)
Definition alive_change (i : Inventory) (ke : string * ObjectEntry) : option change :=
  let '(k, e) := ke in
  let d := digest e in
  if decide (pending_digest (pending i) k = Some (Some d)) then None
  else match confirmed i !! k with
       | Some known => if decide (known = d) then None else Some (Modified, e, Some d)
       | None => Some (Created, e, Some d)
       end.

Definition gone_keys (i : Inventory) (current : gmap string ObjectEntry) : list string :=
  List.filter (fun k => bool_decide (current !! k = None)
                        && bool_decide (pending_digest (pending i) k <> Some None))
    (btree_list (confirmed i)).*1.

(** The loop over what is gone: the inventory and the deletions. *)
Fixpoint gone_loop (i : Inventory) (gone : list string) : Inventory * list change :=
  match gone with
  | [] => (i, [])
  | k :: gone =>
      if quiet_removals i then
        gone_loop (set_seen (delete k (seen i)) (set_confirmed (delete k (confirmed i)) i)) gone
      else
        let last := default (default_entry k) (seen i !! k) in
        let '(i, rest) := gone_loop i gone in (i, (Deleted, last, None) :: rest)
  end.

(** [details]: what the plugin adds, by key, and the inventory whose
    closure ran. *)
Definition details (i : Inventory) (changes : list change)
    : Inventory * gmap string (gmap string jv) :=
  match describe i with
  | None => (i, ∅)
  | Some (st, f) =>
      let alive := (fun c : change => c.1.2)
                     <$> List.filter (fun c : change => bool_decide (c.1.1 <> Deleted)) changes in
      if decide (alive = []) then (i, ∅)
      else
        let '(st, extras) := f st alive in
        (with_describe (st, f) i,
         foldl (fun m ke => match ke with
                            | (e, Some extra) => <[key e := extra]> m
                            | (_, None) => m
                            end) ∅ (zip alive extras))
  end.

(** [snapshot]: the listing a restart from this change may trust. *)
Definition snapshot (i : Inventory) (k : string) (d : option string)
    : Inventory * option (gmap string string) :=
  let snap := match d with
              | Some d => <[k := d]> (confirmed i)
              | None => delete k (confirmed i)
              end in
  if str_len (j_print (j_strmap snap)) <=? snapshot_bytes (options i) then (i, Some snap)
  else (set_warned true i, None).

(** [event]. *)
Definition event_id_parts (i : Inventory) (op : ObjectOp) (e : ObjectEntry) (d : option string)
    : list string :=
  [store (options i); location (options i); key e; quoted (op_str op); default ""%string d].

Definition opt_field (k : string) (v : option jv) (m : gmap string jv) : gmap string jv :=
  match v with Some v => <[k := v]> m | None => m end.

Definition event (i : Inventory) (op : ObjectOp) (e : ObjectEntry) (d : option string) (seq : Z)
    (snap : option (gmap string string)) : WatchEvent jv :=
  let modified_at := modified_at_ms e ≫= occurred_at_from_millis in
  let m := {[ "op" := j_str (op_str op); "store" := j_str (store (options i));
              "location" := j_str (location (options i)); "key" := j_str (key e) ]}%string in
  let m := opt_field "size" (j_u64 <$> size e) m in
  let m := opt_field "modifiedAt" (j_str <$> modified_at) m in
  let m := opt_field "etag" (j_str <$> etag e) m in
  let m := opt_field "version" (j_str <$> version e) m in
  {| event_id := Some ("obj-" ++ String.substring 0 32
                         (blake3_hex (hash_input (event_id_parts i op e d))))%string;
     event_type := Some OBJECT_CHANGED_EVENT_TYPE;
     occurred_at := if decide (op = Deleted) then None else modified_at;
     ev_data := Some (j_obj m);
     upstream_cursor :=
       Some (cursor_to_value {| c_v := CURSOR_VERSION; c_seq := seq; c_snap := snap |});
     ev_gap := false |}.

(** The fields the plugin added, beside those already there. *)
Definition add_details (extra : option (gmap string jv)) (ev : WatchEvent jv) : WatchEvent jv :=
  match extra, ev_data ev ≫= j_as_obj with
  | Some extra, Some m =>
      {| event_id := event_id ev; event_type := event_type ev; occurred_at := occurred_at ev;
         ev_data := Some (j_obj (m ∪ extra)); upstream_cursor := upstream_cursor ev;
         ev_gap := ev_gap ev |}
  | _, _ => ev
  end.

(** The emission loop, from change number [index] of [take]; [at] numbers
    the clock readings. *)
Fixpoint emit_loop (clock : nat -> Z) (at_ take index : nat) (changes : list change)
    (extras : gmap string (gmap string jv)) (i : Inventory) : Inventory * list (WatchEvent jv) :=
  match changes with
  | [] => (i, [])
  | (op, e, d) :: changes =>
      let seq := next_seq i in
      let i := set_next_seq (as_u64 (next_seq i + 1)) i in
      let i := set_pending (pending i ++ [{| p_seq := seq; p_key := key e; p_digest := d;
                                             p_at := clock at_ |}]) i in
      let '(i, snap) := if decide (index + 1 = take)%nat then snapshot i (key e) d
                        else (i, None) in
      let ev := add_details (extras !! key e) (event i op e d seq snap) in
      let '(i, events) :=
        emit_loop clock (S at_) take (S index) changes (delete (key e) extras) i in
      (i, ev :: events)
  end.

Definition gap_event : WatchEvent jv :=
  {| event_id := None; event_type := None; occurred_at := None; ev_data := None;
     upstream_cursor := None; ev_gap := true |}.

(** The changes a listing shows, before the window cuts them, and the
    inventory after quiet removals. *)
Definition find_changes (i : Inventory) (current : gmap string ObjectEntry)
    : Inventory * list change :=
  let alive := omap (alive_change i) (btree_list current) in
  let '(i, deleted) := gone_loop i (gone_keys i current) in
  (i, alive ++ deleted).

(** [Inventory::poll]. *)
Definition poll (clock : nat -> Z) (i : Inventory) (listing : list ObjectEntry)
    : Inventory * list (WatchEvent jv) :=
  let readings := length (pending i) in
  let i := set_pending (retain_fresh clock (ack_timeout (options i)) 0 (pending i)) i in
  let events := if inv_gap i then [gap_event] else [] in
  let i := set_gap false i in
  let current := index_listing listing in
  if decide (baseline i = Silent) then
    (set_baseline Known (set_seen current (set_confirmed (digest <$> current) i)), events)
  else
    let i := set_baseline Known i in
    let '(i, changes) := find_changes i current in
    let i := set_seen (current ∪ seen i) i in
    let room := (max_in_flight (options i) - length (pending i))%nat in
    let take_n := Nat.min (length changes) room in
    let changes := take take_n changes in
    let '(i, extras) := details i changes in
    let '(i, more) := emit_loop clock readings take_n 0 changes extras i in
    (i, events ++ more).

(** [Inventory::acknowledged]. *)
Definition acknowledged (i : Inventory) (position : jv) : Inventory :=
  match j_get position "seq" ≫= j_as_u64 with
  | None => i
  | Some seq =>
      match list_find (fun p => p_seq p = seq) (pending i) with
      | None => i
      | Some (index, p) =>
          let rest := delete index (pending i) in
          let i := set_pending (List.filter (fun p => seq <? p_seq p) rest) i in
          match p_digest p with
          | Some d => set_confirmed (<[p_key p := d]> (confirmed i)) i
          | None => set_seen (delete (p_key p) (seen i))
                      (set_confirmed (delete (p_key p) (confirmed i)) i)
          end
      end
  end.

Definition in_flight (i : Inventory) : nat := length (pending i).
Definition has_room (i : Inventory) : bool :=
  (length (pending i) <? max_in_flight (options i))%nat.
End Inventory.
