(* ===== verification/InventoryFacts.v ===== *)
(** * The inventory diff engine: lemmas and properties *)

From Stdlib Require Import Ascii String.
From S2P Require Import Prelude Json Watch Inventory.

(** ** Hash inputs *)

Lemma be_bytes_length n : length (be_bytes n) = 8%nat.
Proof. reflexivity. Qed.

Lemma fmap_pointwise {A B} (f g : A -> B) l : f <$> l = g <$> l -> Forall (fun x => f x = g x) l.
Proof. induction l as [|x l IH]; intros E; [constructor|]. injection E as Ex El. auto. Qed.

Lemma byte_inj a b :
  ascii_of_N (Z.to_N (Z.land a 255)) = ascii_of_N (Z.to_N (Z.land b 255)) ->
  Z.land a 255 = Z.land b 255.
Proof.
  assert (Hr : forall z, 0 <= Z.land z 255 < 256).
  { intros z. change 255 with (Z.ones 8). rewrite Z.land_ones by lia. apply Z.mod_pos_bound. lia. }
  pose proof (Hr a). pose proof (Hr b). intros E.
  apply (f_equal N_of_ascii) in E. rewrite !N_ascii_embedding in E by lia.
  apply Z2N.inj in E; lia.
Qed.

Lemma testbit_byte z i j :
  0 <= i -> 0 <= j < 8 -> Z.testbit (Z.land (Z.shiftr z (8 * i)) 255) j = Z.testbit z (8 * i + j).
Proof.
  intros Hi Hj. change 255 with (Z.ones 8). rewrite Z.land_spec, Z.shiftr_spec by lia.
  rewrite Z.ones_spec_low by lia. rewrite andb_true_r. f_equal. lia.
Qed.

Lemma be_bytes_inj a b :
  0 <= a <= u64_max -> 0 <= b <= u64_max -> be_bytes a = be_bytes b -> a = b.
Proof.
  intros Ha Hb E. apply fmap_pointwise in E.
  apply Z.bits_inj'. intros n Hn. destruct (decide (n < 64)) as [Hlt|Hge].
  - pose proof (Z.div_mod n 8 ltac:(lia)) as Hd. pose proof (Z.mod_pos_bound n 8 ltac:(lia)).
    assert (0 <= n / 8 < 8) by (split; [apply Z.div_pos; lia|apply Z.div_lt_upper_bound; lia]).
    rewrite Hd, <- !testbit_byte by lia. f_equal. apply byte_inj.
    rewrite Forall_forall in E. apply (E (n / 8)).
    assert (n / 8 = 0 \/ n / 8 = 1 \/ n / 8 = 2 \/ n / 8 = 3 \/ n / 8 = 4 \/ n / 8 = 5
            \/ n / 8 = 6 \/ n / 8 = 7) as Hi by lia.
    rewrite !elem_of_cons. tauto.
  - unfold u64_max in *.
    rewrite !Z.bits_above_log2; try done; try lia.
    + destruct (decide (b = 0)) as [->|]; [simpl; lia|]. apply Z.log2_lt_pow2; [lia|].
      apply Z.lt_le_trans with (2 ^ 64); [lia|]. apply Z.pow_le_mono_r; lia.
    + destruct (decide (a = 0)) as [->|]; [simpl; lia|]. apply Z.log2_lt_pow2; [lia|].
      apply Z.lt_le_trans with (2 ^ 64); [lia|]. apply Z.pow_le_mono_r; lia.
Qed.

Lemma chars_length s : length (chars s) = String.length s.
Proof. induction s; simpl; congruence. Qed.

(** Parts of a size a machine can hold. *)
Definition fits (s : string) : Prop := str_len s <= u64_max.

Lemma hash_input_inj ps qs :
  length ps = length qs -> Forall fits ps -> Forall fits qs ->
  hash_input ps = hash_input qs -> ps = qs.
Proof.
  revert qs. induction ps as [|p ps IH]; intros [|q qs] Hl Hp Hq E; try done.
  apply Forall_cons in Hp as [Hp Hps]. apply Forall_cons in Hq as [Hq Hqs].
  unfold hash_input in E. cbn [mbind list_bind] in E. fold (hash_input ps) in E.
  rewrite <- !app_assoc in E. apply app_inj_1 in E as [Elen E]; [|done].
  unfold fits, str_len in *. apply be_bytes_inj in Elen; [|unfold str_len; lia..].
  unfold str_len in Elen.
  apply app_inj_1 in E as [Ep E]; [|rewrite !chars_length; lia].
  f_equal; [|apply IH; auto].
  by rewrite <- (unchars_chars p), <- (unchars_chars q), Ep.
Qed.


Lemma pretty_Z_nonempty (z : Z) : pretty z <> ""%string.
Proof.
  assert (Hn : forall n : N, pretty n <> ""%string).
  { intros n E. destruct (decide (n = 0%N)) as [->|Hn]; [done|].
    assert (Hgo : forall x s, s <> ""%string -> pretty_N_go x s <> ""%string).
    { intros x. induction (N.lt_wf_0 x) as [x _ IH]. intros s Hs.
      destruct (decide (x = 0%N)) as [->|Hx]; [by rewrite pretty_N_go_0|].
      rewrite pretty_N_go_step by lia. apply IH; [apply N.div_lt; lia|done]. }
    unfold pretty, pretty_N in E. rewrite decide_False in E by done.
    rewrite pretty_N_go_step in E by lia. by apply Hgo in E. }
  destruct z as [|p|p]; [done| |done]. apply (Hn (N.pos p)).
Qed.

Lemma opt_pretty_inj (a b : option Z) :
  default ""%string (pretty <$> a) = default ""%string (pretty <$> b) -> a = b.
Proof.
  destruct a as [a|], b as [b|]; simpl; intros E; try done.
  - by apply (inj pretty) in E as ->.
  - by apply pretty_Z_nonempty in E.
  - by symmetry in E; apply pretty_Z_nonempty in E.
Qed.

(** ** Listings *)

Lemma index_listing_app l e : index_listing (l ++ [e]) = <[key e := e]> (index_listing l).
Proof. unfold index_listing. by rewrite foldl_app. Qed.

Lemma index_listing_key l k e : index_listing l !! k = Some e -> key e = k /\ e ∈ l.
Proof.
  induction l as [|x l IH] using rev_ind; [done|].
  rewrite index_listing_app, lookup_insert_Some, elem_of_app.
  intros [[<- <-]|[_ [? ?]%IH]]; [|by split; [|left]]. split; [done|right; by left].
Qed.

Lemma index_listing_none l k : index_listing l !! k = None <-> Forall (fun e => key e <> k) l.
Proof.
  induction l as [|x l IH] using rev_ind; [by split|].
  rewrite index_listing_app, lookup_insert_None, Forall_app, Forall_singleton. tauto.
Qed.

Section Facts.
Context {jv : Type} `{JL : JsonLaws jv} {D : Type}.
Variable blake3_hex : list ascii -> string.
Variable occurred_at_from_millis : Z -> option string.
Variable serde_error : jv -> string.

Abbreviation Inv := (Inventory (jv := jv) (D := D)).
Abbreviation dig := (digest blake3_hex).
Abbreviation finds := (find_changes (jv := jv) (D := D) blake3_hex).
Abbreviation poll_ := (poll (jv := jv) (D := D) blake3_hex occurred_at_from_millis).
Abbreviation emits := (emit_loop (jv := jv) (D := D) blake3_hex occurred_at_from_millis).
Implicit Types i j : Inv.

(** ** Cursors *)

Lemma cursor_roundtrip_aux c :
  0 <= c_v c <= u64_max -> 0 <= c_seq c <= u64_max ->
  cursor_from_value serde_error (cursor_to_value c) = Ok c.
Proof.
  intros Hv Hs. unfold cursor_from_value, cursor_to_value. rewrite j_as_obj_obj.
  unfold make_cursor. destruct c as [v s [snap|]]; simpl in *; simplify_map_eq;
    rewrite !j_as_u64_u64 by done; [|done]. unfold snap_from_value, j_strmap at 1.
  rewrite j_is_null_obj. fold (j_strmap snap). by rewrite j_as_strmap_strmap.
Qed.

Lemma cursor_seq c :
  0 <= c_seq c <= u64_max -> j_get (cursor_to_value c) "seq" ≫= j_as_u64 = Some (c_seq c).
Proof.
  intros Hs. unfold cursor_to_value. rewrite j_get_obj.
  destruct (c_snap c); simplify_map_eq; by rewrite j_as_u64_u64.
Qed.
(** ** Emission *)

(** The confirmed listing after a change. *)
Definition after (m : gmap string string) (c : change) : gmap string string :=
  match c.2 with Some d => <[key c.1.2 := d]> m | None => delete (key c.1.2) m end.

(** The pending entries a run of changes pushes. *)
Fixpoint new_pending (clock : nat -> Z) (at_ : nat) (seq : Z) (cs : list change)
    : list Pending :=
  match cs with
  | [] => []
  | (_, e, d) :: cs =>
      {| p_seq := seq; p_key := key e; p_digest := d; p_at := clock at_ |}
        :: new_pending clock (S at_) (seq + 1) cs
  end.

Definition snap_of (o : InventoryOptions) (m : gmap string string) (take index : nat) (c : change)
    : option (gmap string string) :=
  if decide (index + 1 = take)%nat then
    if str_len (j_print (j_strmap (after m c))) <=? snapshot_bytes o then Some (after m c) else None
  else None.

(** The events of a run of changes: each is its change's event, with its
    sequence number and the snapshot on the last of [take]. *)
Fixpoint reports (i : Inv) (take index : nat) (seq : Z) (cs : list change)
    (evs : list (WatchEvent jv)) : Prop :=
  match cs, evs with
  | [], [] => True
  | (op, e, d) :: cs, ev :: evs =>
      (exists extra, ev = add_details extra
         (event blake3_hex occurred_at_from_millis i op e d seq
            (snap_of (options i) (confirmed i) take index (op, e, d))))
      /\ reports i take (S index) (seq + 1) cs evs
  | _, _ => False
  end.

Definition emitted (w : bool) (n : Z) (ps : list Pending) (i : Inv) : Inv :=
  set_warned w (set_next_seq n (set_pending ps i)).

Lemma reports_ext i j take index seq cs evs :
  options i = options j -> confirmed i = confirmed j ->
  reports i take index seq cs evs -> reports j take index seq cs evs.
Proof.
  intros Ho Hc. revert index seq evs.
  induction cs as [|[[op e] d] cs IH]; intros index seq [|ev evs]; simpl; try done.
  intros [(extra & ->) H]. split; [|by apply IH].
  exists extra. unfold event, event_id_parts. by rewrite Ho, Hc.
Qed.

Lemma snapshot_spec i k d :
  exists w, snapshot i k d =
    (set_warned w i,
     if str_len (j_print (j_strmap (match d with Some d => <[k := d]> (confirmed i)
                                    | None => delete k (confirmed i) end)))
        <=? snapshot_bytes (options i)
     then Some (match d with Some d => <[k := d]> (confirmed i)
                | None => delete k (confirmed i) end)
     else None).
Proof.
  unfold snapshot. case_match; [exists (warned i)|by exists true]. by destruct i.
Qed.

Lemma emit_loop_spec clock at_ take index cs extras i :
  0 <= next_seq i -> next_seq i + Z.of_nat (length cs) <= u64_max ->
  exists w evs,
    emits clock at_ take index cs extras i =
      (emitted w (next_seq i + Z.of_nat (length cs))
         (pending i ++ new_pending clock at_ (next_seq i) cs) i, evs)
    /\ reports i take index (next_seq i) cs evs.
Proof.
  revert at_ index extras i. induction cs as [|[[op e] d] cs IH]; intros at_ index extras i H0 Hn.
  - exists (warned i), []. simpl. rewrite Z.add_0_r, app_nil_r. by destruct i.
  - cbn [emit_loop length] in *.
    assert (Hu : as_u64 (next_seq i + 1) = next_seq i + 1)
      by (unfold as_u64, u64_max in *; apply Z.mod_small; lia).
    rewrite Hu. set (p := {| p_seq := next_seq i; p_key := key e; p_digest := d; p_at := clock at_ |}).
    set (i1 := set_pending _ _).
    assert (exists w, (if decide (index + 1 = take)%nat then snapshot i1 (key e) d else (i1, None))
      = (set_warned w i1, snap_of (options i) (confirmed i) take index (op, e, d))) as [w ->].
    { unfold snap_of. destruct (decide _); [|by exists (warned i1); destruct i].
      destruct (snapshot_spec i1 (key e) d) as [w ->]. by exists w. }
    set (ev := add_details _ _).
    destruct (IH (S at_) (S index) (delete (key e) extras) (set_warned w i1))
      as (w' & evs & -> & Hr); [simpl; lia..|].
    exists w', (ev :: evs). split.
    + f_equal. unfold emitted. simpl. rewrite <- app_assoc.
      replace (next_seq i + 1 + Z.of_nat (length cs))
        with (next_seq i + Z.of_nat (S (length cs))) by lia. done.
    + split; [by eexists|]. eapply reports_ext; [| |exact Hr]; done.
Qed.

Lemma reports_length i take index seq cs evs :
  reports i take index seq cs evs -> length evs = length cs.
Proof.
  revert index seq evs. induction cs as [|[[op e] d] cs IH]; intros index seq [|ev evs]; try done.
  simpl. intros [_ H]. f_equal. eauto.
Qed.

Lemma add_details_frame extra (ev : WatchEvent jv) :
  event_id (add_details extra ev) = event_id ev
  /\ event_type (add_details extra ev) = event_type ev
  /\ upstream_cursor (add_details extra ev) = upstream_cursor ev
  /\ ev_gap (add_details extra ev) = ev_gap ev.
Proof. unfold add_details. repeat case_match; done. Qed.

(** ** Acknowledgements *)

Definition confirm (i : Inv) (p : Pending) : Inv :=
  match p_digest p with
  | Some d => set_confirmed (<[p_key p := d]> (confirmed i)) i
  | None => set_seen (delete (p_key p) (seen i)) (set_confirmed (delete (p_key p) (confirmed i)) i)
  end.

Lemma acknowledged_spec i pos n seq p :
  j_get pos "seq" ≫= j_as_u64 = Some seq ->
  StronglySorted Z.lt (p_seq <$> pending i) ->
  pending i !! n = Some p -> p_seq p = seq ->
  acknowledged i pos = confirm (set_pending (drop (S n) (pending i)) i) p.
Proof.
  intros Hpos Hs Hp Hseq. unfold acknowledged. rewrite Hpos.
  assert (Hlow : forall m q, (m < n)%nat -> pending i !! m = Some q -> p_seq q < seq).
  { intros m q Hm Hq. rewrite <- Hseq.
    apply (sorted_lookup Z.lt _ m n (p_seq q) (p_seq p) Hs);
      [done|by rewrite list_lookup_fmap, Hq|by rewrite list_lookup_fmap, Hp]. }
  assert (Hhigh : forall m q, (n < m)%nat -> pending i !! m = Some q -> seq < p_seq q).
  { intros m q Hm Hq. rewrite <- Hseq.
    apply (sorted_lookup Z.lt _ n m (p_seq p) (p_seq q) Hs);
      [done|by rewrite list_lookup_fmap, Hp|by rewrite list_lookup_fmap, Hq]. }
  assert (list_find (fun p => p_seq p = seq) (pending i) = Some (n, p)) as ->.
  { apply list_find_Some. split; [done|]. split; [done|]. intros m q Hq Hm.
    apply Hlow in Hq; [|done]. lia. }
  assert (List.filter (fun p => seq <? p_seq p) (delete n (pending i)) = drop (S n) (pending i)) as ->.
  { rewrite delete_take_drop, List.filter_app. rewrite (filter_nothing _ (take n _)).
    - apply filter_everything. intros q Hq. apply list_elem_of_lookup in Hq as [m Hq].
      rewrite lookup_drop in Hq. apply Z.ltb_lt. eapply Hhigh; [|done]. lia.
    - intros q Hq. apply list_elem_of_lookup in Hq as [m Hq].
      apply lookup_take_Some in Hq as [Hq Hm]. apply Z.ltb_ge.
      apply Hlow in Hq; [lia|done]. }
  unfold confirm. by destruct (p_digest p).
Qed.

(** ** What a listing shows *)

Definition keyed (m : gmap string ObjectEntry) : Prop := map_Forall (fun k e => key e = k) m.

Lemma keyed_index l : keyed (index_listing l).
Proof. intros k e H. by apply index_listing_key in H as [? _]. Qed.

(** The specification of a poll's changes. *)
Definition shows (i : Inv) (current : gmap string ObjectEntry) (c : change) : Prop :=
  let '(op, e, d) := c in
  pending_digest (pending i) (key e) <> Some d /\
  match op with
  | Created => current !! key e = Some e /\ confirmed i !! key e = None /\ d = Some (dig e)
  | Modified => current !! key e = Some e /\ d = Some (dig e)
                /\ exists known, confirmed i !! key e = Some known /\ known <> dig e
  | Deleted => current !! key e = None /\ is_Some (confirmed i !! key e) /\ d = None
               /\ e = default (default_entry (key e)) (seen i !! key e)
               /\ quiet_removals i = false
  end.

Lemma elem_of_filter_bool {A} (f : A -> bool) l x : x ∈ List.filter f l <-> x ∈ l /\ f x = true.
Proof. rewrite !list_elem_of_In. apply filter_In. Qed.

Lemma alive_shows i current c :
  keyed current ->
  c ∈ omap (alive_change blake3_hex i) (btree_list current) <-> shows i current c /\ c.1.1 <> Deleted.
Proof.
  intros Hk. rewrite list_elem_of_omap. destruct c as [[op e] d]. split.
  - intros ([k e'] & Hin%btree_elem & Hc). assert (Hke : key e' = k) by exact (Hk _ _ Hin). subst k.
    unfold alive_change in Hc. destruct (decide _) as [|Hp]; [done|].
    destruct (confirmed i !! key e') as [known|] eqn:Ec; [destruct (decide _); [done|]|];
      injection Hc as <- <- <-; simpl; repeat split; eauto.
  - intros [Hs Hop]. exists (key e, e). rewrite btree_elem. cbn in *.
    destruct Hs as [Hp Hs]. destruct op; [destruct Hs as (Hc & Hn & ->)| |done].
    + split; [done|]. rewrite decide_False by done. by rewrite Hn.
    + destruct Hs as (Hc & -> & known & Hn & Hne). split; [done|].
      rewrite decide_False by done. rewrite Hn. by rewrite decide_False.
Qed.

Definition deletion (i : Inv) (k : string) : change :=
  (Deleted, default (default_entry k) (seen i !! k), None).

Lemma gone_loop_spec gone i :
  exists s m, gone_loop i gone =
    (set_seen s (set_confirmed m i), if quiet_removals i then [] else deletion i <$> gone)
    /\ s ⊆ seen i
    /\ (quiet_removals i = false -> s = seen i /\ m = confirmed i)
    /\ (forall k, k ∉ gone -> m !! k = confirmed i !! k)
    /\ (quiet_removals i = true -> forall k, k ∈ gone -> m !! k = None).
Proof.
  revert i. induction gone as [|k gone IH]; intros i.
  - exists (seen i), (confirmed i). split; [by destruct (quiet_removals i) eqn:E; destruct i; simpl in *; subst|].
    repeat split; try done. intros _ k Hk. by apply not_elem_of_nil in Hk.
  - cbn [gone_loop]. destruct (quiet_removals i) eqn:Eq.
    + set (i1 := set_seen _ _). destruct (IH i1) as (s & m & -> & Hs & _ & Hm & Hg).
      change (quiet_removals i1) with (quiet_removals i). rewrite Eq.
      exists s, m. split; [done|]. split; [etrans; [exact Hs|apply delete_subseteq]|].
      split; [done|]. specialize (Hg Eq). split.
      * intros k' [Hne Hk']%not_elem_of_cons. rewrite Hm by done. simpl. by apply lookup_delete_ne.
      * intros _ k' [->|Hk']%elem_of_cons; [|by apply Hg].
        destruct (decide (k ∈ gone)); [by apply Hg|]. rewrite Hm by done. simpl. by apply lookup_delete_eq.
    + destruct (IH i) as (s & m & -> & Hs & Hq & Hm & _). rewrite Eq in *.
      destruct (Hq eq_refl) as [-> ->]. exists (seen i), (confirmed i). by repeat split.
Qed.

Lemma gone_keys_spec i current k :
  k ∈ gone_keys i current <->
  current !! k = None /\ is_Some (confirmed i !! k) /\ pending_digest (pending i) k <> Some None.
Proof.
  unfold gone_keys. rewrite elem_of_filter_bool, btree_keys_elem, andb_true_iff, !bool_decide_eq_true.
  tauto.
Qed.

Lemma deletion_key i k : keyed (seen i) -> key (deletion i k).1.2 = k.
Proof. intros Hk. unfold deletion. simpl. destruct (seen i !! k) eqn:E; [by apply Hk|done]. Qed.

(** [find_changes] against its specification. *)
Lemma finds_spec i current :
  keyed current -> keyed (seen i) ->
  exists s m cs, finds i current = (set_seen s (set_confirmed m i), cs)
    /\ s ⊆ seen i
    /\ (quiet_removals i = false -> s = seen i /\ m = confirmed i)
    /\ (forall k, is_Some (current !! k) -> m !! k = confirmed i !! k)
    /\ (forall c, c ∈ cs <-> shows i current c).
Proof.
  intros Hc Hs. unfold find_changes.
  destruct (gone_loop_spec (gone_keys i current) i) as (s & m & -> & Hsub & Hq & Hm & _).
  eexists s, m, _. split; [done|]. split; [done|]. split; [done|]. split.
  { intros k [e He]. apply Hm. rewrite gone_keys_spec. rewrite He. by intros [? _]. }
  intros c. rewrite elem_of_app, alive_shows by done. destruct (quiet_removals i) eqn:Eq.
  - rewrite elem_of_nil. split; [intros [[Hsh _]|Hf]; [exact Hsh|done]|]. intros Hsh. left. split; [done|].
    destruct c as [[[] e] d]; try done. simpl in Hsh. destruct Hsh as (_ & _ & _ & _ & _ & Hf). by rewrite Hf in Eq.
  - rewrite list_elem_of_fmap. split.
    + intros [[? _]|(k & -> & Hk)]; [done|]. apply gone_keys_spec in Hk as (Hk & Hcf & Hp).
      pose proof (deletion_key i k Hs) as Hdk. unfold shows. unfold deletion in *. simpl in Hdk |- *.
      rewrite Hdk. by repeat split.
    + intros Hsh. destruct (decide (c.1.1 = Deleted)) as [Ed|]; [right|by left].
      destruct c as [[op e] d]. simpl in Ed. subst op. destruct Hsh as (Hp & Hk & Hcf & -> & He & _).
      exists (key e). unfold deletion. rewrite <- He. split; [done|]. by apply gone_keys_spec.
Qed.

Lemma finds_keys_NoDup i current :
  keyed current -> keyed (seen i) -> NoDup ((fun c => key c.1.2) <$> (finds i current).2).
Proof.
  intros Hc Hs. unfold find_changes.
  destruct (gone_loop_spec (gone_keys i current) i) as (s & m & -> & _).
  simpl. rewrite fmap_app. apply NoDup_app. split; [|split].
  - assert (Hsub : ((fun c => key c.1.2) <$> omap (alive_change blake3_hex i) (btree_list current))
      `sublist_of` (btree_list current).*1).
    { assert (Hall : Forall (fun ke => key ke.2 = ke.1) (btree_list current)).
      { apply Forall_forall. intros [k e] H%btree_elem. by apply Hc. }
      induction Hall as [|[k e] l Hke Hall IH]; [constructor|]. simpl in Hke. subst k.
      cbn [omap list_omap]. destruct (alive_change _ _ _) as [c|] eqn:Ea; [|by apply sublist_cons].
      cbn. assert (key c.1.2 = key e) as ->; [|by apply sublist_skip].
      cbn in Ea. repeat case_match; by simplify_eq. }
    eapply sublist_NoDup; [apply (btree_keys_NoDup current)|exact Hsub].
  - intros k (c & -> & Hin)%list_elem_of_fmap Hg.
    apply alive_shows in Hin as [Hsh Hop]; [|done]. destruct c as [[op e] d]; simpl in *.
    destruct (quiet_removals i); [by apply elem_of_nil in Hg|].
    apply list_elem_of_fmap in Hg as (c' & Hk & (k' & -> & Hk')%list_elem_of_fmap).
    rewrite deletion_key in Hk by done. subst k'. apply gone_keys_spec in Hk' as [Hn _].
    destruct op; [| |done]; destruct Hsh as (_ & Hcur & _); by rewrite Hcur in Hn.
  - destruct (quiet_removals i); [constructor|].
    rewrite <- list_fmap_compose. rewrite (list_fmap_ext _ id).
    + rewrite list_fmap_id. apply NoDup_ListNoDup, List.NoDup_filter, NoDup_ListNoDup.
      apply (btree_keys_NoDup (confirmed i)).
    + intros ? k _. by apply deletion_key.
Qed.

(** ** One poll *)

Lemma finds_changes i current :
  (finds i current).2 = omap (alive_change blake3_hex i) (btree_list current)
    ++ (if quiet_removals i then [] else deletion i <$> gone_keys i current).
Proof.
  unfold find_changes. by destruct (gone_loop_spec (gone_keys i current) i) as (s & m & -> & _).
Qed.

Lemma details_frame i cs i2 ex :
  details i cs = (i2, ex) ->
  options i2 = options i /\ confirmed i2 = confirmed i /\ seen i2 = seen i
  /\ pending i2 = pending i /\ next_seq i2 = next_seq i /\ baseline i2 = baseline i
  /\ inv_gap i2 = inv_gap i /\ quiet_removals i2 = quiet_removals i.
Proof.
  unfold details. repeat case_match; intros; simplify_eq; by repeat split.
Qed.

Lemma retain_sublist clock t n ps : retain_fresh clock t n ps `sublist_of` ps.
Proof.
  revert n. induction ps as [|p ps IH]; intros n; simpl; [done|].
  case_match; [by apply sublist_skip|by apply sublist_cons].
Qed.

(** The pending changes a poll keeps, and the changes it then finds. *)
Definition kept (clock : nat -> Z) (i : Inv) : list Pending :=
  retain_fresh clock (ack_timeout (options i)) 0 (pending i).

Definition found (clock : nat -> Z) (i : Inv) (l : list ObjectEntry) : list change :=
  (finds (set_pending (kept clock i) i) (index_listing l)).2.

Definition taken (clock : nat -> Z) (i : Inv) (l : list ObjectEntry) : list change :=
  take (max_in_flight (options i) - length (kept clock i)) (found clock i l).

Definition gap_events (i : Inv) : list (WatchEvent jv) := if inv_gap i then [gap_event] else [].

Lemma taken_length clock i l :
  (length (taken clock i l) <= max_in_flight (options i) - length (kept clock i))%nat.
Proof. unfold taken. rewrite length_take. lia. Qed.

Lemma poll_spec clock i l :
  baseline i <> Silent -> keyed (seen i) ->
  0 <= next_seq i -> next_seq i + Z.of_nat (max_in_flight (options i)) <= u64_max ->
  exists i' evs, poll_ clock i l = (i', gap_events i ++ evs)
    /\ reports i' (length (taken clock i l)) 0 (next_seq i) (taken clock i l) evs
    /\ options i' = options i /\ baseline i' = Known /\ inv_gap i' = false
    /\ quiet_removals i' = quiet_removals i
    /\ pending i' = kept clock i
         ++ new_pending clock (length (pending i)) (next_seq i) (taken clock i l)
    /\ next_seq i' = next_seq i + Z.of_nat (length (taken clock i l))
    /\ (exists s, s ⊆ seen i /\ seen i' = index_listing l ∪ s
         /\ (quiet_removals i = false -> s = seen i))
    /\ (forall k, is_Some (index_listing l !! k) -> confirmed i' !! k = confirmed i !! k)
    /\ (quiet_removals i = false -> confirmed i' = confirmed i).
Proof.
  intros Hb Hs H0 Hn. unfold poll. rewrite decide_False by done.
  set (i1 := set_baseline Known _).
  pose proof (finds_spec i1 (index_listing l) (keyed_index l) Hs) as (s & m & cs & Hf & Hsub & Hq & Hm & _).
  assert (Hcs : cs = found clock i l).
  { apply (f_equal snd) in Hf. simpl in Hf. rewrite <- Hf. unfold found. by rewrite !finds_changes. }
  rewrite Hf. subst cs. clear Hf.
  assert (Ht : take (length (found clock i l) `min` (max_in_flight (options i) - length (kept clock i)))
                 (found clock i l) = taken clock i l).
  { unfold taken. destruct (Nat.min_spec (length (found clock i l))
      (max_in_flight (options i) - length (kept clock i))) as [[? ->]|[? ->]]; [|done].
    rewrite !take_ge; done || lia. }
  assert (Hlen : (length (found clock i l) `min` (max_in_flight (options i) - length (kept clock i)))%nat
                 = length (taken clock i l)) by (unfold taken; rewrite length_take; lia).
  change (options (set_seen _ _)) with (options i).
  change (pending (set_seen _ _)) with (kept clock i).
  rewrite Ht, Hlen. set (i2 := set_seen _ _).
  destruct (details i2 (taken clock i l)) as [i3 ex] eqn:Ed.
  apply details_frame in Ed as (Eo & Ec & Es & Ep & En & Eb & Eg & Equ). simpl in *.
  destruct (emit_loop_spec clock (length (pending i)) (length (taken clock i l)) 0 (taken clock i l) ex i3)
    as (w & evs & -> & Hr).
  { by rewrite En. } { rewrite En. pose proof (taken_length clock i l). lia. }
  rewrite En in Hr. eexists _, evs. split; [done|]. split; [by eapply reports_ext; [| |exact Hr]|].
  simpl. rewrite Eo, Eb, Eg, Equ, Ep, En, Es, Ec. simpl in Hq, Hm, Hsub.
  repeat split; try done; [|intros Hq'; by apply Hq].
  exists s. repeat split; [done|]. intros Hq'. by apply Hq.
Qed.

(** ** The invariant *)

Record wf (i : Inv) : Prop := {
  wf_window : (length (pending i) <= max_in_flight (options i))%nat;
  wf_sorted : StronglySorted Z.lt (p_seq <$> pending i);
  wf_range : Forall (fun p => 0 <= p_seq p < next_seq i) (pending i);
  wf_next : 0 <= next_seq i;
  wf_seen : keyed (seen i);
}.

Lemma new_pending_length clock at_ seq cs : length (new_pending clock at_ seq cs) = length cs.
Proof. revert at_ seq. induction cs as [|[[op e] d] cs IH]; intros; simpl; auto. Qed.

Lemma new_pending_range clock at_ seq cs :
  Forall (fun p => seq <= p_seq p < seq + Z.of_nat (length cs)) (new_pending clock at_ seq cs).
Proof.
  revert at_ seq. induction cs as [|[[op e] d] cs IH]; intros; cbn [new_pending length]; constructor.
  - simpl. lia.
  - eapply Forall_impl; [apply IH|]. simpl. lia.
Qed.

Lemma new_pending_sorted clock at_ seq cs :
  StronglySorted Z.lt (p_seq <$> new_pending clock at_ seq cs).
Proof.
  revert at_ seq. induction cs as [|[[op e] d] cs IH]; intros; simpl; constructor; [apply IH|].
  apply Forall_fmap. eapply Forall_impl; [apply new_pending_range|]. simpl. lia.
Qed.

(** The state between two operations, given what is kept and pushed. *)
Lemma wf_poll clock i l :
  wf i -> next_seq i + Z.of_nat (max_in_flight (options i)) <= u64_max ->
  wf (poll_ clock i l).1
  /\ next_seq (poll_ clock i l).1 <= next_seq i + Z.of_nat (max_in_flight (options i))
  /\ options (poll_ clock i l).1 = options i.
Proof.
  intros [Hw Hs Hr Hn Hk] Ho.
  pose proof (retain_sublist clock (ack_timeout (options i)) 0 (pending i)) as Hsub.
  fold (kept clock i) in Hsub. pose proof (sublist_length _ _ Hsub) as Hlen.
  assert (Hks : StronglySorted Z.lt (p_seq <$> kept clock i))
    by eauto with sdk.
  assert (Hkr : Forall (fun p => 0 <= p_seq p < next_seq i) (kept clock i))
    by eauto with sdk.
  destruct (decide (baseline i = Silent)) as [Hb|Hb].
  - unfold poll. rewrite decide_True by done. simpl. split; [|split; [lia|done]].
    split; simpl; try done; [unfold kept in *; lia|apply keyed_index].
  - destruct (poll_spec clock i l Hb Hk Hn Ho)
      as (i' & evs & -> & _ & Eo & _ & _ & _ & Ep & En & (s & Hss & Es & _) & _).
    pose proof (taken_length clock i l). simpl. split; [|split; [lia|done]]. split.
    + rewrite Eo, Ep, length_app, new_pending_length. lia.
    + rewrite Ep, fmap_app. apply StronglySorted_app. split; [|split; [done|apply new_pending_sorted]].
      intros a b (p & -> & Hp)%list_elem_of_fmap (q & -> & Hq)%list_elem_of_fmap.
      rewrite Forall_forall in Hkr. specialize (Hkr p Hp).
      pose proof (new_pending_range clock (length (pending i)) (next_seq i) (taken clock i l)) as Hnr.
      rewrite Forall_forall in Hnr. specialize (Hnr q Hq). lia.
    + rewrite Ep, En. apply Forall_app. split; [eapply Forall_impl; [exact Hkr|simpl; lia]|].
      eapply Forall_impl; [apply new_pending_range|simpl; lia].
    + lia.
    + rewrite Es. intros k e. rewrite lookup_union_Some_raw. intros [H'|[_ H']].
      * by apply keyed_index in H'.
      * apply Hk. by eapply lookup_weaken.
Qed.

Lemma wf_ack i pos :
  wf i -> wf (acknowledged i pos)
  /\ next_seq (acknowledged i pos) = next_seq i /\ options (acknowledged i pos) = options i.
Proof.
  intros [Hw Hs Hr Hn Hk]. unfold acknowledged.
  destruct (j_get pos "seq" ≫= j_as_u64) as [seq|]; [|done].
  destruct (list_find _ _) as [[n p]|]; [|done].
  set (ps := List.filter _ _).
  assert (Hsub : ps `sublist_of` pending i).
  { etrans; [apply filter_sublist_of|apply sublist_delete]. }
  pose proof (sublist_length _ _ Hsub).
  assert (StronglySorted Z.lt (p_seq <$> ps))
    by eauto with sdk.
  assert (Forall (fun p => 0 <= p_seq p < next_seq i) ps) by eauto with sdk.
  destruct (p_digest p); (split; [|done]); split; simpl; try done; try lia.
  intros k e [_ H']%lookup_delete_Some. by apply Hk.
Qed.

(** The runs of an engine: a construction, the hooks, then any polls and
    acknowledgements; [n] counts the polls. *)
Inductive engine (o : InventoryOptions) : nat -> Inv -> Prop :=
| engine_new resume i : new serde_error o resume = Ok i -> engine o 0 i
| engine_describe d i : engine o 0 i -> engine o 0 (with_describe d i)
| engine_quiet i : engine o 0 i -> engine o 0 (with_quiet_removals i)
| engine_poll n clock l i : engine o n i -> engine o (S n) (poll_ clock i l).1
| engine_ack n pos i : engine o n i -> engine o n (acknowledged i pos).

Lemma new_ok o resume i :
  new serde_error o resume = Ok i ->
  options i = o /\ seen i = ∅ /\ pending i = [] /\ next_seq i = 0 /\ quiet_removals i = false.
Proof.
  unfold new. repeat case_match; intros; simplify_eq; by repeat split.
Qed.

Lemma engine_wf o n i :
  engine o n i -> Z.of_nat n * Z.of_nat (max_in_flight o) <= u64_max ->
  wf i /\ next_seq i <= Z.of_nat n * Z.of_nat (max_in_flight o) /\ options i = o.
Proof.
  induction 1 as [resume i H|d i _ IH|i _ IH|n clock l i _ IH|n pos i _ IH]; intros Hn.
  - apply new_ok in H as (Eo & Es & Ep & En & _). split; [|split; [lia|done]].
    split; rewrite ?Ep, ?Es; simpl; try lia;
      [apply SSorted_nil|by apply Forall_nil|done].
  - destruct (IH Hn) as ([] & ? & ?). by split.
  - destruct (IH Hn) as ([] & ? & ?). by split.
  - destruct IH as (Hw & Hle & Ho); [nia|].
    destruct (wf_poll clock i l Hw) as (Hw' & Hle' & Ho'); [rewrite Ho; nia|].
    rewrite Ho in *. split; [done|]. split; [nia|congruence].
  - destruct (IH Hn) as (Hw & Hle & Ho). destruct (wf_ack i pos Hw) as (Hw' & -> & ->). done.
Qed.

(** ** Acknowledging a run of events *)

Definition ack_all (i : Inv) (evs : list (WatchEvent jv)) : Inv :=
  foldl acknowledged i (omap upstream_cursor evs).

Lemma reports_cursor i take index seq op e d cs ev evs :
  reports i take index seq ((op, e, d) :: cs) (ev :: evs) ->
  upstream_cursor ev = Some (cursor_to_value {| c_v := CURSOR_VERSION; c_seq := seq;
    c_snap := snap_of (options i) (confirmed i) take index (op, e, d) |}).
Proof.
  intros [(extra & ->) _].
  destruct (add_details_frame extra (event blake3_hex occurred_at_from_millis i op e d seq
    (snap_of (options i) (confirmed i) take index (op, e, d)))) as (_ & _ & -> & _). done.
Qed.

Lemma confirm_after i op e d seq at_ :
  let i' := confirm i {| p_seq := seq; p_key := key e; p_digest := d; p_at := at_ |} in
  confirmed i' = after (confirmed i) (op, e, d) /\ pending i' = pending i
  /\ options i' = options i /\ baseline i' = baseline i /\ inv_gap i' = inv_gap i
  /\ quiet_removals i' = quiet_removals i /\ next_seq i' = next_seq i /\ seen i' ⊆ seen i.
Proof.
  unfold confirm. destruct d; simpl; repeat split; try done. apply delete_subseteq.
Qed.

Lemma ack_all_reports clock at_ j take index seq cs evs i :
  reports j take index seq cs evs -> pending i = new_pending clock at_ seq cs ->
  0 <= seq -> seq + Z.of_nat (length cs) <= u64_max ->
  let i' := ack_all i evs in
  confirmed i' = foldl after (confirmed i) cs /\ pending i' = []
  /\ options i' = options i /\ baseline i' = baseline i /\ inv_gap i' = inv_gap i
  /\ quiet_removals i' = quiet_removals i /\ next_seq i' = next_seq i /\ seen i' ⊆ seen i.
Proof.
  revert at_ index seq evs i. induction cs as [|[[op e] d] cs IH]; intros at_ index seq [|ev evs] i Hr Hp H0 Hn;
    [by repeat split|done|done|].
  pose proof (reports_cursor _ _ _ _ _ _ _ _ _ _ Hr) as Hc. destruct Hr as [_ Hr].
  unfold ack_all. cbn [omap list_omap]. rewrite Hc. cbn [foldl]. cbn [length] in Hn.
  assert (Hs : StronglySorted Z.lt (p_seq <$> pending i)) by (rewrite Hp; apply new_pending_sorted).
  erewrite (acknowledged_spec i _ 0); [|apply cursor_seq; simpl; lia|done|by rewrite Hp|done].
  rewrite Hp. cbn [drop]. set (i1 := set_pending _ i).
  destruct (confirm_after i1 op e d seq (clock at_)) as (Ec & Ep & Eo & Eb & Eg & Eq & En & Es).
  set (i2 := confirm i1 _) in *.
  destruct (IH (S at_) (S index) (seq + 1) evs i2) as (Ec' & Ep' & Eo' & Eb' & Eg' & Eq' & En' & Es');
    [done|by rewrite Ep|lia|lia|].
  fold (ack_all i2 evs). simpl foldl. rewrite Ec', Ec. split_and!; [done|done|by rewrite Eo', Eo
    |by rewrite Eb', Eb|by rewrite Eg', Eg|by rewrite Eq', Eq|by rewrite En', En|by etrans].
Qed.

(** ** Convergence *)

Definition target (l : list ObjectEntry) : gmap string string := dig <$> index_listing l.

(** The keys whose confirmed digest is not the listed one. *)
Definition stale (m : gmap string string) (l : list ObjectEntry) : gset string :=
  filter (fun k => m !! k <> target l !! k) (dom m ∪ dom (target l)).

Lemma elem_stale m l k : k ∈ stale m l <-> m !! k <> target l !! k.
Proof.
  unfold stale. rewrite elem_of_filter, elem_of_union, !elem_of_dom.
  split; [by intros [? _]|]. intros Hne. split; [done|].
  destruct (m !! k), (target l !! k); try done; eauto.
Qed.

Lemma stale_empty m l : stale m l = ∅ -> m = target l.
Proof.
  intros He. apply map_eq. intros k. apply dec_stable. rewrite <- elem_stale, He.
  apply not_elem_of_empty.
Qed.

Lemma foldl_after_lookup cs m k :
  NoDup ((fun c : change => key c.1.2) <$> cs) ->
  (forall c, c ∈ cs -> key c.1.2 = k -> foldl after m cs !! k = c.2)
  /\ (k ∉ (fun c : change => key c.1.2) <$> cs -> foldl after m cs !! k = m !! k).
Proof.
  revert m. induction cs as [|c cs IH]; intros m Hnd; simpl.
  { split; [|done]. intros c Hc. by apply not_elem_of_nil in Hc. }
  apply NoDup_cons in Hnd as [Hc Hnd]. destruct (IH (after m c) Hnd) as [IH1 IH2]. split.
  - intros c' [->|Hc']%elem_of_cons Hk; [|by apply IH1]. rewrite IH2 by (by rewrite <- Hk).
    unfold after. destruct (c.2); subst k; [apply lookup_insert_eq|apply lookup_delete_eq].
  - intros [Hk Hk']%not_elem_of_cons. rewrite IH2 by done. unfold after.
    destruct (c.2); [apply lookup_insert_ne|apply lookup_delete_ne]; done.
Qed.

(** With nothing pending, a poll finds the stale keys, each once, with the
    digest the listing gives. *)
Lemma found_stale clock i l :
  kept clock i = [] -> keyed (seen i) -> quiet_removals i = false ->
  (forall k, k ∈ (fun c : change => key c.1.2) <$> found clock i l <-> k ∈ stale (confirmed i) l)
  /\ (forall c, c ∈ found clock i l -> c.2 = target l !! key c.1.2).
Proof.
  intros Hp Hs Hq. unfold found. rewrite Hp.
  destruct (finds_spec (set_pending [] i) (index_listing l) (keyed_index l) Hs)
    as (s & m & cs & -> & _ & _ & _ & Hcs). simpl.
  assert (Htgt : forall c, c ∈ cs -> c.2 = target l !! key c.1.2
                   /\ confirmed i !! key c.1.2 <> c.2).
  { intros [[op e] d] Hc%Hcs. unfold target. rewrite lookup_fmap. simpl.
    destruct op; simpl in Hc.
    - destruct Hc as (_ & -> & -> & ->). done.
    - destruct Hc as (_ & -> & -> & known & -> & Hne). split; [done|congruence].
    - destruct Hc as (_ & -> & [x ->] & -> & _). done. }
  split; [|intros c Hc; by apply Htgt]. intros k. rewrite elem_stale, list_elem_of_fmap. split.
  - intros (c & -> & Hc). destruct (Htgt c Hc) as [<- ?]. done.
  - intros Hne. unfold target in Hne. rewrite lookup_fmap in Hne.
    destruct (index_listing l !! k) as [e|] eqn:Ee; simpl in Hne.
    + pose proof (keyed_index l _ _ Ee) as Hk. simpl in Hk. subst k.
      destruct (confirmed i !! key e) as [known|] eqn:Ec.
      * exists (Modified, e, Some (dig e)). split; [done|]. apply Hcs. simpl.
        repeat split; try done. exists known. split; [done|congruence].
      * exists (Created, e, Some (dig e)). split; [done|]. by apply Hcs.
    + exists (deletion i k). pose proof (deletion_key i k Hs) as Hk. split; [done|].
      apply Hcs. unfold shows, deletion in *. simpl in Hk |- *. rewrite Hk.
      repeat split; try done. destruct (confirmed i !! k); [by eexists|done].
Qed.

(** An engine at rest: everything reported is confirmed or dropped. *)
Record settled (i : Inv) : Prop := {
  st_baseline : baseline i <> Silent;
  st_pending : pending i = [];
  st_seen : keyed (seen i);
  st_next : 0 <= next_seq i;
  st_loud : quiet_removals i = false;
}.

Lemma kept_nil clock i : pending i = [] -> kept clock i = [].
Proof. unfold kept. by intros ->. Qed.

(** A poll and the acknowledgement of what it reported. *)
Definition round (clock : nat -> Z) (i : Inv) (l : list ObjectEntry) : Inv :=
  let '(i, evs) := poll_ clock i l in ack_all i evs.

Lemma round_spec clock i l :
  settled i -> next_seq i + Z.of_nat (max_in_flight (options i)) <= u64_max ->
  settled (round clock i l) /\ options (round clock i l) = options i
  /\ next_seq (round clock i l) <= next_seq i + Z.of_nat (max_in_flight (options i))
  /\ confirmed (round clock i l)
      = foldl after (confirmed i) (take (max_in_flight (options i)) (found clock i l)).
Proof.
  intros [Hb Hp Hs H0 Hq] Hn. unfold round.
  destruct (poll_spec clock i l Hb Hs H0 Hn)
    as (i' & evs & -> & Hr & Eo & Eb & Eg & Equ & Ep & En & (s & Hss & Es & _) & _ & Ec).
  assert (ack_all i' (gap_events i ++ evs) = ack_all i' evs) as ->.
  { unfold ack_all, gap_events. by destruct (inv_gap i). }
  rewrite (kept_nil _ _ Hp) in Ep. simpl in Ep.
  pose proof (taken_length clock i l) as Hlen. rewrite (kept_nil _ _ Hp), Nat.sub_0_r in Hlen.
  destruct (ack_all_reports _ _ _ _ _ _ _ _ _ Hr Ep) as (Ac & Ap & Ao & Ab & Ag & Aq & An & As);
    [lia|lia|].
  rewrite Ac, Ec by done. rewrite Ao, Eo, An, En. unfold taken at 2.
  rewrite (kept_nil _ _ Hp), Nat.sub_0_r. split; [|split; [done|split; [lia|done]]].
  split; rewrite ?Ab, ?Ap, ?Aq, ?An, ?Eb, ?En, ?Equ; try done; [|lia].
  intros k e Hk. apply (lookup_weaken _ _ _ _ Hk) in As. rewrite Es in As.
  apply lookup_union_Some_raw in As as [H'|[_ H']]; [by apply keyed_index in H'|].
  apply Hs. exact (lookup_weaken _ _ _ _ H' Hss).
Qed.

Lemma NoDup_take {A} n (l : list A) : NoDup l -> NoDup (take n l).
Proof. intros H. rewrite <- (take_drop n l) in H. by apply NoDup_app in H as [H _]. Qed.

(** Each round removes as many stale keys as the window lets through. *)
Lemma round_stale clock i l :
  settled i -> next_seq i + Z.of_nat (max_in_flight (options i)) <= u64_max ->
  (stdpp.base.size (stale (confirmed (round clock i l)) l)
   <= stdpp.base.size (stale (confirmed i) l) - max_in_flight (options i))%nat.
Proof.
  intros Hi Hn. destruct (round_spec clock i l Hi Hn) as (_ & _ & _ & ->).
  destruct Hi as [Hb Hp Hs H0 Hq]. pose proof (kept_nil clock i Hp) as Hk.
  destruct (found_stale clock i l Hk Hs Hq) as [Hkeys Hval].
  set (cs := found clock i l) in *. set (n := max_in_flight (options i)).
  assert (Hnd : NoDup ((fun c => key c.1.2) <$> cs)).
  { unfold cs, found. apply finds_keys_NoDup; [apply keyed_index|done]. }
  assert (Hndt : NoDup ((fun c => key c.1.2) <$> take n cs))
    by (rewrite fmap_take; by apply NoDup_take).
  pose proof (fun k => foldl_after_lookup (take n cs) (confirmed i) k Hndt) as Hfold.
  set (done_keys := list_to_set ((fun c => key c.1.2) <$> take n cs) : gset string).
  assert (Hsub : done_keys ⊆ stale (confirmed i) l).
  { intros k Hk'%elem_of_list_to_set. apply Hkeys. rewrite fmap_take in Hk'.
    by apply elem_of_take in Hk' as (? & ?%list_elem_of_lookup_2 & _). }
  assert (Hst : stale (foldl after (confirmed i) (take n cs)) l ⊆ stale (confirmed i) l ∖ done_keys).
  { intros k Hk'%elem_stale. destruct (Hfold k) as [Hin Hout].
    destruct (decide (k ∈ (fun c => key c.1.2) <$> take n cs)) as [Hd|Hd].
    - destruct Hk'. apply list_elem_of_fmap in Hd as (c & -> & Hc).
      rewrite (Hin c Hc eq_refl). apply Hval. by apply subseteq_take in Hc.
    - rewrite Hout in Hk' by done. apply elem_of_difference. rewrite elem_stale.
      split; [done|]. unfold done_keys. by rewrite elem_of_list_to_set. }
  assert (Hcard : stdpp.base.size done_keys = Nat.min n (stdpp.base.size (stale (confirmed i) l))).
  { unfold done_keys. rewrite size_list_to_set by done. rewrite length_fmap, length_take. f_equal.
    rewrite <- (length_fmap (fun c => key c.1.2) cs), <- (size_list_to_set (C:=gset string)) by done.
    f_equal. apply set_eq. intros k. by rewrite elem_of_list_to_set. }
  apply subseteq_size in Hst. rewrite size_difference in Hst by done. lia.
Qed.

Fixpoint rounds (clock : nat -> nat -> Z) (n : nat) (i : Inv) (l : list ObjectEntry) : Inv :=
  match n with O => i | S n => rounds clock n (round (clock n) i l) l end.

Lemma rounds_spec clock n i l :
  settled i -> next_seq i + Z.of_nat n * Z.of_nat (max_in_flight (options i)) <= u64_max ->
  settled (rounds clock n i l) /\ options (rounds clock n i l) = options i
  /\ next_seq (rounds clock n i l) <= next_seq i + Z.of_nat n * Z.of_nat (max_in_flight (options i))
  /\ (stdpp.base.size (stale (confirmed (rounds clock n i l)) l)
      <= stdpp.base.size (stale (confirmed i) l) - n * max_in_flight (options i))%nat.
Proof.
  revert i. induction n as [|n IH]; intros i Hi Hn; cbn [rounds].
  { split; [done|]. split; [done|]. split; lia. }
  pose proof (st_next i Hi).
  destruct (round_spec (clock n) i l Hi) as (Hi' & Ho & Hle & _); [nia|].
  pose proof (round_stale (clock n) i l Hi ltac:(nia)) as Hst.
  destruct (IH _ Hi') as (? & Ho' & Hle' & Hst'); [rewrite Ho; nia|]. rewrite Ho in *.
  split; [done|]. split; [done|]. split; [lia|]. lia.
Qed.

Definition change_id (o : InventoryOptions) (c : change) : string :=
  ("obj-" ++ String.substring 0 32 (blake3_hex (hash_input
     [store o; location o; key c.1.2; quoted (op_str c.1.1); default ""%string c.2])))%string.

Lemma reports_lookup i take index seq cs evs n ev :
  reports i take index seq cs evs -> evs !! n = Some ev ->
  exists op e d extra, cs !! n = Some (op, e, d)
    /\ ev = add_details extra (event blake3_hex occurred_at_from_millis i op e d
         (seq + Z.of_nat n) (snap_of (options i) (confirmed i) take (index + n) (op, e, d))).
Proof.
  revert index seq evs n. induction cs as [|[[op e] d] cs IH]; intros index seq [|x evs] n Hr Hn;
    [done|done|done|].
  destruct Hr as [(extra & ->) Hr]. destruct n as [|n]; simpl in Hn.
  - injection Hn as <-. exists op, e, d, extra. by rewrite Nat.add_0_r, Z.add_0_r.
  - destruct (IH _ _ _ _ Hr Hn) as (op' & e' & d' & extra' & Hc & ->).
    exists op', e', d', extra'. split; [done|]. do 2 f_equal; [lia|f_equal; lia].
Qed.

Lemma reports_ids i take index seq cs evs :
  reports i take index seq cs evs -> event_id <$> evs = (Some ∘ change_id (options i)) <$> cs.
Proof.
  intros Hr. apply list_eq. intros n. rewrite !list_lookup_fmap.
  pose proof (reports_length _ _ _ _ _ _ Hr) as Hl.
  destruct (evs !! n) as [ev|] eqn:En.
  - destruct (reports_lookup _ _ _ _ _ _ _ _ Hr En) as (op & e & d & extra & -> & ->). simpl.
    f_equal. destruct (add_details_frame extra (event blake3_hex occurred_at_from_millis i op e d
      (seq + Z.of_nat n) (snap_of (options i) (confirmed i) take (index + n) (op, e, d)))) as (-> & _).
    done.
  - apply lookup_ge_None in En. rewrite (proj2 (lookup_ge_None _ _)); [done|lia].
Qed.

Lemma new_pending_lookup clock at_ seq cs n op e d :
  cs !! n = Some (op, e, d) ->
  new_pending clock at_ seq cs !! n
  = Some {| p_seq := seq + Z.of_nat n; p_key := key e; p_digest := d; p_at := clock (at_ + n)%nat |}.
Proof.
  revert at_ seq n. induction cs as [|[[op' e'] d'] cs IH]; intros at_ seq [|n] Hn; simplify_eq/=.
  - by rewrite Z.add_0_r, Nat.add_0_r.
  - rewrite (IH _ _ _ Hn), <- Nat.add_succ_comm.
    by replace (seq + 1 + Z.of_nat n) with (seq + Z.of_nat (S n)) by lia.
Qed.

Lemma poll_nothing clock i l :
  baseline i <> Silent -> keyed (seen i) -> 0 <= next_seq i ->
  next_seq i + Z.of_nat (max_in_flight (options i)) <= u64_max ->
  kept clock i = [] -> quiet_removals i = false -> stale (confirmed i) l = ∅ ->
  (poll_ clock i l).2 = gap_events i.
Proof.
  intros Hb Hs H0 Hn Hk Hq He.
  destruct (poll_spec clock i l Hb Hs H0 Hn) as (i' & evs & -> & Hr & _). simpl.
  assert (Hf : found clock i l = []).
  { destruct (found_stale clock i l Hk Hs Hq) as [Hkeys _].
    destruct (found clock i l) as [|c cs]; [done|]. exfalso.
    destruct (Hkeys (key c.1.2)) as [Hin _]. rewrite He in Hin.
    apply (not_elem_of_empty (C:=gset string) (key c.1.2)). apply Hin. left. }
  apply reports_length in Hr. unfold taken in Hr. rewrite Hf, take_nil in Hr.
  destruct evs; [by rewrite app_nil_r|done].
Qed.

(** ** Restarts *)

(** The engine a cursor resumes. *)
Definition resumed (o : InventoryOptions) (c : Cursor) : Inv :=
  {| options := o; confirmed := default ∅ (c_snap c); seen := ∅; pending := []; next_seq := 0;
     baseline := match c_snap c with Some _ => Known | None => Silent end;
     inv_gap := match c_snap c with Some _ => false | None => true end; warned := false;
     describe := None; quiet_removals := false |}.

Lemma new_resumes o c :
  0 <= c_v c <= u64_max -> 0 <= c_seq c <= u64_max ->
  new serde_error o (Some (cursor_to_value c)) = Ok (resumed o c).
Proof.
  intros Hv Hs. unfold new. rewrite cursor_roundtrip_aux by done. by destruct c as [v s [snap|]].
Qed.

(** What an event with a position was made from: its change, the cursor of its
    position, and the entry it has in flight. *)
Lemma sent_position clock i l ev pos :
  wf i -> baseline i <> Silent ->
  next_seq i + Z.of_nat (max_in_flight (options i)) <= u64_max ->
  ev ∈ (poll_ clock i l).2 -> upstream_cursor ev = Some pos ->
  let i' := (poll_ clock i l).1 in
  exists n op e d seq at_, taken clock i l !! n = Some (op, e, d)
    /\ (exists extra snap, ev = add_details extra (event blake3_hex occurred_at_from_millis i' op e d seq snap))
    /\ 0 <= seq <= u64_max
    /\ pos = cursor_to_value {| c_v := CURSOR_VERSION; c_seq := seq;
         c_snap := snap_of (options i') (confirmed i') (length (taken clock i l)) n (op, e, d) |}
    /\ pending i' !! (length (kept clock i) + n)%nat
       = Some {| p_seq := seq; p_key := key e; p_digest := d; p_at := at_ |}.
Proof.
  intros [_ _ _ H0 Hs] Hb Hn Hin Hpos.
  destruct (poll_spec clock i l Hb Hs H0 Hn)
    as (i' & evs & E & Hr & _ & _ & _ & _ & Ep & _). rewrite E in *. simpl in *.
  apply elem_of_app in Hin as [Hin|Hin].
  { unfold gap_events in Hin. destruct (inv_gap i); [|by apply elem_of_nil in Hin].
    apply list_elem_of_singleton in Hin as ->. discriminate Hpos. }
  apply list_elem_of_lookup in Hin as [n Hin].
  destruct (reports_lookup _ _ _ _ _ _ _ _ Hr Hin) as (op & e & d & extra & Hc & ->).
  match type of Hpos with upstream_cursor (add_details _ ?ev) = _ =>
    destruct (add_details_frame extra ev) as (_ & _ & Hcur & _) end.
  rewrite Hcur in Hpos. simpl in Hpos. injection Hpos as <-.
  pose proof (taken_length clock i l) as Hlen. apply lookup_lt_Some in Hc as Hlt.
  eexists n, op, e, d, _, _. split; [exact Hc|]. split; [by eexists _, _|]. split; [|split; [done|]]; [lia|].
  rewrite Ep, lookup_app_r by lia. rewrite Nat.add_comm, Nat.add_sub. by eapply new_pending_lookup.
Qed.

(** ** Properties *)

(** C2. What a poll reports is exact: past the baseline, its events are
    those of a list of changes that holds every created, modified and deleted
    object of the listing and nothing else, each key once and none whose
    change is already in flight, cut to the room left in the window; a gap
    that was owed comes first. *)
Theorem poll_exact clock i l :
  wf i -> baseline i <> Silent ->
  next_seq i + Z.of_nat (max_in_flight (options i)) <= u64_max ->
  exists cs, (forall c, c ∈ cs <-> shows (set_pending (kept clock i) i) (index_listing l) c)
    /\ NoDup ((fun c => key c.1.2) <$> cs)
    /\ event_id <$> (poll_ clock i l).2
       = (event_id <$> gap_events i) ++ ((Some ∘ change_id (options i))
           <$> take (max_in_flight (options i) - length (kept clock i)) cs).
Proof.
  intros [_ _ _ H0 Hs] Hb Hn. exists (found clock i l). split; [|split].
  - unfold found. destruct (finds_spec (set_pending (kept clock i) i) (index_listing l)
      (keyed_index l) Hs) as (s & m & cs & -> & _ & _ & _ & Hcs). exact Hcs.
  - unfold found. apply finds_keys_NoDup; [apply keyed_index|exact Hs].
  - destruct (poll_spec clock i l Hb Hs H0 Hn) as (i' & evs & -> & Hr & Eo & _). simpl.
    rewrite fmap_app. f_equal. apply reports_ids in Hr. by rewrite Eo in Hr.
Qed.

(** Polling and acknowledging converges: from an engine at rest, enough
    rounds to let every stale key through the window make the confirmed
    listing equal the store's, and a further poll then reports nothing. *)
Theorem rounds_converge clock clock' n i l :
  settled i ->
  next_seq i + Z.of_nat (S n) * Z.of_nat (max_in_flight (options i)) <= u64_max ->
  (stdpp.base.size (stale (confirmed i) l) <= n * max_in_flight (options i))%nat ->
  let r := rounds clock n i l in
  confirmed r = dig <$> index_listing l /\ (poll_ clock' r l).2 = gap_events r.
Proof.
  intros Hi Hn Hsz r. rewrite Nat2Z.inj_succ, Z.mul_succ_l in Hn.
  destruct (rounds_spec clock n i l Hi) as (Hi' & Ho & Hle & Hst); [lia|]. fold r in Hi', Ho, Hle, Hst.
  assert (Hempty : stale (confirmed r) l = ∅) by (apply leibniz_equiv, size_empty_inv; lia).
  split; [by apply stale_empty|].
  destruct Hi' as [Hb Hp Hs H0 Hq]. apply poll_nothing; try done; try (by apply kept_nil); rewrite Ho; lia.
Qed.

(** The baseline is silent: the first listing of a watch that starts at
    [Now] reports no object, takes the listing as confirmed, and the same
    listing polled again reports nothing. *)
Theorem baseline_silent clock clock' o i l :
  new serde_error o None = Ok i -> start o = Now -> Z.of_nat (max_in_flight o) <= u64_max ->
  (poll_ clock i l).2 = []
  /\ confirmed (poll_ clock i l).1 = dig <$> index_listing l
  /\ (poll_ clock' (poll_ clock i l).1 l).2 = [].
Proof.
  intros Hnew Hst Hm. unfold new in Hnew. rewrite Hst in Hnew. injection Hnew as <-.
  split; [done|]. split; [done|]. set (i' := (poll_ clock _ l).1).
  apply (poll_nothing clock' i' l); try done; [apply keyed_index|].
  apply elem_of_equiv_empty_L. intros k Hk. by apply elem_stale in Hk.
Qed.

(** Invariant of every run: the window never exceeds [max_in_flight],
    the sequence numbers in flight are strictly increasing, hence distinct,
    and below the next one, whatever is polled and acknowledged. *)
Theorem engine_window o n i :
  engine o n i -> Z.of_nat n * Z.of_nat (max_in_flight o) <= u64_max ->
  (in_flight i <= max_in_flight o)%nat
  /\ StronglySorted Z.lt (p_seq <$> pending i)
  /\ Forall (fun p => 0 <= p_seq p < next_seq i) (pending i).
Proof.
  intros He Hn. destruct (engine_wf o n i He Hn) as ([Hw Hs Hr _ _] & _ & Ho).
  rewrite Ho in Hw. done.
Qed.

(** C6. At least once: a poll whose events were all lost reports the same
    events again, under the same ids and in the same order, at the first poll
    of the unchanged store after [ack_timeout]. *)
Theorem lost_events_return clock clock' i l :
  settled i -> inv_gap i = false ->
  next_seq i + 2 * Z.of_nat (max_in_flight (options i)) <= u64_max ->
  (forall n p, p ∈ pending (poll_ clock i l).1 -> ack_timeout (options i) <= clock' n - p_at p) ->
  event_id <$> (poll_ clock' (poll_ clock i l).1 l).2 = event_id <$> (poll_ clock i l).2.
Proof.
  intros [Hb Hp Hs H0 Hq] Hg Hn Hlate.
  destruct (poll_spec clock i l Hb Hs H0 ltac:(lia))
    as (i1 & evs & E1 & Hr & Eo & Eb & Eg & Equ & Ep & En & (s & Hss & Es & Hsq) & _ & Ec).
  rewrite E1 in *. simpl in *. unfold gap_events. rewrite Hg. simpl.
  assert (Hs1 : keyed (seen i1)).
  { rewrite Es. intros k e [H'|[_ H']]%lookup_union_Some_raw; [by apply keyed_index in H'|].
    apply Hs. exact (lookup_weaken _ _ _ _ H' Hss). }
  pose proof (taken_length clock i l).
  destruct (poll_spec clock' i1 l ltac:(by rewrite Eb) Hs1 ltac:(lia) ltac:(rewrite Eo; lia))
    as (i2 & evs2 & -> & Hr2 & Eo2 & _). unfold gap_events. rewrite Eg. simpl.
  apply reports_ids in Hr, Hr2. rewrite Hr, Hr2, Eo2, Eo. f_equal.
  assert (Hk : kept clock' i1 = []).
  { unfold kept. rewrite Eo. revert Hlate. generalize 0%nat as n, (pending i1) as ps.
    intros n ps. revert n. induction ps as [|p ps IH]; intros n Hl; simpl; [done|].
    rewrite (proj2 (Z.ltb_ge _ _)).
    - apply IH. intros m q Hq'. apply Hl. by right.
    - specialize (Hl n p ltac:(left)). unfold saturating_since. lia. }
  unfold taken. rewrite Hk, (kept_nil _ _ Hp), Eo. f_equal.
  unfold found. rewrite Hk, (kept_nil _ _ Hp), !finds_changes. simpl. rewrite Equ, Hq. f_equal.
  - apply list_omap_ext. apply Forall_Forall2_diag, Forall_forall. intros [k e] _.
    unfold alive_change. simpl. by rewrite Ec.
  - unfold gone_keys. simpl. rewrite Ec by done. apply list_fmap_ext. intros ? k Hk'.
    apply list_elem_of_lookup_2, elem_of_filter_bool in Hk' as [_ Hk'].
    apply andb_true_iff in Hk' as [Hn'%bool_decide_eq_true _].
    unfold deletion. simpl. rewrite Es, (Hsq Hq), lookup_union_r; done.
Qed.

(** C8. A restart is exact or says so: from the position of any event of a
    poll, [new] either resumes with the confirmed listing the engine has once
    that event is acknowledged, or starts silently with a gap. *)
Theorem restart_exact clock i l ev pos :
  wf i -> baseline i <> Silent ->
  next_seq i + Z.of_nat (max_in_flight (options i)) <= u64_max ->
  ev ∈ (poll_ clock i l).2 -> upstream_cursor ev = Some pos ->
  exists j, new serde_error (options i) (Some pos) = Ok j
    /\ ((baseline j = Known /\ inv_gap j = false
         /\ confirmed j = confirmed (acknowledged (poll_ clock i l).1 pos))
        \/ (baseline j = Silent /\ inv_gap j = true /\ confirmed j = ∅)).
Proof.
  intros Hwf Hb Hn Hin Hpos.
  destruct (wf_poll clock i l Hwf Hn) as ([_ Hsorted _ _ _] & _).
  destruct (sent_position clock i l ev pos Hwf Hb Hn Hin Hpos)
    as (n & op & e & d & seq & at_ & Hc & _ & Hseq & -> & Hp).
  set (c := {| c_v := CURSOR_VERSION |}) in *. exists (resumed (options i) c).
  split; [apply new_resumes; [done|exact Hseq]|]. unfold resumed.
  destruct (c_snap c) as [snap|] eqn:Esn; [left|by right]. split; [done|]. split; [done|]. simpl.
  erewrite (acknowledged_spec _ _ (length (kept clock i) + n));
    [|apply cursor_seq; exact Hseq|exact Hsorted|exact Hp|done].
  simpl in Esn. unfold snap_of in Esn. repeat case_decide; try done. repeat case_match; try done. simplify_eq.
  unfold confirm, after. by destruct d.
Qed.

(** Cursors round-trip through JSON, snapshot included. *)
Theorem cursor_roundtrip c :
  0 <= c_v c <= u64_max -> 0 <= c_seq c <= u64_max ->
  cursor_from_value serde_error (cursor_to_value c) = Ok c.
Proof. apply cursor_roundtrip_aux. Qed.

End Facts.

(** The digest input tells entries apart: two entries that hash the same
    bytes report the same size and modification time, and the same etag and
    version up to an absent one being an empty one. *)
Theorem digest_input_faithful e1 e2 :
  Forall fits (entry_parts e1) -> Forall fits (entry_parts e2) ->
  hash_input (entry_parts e1) = hash_input (entry_parts e2) ->
  size e1 = size e2 /\ modified_at_ms e1 = modified_at_ms e2
  /\ default ""%string (etag e1) = default ""%string (etag e2)
  /\ default ""%string (version e1) = default ""%string (version e2).
Proof.
  intros H1 H2 E. apply hash_input_inj in E; [|done..].
  injection E as E1 E2 E3 E4. split; [by apply opt_pretty_inj|].
  split; [by apply opt_pretty_inj|]. done.
Qed.

(** An etag that appears as the empty text is not a modification. *)
Lemma empty_etag_unseen blake3_hex e :
  etag e = None ->
  digest blake3_hex {| key := key e; size := size e; modified_at_ms := modified_at_ms e;
                       etag := Some ""%string; version := version e |} = digest blake3_hex e.
Proof. intros H. unfold digest, entry_parts. simpl. by rewrite H. Qed.

(** ** Witnesses *)

Module Example1.
Import Tree.

Definition hex (l : list ascii) : string := unchars l.
Definition no_time (_ : Z) : option string := None.
Definition no_error (_ : jtree) : string := "".
Definition opts (s : InventoryStart) : InventoryOptions :=
  {| store := "file"; location := "/in"; interval := secs 1; start := s;
     snapshot_bytes := 100000; max_in_flight := 2; ack_timeout := secs 60 |}.
Definition obj (k : string) (n : Z) : ObjectEntry :=
  {| key := k; size := Some n; modified_at_ms := None; etag := None; version := None |}.
Definition fresh (s : InventoryStart) : Inventory (jv := jtree) (D := unit) :=
  {| options := opts s; confirmed := ∅; seen := ∅; pending := []; next_seq := 0;
     baseline := match s with Now => Silent | Existing => Report end; inv_gap := false;
     warned := false; describe := None; quiet_removals := false |}.
Definition listing : list ObjectEntry := [obj "b" 1; obj "a" 2; obj "c" 3].

Lemma fresh_engine s : engine hex no_time no_error (opts s) 0 (fresh s).
Proof. by apply (engine_new _ _ _ _ None). Qed.

Lemma fresh_wf s : wf (fresh s).
Proof. by apply (engine_wf _ _ _ _ _ _ (fresh_engine s)). Qed.

Lemma fresh_settled : settled (fresh Existing).
Proof. by split. Qed.
End Example1.

Import Tree Example1.

Lemma poll_exact_witness :
  exists cs, event_id <$> (poll hex no_time (fun _ => 0) (fresh Existing) listing).2
             = (Some ∘ change_id hex (opts Existing)) <$> take 2 cs /\ length cs = 3%nat.
Proof.
  destruct (poll_exact hex no_time (fun _ => 0) (fresh Existing) listing (fresh_wf _))
    as (cs & Hcs & Hnd & Hev); [discriminate|vm_compute; discriminate|].
  exists cs. split; [exact Hev|].
  assert (Hp : (fun c : change => key c.1.2) <$> cs ≡ₚ ["a"; "b"; "c"]%string); cycle 1.
  { apply Permutation_length in Hp. by rewrite length_fmap in Hp. }
  apply NoDup_Permutation; [done|by apply (bool_decide_eq_true_1 (NoDup _))|].
  intros k. rewrite list_elem_of_fmap. split.
  - intros ([[op e] d] & -> & Hc%Hcs). simpl.
    destruct op; simpl in Hc; [destruct Hc as (_ & Hc & _)|destruct Hc as (_ & _ & _ & kn & Hk & _)
      |destruct Hc as (_ & _ & [kn Hk] & _)]; [|by rewrite lookup_empty in Hk..].
    apply index_listing_key in Hc as [_ Hc]. unfold listing in Hc.
    rewrite !elem_of_cons in Hc. destruct Hc as [->|[->|[->|[]%elem_of_nil]]]; simpl;
      rewrite !elem_of_cons; tauto.
  - intros Hk. assert (Hk' : exists e, index_listing listing !! k = Some e /\ key e = k).
    { rewrite !elem_of_cons in Hk. destruct Hk as [->|[->|[->|[]%elem_of_nil]]];
        eexists; (split; [vm_compute; reflexivity|done]). }
    destruct Hk' as (e & He & <-). exists (Created, e, Some (digest hex e)). split; [done|].
    apply Hcs. simpl. by repeat split.
Defined.

Lemma rounds_converge_witness :
  confirmed (rounds hex no_time (fun _ _ => 0) 2 (fresh Existing) listing)
  = digest hex <$> index_listing listing.
Proof.
  apply (rounds_converge hex no_time (fun _ _ => 0) (fun _ => 0) 2 (fresh Existing) listing
           fresh_settled); [vm_compute; discriminate|].
  apply Nat.leb_le. vm_compute. reflexivity.
Defined.

Lemma baseline_silent_witness :
  confirmed (poll hex no_time (fun _ => 0) (fresh Now) listing).1
  = digest hex <$> index_listing listing.
Proof.
  apply (baseline_silent hex no_time no_error (fun _ => 0) (fun _ => 0) (opts Now) (fresh Now) listing);
    [reflexivity|reflexivity|vm_compute; discriminate].
Defined.

Lemma engine_window_witness :
  (in_flight (poll hex no_time (fun _ => 0%Z) (fresh Existing) listing).1 <= 2)%nat.
Proof.
  apply (engine_window hex no_time no_error (opts Existing) 1).
  - apply engine_poll. apply (fresh_engine Existing).
  - vm_compute. discriminate.
Defined.

Lemma lost_events_return_witness :
  let p1 := poll hex no_time (fun _ => 0) (fresh Existing) listing in
  event_id <$> (poll hex no_time (fun _ => secs 60) p1.1 listing).2 = event_id <$> p1.2
  /\ length p1.2 = 2%nat.
Proof.
  split; [|vm_compute; reflexivity].
  apply (lost_events_return hex no_time (fun _ => 0) (fun _ => secs 60) (fresh Existing) listing
           fresh_settled); [reflexivity|vm_compute; discriminate|].
  intros n p Hp.
  assert (Hall : Forall (fun p => p_at p = 0)
    (pending (poll hex no_time (fun _ => 0) (fresh Existing) listing).1)).
  { vm_compute. repeat constructor. }
  rewrite Forall_forall in Hall. rewrite (Hall p Hp). vm_compute. discriminate.
Defined.

Lemma restart_exact_witness :
  let p1 := poll hex no_time (fun _ => 0) (fresh Existing) listing in
  exists ev pos j, ev ∈ p1.2 /\ upstream_cursor ev = Some pos
    /\ new (D := unit) no_error (opts Existing) (Some pos) = Ok j /\ baseline j = Known.
Proof.
  intros p1. assert (exists ev pos, p1.2 !! 1%nat = Some ev /\ upstream_cursor ev = Some pos)
    as (ev & pos & Hev & Hpos) by (eexists _, _; split; vm_compute; reflexivity).
  exists ev, pos. apply list_elem_of_lookup_2 in Hev as Hin.
  destruct (restart_exact hex no_time no_error (fun _ => 0) (fresh Existing) listing ev pos (fresh_wf _))
    as (j & Hj & _); [discriminate|vm_compute; discriminate|exact Hin|exact Hpos|].
  exists j. split; [done|]. split; [done|]. split; [exact Hj|].
  assert (Hp : Some pos = p1.2 !! 1%nat ≫= upstream_cursor) by (rewrite Hev; by symmetry).
  vm_compute in Hp. injection Hp as ->. vm_compute in Hj. by injection Hj as <-.
Defined.

Lemma cursor_roundtrip_witness :
  cursor_from_value no_error (cursor_to_value {| c_v := 1; c_seq := 7; c_snap := Some {["a" := "d"]} |})
  = Ok {| c_v := 1; c_seq := 7; c_snap := Some {["a" := "d"]} |}.
Proof. apply cursor_roundtrip; vm_compute; split; discriminate. Defined.

Lemma digest_input_faithful_witness :
  size (obj "a" 5) = size (obj "b" 5).
Proof.
  apply (digest_input_faithful (obj "a" 5) (obj "b" 5)); [| |reflexivity];
    repeat constructor; vm_compute; discriminate.
Defined.
