(* ===== verification/Replica.v ===== *)
(** * What an inventory promises its consumer: a replica of the store

    An inventory watch (src/src/inventory.rs) exists so that a consumer of its
    [object.changed] events knows what the store holds. The abstract
    specification is a replica: a map from keys to the event data last seen,
    changed by one event at a time. [history] interleaves polls, the events
    a host handles and the ones it loses; the engine's confirmed listing
    stays the abstraction of the replica as long as a change is handled while
    it is still in flight, and a change handled later is not. *)

From Stdlib Require Import Ascii String.
From S2P Require Import Prelude Json Watch Inventory InventoryFacts.

Section Replica.
Context {jv : Type} `{JL : JsonLaws jv} {D : Type}.
Variable blake3_hex : list ascii -> string.
Variable occurred_at_from_millis : Z -> option string.

Abbreviation Inv := (Inventory (jv := jv) (D := D)).
Abbreviation dig := (digest blake3_hex).
Abbreviation poll_ := (poll (jv := jv) (D := D) blake3_hex occurred_at_from_millis).
Abbreviation event_ := (event (jv := jv) (D := D) blake3_hex occurred_at_from_millis).
Abbreviation reports_ := (reports (jv := jv) (D := D) blake3_hex occurred_at_from_millis).
Abbreviation taken_ := (taken (jv := jv) (D := D) blake3_hex).
Implicit Types i : Inv.

(** ** The specification *)

(** The object data a consumer holds, by key. *)
Abbreviation replica_map := (gmap string (gmap string jv)).

(** What an event says: the operation, the key and the data. *)
Definition told (ev : WatchEvent jv) : option (string * string * gmap string jv) :=
  match ev_data ev ≫= j_as_obj with
  | Some m =>
      match m !! "op"%string ≫= j_as_str, m !! "key"%string ≫= j_as_str with
      | Some op, Some k => Some (op, k, m)
      | _, _ => None
      end
  | None => None
  end.

(** The consumer: a deletion forgets the object, anything else replaces it. *)
Definition apply_event (ev : WatchEvent jv) (R : replica_map) : replica_map :=
  match told ev with
  | Some (op, k, m) => if decide (op = op_str Deleted) then delete k R else <[k := m]> R
  | None => R
  end.

(** The data of an event describes an entry: every attribute the store gave
    is there under its name. *)
Definition describes (e : ObjectEntry) (m : gmap string jv) : Prop :=
  m !! "key"%string = Some (j_str (key e))
  /\ (forall n, size e = Some n -> m !! "size"%string = Some (j_u64 n))
  /\ (forall t, modified_at_ms e ≫= occurred_at_from_millis = Some t ->
        m !! "modifiedAt"%string = Some (j_str t))
  /\ (forall t, etag e = Some t -> m !! "etag"%string = Some (j_str t))
  /\ (forall v, version e = Some v -> m !! "version"%string = Some (j_str v)).

(** One key of the abstraction: both sides lack it, or the replica describes
    an entry of the confirmed digest. *)
Definition agree (k : string) (d : option string) (m : option (gmap string jv)) : Prop :=
  match d, m with
  | None, None => True
  | Some d, Some m => exists e, key e = k /\ dig e = d /\ describes e m
  | _, _ => False
  end.

Definition mirrors (c : gmap string string) (R : replica_map) : Prop :=
  forall k, agree k (c !! k) (R !! k).

(** ** Histories *)

(** The engine, the events emitted so far and the consumer's replica. *)
Record session := { engine_of : Inv; sent : list (WatchEvent jv); replica : replica_map }.

(** Whether the engine still waits for the acknowledgement of a position. *)
Definition awaits (i : Inv) (pos : jv) : bool :=
  match j_get pos "seq" ≫= j_as_u64 with
  | Some seq => bool_decide (seq ∈ p_seq <$> pending i)
  | None => false
  end.

(** The host handles an event: the consumer sees it, the engine the
    acknowledgement. *)
Definition handle (ev : WatchEvent jv) (s : session) : session :=
  {| engine_of := match upstream_cursor ev with
                  | Some pos => acknowledged (engine_of s) pos
                  | None => engine_of s
                  end;
     sent := sent s; replica := apply_event ev (replica s) |}.

Definition poll_session (clock : nat -> Z) (l : list ObjectEntry) (s : session) : session :=
  let '(i, evs) := poll_ clock (engine_of s) l in
  {| engine_of := i; sent := sent s ++ evs; replica := replica s |}.

(** Any polls of listings [ok] allows, any of the sent events handled while
    the engine awaits them, in any order and none of them certain; [n] counts
    the polls. *)
Inductive history (ok : list ObjectEntry -> Prop) (s0 : session) : nat -> session -> Prop :=
| history_start : history ok s0 0 s0
| history_poll n clock l s :
    history ok s0 n s -> ok l -> history ok s0 (S n) (poll_session clock l s)
| history_handle n ev pos s :
    history ok s0 n s -> ev ∈ sent s -> upstream_cursor ev = Some pos ->
    awaits (engine_of s) pos = true -> history ok s0 n (handle ev s).

(** A poll whose events are all handled, in order. *)
Definition host_round (clock : nat -> Z) (l : list ObjectEntry) (s : session) : session :=
  let '(i, evs) := poll_ clock (engine_of s) l in
  foldl (fun s ev => handle ev s)
    {| engine_of := i; sent := sent s ++ evs; replica := replica s |} evs.

Fixpoint host_rounds (clock : nat -> nat -> Z) (n : nat) (l : list ObjectEntry) (s : session)
    : session :=
  match n with O => s | S n => host_rounds clock n l (host_round (clock n) l s) end.

(** ** What an event tells *)

(** A change as a poll finds it: a deletion has no digest, anything else the
    digest of its entry. *)
Definition sound_change (c : change) : Prop :=
  c.2 = if decide (c.1.1 = Deleted) then None else Some (dig c.1.2).

Lemma shows_sound i cur c : shows blake3_hex i cur c -> sound_change c.
Proof.
  destruct c as [[[] e] d]; intros [_ H]; unfold sound_change; simpl in *.
  - by destruct H as (_ & _ & ->).
  - by destruct H as (_ & -> & _).
  - by destruct H as (_ & _ & -> & _).
Qed.

Lemma op_str_deleted op : op_str op = op_str Deleted <-> op = Deleted.
Proof. by destruct op. Qed.

(** A field present before [opt_field] is there after it. *)
Lemma opt_field_ne k k' (v : option jv) (m : gmap string jv) :
  k <> k' -> opt_field k v m !! k' = m !! k'.
Proof. intros H. destruct v; simpl; [by rewrite lookup_insert_ne|done]. Qed.

Lemma opt_field_eq k x (v : option jv) (m : gmap string jv) :
  v = Some x -> opt_field k v m !! k = Some x.
Proof. intros ->. apply lookup_insert_eq. Qed.

(** The data of an event, whatever the plugin adds to it. *)
Lemma event_told extra i op e d seq snap :
  exists m, told (add_details extra (event_ i op e d seq snap)) = Some (op_str op, key e, m)
    /\ describes e m.
Proof.
  set (ev := event_ i op e d seq snap).
  assert (exists m, ev_data ev = Some (j_obj m) /\ m !! "op"%string = Some (j_str (op_str op))
    /\ describes e m) as (m & Hm & Hop & Hd).
  { eexists. split; [done|]. split; [by rewrite !opt_field_ne by done; simplify_map_eq|].
    split; [by rewrite !opt_field_ne by done; simplify_map_eq|]. split; [|split; [|split]]; intros x Hx;
      repeat first [apply opt_field_eq; by rewrite Hx|rewrite opt_field_ne by done]. }
  assert (exists m', ev_data (add_details extra ev) = Some (j_obj m') /\ m ⊆ m') as (m' & Hm' & Hsub).
  { unfold add_details. rewrite Hm. cbn. rewrite j_as_obj_obj. destruct extra as [x|]; [|by exists m].
    exists (m ∪ x). split; [done|apply map_union_subseteq_l]. }
  assert (Hl : forall k v, m !! k = Some v -> m' !! k = Some v) by (intros; by eapply lookup_weaken).
  destruct Hd as (Hk & Hsz & Ht & He & Hv).
  exists m'. split; [|by repeat split; eauto].
  unfold told. rewrite Hm'. cbn. rewrite j_as_obj_obj, (Hl _ _ Hop), (Hl _ _ Hk). cbn.
  by rewrite !j_as_str_str.
Qed.

(** Confirming a change and applying its event keep the abstraction. *)
Lemma apply_mirrors c R extra i op e d seq snap :
  sound_change (op, e, d) -> mirrors c R ->
  mirrors (after c (op, e, d)) (apply_event (add_details extra (event_ i op e d seq snap)) R).
Proof.
  intros Hs HR k. destruct (event_told extra i op e d seq snap) as (m & Ht & Hd).
  unfold apply_event. rewrite Ht. unfold sound_change, after in *. simpl in *. subst d.
  destruct (decide (op = Deleted)) as [->|Hop].
  - rewrite decide_True by done. simpl.
    destruct (decide (key e = k)) as [<-|Hne]; [by rewrite !lookup_delete_eq|].
    rewrite !lookup_delete_ne by done. apply HR.
  - rewrite (decide_False (P := op_str op = _)) by (by rewrite (op_str_deleted op)).
    destruct (decide (key e = k)) as [<-|Hne]; [|rewrite !lookup_insert_ne by done; apply HR].
    rewrite !lookup_insert_eq. by exists e.
Qed.

Lemma event_seq extra i op e d seq snap pos :
  0 <= seq <= u64_max -> upstream_cursor (add_details extra (event_ i op e d seq snap)) = Some pos ->
  j_get pos "seq" ≫= j_as_u64 = Some seq.
Proof.
  intros Hs Hp. destruct (add_details_frame extra (event_ i op e d seq snap)) as (_ & _ & Hc & _).
  rewrite Hc in Hp. injection Hp as <-. by apply cursor_seq.
Qed.

(** ** The invariant of a history *)

(** What is known of the events sent: each tells a sound change under a
    number below the next one, the change in flight under that number if there
    is one. *)
Definition telling (ev : WatchEvent jv) (i : Inv) : Prop :=
  exists extra i' op e d seq snap,
    ev = add_details extra (event_ i' op e d seq snap) /\ sound_change (op, e, d)
    /\ 0 <= seq <= u64_max /\ seq < next_seq i
    /\ forall p, p ∈ pending i -> p_seq p = seq -> p_key p = key e /\ p_digest p = d.

Definition coherent (evs : list (WatchEvent jv)) (i : Inv) : Prop :=
  forall ev, ev ∈ evs -> is_Some (upstream_cursor ev) -> telling ev i.

Lemma coherent_shrink evs i j :
  coherent evs i -> (forall p, p ∈ pending j -> p ∈ pending i \/ next_seq i <= p_seq p) ->
  next_seq i <= next_seq j -> coherent evs j.
Proof.
  intros Hc Hp Hn ev Hev Hu.
  destruct (Hc ev Hev Hu) as (extra & i' & op & e & d & seq & snap & -> & Hs & Hr & Hlt & Hin).
  exists extra, i', op, e, d, seq, snap. split; [done|]. split; [done|]. split; [done|].
  split; [lia|]. intros p Hpj Hseq. destruct (Hp p Hpj) as [?|?]; [by apply Hin|lia].
Qed.

Record live (i : Inv) : Prop := {
  lv_wf : wf i;
  lv_baseline : baseline i <> Silent;
  lv_loud : quiet_removals i = false;
}.

Lemma settled_live i : settled i -> live i.
Proof.
  intros [Hb Hp Hs H0 Hq]. split; [split|done|done]; try done; rewrite Hp; simpl;
    [lia|apply SSorted_nil|by apply Forall_nil].
Qed.

Lemma taken_shows clock i l c :
  keyed (seen i) -> c ∈ taken_ clock i l ->
  shows blake3_hex (set_pending (kept clock i) i) (index_listing l) c.
Proof.
  intros Hs Hc. apply subseteq_take in Hc. unfold found in Hc.
  destruct (finds_spec blake3_hex (set_pending (kept clock i) i) (index_listing l)
    (keyed_index l) Hs) as (s & m & cs & E & _ & _ & _ & Hcs). rewrite E in Hc. by apply Hcs.
Qed.

Lemma taken_sound clock i l c : keyed (seen i) -> c ∈ taken_ clock i l -> sound_change c.
Proof.
  intros Hs Hc. eapply shows_sound. by apply taken_shows.
Qed.

(** A poll keeps the engine live and its confirmed listing, and what it sends
    is coherent with it. *)
Lemma poll_live clock i l :
  live i -> next_seq i + Z.of_nat (max_in_flight (options i)) <= u64_max ->
  exists i' evs, poll_ clock i l = (i', evs) /\ live i' /\ options i' = options i
    /\ next_seq i <= next_seq i' <= next_seq i + Z.of_nat (max_in_flight (options i))
    /\ confirmed i' = confirmed i
    /\ (forall p, p ∈ pending i' -> p ∈ pending i \/ next_seq i <= p_seq p)
    /\ coherent evs i'.
Proof.
  intros [Hwf Hb Hq] Hn. destruct (wf_poll blake3_hex occurred_at_from_millis clock i l Hwf Hn)
    as (Hwf' & Hle & _).
  destruct Hwf as [_ Hsrt Hrg H0 Hs].
  destruct (poll_spec blake3_hex occurred_at_from_millis clock i l Hb Hs H0 Hn)
    as (i' & evs & E & Hr & Eo & Eb & Eg & Eq & Ep & En & _ & _ & Ec).
  rewrite E in *. exists i', (gap_events i ++ evs). simpl in *.
  split; [done|]. split; [split; [done|by rewrite Eb|by rewrite Eq]|].
  split; [done|]. split; [lia|]. split; [by apply Ec|]. split.
  - intros p. rewrite Ep, elem_of_app. intros [Hp|Hp].
    + left. by eapply sublist_elem_of; [apply retain_sublist|exact Hp].
    + right. pose proof (new_pending_range clock (length (pending i)) (next_seq i)
        (taken_ clock i l)) as Hnr. rewrite Forall_forall in Hnr. specialize (Hnr p Hp). lia.
  - intros ev Hev Hu. apply elem_of_app in Hev as [Hev|Hev].
    { unfold gap_events in Hev. destruct (inv_gap i); [|by apply not_elem_of_nil in Hev].
      apply list_elem_of_singleton in Hev as ->. by destruct Hu. }
    apply list_elem_of_lookup in Hev as [m Hev].
    destruct (reports_lookup _ _ _ _ _ _ _ _ _ _ Hr Hev) as (op & e & d & extra & Hcm & ->).
    pose proof (taken_length blake3_hex clock i l). apply lookup_lt_Some in Hcm as Hlt.
    eexists extra, i', op, e, d, (next_seq i + Z.of_nat m), _. split; [done|].
    split; [eapply taken_sound; [done|by eapply list_elem_of_lookup_2]|].
    split; [lia|]. split; [lia|]. intros p. rewrite Ep, elem_of_app. intros [Hp|Hp] Hseq.
    + apply (sublist_elem_of _ _ _ (retain_sublist _ _ _ _)) in Hp. rewrite Forall_forall in Hrg.
      specialize (Hrg p Hp). simpl in Hrg. lia.
    + apply list_elem_of_lookup in Hp as [m' Hp].
      pose proof (lookup_lt_Some _ _ _ Hp) as Hlt'. rewrite new_pending_length in Hlt'.
      destruct (taken_ clock i l !! m') as [[[op' e'] d']|] eqn:Em'; [|apply lookup_ge_None in Em'; lia].
      pose proof (new_pending_lookup clock (length (pending i)) (next_seq i) _ _ _ _ _ Em') as Hp'.
      rewrite Hp in Hp'. injection Hp' as ->. simpl in Hseq.
      assert (m' = m) as -> by lia. rewrite Hcm in Em'. by simplify_eq.
Qed.

Lemma awaits_lookup i pos :
  awaits i pos = true ->
  exists seq n p, j_get pos "seq" ≫= j_as_u64 = Some seq /\ pending i !! n = Some p /\ p_seq p = seq.
Proof.
  unfold awaits. destruct (_ ≫= _) as [seq|]; [|done]. intros H%bool_decide_eq_true.
  apply list_elem_of_fmap in H as (p & -> & [n Hp]%list_elem_of_lookup). by exists (p_seq p), n, p.
Qed.

Lemma ack_live i pos : live i -> live (acknowledged i pos).
Proof.
  intros [Hwf Hb Hq]. destruct (wf_ack i pos Hwf) as (Hwf' & _ & _).
  split; [done|..]; unfold acknowledged; by repeat case_match.
Qed.

Lemma ack_pending i pos p : p ∈ pending (acknowledged i pos) -> p ∈ pending i.
Proof.
  unfold acknowledged. destruct (_ ≫= _) as [seq|]; [|done].
  destruct (list_find _ _) as [[n q]|]; [|done].
  destruct (p_digest q); simpl; rewrite elem_of_filter_bool; intros [Hp _];
    by apply (sublist_elem_of _ _ _ (sublist_delete _ _)) in Hp.
Qed.

(** The confirmed listing after the acknowledgement of an awaited event. *)
Lemma handle_mirrors i ev pos R :
  live i -> telling ev i -> upstream_cursor ev = Some pos -> awaits i pos = true ->
  mirrors (confirmed i) R -> mirrors (confirmed (acknowledged i pos)) (apply_event ev R).
Proof.
  intros [[_ Hsrt _ _ _] _ _] (extra & i' & op & e & d & seq & snap & -> & Hs & Hr & _ & Hin) Hu Ha HR.
  destruct (awaits_lookup i pos Ha) as (seq' & n & p & Hpos & Hp & Hseq).
  pose proof (event_seq _ _ _ _ _ _ _ _ Hr Hu) as Hpos'. rewrite Hpos in Hpos'.
  injection Hpos' as ->.
  rewrite (acknowledged_spec i pos n seq p Hpos Hsrt Hp Hseq).
  destruct (Hin p (list_elem_of_lookup_2 _ _ _ Hp) Hseq) as [Hk Hd].
  destruct p as [ps pk pd pa]. simpl in *. subst.
  destruct (confirm_after (set_pending (drop (S n) (pending i)) i) op e d seq pa) as (-> & _).
  by apply apply_mirrors.
Qed.

Record mirrored (o : InventoryOptions) (bound : Z) (s : session) : Prop := {
  mr_live : live (engine_of s);
  mr_options : options (engine_of s) = o;
  mr_next : next_seq (engine_of s) <= bound;
  mr_sent : coherent (sent s) (engine_of s);
  mr_mirrors : mirrors (confirmed (engine_of s)) (replica s);
}.

Lemma mirrored_poll o bound clock l s :
  mirrored o bound s -> bound + Z.of_nat (max_in_flight o) <= u64_max ->
  mirrored o (bound + Z.of_nat (max_in_flight o)) (poll_session clock l s).
Proof.
  intros [Hl Ho Hn Hc Hm] Hb. unfold poll_session.
  destruct (poll_live clock (engine_of s) l Hl ltac:(rewrite Ho; lia))
    as (i' & evs & -> & Hl' & Ho' & Hn' & Ec & Hp & Hc'). rewrite Ho in *.
  split; simpl; [done|done|lia| |by rewrite Ec].
  intros ev Hev. apply elem_of_app in Hev as [Hev|Hev]; [|by apply Hc'].
  eapply coherent_shrink; [exact Hc|exact Hp|lia|exact Hev].
Qed.

Lemma mirrored_handle o bound ev pos s :
  mirrored o bound s -> telling ev (engine_of s) -> upstream_cursor ev = Some pos ->
  awaits (engine_of s) pos = true -> mirrored o bound (handle ev s).
Proof.
  intros [Hl Ho Hn Hc Hm] Ht Hu Ha. unfold handle. rewrite Hu.
  destruct (wf_ack (engine_of s) pos (lv_wf _ Hl)) as (_ & En & Eo).
  split; simpl; [by apply ack_live|by rewrite Eo|by rewrite En| |by apply handle_mirrors].
  eapply coherent_shrink; [exact Hc| |by rewrite En]. intros p Hp. left. by eapply ack_pending.
Qed.

Lemma history_mirrored ok o bound n s0 s :
  history ok s0 n s -> mirrored o bound s0 ->
  bound + Z.of_nat n * Z.of_nat (max_in_flight o) <= u64_max ->
  mirrored o (bound + Z.of_nat n * Z.of_nat (max_in_flight o)) s.
Proof.
  intros H H0. induction H as [|n clock l s H IH Hok|n ev pos s H IH Hev Hu Ha]; intros Hb.
  - by replace (bound + _) with bound by lia.
  - replace (bound + _) with (bound + Z.of_nat n * Z.of_nat (max_in_flight o)
      + Z.of_nat (max_in_flight o)) by lia. apply mirrored_poll; [apply IH; nia|lia].
  - specialize (IH Hb). eapply mirrored_handle; try done. apply (mr_sent _ _ _ IH); [done|by eexists].
Qed.

(** ** Lossless rounds *)

Lemma engine_handles evs s :
  engine_of (foldl (fun s ev => handle ev s) s evs) = ack_all (engine_of s) evs.
Proof.
  revert s. induction evs as [|ev evs IH]; intros s; [done|]. simpl. rewrite IH.
  unfold ack_all. cbn [omap list_omap]. unfold handle. simpl. by destruct (upstream_cursor ev).
Qed.

Lemma engine_host_round clock l s :
  engine_of (host_round clock l s)
  = round blake3_hex occurred_at_from_millis clock (engine_of s) l.
Proof.
  unfold host_round, round. destruct (poll_ clock (engine_of s) l) as [i evs].
  by rewrite engine_handles.
Qed.

(** Handling a run of reported changes, in order, keeps the abstraction. *)
Lemma handles_mirror clock at_ j take index seq cs evs s :
  reports_ j take index seq cs evs -> pending (engine_of s) = new_pending clock at_ seq cs ->
  0 <= seq -> seq + Z.of_nat (length cs) <= u64_max -> Forall sound_change cs ->
  mirrors (confirmed (engine_of s)) (replica s) ->
  let s' := foldl (fun s ev => handle ev s) s evs in
  mirrors (confirmed (engine_of s')) (replica s').
Proof.
  revert at_ index seq evs s.
  induction cs as [|[[op e] d] cs IH]; intros at_ index seq [|ev evs] s Hr Hp H0 Hn Hs HR; try done.
  pose proof (reports_cursor _ _ _ _ _ _ _ _ _ _ _ _ Hr) as Hc. destruct Hr as [(extra & ->) Hr].
  apply Forall_cons in Hs as [Hs Hss]. cbn [length] in Hn. simpl.
  assert (Hsrt : StronglySorted Z.lt (p_seq <$> pending (engine_of s)))
    by (rewrite Hp; apply new_pending_sorted).
  set (ev := add_details extra _) in *. set (s1 := handle ev s).
  assert (He : engine_of s1 = confirm (set_pending (new_pending clock (S at_) (seq + 1) cs) (engine_of s))
    {| p_seq := seq; p_key := key e; p_digest := d; p_at := clock at_ |}).
  { unfold s1, handle. rewrite Hc. simpl.
    erewrite (acknowledged_spec _ _ 0); [|apply cursor_seq; simpl; lia|done|by rewrite Hp|done].
    by rewrite Hp. }
  destruct (confirm_after (set_pending (new_pending clock (S at_) (seq + 1) cs) (engine_of s))
    op e d seq (clock at_)) as (Ec & Ep & _).
  apply (IH (S at_) (S index) (seq + 1) evs s1); [done|by rewrite He|lia|lia|done|].
  rewrite He, Ec. unfold s1, handle. simpl. by apply apply_mirrors.
Qed.

Lemma host_round_mirrors clock l s :
  settled (engine_of s) ->
  next_seq (engine_of s) + Z.of_nat (max_in_flight (options (engine_of s))) <= u64_max ->
  mirrors (confirmed (engine_of s)) (replica s) ->
  mirrors (confirmed (engine_of (host_round clock l s))) (replica (host_round clock l s)).
Proof.
  intros [Hb Hp Hs H0 Hq] Hn HR. unfold host_round.
  destruct (poll_spec blake3_hex occurred_at_from_millis clock (engine_of s) l Hb Hs H0 Hn)
    as (i' & evs & -> & Hr & _ & _ & _ & _ & Ep & _ & _ & _ & Ec).
  rewrite (kept_nil _ _ Hp) in Ep.
  pose proof (taken_length blake3_hex clock (engine_of s) l) as Hlen.
  rewrite foldl_app. set (s1 := foldl _ _ (gap_events _)).
  assert (engine_of s1 = i' /\ replica s1 = replica s) as [E1 E2].
  { unfold s1, gap_events. by destruct (inv_gap (engine_of s)). }
  eapply handles_mirror; [exact Hr|rewrite E1; exact Ep|lia|lia| |by rewrite E1, E2, Ec].
  apply Forall_forall. intros c Hc. by eapply taken_sound.
Qed.

(** ** Keys the engine has nothing to say of *)

(** A key is confirmed as [d], and nothing in flight speaks of it. *)
Record steady (k : string) (d : option string) (i : Inv) : Prop := {
  sd_confirmed : confirmed i !! k = d;
  sd_pending : Forall (fun p => p_key p <> k) (pending i);
}.

(** A listing that gives the key the same digest. *)
Definition lists (k : string) (d : option string) (l : list ObjectEntry) : Prop :=
  (dig <$> index_listing l) !! k = d.

Lemma lists_none k l : index_listing l !! k = None -> lists k None l.
Proof. unfold lists. rewrite lookup_fmap. by intros ->. Qed.

Definition silent_on (k : string) (evs : list (WatchEvent jv)) : Prop :=
  forall ev op k' m, ev ∈ evs -> told ev = Some (op, k', m) -> k' <> k.

Lemma taken_not k clock i l c :
  keyed (seen i) -> lists k (confirmed i !! k) l -> c ∈ taken_ clock i l -> key c.1.2 <> k.
Proof.
  intros Hs Hl Hc%taken_shows <-; [|done]. unfold lists in Hl. rewrite lookup_fmap in Hl.
  destruct c as [[[] e] d]; destruct Hc as [_ Hc]; simpl in *.
  - destruct Hc as (Hc & Hn & _). by rewrite Hc, Hn in Hl.
  - destruct Hc as (Hc & _ & known & Hk & Hne). rewrite Hc, Hk in Hl. by simplify_eq/=.
  - destruct Hc as (Hc & [? Hk] & _). by rewrite Hc, Hk in Hl.
Qed.

Lemma new_silent k clock at_ seq i l :
  keyed (seen i) -> lists k (confirmed i !! k) l ->
  Forall (fun p => p_key p <> k) (new_pending clock at_ seq (taken_ clock i l)).
Proof.
  intros Hs Hl. apply Forall_forall. intros p [m Hm]%list_elem_of_lookup.
  pose proof (lookup_lt_Some _ _ _ Hm) as Hlt. rewrite new_pending_length in Hlt.
  destruct (taken_ clock i l !! m) as [[[op e] d]|] eqn:Em; [|apply lookup_ge_None in Em; lia].
  rewrite (new_pending_lookup clock _ _ _ _ _ _ _ Em) in Hm. injection Hm as <-. simpl.
  by apply (taken_not k clock i l (op, e, d) Hs Hl), list_elem_of_lookup_2 with m.
Qed.

(** What an event was made from. *)
Lemma sent_change clock i l ev :
  live i -> next_seq i + Z.of_nat (max_in_flight (options i)) <= u64_max ->
  ev ∈ (poll_ clock i l).2 ->
  ev = gap_event \/ exists extra i' op e d seq snap,
    ev = add_details extra (event_ i' op e d seq snap) /\ (op, e, d) ∈ taken_ clock i l
    /\ 0 <= seq <= u64_max /\ seq < next_seq (poll_ clock i l).1.
Proof.
  intros [[_ _ _ H0 Hs] Hb Hq] Hn.
  destruct (poll_spec blake3_hex occurred_at_from_millis clock i l Hb Hs H0 Hn)
    as (i' & evs & -> & Hr & _ & _ & _ & _ & _ & En & _). simpl.
  intros [Hev|Hev]%elem_of_app.
  { left. unfold gap_events in Hev. destruct (inv_gap i); [|by apply not_elem_of_nil in Hev].
    by apply list_elem_of_singleton in Hev. }
  right. apply list_elem_of_lookup in Hev as [n Hev].
  destruct (reports_lookup _ _ _ _ _ _ _ _ _ _ Hr Hev) as (op & e & d & extra & Hc & ->).
  pose proof (taken_length blake3_hex clock i l). apply lookup_lt_Some in Hc as Hlt.
  eexists extra, i', op, e, d, _, _. split; [done|]. split; [by eapply list_elem_of_lookup_2|lia].
Qed.

Lemma poll_steady k d clock i l :
  live i -> next_seq i + Z.of_nat (max_in_flight (options i)) <= u64_max ->
  steady k d i -> lists k d l ->
  steady k d (poll_ clock i l).1 /\ silent_on k (poll_ clock i l).2.
Proof.
  intros Hlv Hn [<- Hp] Hl. split.
  - destruct Hlv as [[_ _ _ H0 Hs] Hb Hq].
    destruct (poll_spec blake3_hex occurred_at_from_millis clock i l Hb Hs H0 Hn)
      as (i' & evs & -> & _ & _ & _ & _ & _ & Ep & _ & _ & _ & Ec). simpl.
    split; [by rewrite Ec|]. rewrite Ep. apply Forall_app. split; [|by apply new_silent].
    eapply sublist_Forall; [apply retain_sublist|exact Hp].
  - intros ev op k' m Hev Ht.
    destruct (sent_change clock i l ev Hlv Hn Hev)
      as [->|(extra & j & op' & e & d & seq & snap & -> & Hc & _)]; [done|].
    destruct (event_told extra j op' e d seq snap) as (m' & Ht' & _).
    rewrite Ht in Ht'. injection Ht' as _ -> _.
    by apply (taken_not k clock i l (op', e, d) (wf_seen _ (lv_wf _ Hlv)) Hl).
Qed.

Lemma ack_steady k d i pos : steady k d i -> steady k d (acknowledged i pos).
Proof.
  intros [<- Hp]. split; [|apply Forall_forall; intros p H%ack_pending; by rewrite Forall_forall in Hp; apply Hp].
  unfold acknowledged. destruct (_ ≫= _) as [seq|]; [|done].
  destruct (list_find _ _) as [[n p]|] eqn:Ef; [|done].
  apply list_find_Some in Ef as (Hn & _ & _). apply list_elem_of_lookup_2 in Hn.
  rewrite Forall_forall in Hp. specialize (Hp p Hn).
  destruct (p_digest p); simpl; [by rewrite lookup_insert_ne|by rewrite lookup_delete_ne].
Qed.

Lemma apply_silent k ev R :
  silent_on k [ev] -> apply_event ev R !! k = R !! k.
Proof.
  intros H. unfold apply_event. destruct (told ev) as [[[op k'] m]|] eqn:Et; [|done].
  specialize (H ev op k' m ltac:(left) Et).
  case_decide; [by apply lookup_delete_ne|by apply lookup_insert_ne].
Qed.

(** As long as the store lists the key as it is confirmed, no history speaks of
    it: nothing of it is sent, and the replica keeps what it has. *)
Lemma history_steady k d o bound n s0 s :
  history (lists k d) s0 n s ->
  live (engine_of s0) -> options (engine_of s0) = o -> next_seq (engine_of s0) <= bound ->
  steady k d (engine_of s0) -> silent_on k (sent s0) ->
  bound + Z.of_nat n * Z.of_nat (max_in_flight o) <= u64_max ->
  (live (engine_of s) /\ options (engine_of s) = o
   /\ next_seq (engine_of s) <= bound + Z.of_nat n * Z.of_nat (max_in_flight o))
  /\ steady k d (engine_of s) /\ silent_on k (sent s) /\ replica s !! k = replica s0 !! k.
Proof.
  intros H Hl Ho Hn Hu Hq. induction H as [|n clock l s H IH Hok|n ev pos s H IH Hev Hup Ha]; intros Hb.
  - split; [|done]. split; [done|]. split; [done|lia].
  - destruct IH as ((Hl1 & Ho1 & Hn1) & Hu1 & Hq1 & Hr1); [nia|]. unfold poll_session.
    destruct (poll_steady k d clock (engine_of s) l Hl1 ltac:(rewrite Ho1; lia) Hu1 Hok) as [Hu2 Hq2].
    destruct (poll_live clock (engine_of s) l Hl1 ltac:(rewrite Ho1; lia))
      as (i' & evs & E & Hl2 & Ho2 & Hn2 & _). rewrite E in *. simpl in *. rewrite Ho1 in *.
    split; [split; [done|split; [done|lia]]|]. split; [done|]. split; [|done].
    intros ev' op k' m [Hin|Hin]%elem_of_app; [by eapply Hq1|by eapply Hq2].
  - destruct (IH Hb) as ((Hl1 & Ho1 & Hn1) & Hu1 & Hq1 & Hr1). unfold handle. rewrite Hup. simpl.
    destruct (wf_ack (engine_of s) pos (lv_wf _ Hl1)) as (_ & -> & ->).
    split; [split; [by apply ack_live|done]|]. split; [by apply ack_steady|]. split; [done|].
    rewrite <- Hr1. apply apply_silent. intros ev' op k' m ->%list_elem_of_singleton. by eapply Hq1.
Qed.

Lemma history_weaken (ok ok' : list ObjectEntry -> Prop) n s0 s :
  (forall l, ok l -> ok' l) -> history ok s0 n s -> history ok' s0 n s.
Proof.
  intros Hok. induction 1 as [|n clock l s _ IH Hl|n ev pos s _ IH Hev Hu Ha];
    [apply history_start|by apply history_poll; auto|by eapply history_handle].
Qed.

(** An acknowledgement of a change no longer in flight changes nothing. *)
Lemma unawaited_ignored i pos : awaits i pos = false -> acknowledged i pos = i.
Proof.
  unfold awaits, acknowledged. destruct (_ ≫= _) as [seq|]; [|done]. intros H%bool_decide_eq_false.
  destruct (list_find _ _) as [[n p]|] eqn:Ef; [|done].
  apply list_find_Some in Ef as (Hn & Hseq & _). destruct H. apply list_elem_of_fmap.
  exists p. split; [done|by eapply list_elem_of_lookup_2].
Qed.

(** All in flight for at least [ack_timeout] by every reading of the clock:
    the next poll keeps nothing. *)
Lemma kept_late clock i :
  (forall n p, p ∈ pending i -> ack_timeout (options i) <= clock n - p_at p) -> kept clock i = [].
Proof.
  unfold kept. generalize 0%nat as n, (pending i) as ps. intros n ps. revert n.
  induction ps as [|p ps IH]; intros n Hl; simpl; [done|].
  rewrite (proj2 (Z.ltb_ge _ _)).
  - apply IH. intros m q Hq. apply Hl. by right.
  - specialize (Hl n p ltac:(left)). unfold saturating_since. lia.
Qed.

(** A poll after everything in flight timed out: what is in flight then is
    new, and of a key neither confirmed nor listed nothing is. *)
Lemma late_poll k clock i l :
  live i -> next_seq i + Z.of_nat (max_in_flight (options i)) <= u64_max ->
  (forall n p, p ∈ pending i -> ack_timeout (options i) <= clock n - p_at p) ->
  confirmed i !! k = None -> index_listing l !! k = None ->
  let i' := (poll_ clock i l).1 in
  live i' /\ options i' = options i
  /\ next_seq i' <= next_seq i + Z.of_nat (max_in_flight (options i)) /\ steady k None i'
  /\ forall p, p ∈ pending i' -> next_seq i <= p_seq p.
Proof.
  intros Hl Hn Hlate%kept_late Hk Hlist.
  destruct (poll_live clock i l Hl Hn) as (i' & evs & E & Hl' & Ho & Hn' & Ec & _).
  destruct Hl as [[_ _ _ H0 Hs] Hb Hq].
  destruct (poll_spec blake3_hex occurred_at_from_millis clock i l Hb Hs H0 Hn)
    as (i'' & evs' & E' & _ & _ & _ & _ & _ & Ep & _). rewrite E in E'. simplify_eq. rewrite E. simpl.
  rewrite Hlate in Ep. split; [done|]. split; [done|]. split; [lia|].
  split; [split; [by rewrite Ec|rewrite Ep; apply new_silent; [done|rewrite Hk; by apply lists_none]]|].
  rewrite Ep. intros p Hp.
  pose proof (new_pending_range clock (length (pending i)) (next_seq i) (taken_ clock i l)) as Hr.
  rewrite Forall_forall in Hr. by apply Hr.
Qed.

Lemma taken_deleted clock i l e d :
  keyed (seen i) -> (Deleted, e, d) ∈ taken_ clock i l -> is_Some (confirmed i !! key e).
Proof.
  intros Hs Hc%taken_shows; [|done]. by destruct Hc as (_ & _ & Hc & _).
Qed.

(** Rounds that let every stale key through the window. *)
Lemma host_rounds_target clock n l s :
  settled (engine_of s) -> mirrors (confirmed (engine_of s)) (replica s) ->
  next_seq (engine_of s) + Z.of_nat n * Z.of_nat (max_in_flight (options (engine_of s))) <= u64_max ->
  (stdpp.base.size (stale blake3_hex (confirmed (engine_of s)) l)
   <= n * max_in_flight (options (engine_of s)))%nat ->
  mirrors (dig <$> index_listing l) (replica (host_rounds clock n l s)).
Proof.
  intros Hset HR Hn Hsz.
  assert (H : engine_of (host_rounds clock n l s)
                = rounds blake3_hex occurred_at_from_millis clock n (engine_of s) l
              /\ mirrors (confirmed (engine_of (host_rounds clock n l s)))
                   (replica (host_rounds clock n l s))).
  { clear Hsz. revert s Hset HR Hn. induction n as [|n IH]; intros s Hset HR Hn; [done|]. simpl.
    rewrite Nat2Z.inj_succ, Z.mul_succ_l in Hn. pose proof (st_next _ Hset).
    destruct (round_spec blake3_hex occurred_at_from_millis (clock n) (engine_of s) l Hset ltac:(nia))
      as (Hset' & Ho & Hle & _).
    rewrite <- engine_host_round in *. apply IH; [done| |rewrite Ho; lia].
    apply host_round_mirrors; [done|nia|done]. }
  destruct H as [He Hm]. rewrite He in Hm.
  destruct (rounds_spec blake3_hex occurred_at_from_millis clock n (engine_of s) l Hset ltac:(lia))
    as (_ & _ & _ & Hst).
  rewrite (stale_empty blake3_hex _ l) in Hm; [done|]. apply leibniz_equiv, size_empty_inv. lia.
Qed.

(** ** Properties *)

(** A session at its start: an engine that reports, nothing sent, and a
    consumer that holds what the engine takes as confirmed. *)
Record opened (s : session) : Prop := {
  op_live : live (engine_of s);
  op_sent : sent s = [];
  op_mirrors : mirrors (confirmed (engine_of s)) (replica s);
}.

Lemma opened_mirrored s :
  opened s -> mirrored (options (engine_of s)) (next_seq (engine_of s)) s.
Proof.
  intros [Hl Hs Hm]. split; try done. intros ev Hev. rewrite Hs in Hev.
  by apply not_elem_of_nil in Hev.
Qed.

(** C5. The inventory implements its replica: whatever is polled, lost,
    reported again or handled out of order, as long as a change is handled
    while the engine awaits it the consumer holds exactly the keys the engine
    takes as confirmed, each with the data of an entry of that digest; so a
    poll that reports nothing, with nothing in flight, means that the
    consumer's replica is the store's listing. *)
Theorem replica_exact ok clock n l s0 s :
  opened s0 -> history ok s0 n s -> (1 <= max_in_flight (options (engine_of s0)))%nat ->
  next_seq (engine_of s0)
    + Z.of_nat (S n) * Z.of_nat (max_in_flight (options (engine_of s0))) <= u64_max ->
  mirrors (confirmed (engine_of s)) (replica s)
  /\ (pending (engine_of s) = [] -> (poll_ clock (engine_of s) l).2 = gap_events (engine_of s) ->
      mirrors (dig <$> index_listing l) (replica s)).
Proof.
  intros H0%opened_mirrored Hh Hmax Hb. rewrite Nat2Z.inj_succ, Z.mul_succ_l in Hb.
  destruct (history_mirrored _ _ _ _ _ _ Hh H0 ltac:(lia)) as [[Hwf Hbl Hq] Ho Hn _ HR].
  split; [done|]. intros Hp Hev. destruct Hwf as [_ _ _ Hz Hs].
  destruct (poll_spec blake3_hex occurred_at_from_millis clock (engine_of s) l Hbl Hs Hz ltac:(rewrite Ho; lia))
    as (i' & evs & E & Hr & _). rewrite E in Hev. simpl in Hev.
  apply reports_length in Hr. assert (evs = []) as ->.
  { apply (f_equal length) in Hev. rewrite length_app in Hev. apply nil_length_inv. lia. }
  pose proof (kept_nil clock _ Hp) as Hk. unfold taken in Hr.
  rewrite Hk, length_take, Ho in Hr. simpl in Hr.
  assert (Hf : found blake3_hex clock (engine_of s) l = []) by (apply nil_length_inv; lia).
  assert (confirmed (engine_of s) = dig <$> index_listing l) as <-; [|done].
  apply stale_empty, elem_of_equiv_empty_L. intros k Hst.
  destruct (found_stale blake3_hex clock (engine_of s) l Hk Hs Hq) as [Hkeys _].
  apply Hkeys in Hst. rewrite Hf in Hst. by apply not_elem_of_nil in Hst.
Qed.

(** C19. Without losses the replica converges to the store: enough rounds of
    a poll whose events are handled in order, to let every stale key through
    the window, leave the consumer with exactly the listed keys, each with the
    data of an entry of the listed digest. *)
Theorem rounds_replicate clock n l s :
  settled (engine_of s) -> mirrors (confirmed (engine_of s)) (replica s) ->
  next_seq (engine_of s) + Z.of_nat n * Z.of_nat (max_in_flight (options (engine_of s))) <= u64_max ->
  (stdpp.base.size (stale blake3_hex (confirmed (engine_of s)) l)
   <= n * max_in_flight (options (engine_of s)))%nat ->
  mirrors (dig <$> index_listing l) (replica (host_rounds clock n l s)).
Proof. intros Hset HR Hn Hsz. by apply host_rounds_target. Qed.

(** C25. A change handled too late is lost for good: a consumer that handles
    the report of a new object after [ack_timeout], when a poll has already
    seen the object gone, gets its acknowledgement ignored, and from then on
    no history takes the object out of the replica: as long as the store does
    not list the key, nothing is ever reported of it. *)
Theorem late_handling_lost clock clock' i l l' ev op k m pos R :
  settled i -> next_seq i + 2 * Z.of_nat (max_in_flight (options i)) <= u64_max ->
  confirmed i !! k = None -> ev ∈ (poll_ clock i l).2 -> told ev = Some (op, k, m) ->
  upstream_cursor ev = Some pos ->
  (forall n p, p ∈ pending (poll_ clock i l).1 -> ack_timeout (options i) <= clock' n - p_at p) ->
  index_listing l' !! k = None ->
  let i2 := (poll_ clock' (poll_ clock i l).1 l').1 in
  let s := handle ev {| engine_of := i2; sent := []; replica := R |} in
  engine_of s = i2
  /\ forall n s', history (fun l => index_listing l !! k = None) s n s' ->
       next_seq i + (2 + Z.of_nat n) * Z.of_nat (max_in_flight (options i)) <= u64_max ->
       replica s' !! k = Some m.
Proof.
  intros [Hb Hp Hs H0 Hq] Hn Hk Hev Ht Hu Hlate Hl'. simpl.
  assert (Hlv : live i) by (apply settled_live; by split).
  destruct (sent_change clock i l ev Hlv ltac:(lia) Hev)
    as [->|(extra & j & op' & e & d & seq & snap & -> & Hc & Hr & Hlt)]; [done|].
  destruct (poll_live clock i l Hlv ltac:(lia)) as (i1 & evs & E & Hl1 & Ho1 & Hn1 & Ec1 & _).
  rewrite E in *. simpl in *.
  destruct (late_poll k clock' i1 l' Hl1) as (Hl2 & Ho2 & Hn2 & Hu2 & Hp2);
    [rewrite Ho1; lia|by rewrite Ho1|by rewrite Ec1|done|]. rewrite Ho1 in *.
  unfold handle. simpl. rewrite Hu, unawaited_ignored.
  2:{ unfold awaits. rewrite (event_seq _ _ _ _ _ _ _ _ Hr Hu). apply bool_decide_eq_false.
      intros (p & -> & Hpp)%list_elem_of_fmap. specialize (Hp2 p Hpp). lia. }
  split; [done|]. intros n s' Hh Hb'.
  apply (history_weaken _ (lists k None)) in Hh; [|intros; by apply lists_none].
  destruct (history_steady k None (options i) (next_seq i + 2 * Z.of_nat (max_in_flight (options i)))
    _ _ _ Hh) as (_ & _ & _ & ->); simpl; [done|done|lia|done| |lia|].
  { intros ev ? ? ? Hin. by apply not_elem_of_nil in Hin. }
  destruct (event_told extra j op' e d seq snap) as (m' & Ht' & _). rewrite Ht in Ht'.
  injection Ht' as -> -> ->. unfold apply_event. rewrite Ht, decide_False; [apply lookup_insert_eq|].
  intros ->%op_str_deleted. destruct (taken_deleted clock i l e d Hs Hc) as [? Hc']. by rewrite Hc' in Hk.
Qed.
End Replica.

(** ** Witnesses *)

Module Sample.
Import Tree Example1.

Definition start_session : session (jv := jtree) (D := unit) :=
  {| engine_of := fresh Existing; sent := []; replica := ∅ |}.

Lemma start_live : live (engine_of start_session).
Proof. split; [apply fresh_wf|discriminate|reflexivity]. Qed.

Lemma start_opened : opened hex no_time start_session.
Proof. split; [apply start_live|reflexivity|]. intros k. simpl. by rewrite !lookup_empty. Qed.

(** A store of one object: a poll reports it, the host handles it, and the
    next poll is quiet. *)
Definition only : list ObjectEntry := [obj "a" 2].
Definition after_poll : session (jv := jtree) (D := unit) :=
  poll_session hex no_time (fun _ => 0) only start_session.

Lemma replica_exact_witness :
  exists s, history hex no_time (fun _ => True) start_session 1 s
    /\ is_Some (replica s !! "a"%string)
    /\ mirrors hex no_time (digest hex <$> index_listing only) (replica s).
Proof.
  assert (exists ev pos, sent after_poll !! 0%nat = Some ev /\ upstream_cursor ev = Some pos
    /\ awaits (engine_of after_poll) pos = true
    /\ pending (engine_of (handle ev after_poll)) = []
    /\ is_Some (replica (handle ev after_poll) !! "a"%string)
    /\ (poll hex no_time (fun _ => 0) (engine_of (handle ev after_poll)) only).2 = [])
    as (ev & pos & Hev & Hu & Ha & Hp & Hr & Hq).
  { eexists _, _. split; [vm_compute; reflexivity|]. split; [vm_compute; reflexivity|].
    split; [vm_compute; reflexivity|]. split; [vm_compute; reflexivity|].
    split; [eexists; vm_compute; reflexivity|vm_compute; reflexivity]. }
  assert (Hh : history hex no_time (fun _ => True) start_session 1 (handle ev after_poll)).
  { eapply history_handle; [apply history_poll; [apply history_start|done]
      |by eapply list_elem_of_lookup_2|exact Hu|exact Ha]. }
  exists (handle ev after_poll). split; [exact Hh|]. split; [exact Hr|].
  apply (replica_exact hex no_time (fun _ => True) (fun _ => 0) 1 only start_session
           (handle ev after_poll) start_opened Hh).
  - apply Nat.leb_le. reflexivity.
  - vm_compute. discriminate.
  - exact Hp.
  - rewrite Hq. unfold handle. rewrite Hu. unfold gap_events, acknowledged. by repeat case_match.
Defined.

Lemma rounds_replicate_witness :
  mirrors hex no_time (digest hex <$> index_listing listing)
    (replica (host_rounds hex no_time (fun _ _ => 0) 2 listing start_session)).
Proof.
  apply (rounds_replicate hex no_time (fun _ _ => 0) 2 listing start_session).
  - exact fresh_settled.
  - exact (op_mirrors _ _ _ start_opened).
  - vm_compute. discriminate.
  - apply Nat.leb_le. vm_compute. reflexivity.
Defined.

(** The object is gone a minute later, before the host handles its report. *)
Lemma late_handling_lost_witness :
  exists ev m, ev ∈ sent after_poll
    /\ let i2 := (poll hex no_time (fun _ => secs 60) (engine_of after_poll) []).1 in
       let s := handle ev {| engine_of := i2; sent := []; replica := ∅ |} in
       engine_of s = i2
       /\ replica (poll_session hex no_time (fun _ => secs 60) [] s) !! "a"%string = Some m.
Proof.
  assert (exists ev m pos, sent after_poll !! 0%nat = Some ev
    /\ told ev = Some ("created"%string, "a"%string, m) /\ upstream_cursor ev = Some pos)
    as (ev & m & pos & Hev & Ht & Hu).
  { eexists _, _, _. split; [vm_compute; reflexivity|]. split; vm_compute; reflexivity. }
  apply list_elem_of_lookup_2 in Hev. exists ev, m. split; [exact Hev|].
  assert (Hall : Forall (fun p => p_at p = 0) (pending (engine_of after_poll)))
    by (vm_compute; repeat constructor).
  rewrite Forall_forall in Hall.
  assert (Hlate : forall (n : nat) p, p ∈ pending (engine_of after_poll) -> secs 60 <= secs 60 - p_at p).
  { intros _ p Hp. specialize (Hall p Hp). simpl in Hall. lia. }
  destruct (late_handling_lost hex no_time (fun _ => 0) (fun _ => secs 60) (fresh Existing) only []
              ev "created" "a" m pos ∅ fresh_settled) as [He Hh];
    [vm_compute; discriminate|reflexivity|exact Hev|exact Ht|exact Hu|exact Hlate|reflexivity|].
  cbv zeta. set (s := handle ev _) in *. split; [exact He|].
  clearbody s.
  assert (Hs : history hex no_time (fun l => index_listing l !! "a"%string = None) s 1
                 (poll_session hex no_time (fun _ => secs 60) [] s)).
  { apply history_poll; [apply history_start|reflexivity]. }
  apply (Hh 1%nat _ Hs). vm_compute. discriminate.
Defined.
End Sample.
