(* ===== verification/Restart.v ===== *)
(** * An inventory watch stopped and resumed

    The position of an event is what a host stores to resume a watch
    (src/src/inventory.rs, [Inventory::new]). Replica.v follows one engine; here
    the engine of a session is replaced by the one its stored position makes,
    and the consumer keeps its replica. *)

From Stdlib Require Import Ascii String.
From S2P Require Import Prelude Json Watch Inventory InventoryFacts Replica.

Section Restart.
Context {jv : Type} `{JL : JsonLaws jv} {D : Type}.
Variable blake3_hex : list ascii -> string.
Variable occurred_at_from_millis : Z -> option string.
Variable serde_error : jv -> string.

Abbreviation Inv := (Inventory (jv := jv) (D := D)).
Abbreviation dig := (digest blake3_hex).
Abbreviation session_ := (session (jv := jv) (D := D)).
Abbreviation poll_ := (poll (jv := jv) (D := D) blake3_hex occurred_at_from_millis).
Abbreviation new_ := (new (jv := jv) (D := D) serde_error).
Abbreviation reports_ := (reports (jv := jv) (D := D) blake3_hex occurred_at_from_millis).
Abbreviation taken_ := (taken (jv := jv) (D := D) blake3_hex).
Abbreviation history_ := (history (D := D) blake3_hex occurred_at_from_millis).
Abbreviation opened_ := (opened (D := D) blake3_hex occurred_at_from_millis).
Abbreviation lists_ := (lists blake3_hex).
Implicit Types i j : Inv.

(** The session a new engine takes over: what the old one sent is gone with
    it, the consumer's replica stays. *)
Definition restarted (j : Inv) (s : session_) : session_ :=
  {| engine_of := j; sent := []; replica := replica s |}.

Lemma resumed_live o c : is_Some (c_snap c) -> live (resumed (jv := jv) (D := D) o c).
Proof.
  intros [snap Hs]. split; [|by unfold resumed; rewrite Hs|done].
  split; simpl; [lia|apply SSorted_nil|by apply Forall_nil|done|done].
Qed.

(** ** Resuming from the event just handled *)

(** An event of the poll just made is awaited. *)
Lemma just_sent_awaited clock i l ev pos :
  live i -> next_seq i + Z.of_nat (max_in_flight (options i)) <= u64_max ->
  ev ∈ (poll_ clock i l).2 -> upstream_cursor ev = Some pos ->
  awaits (poll_ clock i l).1 pos = true.
Proof.
  intros [Hwf Hb _] Hn Hin Hpos.
  destruct (sent_position blake3_hex occurred_at_from_millis clock i l ev pos Hwf Hb Hn Hin Hpos)
    as (n & op & e & d & seq & at_ & _ & _ & Hseq & -> & Hp).
  unfold awaits. rewrite (cursor_seq {| c_v := CURSOR_VERSION; c_seq := seq |}) by exact Hseq.
  apply bool_decide_eq_true, list_elem_of_fmap. eexists. split; [|by eapply list_elem_of_lookup_2]. done.
Qed.

(** The listing a position confirms is the one its acknowledgement makes. *)
Lemma position_confirms clock i l ev pos :
  live i -> next_seq i + Z.of_nat (max_in_flight (options i)) <= u64_max ->
  ev ∈ (poll_ clock i l).2 -> upstream_cursor ev = Some pos ->
  exists c, pos = cursor_to_value c /\ new_ (options i) (Some pos) = Ok (resumed (options i) c)
    /\ forall snap, c_snap c = Some snap -> snap = confirmed (acknowledged (poll_ clock i l).1 pos).
Proof.
  intros [Hwf Hb Hq] Hn Hin Hpos.
  destruct (wf_poll blake3_hex occurred_at_from_millis clock i l Hwf Hn) as ([_ Hsorted _ _ _] & _).
  destruct (sent_position blake3_hex occurred_at_from_millis clock i l ev pos Hwf Hb Hn Hin Hpos)
    as (n & op & e & d & seq & at_ & Hc & _ & Hseq & -> & Hp).
  eexists. split; [done|]. split; [by apply new_resumes|]. intros snap Hsnap.
  erewrite (acknowledged_spec _ _ (length (kept clock i) + n));
    [|apply cursor_seq; exact Hseq|exact Hsorted|exact Hp|done].
  simpl in Hsnap. unfold snap_of in Hsnap. repeat case_decide; try done. repeat case_match; try done.
  simplify_eq. unfold confirm, after. by destruct d.
Qed.

(** C9. A restart keeps the replica or admits the gap: when the host stores
    the position of the event it handled first of a poll and the watch is resumed
    from it, then either the new engine and the consumer are again an opened
    session, so that every history that follows mirrors the store as the first
    did, or the new engine owes a gap and takes its next listing in silence. *)
Theorem restart_resumes ok n clock l s0 s ev pos :
  opened_ s0 -> history_ ok s0 n s ->
  next_seq (engine_of s0)
    + Z.of_nat (S n) * Z.of_nat (max_in_flight (options (engine_of s0))) <= u64_max ->
  ev ∈ (poll_ clock (engine_of s) l).2 -> upstream_cursor ev = Some pos ->
  let s' := handle ev (poll_session blake3_hex occurred_at_from_millis clock l s) in
  exists j, new_ (options (engine_of s0)) (Some pos) = Ok j
    /\ (opened_ (restarted j s') \/ (baseline j = Silent /\ inv_gap j = true /\ confirmed j = ∅)).
Proof.
  intros H0%opened_mirrored Hh Hn Hev Hu. rewrite Nat2Z.inj_succ, Z.mul_succ_l in Hn.
  destruct (history_mirrored _ _ _ _ _ _ _ _ Hh H0 ltac:(lia)) as [Hl Ho Hle _ HR].
  assert (Hnext : next_seq (engine_of s) + Z.of_nat (max_in_flight (options (engine_of s))) <= u64_max)
    by (rewrite Ho; lia).
  destruct (position_confirms clock (engine_of s) l ev pos Hl Hnext Hev Hu) as (c & Hpos & Hnew & Hsnap).
  rewrite Ho in Hnew. eexists. split; [exact Hnew|].
  pose proof (just_sent_awaited clock (engine_of s) l ev pos Hl Hnext Hev Hu) as Ha.
  destruct (poll_live blake3_hex occurred_at_from_millis clock (engine_of s) l Hl Hnext)
    as (i' & evs & E & Hl' & _ & _ & Ec & _ & Hco). unfold poll_session. rewrite E in *. simpl in *.
  destruct (c_snap c) as [snap|] eqn:Es; [left|by right].
  split; [apply resumed_live; by rewrite Es|done|]. unfold handle. rewrite Hu. simpl. rewrite Es. simpl.
  rewrite (Hsnap snap eq_refl). apply (handle_mirrors _ _ _ _ _ _ Hl' (Hco ev Hev ltac:(by eexists)) Hu Ha).
  by rewrite Ec.
Qed.

(** ** What a snapshot leaves out *)

Lemma replica_handles evs (s : session_) :
  replica (foldl (fun s ev => handle ev s) s evs) = foldl (fun R ev => apply_event ev R) (replica s) evs.
Proof. revert s. induction evs as [|ev evs IH]; intros s; [done|]. simpl. by rewrite IH. Qed.

Lemma applies_silent k evs (R : gmap string (gmap string jv)) :
  silent_on k evs -> foldl (fun R ev => apply_event ev R) R evs !! k = R !! k.
Proof.
  revert R. induction evs as [|ev evs IH]; intros R H; [done|]. simpl. rewrite IH.
  - apply apply_silent. intros ev' op k' m ->%list_elem_of_singleton. apply H. left.
  - intros ev' op k' m Hin. apply H. by right.
Qed.

(** The events of a run of changes of distinct keys: each is told once. *)
Lemma reports_silent i take index seq cs evs k :
  reports_ i take index seq cs evs -> k ∉ (fun c : change => key c.1.2) <$> cs -> silent_on k evs.
Proof.
  intros Hr Hk ev op k' m Hev Ht ->. apply list_elem_of_lookup in Hev as [n Hev].
  destruct (reports_lookup _ _ _ _ _ _ _ _ _ _ Hr Hev) as (op' & e & d & extra & Hc & ->).
  match type of Ht with told (add_details _ (event _ _ ?i ?op ?e ?d ?seq ?snap)) = _ =>
    destruct (event_told blake3_hex occurred_at_from_millis extra i op e d seq snap) as (m' & Ht' & _) end.
  rewrite Ht in Ht'. injection Ht' as _ -> _. apply Hk, list_elem_of_fmap.
  exists (op', e, d). split; [done|by eapply list_elem_of_lookup_2].
Qed.

Lemma reports_applied i take index seq cs evs n ev op k m R :
  reports_ i take index seq cs evs -> NoDup ((fun c : change => key c.1.2) <$> cs) ->
  evs !! n = Some ev -> told ev = Some (op, k, m) ->
  foldl (fun R ev => apply_event ev R) R evs !! k = if decide (op = op_str Deleted) then None else Some m.
Proof.
  revert index seq evs n R. induction cs as [|[[op' e] d] cs IH]; intros index seq [|x evs] n R Hr Hnd Hev Ht;
    try done. apply NoDup_cons in Hnd as [Hk Hnd]. destruct n as [|n].
  - injection Hev as ->. destruct Hr as [(extra & ->) Hr]. cbn [foldl].
    destruct (event_told blake3_hex occurred_at_from_millis extra i op' e d seq
      (snap_of (options i) (confirmed i) take index (op', e, d))) as (m' & Ht' & _).
    pose proof Ht as Htold. rewrite Ht in Ht'. injection Ht' as -> -> ->.
    rewrite (applies_silent (key e)) by (by eapply reports_silent). unfold apply_event. rewrite Htold.
    case_decide; [apply lookup_delete_eq|apply lookup_insert_eq].
  - destruct Hr as [_ Hr]. simpl. by eapply IH.
Qed.

(** A change found moves its key away from what is confirmed. *)
Lemma shows_moves i cur op e d : shows blake3_hex i cur (op, e, d) -> d <> confirmed i !! key e.
Proof.
  intros [_ H]. destruct op; simpl in H.
  - destruct H as (_ & -> & ->). done.
  - destruct H as (_ & -> & known & -> & Hne). congruence.
  - by destruct H as (_ & [x ->] & -> & _).
Qed.

Lemma taken_NoDup clock i l : keyed (seen i) -> NoDup ((fun c : change => key c.1.2) <$> taken_ clock i l).
Proof.
  intros Hs. unfold taken. rewrite fmap_take. apply NoDup_take. unfold found.
  apply finds_keys_NoDup; [apply keyed_index|done].
Qed.

(** After a round, a change told of is confirmed, and the consumer has it. *)
Lemma told_after_round clock l s ev op k m :
  settled (engine_of s) ->
  next_seq (engine_of s) + Z.of_nat (max_in_flight (options (engine_of s))) <= u64_max ->
  ev ∈ (poll_ clock (engine_of s) l).2 -> told ev = Some (op, k, m) ->
  let s1 := host_round blake3_hex occurred_at_from_millis clock l s in
  confirmed (engine_of s1) !! k <> confirmed (engine_of s) !! k
  /\ replica s1 !! k = (if decide (op = op_str Deleted) then None else Some m).
Proof.
  intros Hset Hn Hev Ht. simpl. split.
  - rewrite engine_host_round.
    destruct (round_spec blake3_hex occurred_at_from_millis clock (engine_of s) l Hset Hn) as (_ & _ & _ & ->).
    destruct (sent_change _ _ clock (engine_of s) l ev (settled_live _ Hset) Hn Hev)
      as [->|(extra & i' & op' & e & d & seq & snap & -> & Hc & _)]; [done|].
    destruct (event_told blake3_hex occurred_at_from_millis extra i' op' e d seq snap) as (m' & Ht' & _).
    rewrite Ht in Ht'. injection Ht' as -> -> ->. destruct Hset as [_ Hp Hs _ _].
    pose proof (taken_NoDup clock (engine_of s) l Hs) as Hnd.
    assert (Etake : taken_ clock (engine_of s) l
      = take (max_in_flight (options (engine_of s))) (found blake3_hex clock (engine_of s) l)).
    { unfold taken. by rewrite (kept_nil _ _ Hp), Nat.sub_0_r. }
    rewrite <- Etake. destruct (foldl_after_lookup _ (confirmed (engine_of s)) (key e) Hnd) as [Hin _].
    rewrite (Hin _ Hc eq_refl). apply taken_shows in Hc; [|done]. by apply shows_moves in Hc.
  - destruct Hset as [Hb Hp Hs H0 Hq]. unfold host_round.
    destruct (poll_spec blake3_hex occurred_at_from_millis clock (engine_of s) l Hb Hs H0 Hn)
      as (i' & evs & E & Hr & _). rewrite E in *. simpl in Hev. rewrite replica_handles, foldl_app. simpl.
    assert (foldl (fun R ev => apply_event ev R) (replica s) (gap_events (engine_of s)) = replica s) as ->.
    { unfold gap_events. by destruct (inv_gap (engine_of s)). }
    apply elem_of_app in Hev as [Hev|Hev].
    { unfold gap_events in Hev. destruct (inv_gap (engine_of s)); [|by apply not_elem_of_nil in Hev].
      by apply list_elem_of_singleton in Hev as ->. }
    apply list_elem_of_lookup in Hev as [n Hev].
    by eapply reports_applied; [exact Hr|by apply taken_NoDup|exact Hev|].
Qed.

(** An engine resumed from a position with a snapshot has every key but the
    position's own as it was confirmed before the poll. *)
Lemma last_position_spares clock l i ev op k m pos j :
  live i -> next_seq i + Z.of_nat (max_in_flight (options i)) <= u64_max ->
  ev ∈ (poll_ clock i l).2 -> told ev = Some (op, k, m) -> upstream_cursor ev = Some pos ->
  new_ (options i) (Some pos) = Ok j -> baseline j = Known ->
  live j /\ options j = options i /\ pending j = [] /\ next_seq j = 0
  /\ forall k', k <> k' -> confirmed j !! k' = confirmed i !! k'.
Proof.
  intros Hl Hn Hin Ht Hpos Hnew Hkn. pose proof Hl as [Hwf Hb Hq].
  destruct (sent_position blake3_hex occurred_at_from_millis clock i l ev pos Hwf Hb Hn Hin Hpos)
    as (n & op' & e & d & seq & at_ & Hc & (extra & sn & Hev) & Hseq & -> & Hp).
  destruct (event_told blake3_hex occurred_at_from_millis extra (poll_ clock i l).1 op' e d seq sn) as (m' & Ht' & _).
  rewrite <- Hev, Ht in Ht'. injection Ht' as _ -> _.
  rewrite new_resumes in Hnew by done. injection Hnew as <-. unfold resumed in Hkn. simpl in Hkn.
  destruct (snap_of _ _ _ _ _) as [snap|] eqn:Es; [|done].
  split; [by apply resumed_live; eexists|]. split; [done|]. split; [done|]. split; [done|].
  intros k' Hne. simpl.
  destruct (poll_live blake3_hex occurred_at_from_millis clock i l Hl Hn) as (i' & evs & E & _ & _ & _ & Ec & _).
  rewrite E in Es. simpl in Es. unfold snap_of in Es. repeat case_decide; try done. case_match; [|done].
  injection Es as <-. unfold after. simpl. rewrite Ec.
  destruct d; [by apply lookup_insert_ne|by apply lookup_delete_ne].
Qed.

(** C11. What is handled before the event the position is taken from may be
    forgotten: after a poll whose events are all handled, the position of the
    last one carries the listing of before the poll with its own change only; an
    engine resumed from it takes every other change as not made, so when the
    store undid such a change while the watch was stopped (a new object is gone
    again, a deleted one back), nothing is ever reported of it and the consumer
    keeps what it was told. *)
Theorem restart_forgets_handled clock l s ev ev' op op' k k' m m' pos j :
  settled (engine_of s) ->
  next_seq (engine_of s) + Z.of_nat (max_in_flight (options (engine_of s))) <= u64_max ->
  ev ∈ (poll_ clock (engine_of s) l).2 -> told ev = Some (op, k, m) ->
  ev' ∈ (poll_ clock (engine_of s) l).2 -> told ev' = Some (op', k', m') -> k' <> k ->
  upstream_cursor ev' = Some pos ->
  new_ (options (engine_of s)) (Some pos) = Ok j -> baseline j = Known ->
  let s1 := host_round blake3_hex occurred_at_from_millis clock l s in
  let d := confirmed (engine_of s) !! k in
  confirmed (engine_of s1) !! k <> d /\ confirmed j !! k = d
  /\ replica s1 !! k = (if decide (op = op_str Deleted) then None else Some m)
  /\ forall n s', history_ (lists_ k d) (restarted j s1) n s' ->
       Z.of_nat n * Z.of_nat (max_in_flight (options (engine_of s))) <= u64_max ->
       silent_on k (sent s') /\ replica s' !! k = replica s1 !! k.
Proof.
  intros Hset Hn Hev Ht Hev' Ht' Hne Hu Hnew Hkn. simpl.
  pose proof Hset as [Hb Hp Hs H0 Hq].
  destruct (told_after_round clock l s ev op k m Hset Hn Hev Ht) as [Hmoved Hrep].
  destruct (last_position_spares clock l (engine_of s) ev' op' k' m' pos j (settled_live _ Hset) Hn
    Hev' Ht' Hu Hnew Hkn)
    as (Hlv & Ho & Hpj & Hnj & Hspare).
  split; [exact Hmoved|]. split; [by apply Hspare|]. split; [exact Hrep|].
  intros n s' Hh Hb'.
  destruct (history_steady blake3_hex occurred_at_from_millis k (confirmed (engine_of s) !! k)
    (options (engine_of s)) 0 _ _ _ Hh) as (_ & _ & Hq' & Hr'); simpl; [done|done|lia| | |lia|done].
  - split; [by apply Hspare|rewrite Hpj; by apply Forall_nil].
  - intros x ? ? ? Hin. by apply not_elem_of_nil in Hin.
Qed.
End Restart.

(** ** Witnesses *)

Module Sample.
Import Tree Example1 Replica.Sample.

Lemma restart_resumes_witness :
  exists ev pos j, ev ∈ sent after_poll /\ upstream_cursor ev = Some pos
    /\ new no_error (opts Existing) (Some pos) = Ok j
    /\ opened hex no_time (restarted j (handle ev after_poll)).
Proof.
  assert (exists ev pos j, sent after_poll !! 0%nat = Some ev /\ upstream_cursor ev = Some pos
    /\ new (D := unit) no_error (opts Existing) (Some pos) = Ok j /\ inv_gap j = false)
    as (ev & pos & j & Hev & Hu & Hj & Hg).
  { eexists _, _, _. split; [vm_compute; reflexivity|]. split; [vm_compute; reflexivity|].
    split; vm_compute; reflexivity. }
  apply list_elem_of_lookup_2 in Hev. exists ev, pos, j.
  split; [exact Hev|]. split; [exact Hu|]. split; [exact Hj|].
  destruct (restart_resumes hex no_time no_error (fun _ => True) 0 (fun _ => 0) only start_session
              start_session ev pos start_opened (history_start _ _ _ _)) as (j' & Hj' & Ho);
    [vm_compute; discriminate|exact Hev|exact Hu|].
  change (new (D := unit) no_error (opts Existing) (Some pos) = Ok j') in Hj'.
  rewrite Hj in Hj'. injection Hj' as <-. destruct Ho as [Ho|(_ & Hg' & _)]; [exact Ho|congruence].
Defined.

(** Two new objects, both handled; the first is gone when the watch resumes. *)
Definition two : list ObjectEntry := [obj "a" 1; obj "b" 2].

(** The story runs: two events, and silence from the resumed engine. *)
Definition two_runs (evs : list (WatchEvent Tree.jtree)) : bool :=
  match evs with
  | [ev; ev'] =>
      match told ev, told ev', upstream_cursor ev' with
      | Some (op, k, _), Some (op', k', _), Some pos =>
          bool_decide ((op, k, op', k') = ("created", "a", "created", "b")%string) &&
          match new (D := unit) no_error (opts Existing) (Some pos) with
          | Ok j => bool_decide (baseline j = Known) &&
                    match (poll hex no_time (fun _ => 0) j [obj "b" 2]).2 with [] => true | _ => false end
          | Err _ => false
          end
      | _, _, _ => false
      end
  | _ => false
  end.

Lemma two_runs_true : two_runs (poll hex no_time (fun _ => 0) (fresh Existing) two).2 = true.
Proof. vm_compute. reflexivity. Qed.

Lemma two_story : exists ev ev' m m' pos j,
  (poll hex no_time (fun _ => 0) (fresh Existing) two).2 = [ev; ev']
  /\ told ev = Some ("created", "a", m)%string /\ told ev' = Some ("created", "b", m')%string
  /\ upstream_cursor ev' = Some pos
  /\ new (D := unit) no_error (opts Existing) (Some pos) = Ok j /\ baseline j = Known
  /\ (poll hex no_time (fun _ => 0) j [obj "b" 2]).2 = [].
Proof.
  pose proof two_runs_true as H. destruct (poll _ _ _ _ _).2 as [|ev [|ev' [|]]]; try done. simpl in H.
  destruct (told ev) as [[[op k] m]|] eqn:?; [|done].
  destruct (told ev') as [[[op' k'] m']|] eqn:?; [|done].
  destruct (upstream_cursor ev') as [pos|] eqn:Hu; [|done]. apply andb_true_iff in H as [Hk H].
  apply bool_decide_eq_true in Hk. injection Hk as -> -> -> ->.
  destruct (new _ _ _) as [j|] eqn:Hj; [|done]. apply andb_true_iff in H as [Hb H].
  apply bool_decide_eq_true in Hb. exists ev, ev', m, m', pos, j.
  do 5 (split; [done|]). split; [exact Hb|]. destruct (poll _ _ _ j _).2; [done|discriminate].
Qed.

Lemma restart_forgets_handled_witness :
  exists j, let s1 := host_round hex no_time (fun _ => 0) two start_session in
    let s2 := poll_session hex no_time (fun _ => 0) [obj "b" 2] (restarted j s1) in
    sent s2 = [] /\ is_Some (replica s2 !! "a"%string).
Proof.
  destruct two_story as (ev & ev' & m & m' & pos & j & Hevs & Ht & Ht' & Hu & Hj & Hb & Hq).
  exists j. cbv zeta.
  destruct (restart_forgets_handled hex no_time no_error (fun _ => 0) two start_session ev ev'
              "created" "created" "a" "b" m m' pos j fresh_settled) as (_ & _ & Hr & Hh);
    [vm_compute; discriminate|cbn [engine_of start_session]; rewrite Hevs; left|exact Ht
     |cbn [engine_of start_session]; rewrite Hevs; right; left
     |exact Ht'|discriminate|exact Hu|exact Hj|exact Hb|].
  generalize dependent (host_round hex no_time (fun _ => 0) two start_session). intros s1 Hr Hh.
  split; [unfold poll_session, restarted; cbn [engine_of]; destruct (poll _ _ _ j _); exact Hq|].
  exists m. destruct (Hh 1%nat (poll_session hex no_time (fun _ => 0) [obj "b" 2] (restarted j s1))) as [_ ->];
    [|vm_compute; discriminate|exact Hr].
  apply history_poll; [apply history_start|reflexivity].
Defined.
End Sample.
