(* ===== verification/Walk.v ===== *)
(** * Walking a remote tree (src/src/inventory.rs, [walk])

    [list_dir] is a closure with state [S], run in the order the walk calls it;
    glob matching is the [glob] crate's, a parameter. *)

From Stdlib Require Import Ascii String.
From S2P Require Import Prelude Inventory.

(** One entry of a remote directory listing. *)
Record DirItem := {
  name : string;
  is_dir : bool;
  d_size : option Z;
  d_modified_at_ms : option Z;
}.

Record WalkOptions (Pattern : Type) := {
  recursive : bool;
  pattern : option Pattern;
  max_files : nat;
  max_dirs : nat;
}.
Arguments recursive {Pattern} _.
Arguments pattern {Pattern} _.
Arguments max_files {Pattern} _.
Arguments max_dirs {Pattern} _.

Definition name_le : relation DirItem := fun a b => key_le (name a) (name b).
Definition entry_key_le : relation ObjectEntry := fun a b => key_le (key a) (key b).

#[global] Instance name_le_dec : RelDecision name_le.
Proof. intros a b. apply key_le_dec. Defined.
#[global] Instance entry_key_le_dec : RelDecision entry_key_le.
Proof. intros a b. apply key_le_dec. Defined.

Section Walk.
Context {Pattern S : Type}.
(** [glob::Pattern::matches_with], given [require_literal_separator]. *)
Variable matches_with : Pattern -> bool -> string -> bool.
Variable options : WalkOptions Pattern.

Definition matches_key (pattern : Pattern) (key : string) : bool :=
  matches_with pattern true key.

Definition skipped_name (n : string) : bool :=
  (String.eqb n "" || String.eqb n "." || String.eqb n "..")%string.

Definition child_key (dir n : string) : string :=
  if String.eqb dir "" then n else (dir ++ "/" ++ n)%string.

(** One item of directory [dir]: what it adds to the queue and to the
    entries. *)
Definition take_item (dir : string) (item : DirItem) : list string * list ObjectEntry :=
  if skipped_name (name item) then ([], [])
  else
    let k := child_key dir (name item) in
    if is_dir item then (if recursive options then [k] else [], [])
    else if match pattern options with Some p => negb (matches_key p k) | None => false end
    then ([], [])
    else ([], [{| key := k; size := d_size item; modified_at_ms := d_modified_at_ms item;
                  etag := None; version := None |}]).

Definition dirs_of (dir : string) (items : list DirItem) : list string :=
  sort_by name_le items ≫= fun item => (take_item dir item).1.
Definition files_of (dir : string) (items : list DirItem) : list ObjectEntry :=
  sort_by name_le items ≫= fun item => (take_item dir item).2.

Variable list_dir : S -> string -> S * result (list DirItem) string.

(** The breadth-first loop; [None] out of fuel. *)
Fixpoint walk_loop (fuel : nat) (st : S) (dirs : list string) (listed : nat)
    (entries : list ObjectEntry) : option (S * result (list ObjectEntry) string) :=
  match fuel with
  | O => None
  | Datatypes.S fuel =>
      match dirs with
      | [] => Some (st, Ok entries)
      | dir :: dirs =>
          if (listed =? max_dirs options)%nat then Some (st, Ok entries)
          else
            match list_dir st dir with
            | (st, Err e) => Some (st, Err e)
            | (st, Ok items) =>
                walk_loop fuel st (dirs ++ dirs_of dir items) (Datatypes.S listed)
                  (entries ++ files_of dir items)
            end
      end
  end.

(** The listing: in key order, one entry a key, cut to [max_files]. *)
Definition finish (entries : list ObjectEntry) : list ObjectEntry :=
  take (max_files options)
    (dedup_by (fun a b => String.eqb (key a) (key b)) (sort_by entry_key_le entries)).

(** [walk]: one turn per directory listed, and one to stop. *)
Definition walk (st : S) : option (S * result (list ObjectEntry) string) :=
  match walk_loop (max_dirs options + 1) st [""%string] 0 [] with
  | Some (st, Ok entries) => Some (st, Ok (finish entries))
  | Some (st, Err e) => Some (st, Err e)
  | None => None
  end.
End Walk.

(** ** Lemmas *)

#[global] Instance name_le_trans : Transitive name_le.
Proof. intros a b c. unfold name_le. apply transitivity. Qed.
#[global] Instance name_le_total : Total name_le.
Proof. intros a b. unfold name_le. apply (total key_le). Qed.
#[global] Instance entry_key_le_trans : Transitive entry_key_le.
Proof. intros a b c. unfold entry_key_le. apply transitivity. Qed.
#[global] Instance entry_key_le_total : Total entry_key_le.
Proof. intros a b. unfold entry_key_le. apply (total key_le). Qed.

(** Items with distinct names sort the same in any order. *)
Lemma sort_names_perm l k :
  NoDup (name <$> l) -> l ≡ₚ k -> sort_by name_le l = sort_by name_le k.
Proof.
  intros Hnd Hp. apply (StronglySorted_unique_strong name_le);
    [|apply (sort_by_sorted name_le)..|by rewrite !sort_by_perm].
  intros x y Hx Hy Hxy Hyx. rewrite sort_by_perm in Hx, Hy. rewrite <- Hp in Hy.
  assert (Hn : name x = name y) by (by apply (anti_symm key_le)).
  apply list_elem_of_lookup in Hx as [i Hx], Hy as [j Hy].
  assert (i = j) as ->; [|congruence].
  apply (NoDup_lookup (name <$> l) i j (name x) Hnd);
    rewrite list_lookup_fmap; [by rewrite Hx|by rewrite Hy, Hn].
Qed.

(** Sorting then dropping equal neighbours leaves distinct keys. *)
Lemma dedup_from_keys x l :
  StronglySorted entry_key_le (x :: l) ->
  NoDup (key <$> dedup_from (fun a b => String.eqb (key a) (key b)) x l).
Proof.
  revert x. induction l as [|y l IH]; intros x Hs; simpl; [apply NoDup_singleton|].
  apply StronglySorted_cons in Hs as [Hx Hs]. apply Forall_cons in Hx as [Hxy Hx].
  destruct (String.eqb_spec (key y) (key x)) as [E|E].
  - apply IH. constructor; [by inversion Hs|done].
  - rewrite fmap_cons. apply NoDup_cons. split; [|by apply IH].
    intros (z & Hk & Hz)%list_elem_of_fmap.
    apply (sublist_elem_of _ _ _ (dedup_from_sublist _ _ _)) in Hz.
    assert (Hyz : key_le (key y) (key z)).
    { apply elem_of_cons in Hz as [->|Hz]; [done|].
      apply StronglySorted_cons in Hs as [Hy _]. rewrite Forall_forall in Hy. by apply Hy. }
    rewrite <- Hk in Hyz. apply E. by apply (anti_symm key_le).
Qed.

Lemma dedup_from_elem x l k :
  StronglySorted entry_key_le (x :: l) ->
  k ∈ key <$> x :: l -> k ∈ key <$> dedup_from (fun a b => String.eqb (key a) (key b)) x l.
Proof.
  revert x. induction l as [|y l IH]; intros x Hs Hk; [exact Hk|]. simpl.
  apply StronglySorted_cons in Hs as [Hx Hs]. apply Forall_cons in Hx as [Hxy Hx].
  rewrite !fmap_cons, !elem_of_cons in Hk.
  destruct (String.eqb_spec (key y) (key x)) as [E|E].
  - apply IH; [constructor; [by inversion Hs|done]|]. rewrite fmap_cons, elem_of_cons.
    destruct Hk as [->|[->|Hk]]; [by left|by left|by right].
  - rewrite fmap_cons, elem_of_cons. destruct Hk as [->|Hk]; [by left|]. right.
    apply IH; [done|]. by rewrite fmap_cons, elem_of_cons.
Qed.

Section WalkLemmas.
Context {Pattern : Type}.
Variable matches_with : Pattern -> bool -> string -> bool.
Variable options : WalkOptions Pattern.

Abbreviation subdirs := (dirs_of matches_with options).
Abbreviation files := (files_of matches_with options).
Abbreviation fin := (finish options).

Lemma finish_keys entries :
  StronglySorted key_le (key <$> fin entries) /\ NoDup (key <$> fin entries)
  /\ (length (fin entries) <= max_files options)%nat
  /\ (forall e, e ∈ fin entries -> e ∈ entries)
  /\ (forall k, k ∈ key <$> entries -> k ∉ key <$> fin entries ->
      length (fin entries) = max_files options
      /\ forall k', k' ∈ key <$> fin entries -> key_le k' k).
Proof.
  unfold finish. set (s := sort_by entry_key_le entries).
  assert (Hs : StronglySorted entry_key_le s) by apply (sort_by_sorted entry_key_le).
  assert (Hp : s ≡ₚ entries) by apply sort_by_perm.
  set (d := dedup_by _ s).
  assert (Hd : d `sublist_of` s) by apply dedup_by_sublist.
  assert (Ht : take (max_files options) d `sublist_of` d) by apply sublist_take.
  split_and!.
  - assert (Hst : StronglySorted entry_key_le (take (max_files options) d))
      by (eapply sorted_sublist; [by etrans|done]).
    clear -Hst. induction Hst as [|x l _ IH Hx]; simpl; constructor; [done|].
    apply Forall_fmap. exact Hx.
  - eapply sublist_NoDup; [|apply fmap_sublist; exact Ht]. unfold d, dedup_by.
    destruct s; [constructor|by apply dedup_from_keys].
  - rewrite length_take. lia.
  - intros e He. rewrite <- Hp. exact (sublist_elem_of _ _ _ Hd (sublist_elem_of _ _ _ Ht He)).
  - intros k Hk Hn. assert (Hkd : k ∈ key <$> d).
    { rewrite <- Hp in Hk. unfold d, dedup_by. destruct s; [done|by apply dedup_from_elem]. }
    assert (Hlt : (max_files options < length d)%nat).
    { destruct (le_lt_dec (length d) (max_files options)); [|done].
      by rewrite take_ge in Hn by done. }
    split; [rewrite length_take; lia|].
    rewrite <- (take_drop (max_files options) d), fmap_app, elem_of_app in Hkd.
    destruct Hkd as [?|Hkd]; [done|].
    intros k' (x & -> & Hx)%list_elem_of_fmap.
    apply list_elem_of_fmap in Hkd as (y & -> & Hy).
    assert (Hsd : StronglySorted entry_key_le (take (max_files options) d ++ drop (max_files options) d))
      by (rewrite take_drop; by eapply sorted_sublist).
    exact (StronglySorted_app_1_elem_of _ _ _ _ _ Hsd Hx Hy).
Qed.

(** The loop on a store that does not change, with the directories listed
    recorded as its state. *)
Variable f : string -> result (list DirItem) string.

Definition traced (tr : list string) (d : string) : list string * result (list DirItem) string :=
  (tr ++ [d], f d).
Definition items (d : string) : list DirItem := result_unwrap_or [] (f d).

Lemma walk_loop_spec fuel tr dirs listed entries :
  (max_dirs options - listed < fuel)%nat -> (listed <= max_dirs options)%nat ->
  exists V r, walk_loop matches_with options traced fuel tr dirs listed entries = Some (tr ++ V, r)
    /\ (length V <= max_dirs options - listed)%nat
    /\ match r with
       | Err e => exists d, last V = Some d /\ f d = Err e
       | Ok es =>
           es = entries ++ (V ≫= fun d => files d (items d))
           /\ Forall (fun d => is_ok (f d) = true) V
           /\ V `prefix_of` dirs ++ (V ≫= fun d => subdirs d (items d))
           /\ (length V = (max_dirs options - listed)%nat
               \/ V = dirs ++ (V ≫= fun d => subdirs d (items d)))
       end.
Proof.
  revert tr dirs listed entries. induction fuel as [|fuel IH]; intros tr dirs listed entries Hf Hm; [lia|].
  cbn [walk_loop]. destruct dirs as [|dir dirs].
  { exists [], (Ok entries). rewrite !app_nil_r. split; [done|]. split; [simpl; lia|].
    split_and!; [done|done|done|by right]. }
  destruct (Nat.eqb_spec listed (max_dirs options)) as [E|E].
  { exists [], (Ok entries). rewrite !app_nil_r. split; [done|]. split; [simpl; lia|].
    split_and!; [done|done|apply prefix_nil|left; simpl; lia]. }
  unfold traced at 1. destruct (f dir) as [its|e] eqn:Ef.
  - destruct (IH (tr ++ [dir]) (dirs ++ subdirs dir its) (S listed) (entries ++ files dir its))
      as (V & r & -> & Hlen & Hr); [lia|lia|].
    exists (dir :: V), r. rewrite <- app_assoc. split; [done|]. split; [simpl; lia|].
    assert (Hi : items dir = its) by (unfold items; by rewrite Ef).
    destruct r as [es|e].
    + destruct Hr as (-> & Hok & Hpre & Hend). cbn [mbind list_bind]. rewrite Hi.
      split_and!; [by rewrite app_assoc|constructor; [by rewrite Ef|done]| |].
      * cbn [app]. apply prefix_cons. by rewrite app_assoc.
      * destruct Hend as [Hend|Hend]; [left; simpl; lia|right]. cbn [app]. f_equal.
        by rewrite app_assoc.
    + destruct Hr as (d & Hl & He). exists d. split; [|done]. destruct V; [done|exact Hl].
  - exists [dir], (Err e). split; [done|]. split; [simpl; lia|]. by exists dir.
Qed.
End WalkLemmas.

Lemma walk_loop_same {Pattern} (mw : Pattern -> bool -> string -> bool) o f g fuel dirs listed entries :
  (forall d, match f d, g d with
             | Ok a, Ok b => NoDup (name <$> a) /\ a ≡ₚ b
             | Err a, Err b => a = b
             | _, _ => False
             end) ->
  walk_loop mw o (fun (_ : unit) d => (tt, f d)) fuel tt dirs listed entries
  = walk_loop mw o (fun (_ : unit) d => (tt, g d)) fuel tt dirs listed entries.
Proof.
  intros Hfg. revert dirs listed entries.
  induction fuel as [|fuel IH]; intros dirs listed entries; simpl; [done|].
  destruct dirs as [|dir dirs]; [done|]. destruct (listed =? max_dirs o)%nat; [done|].
  specialize (Hfg dir). destruct (f dir) as [a|a], (g dir) as [b|b]; try done; [|by subst].
  destruct Hfg as [Hnd Hp]. unfold dirs_of, files_of.
  rewrite (sort_names_perm a b Hnd Hp). apply IH.
Qed.

(** ** Properties *)

(** C22. The walk always ends, within its fuel, and is the breadth-first walk
    of the tree: it lists the directories [V], at most [max_dirs] of them,
    where [V] is the root followed by the subdirectories of [V] in order, all
    of it unless the bound cut it; the result is the files of [V] cut down to
    the listing, or the first directory that failed. *)
Theorem walk_breadth_first {Pattern} (mw : Pattern -> bool -> string -> bool) o f :
  exists V, (length V <= max_dirs o)%nat
    /\ ((walk mw o (traced f) [] = Some (V, Ok (finish o (V ≫= fun d => files_of mw o d (items f d))))
         /\ V `prefix_of` ""%string :: (V ≫= fun d => dirs_of mw o d (items f d))
         /\ (length V = max_dirs o \/ V = ""%string :: (V ≫= fun d => dirs_of mw o d (items f d))))
        \/ exists d e, walk mw o (traced f) [] = Some (V, Err e) /\ last V = Some d /\ f d = Err e).
Proof.
  destruct (walk_loop_spec mw o f (max_dirs o + 1) [] [""%string] 0 []) as (V & r & Hw & Hl & Hr);
    [lia|lia|].
  exists V. split; [lia|]. unfold walk. rewrite Hw. destruct r as [es|e].
  - destruct Hr as (-> & _ & Hpre & Hend). left. rewrite Nat.sub_0_r in Hend. by split_and!.
  - destruct Hr as (d & Hd & He). right. by exists d, e.
Qed.

(** The listing a walk returns is in strict key order with no key twice,
    holds at most [max_files] entries, each one found, and when a key is left
    out the listing is full of keys that come before it. *)
Theorem listing_well_formed {Pattern} (o : WalkOptions Pattern) entries :
  StronglySorted key_le (key <$> finish o entries) /\ NoDup (key <$> finish o entries)
  /\ (length (finish o entries) <= max_files o)%nat
  /\ (forall e, e ∈ finish o entries -> e ∈ entries)
  /\ (forall k, k ∈ key <$> entries -> k ∉ key <$> finish o entries ->
      length (finish o entries) = max_files o
      /\ forall k', k' ∈ key <$> finish o entries -> key_le k' k).
Proof. apply finish_keys. Qed.

(** A walk does not depend on the order a store lists its directories in:
    permuted directory listings, names distinct within each, give the same
    result, cut or not. *)
Theorem walk_order_independent {Pattern} (mw : Pattern -> bool -> string -> bool) o f g :
  (forall d, match f d, g d with
             | Ok a, Ok b => NoDup (name <$> a) /\ a ≡ₚ b
             | Err a, Err b => a = b
             | _, _ => False
             end) ->
  walk mw o (fun (_ : unit) d => (tt, f d)) tt = walk mw o (fun (_ : unit) d => (tt, g d)) tt.
Proof. intros H. unfold walk. by rewrite (walk_loop_same mw o f g). Qed.

Lemma walk_order_independent_witness :
  let file n := {| name := n; is_dir := false; d_size := None; d_modified_at_ms := None |} in
  let o := {| recursive := true; pattern := None (A := unit); max_files := 1; max_dirs := 5 |} in
  walk (fun _ _ _ => true) o (fun (_ : unit) _ => (tt, Ok [file "b"; file "a"])) tt
  = walk (fun _ _ _ => true) o (fun (_ : unit) _ => (tt, Ok [file "a"; file "b"])) tt.
Proof.
  intros file o. apply (walk_order_independent _ _ (fun _ => Ok [file "b"; file "a"])
    (fun _ => Ok [file "a"; file "b"])).
  intros d. split; [by apply (bool_decide_eq_true_1 (NoDup _))|apply perm_swap].
Defined.
