(* ===== verification/Folder.v ===== *)
(** * Watching a folder: the walk under the engine

    A plugin that watches a tree gives [walk] as the listing of its inventory
    (src/src/inventory.rs, [walk] and [Inventory]). Walk.v says what a walk
    does, Replica.v what becomes of the listings; here both are put over a tree
    of directories that all list. *)

From Stdlib Require Import Ascii String.
From S2P Require Import Prelude Json Watch Inventory InventoryFacts Replica Walk.

(** ** Paths *)

Definition slash : ascii := "/"%char.

(** A name without a separator. *)
Definition plain_name (n : string) : Prop := slash ∉ chars n.

Lemma last_separator (l k a b : list ascii) :
  slash ∉ a -> slash ∉ b -> l ++ slash :: a = k ++ slash :: b -> l = k /\ a = b.
Proof.
  revert k. induction l as [|x l IH]; intros [|y k] Ha Hb H; simpl in H.
  - by injection H as ->.
  - injection H as _ ->. destruct Ha. apply elem_of_app. right. left.
  - injection H as _ <-. destruct Hb. apply elem_of_app. right. left.
  - injection H as -> H. by destruct (IH k Ha Hb H) as [-> ->].
Qed.

Lemma chars_child d n :
  chars (child_key d n) = if String.eqb d "" then chars n else chars d ++ slash :: chars n.
Proof.
  unfold child_key. destruct (String.eqb d ""); [done|].
  induction d as [|c d IH]; simpl; [done|]. by rewrite IH.
Qed.

Lemma chars_inj s t : chars s = chars t -> s = t.
Proof. intros H. by rewrite <- (unchars_chars s), H, unchars_chars. Qed.

(** A path has one parent. *)
Lemma child_inj d n d' n' :
  plain_name n -> plain_name n' -> child_key d n = child_key d' n' -> d = d' /\ n = n'.
Proof.
  unfold plain_name. intros Hn Hn' H%(f_equal chars). rewrite !chars_child in H.
  destruct (String.eqb_spec d "") as [->|_], (String.eqb_spec d' "") as [->|_].
  - split; [done|by apply chars_inj].
  - rewrite H in Hn. destruct Hn. apply elem_of_app. right. left.
  - rewrite <- H in Hn'. destruct Hn'. apply elem_of_app. right. left.
  - apply last_separator in H as [Hd H]; [|done..]. split; by apply chars_inj.
Qed.

Lemma child_longer d n : skipped_name n = false -> (length (chars d) < length (chars (child_key d n)))%nat.
Proof.
  intros Hn. rewrite chars_child. destruct (String.eqb_spec d "") as [->|_].
  - destruct n; [done|simpl; lia].
  - rewrite length_app. simpl. lia.
Qed.

(** ** Trees *)

Section Folder.
Context {Pattern : Type}.
Variable matches_with : Pattern -> bool -> string -> bool.
Variable o : WalkOptions Pattern.
(** What each directory holds, by its path from the root. *)
Variable tree : string -> list DirItem.

(** The directories a walk is to visit. *)
Inductive within : string -> Prop :=
| within_root : within ""
| within_dir d it :
    within d -> it ∈ tree d -> is_dir it = true -> recursive o = true ->
    skipped_name (name it) = false -> within (child_key d (name it)).

(** A file of directory [d] the walk is to keep, as an entry. *)
Definition holds (d : string) (e : ObjectEntry) : Prop :=
  exists it, it ∈ tree d /\ is_dir it = false /\ skipped_name (name it) = false
    /\ e = {| key := child_key d (name it); size := d_size it; modified_at_ms := d_modified_at_ms it;
              etag := None; version := None |}
    /\ match pattern o with Some p => matches_key matches_with p (key e) = true | None => True end.

Definition file_of (e : ObjectEntry) : Prop := exists d, within d /\ holds d e.

(** A folder: its names are distinct in each directory, without separators. *)
Record folder : Prop := {
  fo_plain d it : it ∈ tree d -> plain_name (name it);
  fo_distinct d : NoDup (name <$> tree d);
}.

Abbreviation lister := (fun d => Ok (E := string) (tree d)).
Abbreviation subdirs := (fun d => dirs_of matches_with o d (items lister d)).
Abbreviation files := (fun d => files_of matches_with o d (items lister d)).

Lemma elem_subdirs d x :
  x ∈ subdirs d <-> exists it, it ∈ tree d /\ is_dir it = true /\ recursive o = true
    /\ skipped_name (name it) = false /\ x = child_key d (name it).
Proof.
  unfold dirs_of. rewrite list_elem_of_bind. split.
  - intros (it & Hx & Hit). rewrite sort_by_perm in Hit. exists it. unfold take_item in Hx.
    destruct (skipped_name (name it)); [by apply not_elem_of_nil in Hx|].
    destruct (is_dir it); [|case_match; [case_match|]; by apply not_elem_of_nil in Hx].
    destruct (recursive o); [|by apply not_elem_of_nil in Hx].
    by apply list_elem_of_singleton in Hx as ->.
  - intros (it & Hit & Hd & Hr & Hs & ->). exists it. rewrite sort_by_perm. split; [|done].
    unfold take_item. rewrite Hs, Hd, Hr. left.
Qed.

Lemma elem_files d e : e ∈ files d <-> holds d e.
Proof.
  unfold files_of, holds. rewrite list_elem_of_bind. split.
  - intros (it & He & Hit). rewrite sort_by_perm in Hit. exists it. unfold take_item in He.
    destruct (skipped_name (name it)); [by apply not_elem_of_nil in He|].
    destruct (is_dir it); [by destruct (recursive o); apply not_elem_of_nil in He|].
    destruct (pattern o) as [p|].
    + destruct (matches_key matches_with p _) eqn:Hp; [|by apply not_elem_of_nil in He].
      by apply list_elem_of_singleton in He as ->.
    + by apply list_elem_of_singleton in He as ->.
  - intros (it & Hit & Hd & Hs & -> & Hp). exists it. rewrite sort_by_perm. split; [|done].
    unfold take_item. rewrite Hs, Hd. destruct (pattern o) as [p|]; [|left].
    simpl in Hp. rewrite Hp. left.
Qed.
(** ** The directories a walk lists

    [V] are the directories of a walk as [walk_loop_spec] gives them: a prefix of the
    root followed by the subdirectories of [V]. *)

Section Listed.
Variable V : list string.
Hypothesis Hpre : V `prefix_of` ""%string :: (V ≫= subdirs).

Lemma parent_listed x :
  x ∈ V -> x = ""%string \/ exists d, d ∈ V /\ x ∈ subdirs d.
Proof.
  intros Hx. destruct Hpre as [l Hl]. assert (Hx' : x ∈ V ++ l) by (apply elem_of_app; by left).
  rewrite <- Hl, elem_of_cons, list_elem_of_bind in Hx'. destruct Hx' as [->|(d & ? & ?)]; eauto.
Qed.

Lemma listed_within x : x ∈ V -> within x.
Proof.
  induction (Wf_nat.well_founded_ltof string (fun x => length (chars x)) x) as [x _ IH].
  intros [->|(d & Hd & Hx)]%parent_listed; [constructor|].
  apply elem_subdirs in Hx as (it & Hit & Hdir & Hr & Hs & ->).
  constructor; try done. apply IH; [|done]. unfold Wf_nat.ltof. by apply child_longer.
Qed.

Lemma closed_complete x : V = ""%string :: (V ≫= subdirs) -> within x -> x ∈ V.
Proof.
  intros HV. induction 1 as [|d it Hd IH Hit Hdir Hr Hs]; rewrite HV; [left|]. right.
  apply list_elem_of_bind. exists d. split; [|done]. apply elem_subdirs. by exists it.
Qed.

(** Directories no deeper than [n], as texts. *)
Definition upto (n : nat) (l : list string) : list string :=
  filter (fun x => length (chars x) <= n)%nat l.

Lemma upto_bind n l :
  upto (S n) (l ≫= subdirs) = upto (S n) (upto n l ≫= subdirs).
Proof.
  unfold upto. induction l as [|d l IH]; [done|]. cbn [mbind list_bind]. rewrite filter_app, IH.
  rewrite filter_cons. case_decide as Hd; [by cbn [mbind list_bind]; rewrite filter_app|].
  assert (filter (fun x => length (chars x) <= S n)%nat (subdirs d) = []) as ->; [|done].
  apply elem_of_nil_inv. intros x [Hle (it & _ & _ & _ & Hs & ->)%elem_subdirs]%list_elem_of_filter.
  apply (child_longer d) in Hs. lia.
Qed.

Lemma item_names it it' d :
  folder -> it ∈ tree d -> it' ∈ tree d -> name it = name it' -> it = it'.
Proof.
  intros [_ Hd] [i Hi]%list_elem_of_lookup [j Hj]%list_elem_of_lookup Hn.
  assert (i = j) as ->; [|congruence].
  apply (NoDup_lookup _ i j (name it) (Hd d)); rewrite list_lookup_fmap; [by rewrite Hi|by rewrite Hj, Hn].
Qed.

Lemma subdirs_NoDup d : folder -> NoDup (subdirs d).
Proof.
  intros Hf. unfold dirs_of. apply NoDup_bind.
  - intros it it' y Hit Hit' Hy Hy'. rewrite sort_by_perm in Hit, Hit'.
    apply (item_names it it' d Hf Hit Hit'). unfold take_item in Hy, Hy'.
    repeat case_match; simpl in *; try (by apply not_elem_of_nil in Hy); try (by apply not_elem_of_nil in Hy').
    apply list_elem_of_singleton in Hy, Hy'. subst y.
    by apply child_inj in Hy' as [_ ?]; [|by eapply (fo_plain Hf)..].
  - intros it _. unfold take_item. repeat case_match; first [apply NoDup_nil_2|apply NoDup_singleton].
  - rewrite sort_by_perm. eapply NoDup_fmap_1. apply (fo_distinct Hf).
Qed.

Lemma subdirs_parent d d' x : folder -> x ∈ subdirs d -> x ∈ subdirs d' -> d = d'.
Proof.
  intros Hf (it & Hit & _ & _ & _ & ->)%elem_subdirs (it' & Hit' & _ & _ & _ & Hx)%elem_subdirs.
  by apply child_inj in Hx as [? _]; [|by eapply (fo_plain Hf)..].
Qed.

Lemma upto_NoDup n : folder -> NoDup (upto n V).
Proof.
  intros Hf. assert (Hroot : forall l, ""%string ∉ l ≫= subdirs).
  { intros l (d & Hx & _)%list_elem_of_bind. apply elem_subdirs in Hx as (it & _ & _ & _ & Hs & Hx).
    apply (child_longer d) in Hs. rewrite <- Hx in Hs. simpl in Hs. lia. }
  assert (Hstep : forall n, NoDup (upto n (V ≫= subdirs)) -> NoDup (upto n V)).
  { clear n. intros n Hn. eapply (sublist_NoDup _ (upto n (""%string :: (V ≫= subdirs)))).
    - unfold upto. rewrite filter_cons_True by (simpl; lia). apply NoDup_cons. split; [|exact Hn].
      intros [_ ?]%list_elem_of_filter. by eapply Hroot.
    - destruct Hpre as [l ->]. unfold upto. rewrite filter_app. by apply sublist_inserts_r. }
  induction n as [|n IH]; apply Hstep.
  - assert (upto 0 (V ≫= subdirs) = []) as ->; [|apply NoDup_nil_2].
    apply elem_of_nil_inv. intros x [Hx Hin]%list_elem_of_filter. apply (Hroot V).
    destruct x; [done|simpl in Hx; lia].
  - rewrite upto_bind. apply NoDup_filter, NoDup_bind; [|intros d _; by apply subdirs_NoDup|exact IH].
    intros d d' x _ _. by apply subdirs_parent.
Qed.

Lemma listed_NoDup : folder -> NoDup V.
Proof.
  intros Hf. set (n := max_list ((fun x => length (chars x)) <$> V)).
  rewrite <- (filter_app_complement (fun x => length (chars x) <= n)%nat V).
  assert (filter (fun x => ~ (length (chars x) <= n)%nat) V = []) as ->; [|rewrite app_nil_r; by apply upto_NoDup].
  apply elem_of_nil_inv. intros x [Hx Hin]%list_elem_of_filter. apply Hx.
  apply max_list_elem_of_le, list_elem_of_fmap. by exists x.
Qed.

(** A walk allowed as many directories as the folder has visits them all. *)
Lemma all_listed ds :
  folder -> (forall d, within d -> d ∈ ds) -> (length ds <= max_dirs o)%nat ->
  length V = max_dirs o \/ V = ""%string :: (V ≫= subdirs) ->
  forall d, within d <-> d ∈ V.
Proof.
  intros Hf Hds Hm Hend d. split; [|apply listed_within]. intros Hd.
  destruct Hend as [Hend|Hend]; [|by apply closed_complete].
  assert (Hsub : V ⊆+ ds).
  { apply NoDup_submseteq; [by apply listed_NoDup|]. intros x Hx. by apply Hds, listed_within. }
  apply submseteq_length_Permutation in Hsub; [|lia]. rewrite Hsub. by apply Hds.
Qed.

End Listed.

(** ** The listing of a folder *)

(** A folder within the bounds of the walk. *)
Record fits (ds ks : list string) : Prop := {
  fi_dirs d : within d -> d ∈ ds;
  fi_max_dirs : (length ds <= max_dirs o)%nat;
  fi_files e : file_of e -> key e ∈ ks;
  fi_max_files : (length ks <= max_files o)%nat;
}.

Lemma folder_walk :
  exists V, walk matches_with o (traced lister) [] = Some (V, Ok (finish o (V ≫= files)))
    /\ V `prefix_of` ""%string :: (V ≫= subdirs)
    /\ (length V = max_dirs o \/ V = ""%string :: (V ≫= subdirs)).
Proof.
  destruct (walk_loop_spec matches_with o lister (max_dirs o + 1) [] [""%string] 0 [])
    as (V & r & Hw & _ & Hr); [lia|lia|]. rewrite Nat.sub_0_r in Hr. unfold walk. rewrite Hw.
  destruct r as [es|e]; [|by destruct Hr as (d & _ & ?)].
  destruct Hr as (-> & _ & Hpre & Hend). by exists V.
Qed.

Lemma file_unique e e' : folder -> file_of e -> file_of e' -> key e = key e' -> e = e'.
Proof.
  intros Hf (d & _ & it & Hit & _ & _ & -> & _) (d' & _ & it' & Hit' & _ & _ & -> & _) Hk. simpl in Hk.
  apply child_inj in Hk as [<- Hn]; [|by eapply (fo_plain Hf)..].
  by rewrite (item_names it it' d Hf Hit Hit' Hn).
Qed.

Lemma elem_bind_files V e : e ∈ V ≫= files <-> exists d, d ∈ V /\ holds d e.
Proof.
  rewrite list_elem_of_bind. split.
  - intros (d & He%elem_files & Hd). by exists d.
  - intros (d & Hd & He). exists d. by rewrite elem_files.
Qed.

(** The whole folder is listed. *)
Lemma folder_listed ds ks V e :
  folder -> fits ds ks -> (forall d, within d <-> d ∈ V) ->
  e ∈ finish o (V ≫= files) <-> file_of e.
Proof.
  intros Hf Hfit HV. destruct (finish_keys o (V ≫= files)) as (_ & Hnd & _ & Hin & Hcut).
  assert (Hall : forall x, x ∈ V ≫= files <-> file_of x).
  { intros x. rewrite elem_bind_files. split; intros (d & Hd & ?); exists d; (split; [by apply HV|done]). }
  split; [by intros He%Hin%Hall|]. intros He.
  destruct (decide (key e ∈ key <$> finish o (V ≫= files))) as [Hk|Hk].
  - apply list_elem_of_fmap in Hk as (e' & Hk & He').
    by rewrite (file_unique e e' Hf He (proj1 (Hall _) (Hin _ He')) Hk).
  - destruct (Hcut (key e)) as [Hlen _]; [apply list_elem_of_fmap; exists e; by rewrite Hall|done|].
    assert (Hsub : key e :: (key <$> finish o (V ≫= files)) ⊆+ ks).
    { apply NoDup_submseteq; [by apply NoDup_cons|]. intros k [->|Hin']%elem_of_cons; [by apply (fi_files _ _ Hfit)|].
      apply list_elem_of_fmap in Hin' as (x & -> & Hx). by apply (fi_files _ _ Hfit), Hall, Hin. }
    apply submseteq_length in Hsub. simpl in Hsub. rewrite length_fmap, Hlen in Hsub.
    pose proof (fi_max_files _ _ Hfit). lia.
Qed.
End Folder.

(** Of a listing without repeated keys every entry is in the index. *)
Lemma index_elem l e : NoDup (key <$> l) -> e ∈ l -> index_listing l !! key e = Some e.
Proof.
  intros Hnd He. destruct (index_listing l !! key e) as [x|] eqn:Hx.
  - apply index_listing_key in Hx as [Hk Hx]. f_equal.
    apply list_elem_of_lookup in He as [i Hi], Hx as [j Hj].
    assert (i = j) as ->; [|congruence].
    apply (NoDup_lookup _ i j (key e) Hnd); rewrite list_lookup_fmap; [by rewrite Hi|by rewrite Hj, <- Hk].
  - apply index_listing_none in Hx. rewrite Forall_forall in Hx. by destruct (Hx e He).
Qed.

Lemma index_size l : (stdpp.base.size (index_listing l) <= length l)%nat.
Proof.
  induction l as [|e l IH] using rev_ind; [done|]. rewrite index_listing_app, length_app. simpl.
  destruct (index_listing l !! key e) eqn:Hk.
  - rewrite map_size_insert_Some by (by rewrite Hk). lia.
  - rewrite map_size_insert_None by done. lia.
Qed.

(** ** The watch of a folder *)

Section Watched.
Context {jv : Type} `{JL : JsonLaws jv} {D Pattern : Type}.
Variable blake3_hex : list ascii -> string.
Variable occurred_at_from_millis : Z -> option string.
Variable matches_with : Pattern -> bool -> string -> bool.
Variable o : WalkOptions Pattern.
Variable tree : string -> list DirItem.

Abbreviation session_ := (session (jv := jv) (D := D)).
Abbreviation dig := (digest blake3_hex).
Abbreviation mirrors_ := (mirrors blake3_hex occurred_at_from_millis).
Abbreviation host_rounds_ := (host_rounds (jv := jv) (D := D) blake3_hex occurred_at_from_millis).
Abbreviation lister := (fun d => Ok (E := string) (tree d)).
Abbreviation within_ := (within o tree).
Abbreviation file_of_ := (file_of matches_with o tree).

Lemma stale_size m l :
  (stdpp.base.size (stale blake3_hex m l) <= stdpp.base.size m + length l)%nat.
Proof.
  etrans; [apply subseteq_size; unfold stale; intros k [_ Hk]%elem_of_filter; exact Hk|].
  rewrite size_union_alt. apply Nat.add_le_mono; [by rewrite size_dom|].
  etrans; [apply (subseteq_size _ (dom (target blake3_hex l))); set_solver|]. rewrite size_dom. unfold target.
  rewrite map_size_fmap. apply index_size.
Qed.

(** Rounds enough for whatever was confirmed and whatever the walk lists. *)
Lemma walk_rounds clock n l entries (s : session_) :
  settled (engine_of s) -> mirrors_ (confirmed (engine_of s)) (replica s) ->
  next_seq (engine_of s) + Z.of_nat n * Z.of_nat (max_in_flight (options (engine_of s))) <= u64_max ->
  (stdpp.base.size (confirmed (engine_of s)) + max_files o
   <= n * max_in_flight (options (engine_of s)))%nat ->
  l = finish o entries ->
  mirrors_ (dig <$> index_listing l) (replica (host_rounds_ clock n l s)).
Proof.
  intros Hset HR Hn Hsz ->. apply host_rounds_target; try done.
  pose proof (stale_size (confirmed (engine_of s)) (finish o entries)).
  destruct (finish_keys o entries) as (_ & _ & ? & _). lia.
Qed.

(** C15. A watch of a folder mirrors the folder: over a tree within the bounds
    of the walk, the walk ends and lists every directory once, and enough
    rounds of polling its listing and handling the events leave the consumer
    with exactly the files of the tree that match, under their paths from the
    root, each with the data of an entry of the file's digest. *)
Theorem folder_replicated clock n ds ks (s : session_) :
  folder tree -> fits matches_with o tree ds ks ->
  settled (engine_of s) -> mirrors_ (confirmed (engine_of s)) (replica s) ->
  next_seq (engine_of s) + Z.of_nat n * Z.of_nat (max_in_flight (options (engine_of s))) <= u64_max ->
  (stdpp.base.size (confirmed (engine_of s)) + max_files o
   <= n * max_in_flight (options (engine_of s)))%nat ->
  exists V l, walk matches_with o (traced lister) [] = Some (V, Ok l)
    /\ NoDup V /\ (forall d, within_ d <-> d ∈ V)
    /\ forall k, match replica (host_rounds_ clock n l s) !! k with
         | Some m => exists e e', file_of_ e /\ key e = k /\ key e' = k /\ dig e' = dig e
                       /\ describes occurred_at_from_millis e' m
         | None => forall e, file_of_ e -> key e <> k
         end.
Proof.
  intros Hf Hfit Hset HR Hn Hsz.
  destruct (folder_walk matches_with o tree) as (V & Hw & Hpre & Hend).
  eexists V, _. split; [exact Hw|]. split; [by eapply listed_NoDup|].
  assert (HV : forall d, within_ d <-> d ∈ V)
    by (eapply all_listed; [exact Hpre|exact Hf|apply (fi_dirs _ _ _ _ _ Hfit)
                           |apply (fi_max_dirs _ _ _ _ _ Hfit)|exact Hend]).
  split; [exact HV|]. intros k. set (l := finish o _).
  pose proof (walk_rounds clock n l _ s Hset HR Hn Hsz eq_refl k) as Hk. rewrite lookup_fmap in Hk.
  pose proof (fun e => folder_listed matches_with o tree ds ks V e Hf Hfit HV) as Hl.
  destruct (replica _ !! k) as [m|], (index_listing l !! k) as [x|] eqn:Hx; try done; simpl in Hk.
  - destruct Hk as (e' & Hk' & Hd & Hm). apply index_listing_key in Hx as [Hxk Hx].
    exists x, e'. by rewrite <- Hl.
  - intros e He%Hl <-. apply index_listing_none in Hx. rewrite Forall_forall in Hx. by apply (Hx e He).
Qed.

(** Handling events forgets an object only at the report of its deletion. *)
Lemma handles_lose k evs (s : session_) :
  is_Some (replica s !! k) -> replica (foldl (fun s ev => handle ev s) s evs) !! k = None ->
  exists ev m, ev ∈ evs /\ told ev = Some (op_str Deleted, k, m).
Proof.
  revert s. induction evs as [|ev evs IH]; intros s [x Hx] Hn; simpl in Hn; [congruence|].
  destruct (replica (handle ev s) !! k) as [y|] eqn:Hy.
  - destruct (IH (handle ev s) (ex_intro _ y Hy) Hn) as (ev' & m & ? & ?). exists ev', m. split; [by right|done].
  - unfold handle, apply_event in Hy. simpl in Hy. destruct (told ev) as [[[op k'] m]|] eqn:Ht; [|congruence].
    exists ev, m. split; [left|]. case_decide as Hop.
    + apply lookup_delete_None in Hy as [->|?]; [by subst|congruence].
    + by apply lookup_insert_None in Hy as [? _]; congruence.
Qed.

Lemma sent_handles evs (s : session_) : sent (foldl (fun s ev => handle ev s) s evs) = sent s.
Proof. revert s. induction evs as [|ev evs IH]; intros s; [done|]. simpl. by rewrite IH. Qed.

Lemma rounds_lose clock n l k (s : session_) :
  is_Some (replica s !! k) -> replica (host_rounds_ clock n l s) !! k = None ->
  exists evs ev m, sent (host_rounds_ clock n l s) = sent s ++ evs /\ ev ∈ evs
    /\ told ev = Some (op_str Deleted, k, m).
Proof.
  assert (Hsent : forall n s, exists evs, sent (host_rounds_ clock n l s) = sent s ++ evs).
  { clear. intros n. induction n as [|n IH]; intros s; [exists []; by rewrite app_nil_r|]. simpl.
    destruct (IH (host_round blake3_hex occurred_at_from_millis (clock n) l s)) as [evs ->].
    unfold host_round. destruct (poll _ _ _ _ l) as [i evs']. rewrite sent_handles. simpl.
    exists (evs' ++ evs). by rewrite app_assoc. }
  revert s. induction n as [|n IH]; intros s Hs Hn; [destruct Hs; simpl in Hn; congruence|]. simpl in *.
  set (s1 := host_round blake3_hex occurred_at_from_millis (clock n) l s) in *.
  assert (H1 : exists evs, sent s1 = sent s ++ evs
    /\ (replica s1 !! k = None -> exists ev m, ev ∈ evs /\ told ev = Some (op_str Deleted, k, m))).
  { unfold s1, host_round. destruct (poll _ _ _ _ l) as [i evs]. exists evs. rewrite sent_handles. split; [done|].
    by apply handles_lose. }
  destruct H1 as (evs1 & E1 & Hlose). destruct (replica s1 !! k) as [x|] eqn:Hx.
  - destruct (IH s1 ltac:(by rewrite Hx) Hn) as (evs & ev & m & -> & ? & ?). rewrite E1.
    exists (evs1 ++ evs), ev, m. rewrite app_assoc. split; [done|]. split; [apply elem_of_app; by right|done].
  - destruct (Hlose eq_refl) as (ev & m & ? & ?). destruct (Hsent n s1) as [evs ->]. rewrite E1.
    exists (evs1 ++ evs), ev, m. rewrite app_assoc. split; [done|]. split; [apply elem_of_app; by left|done].
Qed.

(** C17. A listing cut at [max_files] reports deletions of files that are there:
    when a file of a listed directory is left out of the listing, the listing
    being full of keys before it, and the consumer holds the file from an
    earlier, shorter listing, the same rounds report the file deleted and take
    it out of the replica. *)
Theorem cut_file_reported_deleted clock n V l e (s : session_) :
  walk matches_with o (traced lister) [] = Some (V, Ok l) ->
  (exists d, d ∈ V /\ holds matches_with o tree d e) -> key e ∉ key <$> l ->
  settled (engine_of s) -> mirrors_ (confirmed (engine_of s)) (replica s) ->
  next_seq (engine_of s) + Z.of_nat n * Z.of_nat (max_in_flight (options (engine_of s))) <= u64_max ->
  (stdpp.base.size (confirmed (engine_of s)) + max_files o
   <= n * max_in_flight (options (engine_of s)))%nat ->
  is_Some (replica s !! key e) ->
  file_of_ e /\ length l = max_files o /\ (forall k, k ∈ key <$> l -> key_le k (key e))
  /\ replica (host_rounds_ clock n l s) !! key e = None
  /\ exists evs ev m, sent (host_rounds_ clock n l s) = sent s ++ evs /\ ev ∈ evs
       /\ told ev = Some (op_str Deleted, key e, m).
Proof.
  intros Hwalk (d & Hd & He) Hk Hset HR Hn Hsz Hs.
  destruct (folder_walk matches_with o tree) as (V' & Hw & Hpre & _).
  rewrite Hwalk in Hw. injection Hw as <- Hl.
  split; [exists d; split; [by eapply listed_within|done]|].
  destruct (finish_keys o (V ≫= fun d => files_of matches_with o d (items lister d))) as (_ & _ & _ & _ & Hcut).
  rewrite <- Hl in Hcut. destruct (Hcut (key e)) as [Hlen Hle]; [|exact Hk|].
  { apply list_elem_of_fmap. exists e. split; [done|]. apply elem_bind_files. by exists d. }
  split; [done|]. split; [done|].
  pose proof (walk_rounds clock n l _ s Hset HR Hn Hsz Hl (key e)) as Hagree. rewrite lookup_fmap in Hagree.
  rewrite (proj2 (index_listing_none _ (key e))) in Hagree.
  - simpl in Hagree. destruct (replica (host_rounds_ clock n l s) !! key e) eqn:Hr; [done|].
    split; [done|]. by apply rounds_lose.
  - apply Forall_forall. intros x Hx Hxk. apply Hk. rewrite <- Hxk. apply list_elem_of_fmap. by exists x.
Qed.
End Watched.

(** ** Witnesses *)

Module Sample.
Import Tree Example1 Replica.Sample.

Definition file (n : string) : DirItem :=
  {| name := n; is_dir := false; d_size := Some 1; d_modified_at_ms := None |}.
Definition dir (n : string) : DirItem :=
  {| name := n; is_dir := true; d_size := None; d_modified_at_ms := None |}.
Definition every (_ : unit) (_ : bool) (_ : string) : bool := true.
Definition bounds (files : nat) : WalkOptions unit :=
  {| recursive := true; pattern := None; max_files := files; max_dirs := 2 |}.

(** A file at the root and one below it. *)
Definition small (d : string) : list DirItem :=
  if decide (d = ""%string) then [dir "s"; file "b"] else if decide (d = "s"%string) then [file "x"] else [].

Lemma small_items (P : string -> DirItem -> Prop) :
  P ""%string (dir "s") -> P ""%string (file "b") -> P "s"%string (file "x") ->
  forall d it, it ∈ small d -> P d it.
Proof.
  intros H1 H2 H3 d it Hit. unfold small in Hit.
  case_decide; [|case_decide; [|by apply not_elem_of_nil in Hit]]; subst d.
  - apply elem_of_cons in Hit as [->|Hit]; [done|]. by apply list_elem_of_singleton in Hit as ->.
  - by apply list_elem_of_singleton in Hit as ->.
Qed.

Lemma small_folder : folder small.
Proof.
  split.
  - apply small_items; unfold plain_name; by apply (bool_decide_unpack _).
  - intros d. unfold small. repeat case_decide; by apply (bool_decide_unpack _).
Qed.

Lemma small_within d : within (bounds 2) small d -> d ∈ [""; "s"]%string.
Proof.
  induction 1 as [|d it _ _ Hit Hd _ _]; [left|]. revert Hd. pattern d, it. revert d it Hit.
  apply small_items; intros Hd; try done. right. left.
Qed.

Lemma small_fits : fits every (bounds 2) small [""; "s"]%string ["b"; "s/x"]%string.
Proof.
  split; [apply small_within|done| |done]. intros e (d & _ & it & Hit & Hd & _ & -> & _). simpl. revert Hd.
  pattern d, it. revert d it Hit. apply small_items; intros Hd; [done|left|right; left].
Qed.

Lemma folder_replicated_witness :
  exists V l, walk every (bounds 2) (traced (fun d => Ok (small d))) [] = Some (V, Ok l)
    /\ is_Some (replica (host_rounds hex no_time (fun _ _ => 0) 2 l start_session) !! "s/x"%string).
Proof.
  destruct (folder_replicated hex no_time every (bounds 2) small (fun _ _ => 0) 2 _ _ start_session
              small_folder small_fits fresh_settled (op_mirrors _ _ _ start_opened))
    as (V & l & Hw & _ & _ & Hr); [vm_compute; discriminate|apply Nat.leb_le; vm_compute; reflexivity|].
  exists V, l. split; [exact Hw|]. specialize (Hr "s/x"%string). destruct (replica _ !! _); [by eexists|].
  destruct (Hr {| key := "s/x"; size := Some 1; modified_at_ms := None; etag := None; version := None |}); [|done].
  exists "s"%string. split; [|exists (file "x"); split_and!; done || left].
  apply (within_dir _ _ ""%string (dir "s")); try done; [constructor|left].
Defined.

(** [b] was alone and is told of; with [a] beside it the walk of one file lists
    [a] only. *)
Definition told_of_b : session (jv := jtree) (D := unit) :=
  host_round hex no_time (fun _ => 0) [obj "b" 1] start_session.
Definition two_files (d : string) : list DirItem :=
  if decide (d = ""%string) then [file "a"; file "b"] else [].

Lemma told_of_b_settled : settled (engine_of told_of_b).
Proof.
  unfold told_of_b. rewrite engine_host_round.
  by destruct (round_spec hex no_time (fun _ => 0) (fresh Existing) [obj "b" 1] fresh_settled) as [? _];
    [vm_compute; discriminate|].
Qed.

Lemma told_of_b_mirrors : mirrors hex no_time (confirmed (engine_of told_of_b)) (replica told_of_b).
Proof.
  apply host_round_mirrors; [exact fresh_settled|vm_compute; discriminate|exact (op_mirrors _ _ _ start_opened)].
Qed.

Lemma told_of_b_has : is_Some (replica told_of_b !! "b"%string).
Proof.
  assert (Hc : is_Some (confirmed (engine_of told_of_b) !! "b"%string)) by (vm_compute; by eexists).
  destruct Hc as [x Hc]. pose proof (told_of_b_mirrors "b"%string) as H. rewrite Hc in H.
  destruct (replica told_of_b !! "b"%string) as [m|]; [exact (ex_intro _ m eq_refl)|contradiction].
Qed.

Lemma cut_file_reported_deleted_witness :
  exists V l ev m, walk every (bounds 1) (traced (fun d => Ok (two_files d))) [] = Some (V, Ok l)
    /\ "b"%string ∈ name <$> two_files "" /\ told ev = Some ("deleted", "b", m)%string
    /\ ev ∈ sent (host_rounds hex no_time (fun _ _ => 0) 1 l told_of_b).
Proof.
  assert (Hw : exists V l, walk every (bounds 1) (traced (fun d => Ok (two_files d))) [] = Some (V, Ok l)
    /\ V = [""%string] /\ key <$> l = ["a"%string]) by (eexists _, _; split; [vm_compute; reflexivity|done]).
  destruct Hw as (V & l & Hw & -> & Hl).
  destruct (cut_file_reported_deleted hex no_time every (bounds 1) two_files (fun _ _ => 0) 1 _ l
              (obj "b" 1) told_of_b Hw) as (_ & _ & _ & _ & evs & ev & m & Hs & Hev & Ht);
    [|rewrite Hl; by apply (bool_decide_unpack _)|exact told_of_b_settled|exact told_of_b_mirrors
     |vm_compute; discriminate|apply Nat.leb_le; vm_compute; reflexivity|exact told_of_b_has|].
  - exists ""%string. split; [left|]. exists (file "b"). split_and!; try done. right. left.
  - eexists _, l, ev, m. split; [exact Hw|]. split; [right; left|]. split; [exact Ht|]. rewrite Hs.
    apply elem_of_app. by right.
Defined.
End Sample.
