(* ===== verification/InventoryWatch.v ===== *)
(** * The thread of an inventory watch (src/src/inventory.rs, [spawn_inventory_watch_hooked])

    A turn of the thread is a listing, a poll and a wait on the wake channel.
    The outcomes of the channel reads of a turn are a script, so every
    interleaving of acknowledgements, notifications, time-outs and a stop is a
    choice of script; [wait_step] says what one read does in each phase. *)

From Stdlib Require Import Ascii String.
From S2P Require Import Prelude Json Watch Inventory InventoryFacts.

(** What is sent to the thread. *)
Inductive Wake (jv : Type) := Ack (position : jv) | Changed | Stop.
Arguments Ack {jv} position.
Arguments Changed {jv}.
Arguments Stop {jv}.

(** What [recv_timeout] or [try_recv] returns: a message, nothing (a time-out,
    an empty channel), or a closed channel. *)
Inductive received (jv : Type) := Got (w : Wake jv) | Nothing | Disconnected.
Arguments Got {jv} w.
Arguments Nothing {jv}.
Arguments Disconnected {jv}.

(** Where the wait is: in [recv_timeout], draining after an acknowledgement,
    draining after a notification settled. *)
Inductive wait_phase := Waiting | Draining (changed : bool) | Settling.

Inductive wait_result (I : Type) := Continue (p : wait_phase) (i : I) | NextPoll (i : I) | Return.
Arguments Continue {I} p i.
Arguments NextPoll {I} i.
Arguments Return {I}.

Record InventoryHooks (Dsc : Type) := { h_describe : option Dsc; h_quiet_removals : bool }.
Arguments h_describe {Dsc} _.
Arguments h_quiet_removals {Dsc} _.

Section InventoryWatch.
Context {jv : Type} `{J : Json jv} {D : Type}.
Variable blake3_hex : list ascii -> string.
Variable occurred_at_from_millis : Z -> option string.
Variable serde_error : jv -> string.
(** [serde_json::to_string] on an event, and
    [mcpg_plugin_protocol::is_event_source]. *)
Variable to_string : WatchEvent jv -> result string string.
Variable is_event_source : string -> bool.

Abbreviation Inv := (Inventory (jv := jv) (D := D)).

(** One read of the channel. *)
Definition wait_step (phase : wait_phase) (r : received jv) (i : Inv) : wait_result Inv :=
  match phase, r with
  | Waiting, Got (Ack position) => Continue (Draining false) (acknowledged i position)
  | Waiting, Got Changed => Continue Settling i
  | Waiting, Nothing => NextPoll i
  | Draining changed, Got (Ack position) => Continue (Draining changed) (acknowledged i position)
  | Draining _, Got Changed => Continue (Draining true) i
  | Draining changed, Nothing => if changed then NextPoll i else Continue Waiting i
  | Settling, Got (Ack position) => Continue Settling (acknowledged i position)
  | Settling, Got Changed => Continue Settling i
  | Settling, Nothing => NextPoll i
  | _, Got Stop => Return
  | _, Disconnected => Return
  end.

(** The wait loop over a script; a script that ends leaves it blocked. *)
Fixpoint wait_loop (phase : wait_phase) (script : list (received jv)) (i : Inv)
    : wait_result Inv :=
  match script with
  | [] => Continue phase i
  | r :: script =>
      match wait_step phase r i with
      | Continue phase i => wait_loop phase script i
      | done => done
      end
  end.

(** What the thread does with the events of a poll. *)
Definition deliver (event_source : bool) (i : Inv) (events : list (WatchEvent jv))
    : Inv * list string :=
  if event_source then (i, omap (fun e => result_ok (to_string e)) events)
  else if existsb (fun e => bool_decide (is_Some (event_type e))) events then
    (foldl acknowledged i (omap upstream_cursor events), ["{}"%string])
  else (i, []).

(** The environment of one turn: the stop flag, the clock, the answer of the
    listing, and the channel. *)
Record turn := {
  t_stop : bool;
  t_clock : nat -> Z;
  t_list : result (list ObjectEntry) string;
  t_wakes : list (received jv);
}.

(** One turn up to its wait. *)
Definition list_and_poll (event_source : bool) (t : turn) (i : Inv) : Inv * list string :=
  if has_room i then
    match t_list t with
    | Ok listing =>
        let '(i, events) := poll blake3_hex occurred_at_from_millis (t_clock t) i listing in
        deliver event_source i events
    | Err _ => (i, [])
    end
  else (i, []).

Inductive thread_state := Running (i : Inv) | Blocked (p : wait_phase) (i : Inv) | Finished.

Fixpoint thread (event_source : bool) (turns : list turn) (i : Inv)
    : thread_state * list string :=
  match turns with
  | [] => (Running i, [])
  | t :: turns =>
      if t_stop t then (Finished, [])
      else
        let '(i, out) := list_and_poll event_source t i in
        match wait_loop Waiting (t_wakes t) i with
        | NextPoll i => let '(s, rest) := thread event_source turns i in (s, out ++ rest)
        | Continue p i => (Blocked p i, out)
        | Return => (Finished, out)
        end
  end.

(** [spawn_inventory_watch_hooked]: the inventory the thread starts with, or
    the error; thread creation itself succeeds. *)
Definition spawn_inventory_watch_hooked (o : InventoryOptions) (resume : option jv)
    (hooks : InventoryHooks (Describe (jv := jv) (D := D))) : result Inv WatchError :=
  let? _ := map_err (fun message => InvalidSpec (store o ++ ": " ++ message)) (validate o) in
  let? i := new serde_error o resume in
  let i := match h_describe hooks with Some d => with_describe d i | None => i end in
  Ok (if h_quiet_removals hooks then with_quiet_removals i else i).

Definition spawn_described_inventory_watch (o : InventoryOptions) (resume : option jv)
    (describe : option (Describe (jv := jv) (D := D))) : result Inv WatchError :=
  spawn_inventory_watch_hooked o resume {| h_describe := describe; h_quiet_removals := false |}.

Definition spawn_inventory_watch_with_waker (o : InventoryOptions) (resume : option jv)
    : result Inv WatchError :=
  spawn_described_inventory_watch o resume None.

(** The handle's operations: what each sends to the channel of the watch;
    a null handle sends nothing. *)
Definition acknowledge_inventory_watch (handle : option (list (Wake jv))) (position : jv)
    : option (list (Wake jv)) :=
  match handle with None => None | Some ch => Some (ch ++ [Ack position]) end.
Definition wake (ch : list (Wake jv)) : list (Wake jv) := ch ++ [Changed].
(** The stop flag, and the channel, once the watch is told to stop. *)
Definition cancel_inventory_watch (handle : option (list (Wake jv)))
    : option (bool * list (Wake jv)) :=
  match handle with None => None | Some ch => Some (true, ch ++ [Stop]) end.
End InventoryWatch.

(** ** Lemmas *)

Lemma validate_ok o :
  validate o = Ok tt <->
  INVENTORY_MIN_INTERVAL <= interval o /\ snapshot_bytes o <= MAX_SNAPSHOT_BYTES
  /\ (1 <= max_in_flight o <= 1000)%nat /\ ack_timeout o <> 0.
Proof.
  unfold validate.
  destruct (Z.ltb_spec (interval o) INVENTORY_MIN_INTERVAL); [split; [done|lia]|].
  destruct (Z.ltb_spec MAX_SNAPSHOT_BYTES (snapshot_bytes o)); [split; [done|lia]|].
  destruct (Nat.leb_spec 1 (max_in_flight o)), (Nat.leb_spec (max_in_flight o) 1000); simpl;
    try (split; [done|lia]).
  destruct (Z.eqb_spec (ack_timeout o) 0); split; try done; lia.
Qed.

Section Facts.
Context {jv : Type} `{JL : JsonLaws jv} {D : Type}.
Variable blake3_hex : list ascii -> string.
Variable occurred_at_from_millis : Z -> option string.
Variable serde_error : jv -> string.
Variable to_string : WatchEvent jv -> result string string.

Abbreviation Inv := (Inventory (jv := jv) (D := D)).
Abbreviation run := (thread (D := D) blake3_hex occurred_at_from_millis to_string).
Abbreviation engine_ := (engine (D := D) blake3_hex occurred_at_from_millis serde_error).

(** An inventory of a thread state. *)
Definition inventory_of (s : thread_state (jv := jv) (D := D)) : option Inv :=
  match s with Running i => Some i | Blocked _ i => Some i | Finished => None end.

Lemma wait_loop_keeps (P : Inv -> Prop) phase script i :
  (forall i pos, P i -> P (acknowledged i pos)) -> P i ->
  match wait_loop phase script i with Continue _ i' => P i' | NextPoll i' => P i' | Return => True end.
Proof.
  intros Hack. revert phase i. induction script as [|r script IH]; intros phase i Hi; simpl; [done|].
  destruct phase as [|[]|], r as [[pos| |]| |]; simpl; first [done | apply IH; auto].
Qed.

Lemma foldl_ack_keeps (P : Inv -> Prop) ps i :
  (forall i pos, P i -> P (acknowledged i pos)) -> P i -> P (foldl acknowledged i ps).
Proof. intros Hack. revert i. induction ps as [|p ps IH]; intros i Hi; simpl; auto. Qed.

(** A property kept by polls and acknowledgements holds of the thread. *)
Lemma engine_turn es t o n i :
  engine_ o n i ->
  exists m, (m <= S n)%nat
    /\ engine_ o m
         (list_and_poll blake3_hex occurred_at_from_millis to_string es t i).1.
Proof.
  intros He. unfold list_and_poll. destruct (has_room i); [|by exists n; split; [lia|]].
  destruct (t_list t) as [l|]; [|by exists n; split; [lia|]].
  pose proof (engine_poll _ _ _ o n (t_clock t) l i He) as Hp.
  destruct (poll _ _ _ _ _) as [i' evs]. simpl in Hp. exists (S n). split; [done|].
  unfold deliver. destruct es; [done|]. destruct (existsb _ evs); [|done].
  apply foldl_ack_keeps; [|done]. intros. by apply engine_ack.
Qed.

Lemma engine_thread es turns o n i :
  engine_ o n i ->
  forall i', inventory_of (run es turns i).1 = Some i' ->
  exists m, (m <= n + length turns)%nat
    /\ engine_ o m i'.
Proof.
  revert n i. induction turns as [|t turns IH]; intros n i He i'; cbn [thread].
  { simpl. intros [= <-]. exists n. by split; [lia|]. }
  destruct (t_stop t); [done|]. destruct (engine_turn es t o n i He) as (m & Hm & He').
  destruct (list_and_poll _ _ _ _ _ _) as [i1 out]. simpl in He'.
  pose proof (wait_loop_keeps (engine_ o m)
    Waiting (t_wakes t) i1 ltac:(intros; by apply engine_ack) He') as Hw.
  destruct (wait_loop _ _ _) as [p i2|i2|]; simpl.
  - intros [= <-]. exists m. split; [lia|done].
  - specialize (IH m i2 Hw i'). destruct (run es turns i2) as [s rest]. simpl in IH |- *.
    intros Hs. destruct (IH Hs) as (k & Hk & Hek). exists k. split; [lia|done].
  - done.
Qed.

(** A script without acknowledgements leaves the inventory alone. *)
Definition no_ack (r : received jv) : bool := match r with Got (Ack _) => false | _ => true end.

Lemma wait_loop_no_ack phase script (i : Inv) :
  forallb no_ack script = true ->
  match wait_loop phase script i with Continue _ i' => i' = i | NextPoll i' => i' = i | Return => True end.
Proof.
  revert phase. induction script as [|r script IH]; intros phase H; simpl; [done|].
  simpl in H. apply andb_true_iff in H as [Hr H].
  destruct phase as [|[]|], r as [[pos| |]| |]; simpl; first [done | by apply IH].
Qed.
End Facts.

(** ** Properties *)

Section Properties.
Context {jv : Type} `{JL : JsonLaws jv} {D : Type}.
Variable blake3_hex : list ascii -> string.
Variable occurred_at_from_millis : Z -> option string.
Variable serde_error : jv -> string.
Variable to_string : WatchEvent jv -> result string string.

Abbreviation run := (thread (D := D) blake3_hex occurred_at_from_millis to_string).
Abbreviation engine_ := (engine (D := D) blake3_hex occurred_at_from_millis serde_error).

(** A started watch never has more than [max_in_flight] changes in
    flight, for any listings, clocks, acknowledgements and notifications. *)
Theorem thread_window o resume hooks i es turns i' :
  spawn_inventory_watch_hooked serde_error o resume hooks = Ok i ->
  Z.of_nat (length turns) * Z.of_nat (max_in_flight o) <= u64_max ->
  inventory_of (run es turns i).1 = Some i' ->
  (in_flight i' <= max_in_flight o <= 1000)%nat.
Proof.
  unfold spawn_inventory_watch_hooked. intros Hs Hn Hi'.
  destruct (validate o) as [[]|] eqn:Ev; [|done]. simpl in Hs.
  destruct (new serde_error o resume) as [i0|] eqn:En; [|done]. injection Hs as Hs.
  assert (He : engine_ o 0 i).
  { assert (engine_ o 0 i0) by (by eapply engine_new).
    subst i. destruct (h_describe hooks), (h_quiet_removals hooks);
      repeat first [assumption | apply engine_quiet | apply engine_describe]. }
  destruct (engine_thread _ _ _ _ es turns o 0 i He i' Hi') as (m & Hm & Hem).
  destruct (engine_wf _ _ _ o m i' Hem ltac:(nia)) as ([Hw _ _ _ _] & _ & Ho).
  rewrite Ho in Hw. split; [exact Hw|]. apply validate_ok in Ev as (_ & _ & ? & _). lia.
Qed.

(** C20. A full window stalls the watch: while the host acknowledges nothing,
    no number of turns, whatever the store lists and however late the clock,
    lists the store, emits an event or frees the window, so a change the host
    dropped is not shown again after [ack_timeout]. *)
Theorem full_window_stalls es turns (i : Inventory (jv := jv) (D := D)) :
  has_room i = false -> Forall (fun t => forallb no_ack (t_wakes t) = true) turns ->
  (run es turns i).2 = []
  /\ forall i', inventory_of (run es turns i).1 = Some i' -> i' = i.
Proof.
  intros Hr Hall. induction Hall as [|t turns Ht Hall IH]; cbn [thread].
  { split; [done|]. by intros i' [= <-]. }
  destruct (t_stop t); [by split|]. unfold list_and_poll. rewrite Hr.
  pose proof (wait_loop_no_ack Waiting (t_wakes t) i Ht) as Hw.
  destruct (wait_loop _ _ _) as [p i2|i2|]; [subst i2|subst i2|by split]; simpl.
  - split; [done|]. by intros i' [= <-].
  - destruct (run es turns i) as [s rest]. simpl in *. exact IH.
Qed.

(** A watch of a plain resource, not an event source, keeps nothing in
    flight: each turn emits at most one bare change, and what it reported is
    confirmed in the same turn. *)
Theorem resource_watch_settles t (i : Inventory (jv := jv) (D := D)) :
  settled i -> next_seq i + Z.of_nat (max_in_flight (options i)) <= u64_max ->
  let '(i', out) := list_and_poll blake3_hex occurred_at_from_millis to_string false t i in
  pending i' = [] /\ (out = [] \/ out = ["{}"%string])
  /\ (out = [] -> confirmed i' = confirmed i).
Proof.
  intros Hi Hn. pose proof (st_pending i Hi) as Hp0. unfold list_and_poll.
  destruct (has_room i); [|split_and!; auto]. destruct (t_list t) as [l|]; [|split_and!; auto].
  destruct Hi as [Hb Hp Hs H0 Hq].
  destruct (poll_spec blake3_hex occurred_at_from_millis (t_clock t) i l Hb Hs H0 Hn)
    as (i1 & evs & -> & Hr & Eo & _ & _ & _ & Ep & En & _ & _ & Ec).
  pose proof (taken_length blake3_hex (t_clock t) i l) as Hlen.
  rewrite (kept_nil _ _ Hp) in Ep, Hlen. simpl in Ep.
  unfold deliver. destruct (existsb _ (gap_events i ++ evs)) eqn:Ex.
  - assert (Hack : foldl acknowledged i1 (omap upstream_cursor (gap_events i ++ evs)) = ack_all i1 evs)
      by (unfold ack_all, gap_events; by destruct (inv_gap i)).
    rewrite Hack.
    destruct (ack_all_reports _ _ _ _ _ _ _ _ _ _ _ Hr Ep) as (_ & -> & _); [lia|lia|].
    split_and!; [done|by right|done].
  - assert (Hnil : evs = []).
    { destruct evs as [|ev evs]; [done|]. rewrite existsb_app in Ex.
      apply orb_false_iff in Ex as [_ Ex]. simpl in Ex. apply orb_false_iff in Ex as [Ex _].
      apply bool_decide_eq_false in Ex. destruct Ex.
      destruct (reports_lookup _ _ _ _ _ _ _ _ 0 _ Hr eq_refl) as (op & e & d & extra & _ & ->).
      match goal with |- is_Some (event_type (add_details _ ?ev)) =>
        destruct (add_details_frame extra ev) as (_ & -> & _) end. by eexists. }
    subst evs. apply reports_length in Hr. destruct (taken _ _ _ _) as [|c cs]; [|done].
    split_and!; [exact Ep|by left|intros _; by apply Ec].
Qed.

(** A watch starts exactly when its options are within bounds and the
    stored position, if any, is one it can read; its errors name the store. *)
Theorem spawn_checks o resume hooks :
  match spawn_inventory_watch_hooked (D := D) serde_error o resume hooks with
  | Ok i => validate o = Ok tt /\ options i = o
            /\ match resume with
               | Some x => exists c, cursor_from_value serde_error x = Ok c
               | None => True
               end
  | Err (InvalidSpec m) =>
      (exists e, validate o = Err e /\ m = (store o ++ ": " ++ e)%string)
      \/ exists x e, resume = Some x /\ cursor_from_value serde_error x = Err e
           /\ m = (store o ++ ": the stored position is not one an inventory wrote: " ++ e)%string
  | Err (Subscribe _) => False
  end.
Proof.
  unfold spawn_inventory_watch_hooked, new.
  destruct (validate o) as [[]|e]; simpl; [|left; eauto].
  destruct resume as [x|]; [|by destruct (h_describe hooks), (h_quiet_removals hooks)].
  destruct (cursor_from_value serde_error x) as [[v s [sn|]]|e] eqn:Ex; [| |right; eauto 6];
    destruct (h_describe hooks), (h_quiet_removals hooks); simpl; split_and!; eauto.
Qed.
End Properties.

(** ** Witnesses *)

Import Tree Example1.

Definition print_event (e : WatchEvent jtree) : result string string :=
  Ok (default ""%string (event_id e)).
Definition idle (l : list ObjectEntry) : turn (jv := jtree) :=
  {| t_stop := false; t_clock := fun _ => secs 1000; t_list := Ok l; t_wakes := [Nothing] |}.
Definition full : Inventory (jv := jtree) (D := unit) :=
  (poll hex no_time (fun _ => 0) (fresh Existing) listing).1.

Lemma thread_window_witness :
  exists i', inventory_of (thread hex no_time print_event true [idle listing] (fresh Existing)).1 = Some i'
    /\ (in_flight i' <= 2)%nat.
Proof.
  eexists. split; [vm_compute; reflexivity|].
  apply (thread_window hex no_time no_error print_event (opts Existing) None
    {| h_describe := None; h_quiet_removals := false |} (fresh Existing) true [idle listing]);
    [reflexivity|vm_compute; discriminate|vm_compute; reflexivity].
Defined.

Lemma full_window_stalls_witness :
  has_room full = false
  /\ (thread hex no_time print_event true (replicate 5 (idle [obj "new" 1])) full).2 = [].
Proof.
  split; [vm_compute; reflexivity|].
  apply full_window_stalls; [vm_compute; reflexivity|repeat constructor].
Defined.

Lemma resource_watch_settles_witness :
  let '(i', out) := list_and_poll hex no_time print_event false (idle listing) (fresh Existing) in
  pending i' = [] /\ (out = [] \/ out = ["{}"%string]) /\ (out = [] -> confirmed i' = ∅).
Proof.
  apply (resource_watch_settles hex no_time print_event (idle listing) (fresh Existing) fresh_settled).
  vm_compute. discriminate.
Defined.
