(* ===== verification/WatchReplica.v ===== *)
(** * The inventory thread implements the replica

    Replica.v lets any poll and any handled event follow another. Here the
    thread of an inventory watch of an event source (src/src/inventory.rs,
    [spawn_inventory_watch_hooked]) is shown to make such a history: its
    listings are the polls, the texts it emits are the events sent, and each
    acknowledgement it reads either belongs to no change in flight or is the
    handling of an event that was sent. *)

From Stdlib Require Import Ascii String.
From S2P Require Import Prelude Json Watch Inventory InventoryFacts InventoryWatch Replica.

Section WatchReplica.
Context {jv : Type} `{JL : JsonLaws jv} {D : Type}.
Variable blake3_hex : list ascii -> string.
Variable occurred_at_from_millis : Z -> option string.
Variable to_string : WatchEvent jv -> result string string.

Abbreviation Inv := (Inventory (jv := jv) (D := D)).
Abbreviation session_ := (session (jv := jv) (D := D)).
Abbreviation run := (thread (D := D) blake3_hex occurred_at_from_millis to_string true).
Abbreviation history_ := (history blake3_hex occurred_at_from_millis).
Abbreviation poll_session_ := (poll_session (D := D) blake3_hex occurred_at_from_millis).

(** The texts of events that serialise. *)
Definition texts (evs : list (WatchEvent jv)) : list string := omap (fun e => result_ok (to_string e)) evs.

Lemma texts_app l k : texts (l ++ k) = texts l ++ texts k.
Proof. apply omap_app. Qed.

(** Everything in flight was sent. *)
Definition covered (s : session_) : Prop :=
  forall p, p ∈ pending (engine_of s) -> exists ev pos,
    ev ∈ sent s /\ upstream_cursor ev = Some pos /\ j_get pos "seq" ≫= j_as_u64 = Some (p_seq p).

Lemma covered_poll clock l s :
  live (engine_of s) -> covered s ->
  next_seq (engine_of s) + Z.of_nat (max_in_flight (options (engine_of s))) <= u64_max ->
  covered (poll_session_ clock l s).
Proof.
  intros [[_ _ _ H0 Hs] Hb _] Hc Hn. unfold poll_session.
  destruct (poll_spec blake3_hex occurred_at_from_millis clock (engine_of s) l Hb Hs H0 Hn)
    as (i' & evs & -> & Hr & _ & _ & _ & _ & Ep & _). intros p. simpl. rewrite Ep.
  intros [Hp|Hp]%elem_of_app.
  { destruct (Hc p) as (ev & pos & Hev & Hx).
    { by apply (sublist_elem_of _ _ _ (retain_sublist _ _ _ _)) in Hp. }
    exists ev, pos. split; [|done]. apply elem_of_app. by left. }
  apply list_elem_of_lookup in Hp as [m Hp].
  pose proof (lookup_lt_Some _ _ _ Hp) as Hlt. rewrite new_pending_length in Hlt.
  pose proof (taken_length blake3_hex clock (engine_of s) l).
  destruct (taken blake3_hex clock (engine_of s) l !! m) as [[[op e] d]|] eqn:Em; [|apply lookup_ge_None in Em; lia].
  rewrite (new_pending_lookup clock _ _ _ _ _ _ _ Em) in Hp. injection Hp as <-. simpl.
  destruct (evs !! m) as [ev|] eqn:Ev; [|apply lookup_ge_None in Ev; apply reports_length in Hr; lia].
  destruct (reports_lookup _ _ _ _ _ _ _ _ _ _ Hr Ev) as (op' & e' & d' & extra & _ & Hev).
  match type of Hev with _ = add_details _ ?e0 => destruct (add_details_frame extra e0) as (_ & _ & Hu & _) end.
  rewrite <- Hev in Hu. simpl in Hu. eexists ev, _. split; [|split; [exact Hu|]].
  - rewrite !elem_of_app. right. right. by eapply list_elem_of_lookup_2.
  - apply cursor_seq. simpl. lia.
Qed.

(** Only the number in a position counts. *)
Lemma acknowledged_seq (i : Inv) pos pos' :
  j_get pos "seq" ≫= j_as_u64 = j_get pos' "seq" ≫= j_as_u64 ->
  acknowledged i pos = acknowledged i pos' /\ awaits i pos = awaits i pos'.
Proof. unfold acknowledged, awaits. by intros ->. Qed.

(** ** The simulation *)

Section Simulation.
Variable ok : list ObjectEntry -> Prop.
Variable s0 : session_.

(** An inventory the thread may have after [n] polls and these events. *)
Definition simulated (n : nat) (evs : list (WatchEvent jv)) (i : Inv) : Prop :=
  exists s, history_ ok s0 n s /\ engine_of s = i /\ sent s = evs /\ covered s.

Lemma simulated_ack n evs i pos : simulated n evs i -> simulated n evs (acknowledged i pos).
Proof.
  intros (s & Hh & <- & <- & Hc). destruct (awaits (engine_of s) pos) eqn:Ha.
  2:{ rewrite unawaited_ignored by done. by exists s. }
  destruct (awaits_lookup _ _ Ha) as (seq & n' & p & Hpos & Hp & Hseq).
  destruct (Hc p (list_elem_of_lookup_2 _ _ _ Hp)) as (ev & pos' & Hev & Hu & Hpos').
  destruct (acknowledged_seq (engine_of s) pos pos') as [Hack Haw]; [congruence|].
  exists (handle ev s). split; [by eapply history_handle; [..|rewrite <- Haw]|].
  unfold handle. rewrite Hu. simpl. split; [by symmetry|]. split; [done|].
  intros q Hq%ack_pending. by apply Hc.
Qed.

Lemma simulated_poll n evs i clock l :
  opened blake3_hex occurred_at_from_millis s0 -> ok l -> simulated n evs i ->
  next_seq (engine_of s0) + Z.of_nat (S n) * Z.of_nat (max_in_flight (options (engine_of s0))) <= u64_max ->
  let r := poll blake3_hex occurred_at_from_millis clock i l in simulated (S n) (evs ++ r.2) r.1.
Proof.
  intros H0%opened_mirrored Hok (s & Hh & <- & <- & Hc) Hn. rewrite Nat2Z.inj_succ, Z.mul_succ_l in Hn.
  destruct (history_mirrored _ _ _ _ _ _ _ _ Hh H0 ltac:(lia)) as [Hl Ho Hle _ _].
  exists (poll_session_ clock l s). split; [by apply history_poll|].
  pose proof (covered_poll clock l s Hl Hc ltac:(rewrite Ho; lia)) as Hc'. unfold poll_session in *.
  destruct (poll blake3_hex occurred_at_from_millis clock (engine_of s) l) as [i' new]. by simpl in *.
Qed.

Lemma simulated_turn n evs i t :
  opened blake3_hex occurred_at_from_millis s0 -> (forall l, t_list t = Ok l -> ok l) -> simulated n evs i ->
  next_seq (engine_of s0) + Z.of_nat (S n) * Z.of_nat (max_in_flight (options (engine_of s0))) <= u64_max ->
  let r := list_and_poll blake3_hex occurred_at_from_millis to_string true t i in
  exists m new, (m <= S n)%nat /\ simulated m (evs ++ new) r.1 /\ r.2 = texts new.
Proof.
  intros H0 Hok Hs Hn. unfold list_and_poll. destruct (has_room i).
  2:{ exists n, []. rewrite app_nil_r. split; [lia|done]. }
  destruct (t_list t) as [l|e].
  2:{ exists n, []. rewrite app_nil_r. split; [lia|done]. }
  pose proof (simulated_poll n evs i (t_clock t) l H0 (Hok l eq_refl) Hs Hn) as Hp.
  destruct (poll blake3_hex occurred_at_from_millis (t_clock t) i l) as [i' new]. simpl in *. by exists (S n), new.
Qed.

Lemma simulated_thread turns n evs i :
  opened blake3_hex occurred_at_from_millis s0 ->
  Forall (fun t => forall l, t_list t = Ok l -> ok l) turns -> simulated n evs i ->
  next_seq (engine_of s0)
    + Z.of_nat (n + length turns) * Z.of_nat (max_in_flight (options (engine_of s0))) <= u64_max ->
  forall i', inventory_of (run turns i).1 = Some i' ->
  exists m new, (m <= n + length turns)%nat /\ simulated m (evs ++ new) i' /\ (run turns i).2 = texts new.
Proof.
  intros H0 Hall. revert n evs i.
  induction Hall as [|t turns Ht Hall IH]; intros n evs i Hs Hn i'; cbn [thread].
  { simpl. intros [= <-]. exists n, []. rewrite app_nil_r. split; [lia|done]. }
  destruct (t_stop t); [done|]. cbn [length] in *.
  destruct (simulated_turn n evs i t H0 Ht Hs ltac:(nia)) as (m & new & Hm & Hs1 & Eout).
  destruct (list_and_poll blake3_hex occurred_at_from_millis to_string true t i) as [i1 out]. simpl in Hs1, Eout. subst out.
  pose proof (wait_loop_keeps (simulated m (evs ++ new)) Waiting (t_wakes t) i1
    ltac:(intros; by apply simulated_ack) Hs1) as Hw.
  destruct (wait_loop Waiting (t_wakes t) i1) as [p i2|i2|]; simpl; [|..|done].
  - intros [= <-]. exists m, new. split; [lia|done].
  - specialize (IH m (evs ++ new) i2 Hw ltac:(nia) i'). destruct (run turns i2) as [st rest]. simpl in *.
    intros Hi. destruct (IH Hi) as (k & new' & Hk & Hs2 & ->). exists k, (new ++ new').
    rewrite texts_app, app_assoc. split; [lia|done].
Qed.
End Simulation.

(** C7. The thread of an event source implements the replica: whatever its
    turns list, its clocks read and its channel holds, its inventory is that of
    a history of polls of those listings and of handled events; the texts it
    emitted are the events that history sent, in order; and the consumer of that
    history holds exactly the confirmed objects, each with the data of an entry
    of its digest. *)
Theorem watch_implements_replica turns s0 i' :
  opened blake3_hex occurred_at_from_millis s0 -> pending (engine_of s0) = [] ->
  next_seq (engine_of s0)
    + Z.of_nat (length turns) * Z.of_nat (max_in_flight (options (engine_of s0))) <= u64_max ->
  inventory_of (run turns (engine_of s0)).1 = Some i' ->
  exists n s, (n <= length turns)%nat
    /\ history_ (fun l => exists t, t ∈ turns /\ t_list t = Ok l) s0 n s
    /\ engine_of s = i' /\ (run turns (engine_of s0)).2 = texts (sent s)
    /\ mirrors blake3_hex occurred_at_from_millis (confirmed i') (replica s).
Proof.
  intros H0 Hp Hn Hi. set (ok := fun l => exists t, t ∈ turns /\ t_list t = Ok l).
  assert (Hs : simulated ok s0 0 [] (engine_of s0)).
  { exists s0. split; [apply history_start|]. split; [done|]. split; [by destruct H0|].
    intros p Hin. rewrite Hp in Hin. by apply not_elem_of_nil in Hin. }
  destruct (simulated_thread ok s0 turns 0 [] (engine_of s0) H0) with (i' := i')
    as (n & new & Hle & (s & Hh & He & Hsent & _) & Hout); try done.
  { apply Forall_forall. intros t Ht l Hl. by exists t. }
  simpl in Hle, Hsent. exists n, s. split; [done|]. split; [done|]. split; [done|].
  split; [by rewrite Hsent|]. rewrite <- He.
  by destruct (history_mirrored _ _ _ _ _ _ _ _ Hh (opened_mirrored _ _ _ H0) ltac:(nia)).
Qed.
End WatchReplica.

(** ** Witness *)

Module Sample.
Import Tree Example1 Replica.Sample.

Definition name_of (ev : WatchEvent jtree) : result string string :=
  match told ev with Some (op, k, _) => Ok (op ++ " " ++ k)%string | None => Err "gap"%string end.

(** One turn: an object is listed and its event acknowledged. *)
Definition one_turn : turn :=
  {| t_stop := false; t_clock _ := 0; t_list := Ok only;
     t_wakes := Got (Ack (j_obj {["seq"%string := j_u64 0]})) :: [Nothing; Nothing] |}.

Lemma watch_implements_replica_witness :
  exists n s, history hex no_time (fun l => exists t, t ∈ [one_turn] /\ t_list t = Ok l) start_session n s
    /\ is_Some (replica s !! "a"%string) /\ texts name_of (sent s) = ["created a"%string].
Proof.
  set (r := thread hex no_time name_of true [one_turn] (engine_of start_session)).
  assert (Hout : r.2 = ["created a"%string]) by (vm_compute; reflexivity).
  assert (Hc : is_Some (inventory_of r.1 ≫= fun i => confirmed i !! "a"%string))
    by (eexists; vm_compute; reflexivity).
  destruct (inventory_of r.1) as [i'|] eqn:Hi; [|by destruct Hc]. simpl in Hc.
  destruct (watch_implements_replica hex no_time name_of [one_turn] start_session i' start_opened)
    as (n & s & _ & Hh & _ & Ht & Hm); [reflexivity|vm_compute; discriminate|exact Hi|].
  exists n, s. split; [exact Hh|]. split; [|rewrite <- Ht; exact Hout].
  specialize (Hm "a"%string). destruct Hc as [d Hd]. rewrite Hd in Hm.
  destruct (replica s !! "a"%string) as [m|]; [by exists m|destruct Hm].
Defined.
End Sample.
