(* ===== verification/Queue.v ===== *)
(** * The queue watch (src/src/queue.rs)

    The window operations are functions, one per critical section. The two
    threads, and the host that acknowledges and cancels, are a step relation
    over program counters: a step is one critical section or one call of the
    broker, so every interleaving is a run. [fits] is the payload check. *)

From Stdlib Require Import Ascii String.
From S2P Require Import Prelude Json Watch.

(** ** Data *)

Definition MAX_BACKOFF : Z := secs 30.
Definition FIRST_BACKOFF : Z := ms 500.
Definition QUEUE_CURSOR_VERSION : Z := 1.

Record QueueOptions := {
  q_source : string;
  q_max_in_flight : nat;
  q_ack_timeout : Z;
  receive_wait : Z;
}.

(** [QueueOptions::validate]. *)
Definition queue_validate (o : QueueOptions) : result unit string :=
  if negb ((1 <=? q_max_in_flight o)%nat && (q_max_in_flight o <=? 1000)%nat) then
    Err "max_in_flight must be 1 to 1000"%string
  else if q_ack_timeout o =? 0 then Err "ack_timeout_ms must be greater than 0"%string
  else if (receive_wait o =? 0) || (secs 20 <? receive_wait o) then
    Err "the receive wait must be 1 ms to 20 s"%string
  else Ok tt.

(** One message as the broker delivered it. *)
Record Delivery (jv : Type) := { dl_event : WatchEvent jv; receipt : jv }.
Arguments dl_event {jv} _.
Arguments receipt {jv} _.

(** The deliveries emitted and not yet settled, by sequence number. *)
Record Window (jv : Type) := { w_pending : gmap Z (jv * Z); w_next_seq : Z }.
Arguments w_pending {jv} _.
Arguments w_next_seq {jv} _.

Inductive Settle (jv : Type) := SettleAck (position : jv) | SettleStop.
Arguments SettleAck {jv} position.
Arguments SettleStop {jv}.

Section Window.
Context {jv : Type} `{J : Json jv}.
Abbreviation W := (Window jv).

(** [Shared::take]. *)
Definition take (seq : Z) (w : W) : option jv * W :=
  (fst <$> w_pending w !! seq,
   {| w_pending := delete seq (w_pending w); w_next_seq := w_next_seq w |}).

(** [Shared::expired], the clock read once an entry. *)
Definition late (timeout : Z) (clock : Z -> Z) (w : W) : list Z :=
  fst <$> List.filter (fun e : Z * (jv * Z) => timeout <=? saturating_since (clock e.1) e.2.2)
            (btree_list (w_pending w)).

Fixpoint remove_all (seqs : list Z) (w : W) : list jv * W :=
  match seqs with
  | [] => ([], w)
  | s :: seqs =>
      let '(r, w) := take s w in
      let '(rs, w) := remove_all seqs w in
      (match r with Some r => r :: rs | None => rs end, w)
  end.

Definition expired (timeout : Z) (clock : Z -> Z) (w : W) : list jv * W :=
  remove_all (late timeout clock w) w.

(** [Shared::next_expiry]. *)
Definition next_expiry (timeout : Z) (w : W) : option Z :=
  match (fun e : Z * (jv * Z) => e.2.2 + timeout) <$> btree_list (w_pending w) with
  | [] => None
  | t :: ts => Some (foldr Z.min t ts)
  end.

(** The wait of the settling thread, at clock [now]. *)
Definition settle_wait (timeout now : Z) (w : W) : Z :=
  Z.min (match next_expiry timeout w with
         | Some t => saturating_since t now
         | None => secs 1
         end) (secs 1).

(** [Shared::wait_for_room], one check: the room, if there is any. *)
Definition room (o : QueueOptions) (w : W) : option nat :=
  let held := stdpp.base.size (w_pending w) in
  if (held <? q_max_in_flight o)%nat then Some (q_max_in_flight o - held)%nat else None.

(** The critical section of [offer]: the sequence number, and the window
    that holds the receipt. *)
Definition hold (r : jv) (at_ : Z) (w : W) : Z * W :=
  (w_next_seq w,
   {| w_pending := <[w_next_seq w := (r, at_)]> (w_pending w);
      w_next_seq := as_u64 (w_next_seq w + 1) |}).

(** The held deliveries, when the settling thread ends. *)
Definition take_all (w : W) : list jv * W :=
  ((fun e => e.2.1) <$> btree_list (w_pending w),
   {| w_pending := ∅; w_next_seq := w_next_seq w |}).

Definition queue_cursor (seq : Z) : jv :=
  j_obj ({[ "v" := j_u64 QUEUE_CURSOR_VERSION; "seq" := j_u64 seq ]}%string).

(** The sequence number a position names. *)
Definition position_seq (position : jv) : option Z := j_get position "seq" ≫= j_as_u64.

(** The event of a delivery, with its position. *)
Definition with_cursor (seq : Z) (e : WatchEvent jv) : WatchEvent jv :=
  {| event_id := event_id e; event_type := event_type e; occurred_at := occurred_at e;
     ev_data := ev_data e; upstream_cursor := Some (queue_cursor seq); ev_gap := ev_gap e |}.

Definition next_backoff (b : Z) : Z := Z.min (b * 2) MAX_BACKOFF.
End Window.

(** ** The threads *)

Section Threads.
Context {jv : Type} `{J : Json jv}.
Variable options : QueueOptions.
Variable event_source : bool.
(** [serde_json::to_string] on an event, and FFI_MAX_PAYLOAD_BYTES. *)
Variable to_string : WatchEvent jv -> result string string.
Variable FFI_MAX_PAYLOAD_BYTES : Z.

(** The text of a delivery's event, when the host would take it. *)
Definition payload (seq : Z) (d : Delivery jv) : option string :=
  match to_string (with_cursor seq (dl_event d)) with
  | Ok json =>
      if FFI_MAX_PAYLOAD_BYTES <? Z.of_nat (String.length json) then None else Some json
  | Err _ => None
  end.

(** Where [receive_loop] is, [offer] included. *)
Inductive receiver :=
| RLoop
| RConnect
| RPause
| RRoom
| RReceive (room : nat)
| RGot (ds : list (Delivery jv))
| RReleasing (ds : list (Delivery jv))
| RAcking (ds : list (Delivery jv))
| ROffer (ds : list (Delivery jv))
| RHeld (seq : Z) (d : Delivery jv) (ds : list (Delivery jv))
| RDropped (d : Delivery jv) (ds : list (Delivery jv))
| RDone.

(** Where [settle_loop] is. *)
Inductive settler :=
| SExpire
| SReleasing (rs : list jv)
| SRecv
| SAcking (seq : Z) (r : jv)
| SDrain
| SReleaseHeld (rs : list jv)
| SDone.

(** Where [cancel_queue_watch] is. *)
Inductive canceller := CIdle | CJoinReceiver | CJoinSettler | CDone.

(** A call of the broker that settles a delivery; an acknowledgement of the
    settling thread carries the sequence number it settles. *)
Inductive upstream := UAck (seq : option Z) (r : jv) | URelease (r : jv).

Record qstate := {
  window : Window jv;
  stop : bool;
  connected : bool;
  backoff : Z;
  rpc : receiver;
  spc : settler;
  cpc : canceller;
  channel : list (Settle jv);
  emits : list string;
  calls : list upstream;
  received : list jv;
  host_acks : list jv;
  history : list (Z * Delivery jv);
}.

Definition initial : qstate :=
  {| window := {| w_pending := ∅; w_next_seq := 0 |}; stop := false; connected := false;
     backoff := FIRST_BACKOFF; rpc := RLoop; spc := SExpire; cpc := CIdle; channel := [];
     emits := []; calls := []; received := []; host_acks := []; history := [] |}.

Definition set_rpc p (s : qstate) : qstate :=
  {| window := window s; stop := stop s; connected := connected s; backoff := backoff s;
     rpc := p; spc := spc s; cpc := cpc s; channel := channel s; emits := emits s;
     calls := calls s; received := received s; host_acks := host_acks s; history := history s |}.
Definition set_spc p (s : qstate) : qstate :=
  {| window := window s; stop := stop s; connected := connected s; backoff := backoff s;
     rpc := rpc s; spc := p; cpc := cpc s; channel := channel s; emits := emits s;
     calls := calls s; received := received s; host_acks := host_acks s; history := history s |}.
Definition set_cpc p (s : qstate) : qstate :=
  {| window := window s; stop := stop s; connected := connected s; backoff := backoff s;
     rpc := rpc s; spc := spc s; cpc := p; channel := channel s; emits := emits s;
     calls := calls s; received := received s; host_acks := host_acks s; history := history s |}.
Definition set_window w (s : qstate) : qstate :=
  {| window := w; stop := stop s; connected := connected s; backoff := backoff s;
     rpc := rpc s; spc := spc s; cpc := cpc s; channel := channel s; emits := emits s;
     calls := calls s; received := received s; host_acks := host_acks s; history := history s |}.
Definition set_link c b (s : qstate) : qstate :=
  {| window := window s; stop := stop s; connected := c; backoff := b;
     rpc := rpc s; spc := spc s; cpc := cpc s; channel := channel s; emits := emits s;
     calls := calls s; received := received s; host_acks := host_acks s; history := history s |}.
Definition set_channel c (s : qstate) : qstate :=
  {| window := window s; stop := stop s; connected := connected s; backoff := backoff s;
     rpc := rpc s; spc := spc s; cpc := cpc s; channel := c; emits := emits s;
     calls := calls s; received := received s; host_acks := host_acks s; history := history s |}.
Definition set_stop (s : qstate) : qstate :=
  {| window := window s; stop := true; connected := connected s; backoff := backoff s;
     rpc := rpc s; spc := spc s; cpc := cpc s; channel := channel s; emits := emits s;
     calls := calls s; received := received s; host_acks := host_acks s; history := history s |}.
Definition emit (t : string) (s : qstate) : qstate :=
  {| window := window s; stop := stop s; connected := connected s; backoff := backoff s;
     rpc := rpc s; spc := spc s; cpc := cpc s; channel := channel s; emits := emits s ++ [t];
     calls := calls s; received := received s; host_acks := host_acks s; history := history s |}.
Definition call (u : upstream) (s : qstate) : qstate :=
  {| window := window s; stop := stop s; connected := connected s; backoff := backoff s;
     rpc := rpc s; spc := spc s; cpc := cpc s; channel := channel s; emits := emits s;
     calls := calls s ++ [u]; received := received s; host_acks := host_acks s; history := history s |}.
Definition deliver_in (ds : list (Delivery jv)) (s : qstate) : qstate :=
  {| window := window s; stop := stop s; connected := connected s; backoff := backoff s;
     rpc := rpc s; spc := spc s; cpc := cpc s; channel := channel s; emits := emits s;
     calls := calls s; received := received s ++ (receipt <$> ds); host_acks := host_acks s; history := history s |}.
Definition host_ack (position : jv) (s : qstate) : qstate :=
  {| window := window s; stop := stop s; connected := connected s; backoff := backoff s;
     rpc := rpc s; spc := spc s; cpc := cpc s; channel := channel s ++ [SettleAck position];
     emits := emits s; calls := calls s; received := received s;
     host_acks := host_acks s ++ [position]; history := history s |}.

(** [hold] on the shared window, remembered in the history of the run. *)
Definition hold_in (d : Delivery jv) (at_ : Z) (s : qstate) : qstate :=
  let '(seq, w) := hold (receipt d) at_ (window s) in
  {| window := w; stop := stop s; connected := connected s; backoff := backoff s;
     rpc := rpc s; spc := spc s; cpc := cpc s; channel := channel s; emits := emits s;
     calls := calls s; received := received s; host_acks := host_acks s;
     history := history s ++ [(seq, d)] |}.

(** The choice after a receive that returned. *)
Definition got (ds : list (Delivery jv)) (s : qstate) : receiver :=
  match ds with
  | [] => RLoop
  | _ => if stop s then RReleasing ds else if event_source then ROffer ds else RAcking ds
  end.

(** The receiving thread. *)
Inductive rstep : qstate -> qstate -> Prop :=
| r_loop s : rpc s = RLoop ->
    rstep s (set_rpc (if stop s then RDone else if connected s then RRoom else RConnect) s)
| r_connected s : rpc s = RConnect -> rstep s (set_rpc RRoom (set_link true FIRST_BACKOFF s))
| r_connect_failed s : rpc s = RConnect -> rstep s (set_rpc RPause s)
| r_pause s : rpc s = RPause ->
    rstep s (set_rpc RLoop (set_link (connected s) (next_backoff (backoff s)) s))
| r_room_stopped s : rpc s = RRoom -> stop s = true -> rstep s (set_rpc RDone s)
| r_room s n : rpc s = RRoom -> stop s = false -> room options (window s) = Some n ->
    rstep s (set_rpc (RReceive n) s)
| r_received s n ds : rpc s = RReceive n -> (length ds <= n)%nat ->
    rstep s (set_rpc (RGot ds) (deliver_in ds s))
| r_receive_failed s n : rpc s = RReceive n ->
    rstep s (set_rpc RPause (set_link false (backoff s) s))
| r_got s ds : rpc s = RGot ds -> rstep s (set_rpc (got ds s) s)
| r_release s d ds : rpc s = RReleasing (d :: ds) ->
    rstep s (set_rpc (RReleasing ds) (call (URelease (receipt d)) s))
| r_released s : rpc s = RReleasing [] -> rstep s (set_rpc RDone s)
| r_ack s d ds : rpc s = RAcking (d :: ds) ->
    rstep s (set_rpc (RAcking ds) (call (UAck None (receipt d)) s))
| r_acked s : rpc s = RAcking [] -> rstep s (set_rpc RLoop (emit "{}" s))
| r_hold s d ds at_ : rpc s = ROffer (d :: ds) -> w_next_seq (window s) < u64_max ->
    rstep s (set_rpc (RHeld (w_next_seq (window s)) d ds) (hold_in d at_ s))
| r_offered s : rpc s = ROffer [] -> rstep s (set_rpc RLoop s)
| r_emit s seq d ds t : rpc s = RHeld seq d ds -> payload seq d = Some t ->
    rstep s (set_rpc (ROffer ds) (emit t s))
| r_drop s seq d ds : rpc s = RHeld seq d ds -> payload seq d = None ->
    rstep s (set_rpc (RDropped d ds) (set_window (take seq (window s)).2 s))
| r_drop_ack s d ds : rpc s = RDropped d ds ->
    rstep s (set_rpc (ROffer ds) (call (UAck None (receipt d)) s)).

(** The settling thread; [clock] is what it reads. *)
Inductive sstep : qstate -> qstate -> Prop :=
| s_expire s clock : spc s = SExpire ->
    sstep s (set_spc (SReleasing (expired (q_ack_timeout options) clock (window s)).1)
               (set_window (expired (q_ack_timeout options) clock (window s)).2 s))
| s_release s r rs : spc s = SReleasing (r :: rs) ->
    sstep s (set_spc (SReleasing rs) (call (URelease r) s))
| s_released s : spc s = SReleasing [] -> sstep s (set_spc SRecv s)
| s_timeout s : spc s = SRecv -> sstep s (set_spc SExpire s)
| s_ack s position ch : spc s = SRecv -> channel s = SettleAck position :: ch ->
    sstep s
      (match position_seq position with
       | Some seq =>
           match (take seq (window s)).1 with
           | Some r => set_spc (SAcking seq r) (set_window (take seq (window s)).2 (set_channel ch s))
           | None => set_spc SExpire (set_window (take seq (window s)).2 (set_channel ch s))
           end
       | None => set_spc SExpire (set_channel ch s)
       end)
| s_acked s seq r : spc s = SAcking seq r ->
    sstep s (set_spc SExpire (call (UAck (Some seq) r) s))
| s_stop s ch : spc s = SRecv -> channel s = SettleStop :: ch ->
    sstep s (set_spc SDrain (set_channel ch s))
| s_drain s : spc s = SDrain ->
    sstep s (set_spc (SReleaseHeld (take_all (window s)).1)
               (set_window (take_all (window s)).2 s))
| s_release_held s r rs : spc s = SReleaseHeld (r :: rs) ->
    sstep s (set_spc (SReleaseHeld rs) (call (URelease r) s))
| s_done s : spc s = SReleaseHeld [] -> sstep s (set_spc SDone s).

(** The host: it acknowledges until it cancels, once. *)
Inductive hstep : qstate -> qstate -> Prop :=
| h_ack s position : cpc s = CIdle -> hstep s (host_ack position s)
| h_cancel s : cpc s = CIdle -> hstep s (set_cpc CJoinReceiver (set_stop s))
| h_joined_receiver s : cpc s = CJoinReceiver -> rpc s = RDone ->
    hstep s (set_cpc CJoinSettler (set_channel (channel s ++ [SettleStop]) s))
| h_joined_settler s : cpc s = CJoinSettler -> spc s = SDone -> hstep s (set_cpc CDone s).

Inductive qstep (s s' : qstate) : Prop :=
| q_receive : rstep s s' -> qstep s s'
| q_settle : sstep s s' -> qstep s s'
| q_host : hstep s s' -> qstep s s'.

(** [spawn_queue_watch]: the state the two threads start in, or the error. *)
Definition spawn_queue_watch : result qstate WatchError :=
  match queue_validate options with
  | Ok _ => Ok initial
  | Err message => Err (InvalidSpec (q_source options ++ ": " ++ message))
  end.

(** [acknowledge_queue_watch] and the first act of [cancel_queue_watch]; a
    null handle does nothing. *)
Definition acknowledge_queue_watch (handle : option qstate) (position : jv) : option qstate :=
  host_ack position <$> handle.
Definition cancel_queue_watch (handle : option qstate) : option qstate :=
  (fun s => set_cpc CJoinReceiver (set_stop s)) <$> handle.

Inductive reachable : qstate -> Prop :=
| reach_initial : reachable initial
| reach_step s s' : reachable s -> qstep s s' -> reachable s'.

(** ** A scheduler: the step relation, executable

    An input is the choice the environment makes where a step has one: what
    the broker answers, what the clock reads, which thread runs. *)

Inductive input :=
| IReceive
| IFail
| IDeliver (ds : list (Delivery jv))
| IHoldAt (at_ : Z)
| ISettle
| ITimeout
| IExpire (clock : Z -> Z)
| IHostAck (position : jv)
| ICancel.

Definition rnext (i : input) (s : qstate) : option qstate :=
  match rpc s, i with
  | RLoop, IReceive =>
      Some (set_rpc (if stop s then RDone else if connected s then RRoom else RConnect) s)
  | RConnect, IReceive => Some (set_rpc RRoom (set_link true FIRST_BACKOFF s))
  | RConnect, IFail => Some (set_rpc RPause s)
  | RPause, IReceive => Some (set_rpc RLoop (set_link (connected s) (next_backoff (backoff s)) s))
  | RRoom, IReceive =>
      if stop s then Some (set_rpc RDone s)
      else (fun n => set_rpc (RReceive n) s) <$> room options (window s)
  | RReceive n, IDeliver ds =>
      if (length ds <=? n)%nat then Some (set_rpc (RGot ds) (deliver_in ds s)) else None
  | RReceive _, IFail => Some (set_rpc RPause (set_link false (backoff s) s))
  | RGot ds, IReceive => Some (set_rpc (got ds s) s)
  | RReleasing (d :: ds), IReceive =>
      Some (set_rpc (RReleasing ds) (call (URelease (receipt d)) s))
  | RReleasing [], IReceive => Some (set_rpc RDone s)
  | RAcking (d :: ds), IReceive => Some (set_rpc (RAcking ds) (call (UAck None (receipt d)) s))
  | RAcking [], IReceive => Some (set_rpc RLoop (emit "{}" s))
  | ROffer (d :: ds), IHoldAt at_ =>
      if w_next_seq (window s) <? u64_max
      then Some (set_rpc (RHeld (w_next_seq (window s)) d ds) (hold_in d at_ s)) else None
  | ROffer [], IReceive => Some (set_rpc RLoop s)
  | RHeld seq d ds, IReceive =>
      match payload seq d with
      | Some t => Some (set_rpc (ROffer ds) (emit t s))
      | None => Some (set_rpc (RDropped d ds) (set_window (take seq (window s)).2 s))
      end
  | RDropped d ds, IReceive => Some (set_rpc (ROffer ds) (call (UAck None (receipt d)) s))
  | _, _ => None
  end.

Definition snext (i : input) (s : qstate) : option qstate :=
  match spc s, i with
  | SExpire, IExpire clock =>
      Some (set_spc (SReleasing (expired (q_ack_timeout options) clock (window s)).1)
              (set_window (expired (q_ack_timeout options) clock (window s)).2 s))
  | SReleasing (r :: rs), ISettle => Some (set_spc (SReleasing rs) (call (URelease r) s))
  | SReleasing [], ISettle => Some (set_spc SRecv s)
  | SRecv, ITimeout => Some (set_spc SExpire s)
  | SRecv, ISettle =>
      match channel s with
      | SettleAck position :: ch =>
          Some (match position_seq position with
                | Some seq =>
                    match (take seq (window s)).1 with
                    | Some r => set_spc (SAcking seq r)
                                  (set_window (take seq (window s)).2 (set_channel ch s))
                    | None => set_spc SExpire
                                (set_window (take seq (window s)).2 (set_channel ch s))
                    end
                | None => set_spc SExpire (set_channel ch s)
                end)
      | SettleStop :: ch => Some (set_spc SDrain (set_channel ch s))
      | [] => None
      end
  | SAcking seq r, ISettle => Some (set_spc SExpire (call (UAck (Some seq) r) s))
  | SDrain, ISettle =>
      Some (set_spc (SReleaseHeld (take_all (window s)).1)
              (set_window (take_all (window s)).2 s))
  | SReleaseHeld (r :: rs), ISettle => Some (set_spc (SReleaseHeld rs) (call (URelease r) s))
  | SReleaseHeld [], ISettle => Some (set_spc SDone s)
  | _, _ => None
  end.

Definition hnext (i : input) (s : qstate) : option qstate :=
  match cpc s, i with
  | CIdle, IHostAck position => Some (host_ack position s)
  | CIdle, ICancel => Some (set_cpc CJoinReceiver (set_stop s))
  | CJoinReceiver, ICancel =>
      match rpc s with
      | RDone => Some (set_cpc CJoinSettler (set_channel (channel s ++ [SettleStop]) s))
      | _ => None
      end
  | CJoinSettler, ICancel =>
      match spc s with SDone => Some (set_cpc CDone s) | _ => None end
  | _, _ => None
  end.

Definition next (i : input) (s : qstate) : option qstate :=
  match i with
  | IReceive | IFail | IDeliver _ | IHoldAt _ => rnext i s
  | ISettle | ITimeout | IExpire _ => snext i s
  | IHostAck _ | ICancel => hnext i s
  end.

Fixpoint schedule (inputs : list input) (s : qstate) : option qstate :=
  match inputs with
  | [] => Some s
  | i :: inputs => match next i s with Some s => schedule inputs s | None => None end
  end.

End Threads.
