(* ===== verification/QueueFacts.v ===== *)
(** * The queue watch: lemmas and properties *)

From Stdlib Require Import Ascii String.
From S2P Require Import Prelude Json Watch Queue.

(** ** The window *)

Section WindowFacts.
Context {jv : Type} `{JL : JsonLaws jv}.
Abbreviation W := (Window jv).

(** The receipts a window holds. *)
Definition held (w : W) : list jv := (fun e => e.2.1) <$> map_to_list (w_pending w).

Lemma take_held seq w :
  match take seq w with
  | (Some r, w') => held w ≡ₚ r :: held w'
  | (None, w') => w' = w
  end.
Proof.
  unfold take, held. destruct (w_pending w !! seq) as [[r t]|] eqn:E; simpl.
  - by rewrite <- (map_to_list_delete _ _ _ E).
  - rewrite delete_id by done. by destruct w.
Qed.

Lemma remove_all_held seqs w :
  let '(rs, w') := remove_all seqs w in
  held w ≡ₚ rs ++ held w' /\ w_next_seq w' = w_next_seq w
  /\ w_pending w' ⊆ w_pending w /\ forall k, k ∈ seqs -> w_pending w' !! k = None.
Proof.
  revert w. induction seqs as [|q seqs IH]; intros w; cbn [remove_all].
  { split_and!; try done. intros k Hk. by apply not_elem_of_nil in Hk. }
  pose proof (take_held q w) as Ht. destruct (take q w) as [r w1] eqn:E1.
  assert (Hw1 : w_next_seq w1 = w_next_seq w /\ w_pending w1 = delete q (w_pending w))
    by (unfold take in E1; by injection E1 as <- <-). destruct Hw1 as [Hn1 Hp1].
  specialize (IH w1). destruct (remove_all seqs w1) as [rs w2].
  destruct IH as (Hh & Hn & Hs & Hk). split_and!.
  - destruct r as [r|]; [rewrite Ht, Hh; done|by subst w1].
  - congruence.
  - etrans; [exact Hs|]. rewrite Hp1. apply delete_subseteq.
  - intros k [->|Hin]%elem_of_cons; [|by apply Hk].
    destruct (w_pending w2 !! q) as [v|] eqn:Ev; [|done].
    apply (lookup_weaken _ _ _ _ Ev) in Hs. by rewrite Hp1, lookup_delete_eq in Hs.
Qed.

Lemma remove_all_other seqs (w : W) k :
  k ∉ seqs -> w_pending (remove_all seqs w).2 !! k = w_pending w !! k.
Proof.
  revert w. induction seqs as [|q seqs IH]; intros w Hk; cbn [remove_all]; [done|].
  apply not_elem_of_cons in Hk as [Hne Hk]. destruct (take q w) as [r w1] eqn:E1.
  specialize (IH w1 Hk). destruct (remove_all seqs w1) as [rs w2]. simpl in *. rewrite IH.
  unfold take in E1. injection E1 as <- <-. by apply lookup_delete_ne.
Qed.

Lemma elem_late timeout clock (w : W) k :
  k ∈ late timeout clock w <->
  exists r t, w_pending w !! k = Some (r, t) /\ timeout <= saturating_since (clock k) t.
Proof.
  unfold late. rewrite list_elem_of_fmap. split.
  - intros ([k' [r t]] & -> & Hin). rewrite list_elem_of_In, filter_In, <- list_elem_of_In in Hin.
    destruct Hin as [Hin Ht]. apply btree_elem in Hin. exists r, t. by apply Z.leb_le in Ht.
  - intros (r & t & Hk & Ht). exists (k, (r, t)). split; [done|].
    rewrite list_elem_of_In, filter_In, <- list_elem_of_In. split; [by apply btree_elem|].
    by apply Z.leb_le.
Qed.

Lemma take_all_held (w : W) : held w ≡ₚ (take_all w).1.
Proof. unfold held, take_all. simpl. by rewrite btree_perm. Qed.

Lemma hold_held r t (w : W) :
  w_pending w !! w_next_seq w = None -> held (hold r t w).2 ≡ₚ r :: held w.
Proof. intros H. unfold held, hold. simpl. by rewrite map_to_list_insert. Qed.

Lemma position_of_cursor seq :
  0 <= seq <= u64_max -> position_seq (queue_cursor seq) = Some seq.
Proof.
  intros H. unfold position_seq, queue_cursor. rewrite j_get_obj.
  simplify_map_eq. by apply j_as_u64_u64.
Qed.
End WindowFacts.

Section Facts.
Context {jv : Type} `{JL : JsonLaws jv}.
Variable options : QueueOptions.
Variable event_source : bool.
Variable to_string : WatchEvent jv -> result string string.
Variable limit : Z.

Abbreviation step := (qstep options event_source to_string limit).
Abbreviation reach := (reachable options event_source to_string limit).
Implicit Types s : qstate (jv := jv).

(** ** The scheduler follows the step relation *)

Lemma rnext_step i s s' :
  rnext options event_source to_string limit i s = Some s' ->
  rstep options event_source to_string limit s s'.
Proof.
  unfold rnext. intros H.
  destruct (rpc s) as [| | | |n|ds|[|d ds]|[|d ds]|[|d ds]|q d ds|d ds|] eqn:E, i; try discriminate H.
  all: try (injection H as <-; by econstructor).
  - destruct (stop s) eqn:Es; [injection H as <-; by apply r_room_stopped|].
    apply fmap_Some in H as (n & Hn & ->). by apply r_room.
  - destruct (Nat.leb_spec (length ds) n); [injection H as <-|done]. by eapply r_received.
  - destruct (Z.ltb_spec (w_next_seq (window s)) u64_max); [injection H as <-|done]. by apply r_hold.
  - destruct (payload to_string limit q d) eqn:Ep; injection H as <-; [by eapply r_emit|by eapply r_drop].
Qed.

Lemma snext_step i s s' : snext options i s = Some s' -> sstep options s s'.
Proof.
  unfold snext. intros H. destruct (spc s) as [|[|r rs]| |q r| |[|r rs]|] eqn:E, i; try discriminate H.
  all: try (injection H as <-; by econstructor).
  destruct (channel s) as [|[p|] ch] eqn:Ec; [done| |]; injection H as <-.
  - by apply s_ack.
  - by apply s_stop.
Qed.

Lemma hnext_step i s s' : hnext i s = Some s' -> hstep s s'.
Proof.
  unfold hnext. intros H. destruct (cpc s) eqn:E, i; try discriminate H.
  - injection H as <-. by apply h_ack.
  - injection H as <-. by apply h_cancel.
  - destruct (rpc s) eqn:Er; try done. injection H as <-. by apply h_joined_receiver.
  - destruct (spc s) eqn:Es; try done. injection H as <-. by apply h_joined_settler.
Qed.

Lemma next_step i s s' : next options event_source to_string limit i s = Some s' -> step s s'.
Proof.
  destruct i; cbn [next]; intros H;
    first [ apply q_receive; by eapply rnext_step | apply q_settle; by eapply snext_step
          | apply q_host; by eapply hnext_step ].
Qed.

Lemma schedule_reachable_from inputs s s' :
  reach s -> schedule options event_source to_string limit inputs s = Some s' -> reach s'.
Proof.
  revert s. induction inputs as [|i inputs IH]; intros s Hr H; cbn [schedule] in H.
  - by injection H as <-.
  - destruct (next _ _ _ _ i s) as [s1|] eqn:En; [|done].
    eapply IH; [|exact H]. eapply reach_step; [done|by eapply next_step].
Qed.

Lemma schedule_reachable inputs s :
  schedule options event_source to_string limit inputs initial = Some s -> reach s.
Proof. apply schedule_reachable_from, reach_initial. Qed.

(** ** The invariant of every run *)

(** The deliveries the receiver may still put in the window. *)
Definition incoming (p : receiver (jv := jv)) : nat :=
  match p with
  | RReceive n => n
  | RGot ds => length ds
  | RReleasing ds => length ds
  | RAcking ds => length ds
  | ROffer ds => length ds
  | RHeld _ _ ds => length ds
  | RDropped _ ds => length ds
  | _ => 0
  end.

Record wf s : Prop := {
  wf_backoff : FIRST_BACKOFF <= backoff s <= MAX_BACKOFF;
  wf_next : 0 <= w_next_seq (window s) <= u64_max;
  wf_keys : forall k v, w_pending (window s) !! k = Some v -> 0 <= k < w_next_seq (window s);
  wf_room : (stdpp.base.size (w_pending (window s)) + incoming (rpc s)
             <= q_max_in_flight options)%nat;
  wf_held : forall q d ds, rpc s = RHeld q d ds -> (q, d) ∈ history s;
  wf_history : NoDup (history s).*1
               /\ Forall (fun e => 0 <= e.1 < w_next_seq (window s)) (history s);
  wf_window : forall k r t, w_pending (window s) !! k = Some (r, t) ->
              exists d, (k, d) ∈ history s /\ r = receipt d;
}.

Lemma wf_initial : wf initial.
Proof.
  split; simpl; try done; try lia; try (by split; constructor).
  all: try (intros k v Hk; by rewrite lookup_empty in Hk).
  all: try (rewrite map_size_empty; lia).
Qed.

(** A step that at most shrinks the window, and keeps the history. *)
Lemma wf_shrink s s' :
  wf s -> w_next_seq (window s') = w_next_seq (window s) ->
  w_pending (window s') ⊆ w_pending (window s) ->
  FIRST_BACKOFF <= backoff s' <= MAX_BACKOFF ->
  (incoming (rpc s') <= incoming (rpc s))%nat ->
  (forall q d ds, rpc s' = RHeld q d ds -> rpc s = RHeld q d ds) ->
  history s' = history s ->
  wf s'.
Proof.
  intros [Hb Hn Hk Hr Hh [Hnd Hf] Hw] En Hsub Hb' Hi Hp Ehist.
  apply map_subseteq_size in Hsub as Hsz.
  split; rewrite ?En, ?Ehist; try done; try lia.
  - intros k v Hkv. eapply Hk. by eapply lookup_weaken.
  - intros q d ds E. eapply Hh. by apply Hp.
  - intros k r t Hkv. eapply Hw. by eapply lookup_weaken.
Qed.

(** The same with the room a receive may fill. *)
Lemma wf_room_step s p :
  wf s -> (stdpp.base.size (w_pending (window s)) + incoming p <= q_max_in_flight options)%nat ->
  (forall q d ds, p <> RHeld q d ds) -> wf (set_rpc p s).
Proof.
  intros [Hb Hn Hk Hr Hh Hf Hw] Hi Hp. split; simpl; try done. intros q d ds E. by destruct (Hp q d ds).
Qed.

Lemma wf_hold s d ds at_ :
  wf s -> rpc s = ROffer (d :: ds) -> w_next_seq (window s) < u64_max ->
  wf (set_rpc (RHeld (w_next_seq (window s)) d ds) (hold_in d at_ s)).
Proof.
  intros [Hb Hn Hk Hr Hh [Hnd Hf] Hw] E Hlt.
  assert (Hu : as_u64 (w_next_seq (window s) + 1) = w_next_seq (window s) + 1)
    by (unfold as_u64, u64_max in *; apply Z.mod_small; lia).
  rewrite E in Hr. simpl in Hr. split; simpl; rewrite ?Hu; try done; try lia.
  - intros k v [[<- _]|[_ Hkv]]%lookup_insert_Some; [lia|]. apply Hk in Hkv. lia.
  - rewrite map_size_insert. destruct (w_pending (window s) !! _); simpl; lia.
  - intros q d' ds' [= <- <- _]. apply elem_of_app. right. by apply list_elem_of_singleton.
  - rewrite fmap_app. split.
    + apply NoDup_app. split; [done|]. split; [|apply NoDup_singleton].
      intros k (e & Ek & He)%list_elem_of_fmap Hk2%list_elem_of_singleton.
      rewrite Forall_forall in Hf. specialize (Hf e He). simpl in *. lia.
    + apply Forall_app. split; [eapply Forall_impl; [exact Hf|simpl; lia]|].
      apply Forall_singleton. simpl. lia.
  - intros k r t [[<- [= <- <-]]|[_ Hkv]]%lookup_insert_Some.
    + exists d. split; [apply elem_of_app; right; by apply list_elem_of_singleton|done].
    + destruct (Hw _ _ _ Hkv) as (d' & Hd & ->). exists d'. split; [apply elem_of_app; by left|done].
Qed.

Lemma take_spec seq (w : Window jv) :
  w_next_seq (take seq w).2 = w_next_seq w /\ w_pending (take seq w).2 ⊆ w_pending w.
Proof. split; [done|apply delete_subseteq]. Qed.

Lemma expired_spec t clock (w : Window jv) :
  w_next_seq (expired t clock w).2 = w_next_seq w /\ w_pending (expired t clock w).2 ⊆ w_pending w
  /\ held w ≡ₚ (expired t clock w).1 ++ held (expired t clock w).2.
Proof.
  unfold expired. pose proof (remove_all_held (late t clock w) w) as H.
  destruct (remove_all _ w) as [rs w']. by destruct H as (? & ? & ? & _).
Qed.

Ltac shrink Hwf := eapply (wf_shrink _ _ Hwf); simpl; try done;
  try apply (wf_backoff _ Hwf); try (intros ? ? ?; congruence); try lia.

Lemma backoff_bounds b :
  FIRST_BACKOFF <= b <= MAX_BACKOFF -> FIRST_BACKOFF <= next_backoff b <= MAX_BACKOFF.
Proof. unfold next_backoff, FIRST_BACKOFF, MAX_BACKOFF, ms, secs. lia. Qed.

Lemma got_incoming ds s :
  (incoming (got event_source ds s) <= length ds)%nat
  /\ forall q d ds', got event_source ds s <> RHeld q d ds'.
Proof. unfold got. repeat case_match; simpl; split; (done || lia). Qed.

Lemma wf_step s s' : wf s -> step s s' -> wf s'.
Proof.
  intros Hwf [Hr|Hs|Hh].
  - destruct Hr as [s E|s E|s E|s E|s E Es|s n E Es Hroom|s n ds E Hl|s n E|s ds E|s d ds E|s E
      |s d ds E|s E|s d ds at_ E Hlt|s E|s q d ds t E Ep|s q d ds E Ep|s d ds E];
      try (shrink Hwf; rewrite ?E; simpl; try done; try lia; fail).
    + shrink Hwf; destruct (stop s), (connected s); simpl; (done || lia).
    + shrink Hwf. apply backoff_bounds, Hwf.
    + apply wf_room_step; [done| |done]. unfold room in Hroom. simpl.
      destruct (Nat.ltb_spec (stdpp.base.size (w_pending (window s))) (q_max_in_flight options));
        [injection Hroom as <-; lia|done].
    + pose proof (got_incoming ds s) as [Hi Hn]. shrink Hwf;
        first [rewrite E; simpl; lia|intros q d ds' Hg; by apply Hn in Hg].
    + by apply wf_hold.
    + destruct (take_spec q (window s)). shrink Hwf. rewrite E. simpl. lia.
  - destruct Hs as [s clock E|s r rs E|s E|s E|s p ch E Ec|s q r E|s ch E Ec|s E|s r rs E|s E];
      try (shrink Hwf; fail).
    + destruct (expired_spec (q_ack_timeout options) clock (window s)) as (? & ? & _). shrink Hwf.
    + destruct (position_seq p) as [q|]; [|by shrink Hwf]. destruct (take_spec q (window s)).
      destruct (fst (take q (window s))); shrink Hwf.
    + shrink Hwf. apply map_empty_subseteq.
  - destruct Hh as [s p E|s E|s E E'|s E E']; shrink Hwf.
Qed.

Lemma reachable_wf s : reach s -> wf s.
Proof. induction 1; [apply wf_initial|by eapply wf_step]. Qed.

(** ** Where every delivery is *)

Definition settled_receipt (u : upstream (jv := jv)) : jv :=
  match u with UAck _ r => r | URelease r => r end.

Definition receiver_holds (p : receiver (jv := jv)) : list jv :=
  match p with
  | RGot ds => receipt <$> ds
  | RReleasing ds => receipt <$> ds
  | RAcking ds => receipt <$> ds
  | ROffer ds => receipt <$> ds
  | RHeld _ _ ds => receipt <$> ds
  | RDropped d ds => receipt <$> d :: ds
  | _ => []
  end.

Definition settler_holds (p : settler (jv := jv)) : list jv :=
  match p with
  | SReleasing rs => rs
  | SReleaseHeld rs => rs
  | SAcking _ r => [r]
  | _ => []
  end.

(** Settled upstream, in the window, or in the hands of a thread. *)
Definition accounted s : list jv :=
  (settled_receipt <$> calls s) ++ held (window s) ++ receiver_holds (rpc s)
  ++ settler_holds (spc s).

Lemma got_holds ds s : receiver_holds (got event_source ds s) = receipt <$> ds.
Proof. unfold got. destruct ds; [done|]. by repeat case_match. Qed.

Lemma fresh_key s : wf s -> w_pending (window s) !! w_next_seq (window s) = None.
Proof.
  intros Hwf. destruct (w_pending (window s) !! _) as [v|] eqn:E; [|done].
  apply (wf_keys _ Hwf) in E. lia.
Qed.

Lemma NoDup_fst_unique {A B} (l : list (A * B)) k a b :
  NoDup l.*1 -> (k, a) ∈ l -> (k, b) ∈ l -> a = b.
Proof.
  intros Hnd (i & Hi)%list_elem_of_lookup (j & Hj)%list_elem_of_lookup.
  assert (i = j) as ->; [|congruence].
  apply (NoDup_lookup l.*1 i j k Hnd); rewrite list_lookup_fmap; [by rewrite Hi|by rewrite Hj].
Qed.

(** Every event offered so far could be handed to the host. *)
Definition deliverable s : Prop :=
  forall q d, (q, d) ∈ history s -> is_Some (payload to_string limit q d).

(** What the receiver just put into the window is still there. *)
Definition held_is_held s : Prop :=
  forall q d ds, rpc s = RHeld q d ds -> is_Some (w_pending (window s) !! q).

Ltac acct E := exists [], []; rewrite ?app_nil_r; unfold accounted; simpl; rewrite E; simpl;
  rewrite ?fmap_app; simpl; split_and!; try done; try solve_Permutation.

Lemma step_accounted s s' :
  wf s -> step s s' ->
  exists new extra, received s' = received s ++ new
    /\ accounted s' ≡ₚ accounted s ++ new ++ extra
    /\ (deliverable s \/ held_is_held s -> extra = []).
Proof.
  intros Hwf [Hr|Hs|Hh].
  - destruct Hr as [s E|s E|s E|s E|s E Es|s n E Es Hroom|s n ds E Hl|s n E|s ds E|s d ds E|s E
      |s d ds E|s E|s d ds at_ E Hlt|s E|s q d ds t E Ep|s q d ds E Ep|s d ds E];
      try (acct E; fail).
    + acct E. by destruct (stop s), (connected s).
    + exists (receipt <$> ds), []. unfold accounted. simpl. rewrite E, app_nil_r. simpl.
      split_and!; [done|solve_Permutation|done].
    + exists [], []. unfold accounted. simpl. rewrite got_holds, E, !app_nil_r. by split_and!.
    + exists [], []. unfold accounted. simpl. rewrite E, !app_nil_r. simpl.
      split_and!; [done| |done]. fold (hold (receipt d) at_ (window s)).
      change {| w_pending := _; w_next_seq := _ |} with (hold (receipt d) at_ (window s)).2.
      rewrite hold_held by (by apply fresh_key). solve_Permutation.
    + pose proof (take_held q (window s)) as Ht. destruct (take q (window s)) as [[r|] w] eqn:Et.
      * exists [], []. unfold accounted. simpl. rewrite E, !app_nil_r. simpl.
        assert (r = receipt d) as ->; [|split_and!; [done|rewrite Ht; solve_Permutation|done]].
        unfold take in Et. injection Et as Er _.
        apply fmap_Some in Er as ([r' t] & Hq & ->). destruct (wf_window _ Hwf _ _ _ Hq) as (d' & Hd' & ->).
        simpl. f_equal. eapply (NoDup_fst_unique (history s)); [apply Hwf|done|].
        eapply wf_held; [done|exact E].
      * exists [], [receipt d]. unfold accounted. simpl. rewrite E. simpl. subst w.
        split_and!; [by rewrite app_nil_r|solve_Permutation|].
        intros [H|H].
        { destruct (H q d) as [t Ht']; [by eapply wf_held|congruence]. }
        destruct (H q d ds E) as [v Hv]. unfold take in Et. rewrite Hv in Et. done.
  - destruct Hs as [s clock E|s r rs E|s E|s E|s p ch E Ec|s q r E|s ch E Ec|s E|s r rs E|s E];
      try (acct E; fail).
    + destruct (expired_spec (q_ack_timeout options) clock (window s)) as (_ & _ & Hp).
      acct E. rewrite Hp. solve_Permutation.
    + destruct (position_seq p) as [q|]; [|by acct E].
      pose proof (take_held q (window s)) as Ht. destruct (take q (window s)) as [[r|] w] eqn:Et.
      * acct E. rewrite Ht. solve_Permutation.
      * acct E. by subst w.
    + acct E. rewrite (take_all_held (window s)). unfold held, take_all. simpl.
      rewrite map_to_list_empty. simpl. solve_Permutation.
  - destruct Hh as [s p E|s E|s E E'|s E E']; exists [], []; rewrite !app_nil_r; by split_and!.
Qed.

(** ** Cancellation *)

Definition draining (p : settler (jv := jv)) : bool :=
  match p with SDrain | SReleaseHeld _ | SDone => true | _ => false end.
Definition drained (p : settler (jv := jv)) : bool :=
  match p with SReleaseHeld _ | SDone => true | _ => false end.

Record closing s : Prop := {
  cl_stop : SettleStop ∈ channel s \/ draining (spc s) = true -> rpc s = RDone;
  cl_join : cpc s = CJoinSettler \/ cpc s = CDone -> rpc s = RDone;
  cl_sent : SettleStop ∈ channel s \/ draining (spc s) = true ->
            cpc s = CJoinSettler \/ cpc s = CDone;
  cl_empty : drained (spc s) = true -> w_pending (window s) = ∅;
  cl_done : cpc s = CDone -> spc s = SDone;
  cl_flag : stop s = true <-> cpc s <> CIdle;
}.

Lemma closing_initial : closing initial.
Proof.
  split; simpl; try done; try (intros [H|H]; done).
  all: intros [H|H]; try done; by apply not_elem_of_nil in H.
Qed.

Lemma closing_receive s s' : closing s -> rstep options event_source to_string limit s s' -> closing s'.
Proof.
  intros [H1 H2 H3 H4 H5 H6] Hr.
  assert (Hnd : rpc s <> RDone) by (destruct Hr; congruence).
  assert (Hs : ~ (SettleStop ∈ channel s \/ draining (spc s) = true)) by (intros H; by apply Hnd, H1).
  assert (Hc : ~ (cpc s = CJoinSettler \/ cpc s = CDone)) by (intros H; by apply Hnd, H2).
  assert (Hdr : drained (spc s) = true -> False).
  { intros H. apply Hs. right. by destruct (spc s). }
  destruct Hr; split; simpl; try done; try (intros Hx; by destruct Hs); try (intros Hx; by destruct Hc).
Qed.

Lemma closing_settle s s' : closing s -> sstep options s s' -> closing s'.
Proof.
  intros [H1 H2 H3 H4 H5 H6] Hs.
  assert (Htail : forall x ch, channel s = x :: ch -> SettleStop ∈ ch -> SettleStop ∈ channel s)
    by (intros x ch -> H; by right).
  destruct Hs as [s clock E|s r rs E|s E|s E|s p ch E Ec|s q r E|s ch E Ec|s E|s r rs E|s E];
    rewrite E in *; simpl in *.
  all: try (split; simpl; try done; try (intros H; first [by apply H1|by apply H3|by apply H5 in H]);
    try (intros [H|H]; try done; first [apply H1|apply H3]; by left); fail).
  - assert (Hc : forall s0, channel s0 = ch -> cpc s0 = cpc s -> rpc s0 = rpc s -> stop s0 = stop s ->
      draining (spc s0) = false -> closing s0).
    { intros s0 Ech Ecp Erp Est Edr.
      assert (drained (spc s0) = false) by (by destruct (spc s0)).
      split; rewrite ?Ech, ?Ecp, ?Erp, ?Est, ?Edr; try done; try congruence.
      - intros [Hx|Hx]; [|done]. apply H1. left. eauto.
      - intros [Hx|Hx]; [|done]. apply H3. left. eauto.
      - intros Hx. by apply H5 in Hx. }
    destruct (position_seq p) as [q|]; [destruct (w_pending (window s) !! q)|]; by apply Hc.
  - assert (Hst : SettleStop ∈ channel s) by (rewrite Ec; left).
    split; simpl; try done; try (intros _; by (apply H1; left) || by (apply H3; left)).
    intros H. by apply H5 in H.
Qed.

Lemma closing_step s s' : closing s -> step s s' -> closing s'.
Proof.
  intros Hc [Hr|Hs|Hh]; [by eapply closing_receive|by eapply closing_settle|].
  destruct Hc as [H1 H2 H3 H4 H5 H6].
  assert (Hidle : cpc s = CIdle -> ~ (SettleStop ∈ channel s \/ draining (spc s) = true))
    by (intros E [Hx|Hx]%H3; congruence).
  destruct Hh as [s p E|s E|s E E'|s E E'].
  - assert (Hn : ~ (SettleStop ∈ channel s ++ [SettleAck p] \/ draining (spc s) = true)).
    { intros [[Hx|Hx%list_elem_of_singleton]%elem_of_app|Hx]; [|done|]; apply (Hidle E); auto. }
    split; simpl; try done; intros Hx; by destruct Hn.
  - specialize (Hidle E).
    split; simpl; try done; try (intros Hx; by destruct Hidle); by intros [Hx|Hx].
  - split; simpl; try done; try (intros _; by left). split; [done|]. intros _.
    apply H6. by rewrite E.
  - assert (Hr : rpc s = RDone) by (apply H2; by left).
    split; simpl; try done; try (intros _; by right). split; [done|]. intros _.
    apply H6. by rewrite E.
Qed.

Lemma reachable_closing s : reach s -> closing s.
Proof. induction 1; [apply closing_initial|by eapply closing_step]. Qed.
(** ** Where acknowledgements come from *)

(** The host acknowledged the event of sequence number [q], which carried
    the delivery of receipt [r]. *)
Definition from_host s (q : Z) (r : jv) : Prop :=
  exists d pos, (q, d) ∈ history s /\ r = receipt d
    /\ pos ∈ host_acks s /\ position_seq pos = Some q.

(** The delivery's event could not be handed to the host. *)
Definition undeliverable s (r : jv) : Prop :=
  exists q d, (q, d) ∈ history s /\ r = receipt d /\ payload to_string limit q d = None.

Record provenance s : Prop := {
  pv_sent : forall p, SettleAck p ∈ channel s -> p ∈ host_acks s;
  pv_acking : forall q r, spc s = SAcking q r -> from_host s q r;
  pv_acked : forall q r, UAck (Some q) r ∈ calls s -> from_host s q r;
  pv_bare : forall ds, rpc s = RAcking ds -> event_source = false;
  pv_dropped : forall d ds, rpc s = RDropped d ds -> undeliverable s (receipt d);
  pv_receiver : forall r, UAck None r ∈ calls s -> event_source = false \/ undeliverable s r;
}.

Definition grows s s' : Prop :=
  history s `prefix_of` history s' /\ host_acks s `prefix_of` host_acks s'.

Lemma from_host_grows s s' q r : grows s s' -> from_host s q r -> from_host s' q r.
Proof.
  intros [[h1 Hh] [h2 Ha]] (d & p & Hd & -> & Hp & Hq). exists d, p. rewrite Hh, Ha.
  split_and!; [apply elem_of_app; by left|done|apply elem_of_app; by left|done].
Qed.

Lemma undeliverable_grows s s' r : grows s s' -> undeliverable s r -> undeliverable s' r.
Proof.
  intros [[h1 Hh] _] (q & d & Hd & Hr & Hp). exists q, d. rewrite Hh.
  split_and!; [apply elem_of_app; by left|done|done].
Qed.

Lemma elem_of_snoc {A} (x y : A) l : x ∈ l ++ [y] <-> x ∈ l \/ x = y.
Proof. by rewrite elem_of_app, list_elem_of_singleton. Qed.

(** What a step may do, given what it adds to the calls. *)
Lemma provenance_frame s s' :
  provenance s -> grows s s' ->
  (forall p, SettleAck p ∈ channel s' -> SettleAck p ∈ channel s \/ p ∈ host_acks s') ->
  (forall q r, spc s' = SAcking q r -> spc s = SAcking q r \/ from_host s' q r) ->
  (forall ds, rpc s' = RAcking ds -> event_source = false) ->
  (forall d ds, rpc s' = RDropped d ds -> undeliverable s' (receipt d)) ->
  (forall q r, UAck q r ∈ calls s' -> UAck q r ∈ calls s
     \/ match q with Some q => from_host s' q r
        | None => event_source = false \/ undeliverable s' r end) ->
  provenance s'.
Proof.
  intros [H1 H2 H3 H4 H5 H6] Hg Hch Hsp Hra Hrd Hca. split; try done.
  - intros p [Hp|Hp]%Hch; [|done]. apply H1 in Hp. destruct Hg as [_ [k ->]].
    apply elem_of_app. by left.
  - intros q r [Hp|Hp]%Hsp; [|done]. eapply from_host_grows; [done|by apply H2].
  - intros q r [Hp|Hp]%Hca; [|done]. eapply from_host_grows; [done|by apply H3].
  - intros r [Hp|Hp]%Hca; [|done]. destruct (H6 r Hp); [by left|right].
    by eapply undeliverable_grows.
Qed.

Ltac grow := split; simpl; (done || apply prefix_app_r; done).
Ltac prov Hp E := eapply (provenance_frame _ _ Hp); [grow|..]; simpl; rewrite ?E; try done; try auto;
  try (intros ? ? [|]%elem_of_snoc; [by left|]; simplify_eq; auto).

Lemma provenance_step s s' : wf s -> provenance s -> step s s' -> provenance s'.
Proof.
  intros Hwf Hp [Hr|Hs|Hh].
  - destruct Hr as [s E|s E|s E|s E|s E Es|s n E Es Hroom|s n ds E Hl|s n E|s ds E|s d ds E|s E
      |s d ds E|s E|s d ds at_ E Hlt|s E|s q d ds t E Ep|s q d ds E Ep|s d ds E].
    all: try (prov Hp E; fail).
    + prov Hp E; by destruct (stop s), (connected s).
    + prov Hp E; unfold got; by repeat case_match.
    + prov Hp E; [intros ds' _; by eapply pv_bare|]. right. left. by eapply pv_bare.
    + prov Hp E; intros d' ds' [= <- _]; exists q, d;
        (split_and!; [exact (wf_held _ Hwf _ _ _ E)|done|done]).
    + prov Hp E. right. right. exact (pv_dropped _ Hp _ _ E).
  - destruct Hs as [s clock E|s r rs E|s E|s E|s p ch E Ec|s q r E|s ch E Ec|s E|s r rs E|s E].
    all: try (prov Hp E; try exact (pv_bare _ Hp); try exact (pv_dropped _ Hp); fail).
    + assert (Hin : p ∈ host_acks s) by (apply (pv_sent _ Hp); rewrite Ec; left).
      destruct (position_seq p) as [q|] eqn:Eq.
      * pose proof (take_held q (window s)) as Ht.
        destruct (w_pending (window s) !! q) as [[r t]|] eqn:Ew; unfold take in *; simpl in *; rewrite Ew in *.
        -- destruct (wf_window _ Hwf _ _ _ Ew) as (d & Hd & ->). simpl.
           prov Hp E; try exact (pv_bare _ Hp); try exact (pv_dropped _ Hp).
           ++ intros p' Hp'. left. rewrite Ec. by right.
           ++ intros q' r' [= <- <-]. right. by exists d, p.
        -- simpl. prov Hp E; try exact (pv_bare _ Hp); try exact (pv_dropped _ Hp).
           intros p' Hp'. left. rewrite Ec. by right.
      * prov Hp E; try exact (pv_bare _ Hp); try exact (pv_dropped _ Hp).
        intros p' Hp'. left. rewrite Ec. by right.
    + prov Hp E; try exact (pv_bare _ Hp); try exact (pv_dropped _ Hp).
      right. exact (pv_acking _ Hp _ _ E).
    + prov Hp E; try exact (pv_bare _ Hp); try exact (pv_dropped _ Hp).
      intros p' Hp'. left. rewrite Ec. by right.
  - destruct Hh as [s p E|s E|s E E'|s E E']; prov Hp E;
      try exact (pv_bare _ Hp); try exact (pv_dropped _ Hp).
    + intros p' [Hp'|[= ->]]%elem_of_snoc; [by left|right]. apply elem_of_snoc. by right.
    + intros p' [Hp'|?]%elem_of_snoc; [by left|done].
Qed.
Lemma reachable_provenance s : reach s -> provenance s.
Proof.
  induction 1 as [|s s' Hr IH Hs].
  - split; simpl; try done; intros; by match goal with H : _ ∈ [] |- _ => apply not_elem_of_nil in H end.
  - eapply provenance_step; [by apply reachable_wf|done|done].
Qed.

(** ** The end of the receiving thread *)

(** The steps it may still take once stopped. *)
Definition steps_left (p : receiver (jv := jv)) : nat :=
  match p with
  | RDone => 0
  | RLoop => 1
  | RRoom => 1
  | RPause => 2
  | RConnect => 3
  | RReceive n => 3 * n + 4
  | RGot ds => 3 * length ds + 3
  | ROffer ds => 3 * length ds + 2
  | RHeld _ _ ds => 3 * length ds + 4
  | RDropped _ ds => 3 * length ds + 3
  | RAcking ds => length ds + 2
  | RReleasing ds => length ds + 1
  end.

Lemma steps_left_decrease s s' :
  stop s = true -> rstep options event_source to_string limit s s' ->
  (steps_left (rpc s') < steps_left (rpc s))%nat /\ stop s' = true.
Proof.
  intros Hst Hr.
  destruct Hr as [s E|s E|s E|s E|s E Es|s n E Es Hroom|s n ds E Hl|s n E|s ds E|s d ds E|s E
    |s d ds E|s E|s d ds at_ E Hlt|s E|s q d ds t E Ep|s q d ds E Ep|s d ds E];
    rewrite E; simpl; (split; [|done]); try lia; try congruence.
  - rewrite Hst. simpl. lia.
  - unfold got. rewrite Hst. destruct ds; simpl; lia.
Qed.

Lemma receiver_progress s :
  stop s = true -> w_next_seq (window s) < u64_max -> rpc s <> RDone ->
  exists s', rstep options event_source to_string limit s s'.
Proof.
  intros Hst Hn Hd. destruct (rpc s) as [| | | |n|ds|[|d ds]|[|d ds]|[|d ds]|q d ds|d ds|] eqn:E;
    [..|done].
  - eexists. by apply r_loop.
  - eexists. by apply r_connected.
  - eexists. by apply r_pause.
  - eexists. by apply r_room_stopped.
  - eexists. by eapply r_receive_failed.
  - eexists. by eapply r_got.
  - eexists. by apply r_released.
  - eexists. by eapply r_release.
  - eexists. by apply r_acked.
  - eexists. by eapply r_ack.
  - eexists. by apply r_offered.
  - eexists. by apply (r_hold _ _ _ _ s d ds 0).
  - destruct (payload to_string limit q d) eqn:Ep; eexists; [by eapply r_emit|by eapply r_drop].
  - eexists. by eapply r_drop_ack.
Qed.

Lemma others_keep_receiver s s' :
  sstep options s s' \/ hstep s s' -> rpc s' = rpc s.
Proof. intros [H|H]; destruct H; try done. by repeat case_match. Qed.

Lemma step_history s s' : step s s' -> history s `prefix_of` history s'.
Proof.
  intros [H|H|H]; destruct H; try done; simpl; try (by apply prefix_app_r). by repeat case_match.
Qed.

Lemma accounted_run s :
  reach s -> exists extra, accounted s ≡ₚ received s ++ extra /\ (deliverable s -> extra = []).
Proof.
  induction 1 as [|s s' Hr (extra & IH & Hx) Hs].
  - exists []. split; [done|done].
  - destruct (step_accounted s s' (reachable_wf s Hr) Hs) as (new & extra' & Hn & Ha & He).
    exists (extra ++ extra'). split.
    + rewrite Ha, Hn, IH. solve_Permutation.
    + intros H. assert (deliverable s) as Hd.
      { intros q d Hq. apply H. destruct (step_history s s' Hs) as [h ->]. apply elem_of_app. by left. }
      rewrite (Hx Hd), He; auto.
Qed.

Lemma ended_accounted s : reach s -> cpc s = CDone -> accounted s = settled_receipt <$> calls s.
Proof.
  intros Hr Hc. destruct (reachable_closing s Hr) as [_ H2 _ H4 H5 _].
  specialize (H5 Hc). unfold accounted. rewrite H2 by (by right). rewrite H5 in *. simpl.
  unfold held. rewrite H4 by done. rewrite map_to_list_empty. simpl. by rewrite app_nil_r.
Qed.

(** An ack of the receiver's own is of an event that could not be handed over. *)
Lemma acked_bare s r : event_source = true -> reach s -> UAck None r ∈ calls s -> undeliverable s r.
Proof.
  intros He Hr Hin. destruct (pv_receiver _ (reachable_provenance s Hr) r Hin); [congruence|done].
Qed.

(** ** Properties *)

(** C10. The window is bounded: in every run, whatever the interleaving of the
    two threads and the host, at most [max_in_flight] deliveries are held, the
    sequence numbers used are distinct, and the backoff stays within its two
    bounds. *)
Theorem window_bounded s :
  reach s ->
  (stdpp.base.size (w_pending (window s)) <= q_max_in_flight options)%nat
  /\ NoDup (history s).*1 /\ FIRST_BACKOFF <= backoff s <= MAX_BACKOFF.
Proof.
  intros Hr. destruct (reachable_wf s Hr) as [Hb _ _ Hroom _ [Hnd _] _].
  split; [lia|done].
Qed.

(** C1. No message is lost: in every run each delivery received is settled
    upstream, held in the window, or in the hands of a thread about to settle
    it; so once a cancel has returned every delivery was acked or released. *)
Theorem no_delivery_lost s :
  reach s ->
  received s ⊆+ accounted s
  /\ (cpc s = CDone -> received s ⊆+ settled_receipt <$> calls s).
Proof.
  intros Hr. destruct (accounted_run s Hr) as (extra & Ha & _). split.
  - rewrite Ha. by apply submseteq_inserts_r.
  - intros Hc. rewrite <- (ended_accounted s Hr Hc), Ha. by apply submseteq_inserts_r.
Qed.

(** No message is settled twice, when every event offered in the run could be
    handed to the host: the deliveries received are exactly those settled, held and in hand, so after
    a cancel each was settled exactly once. *)
Theorem settled_exactly_once s :
  deliverable s -> reach s ->
  received s ≡ₚ accounted s
  /\ (cpc s = CDone -> received s ≡ₚ settled_receipt <$> calls s).
Proof.
  intros Hp Hr. destruct (accounted_run s Hr) as (extra & Ha & Hx).
  rewrite (Hx Hp), app_nil_r in Ha. split; [by symmetry|].
  intros Hc. by rewrite <- (ended_accounted s Hr Hc).
Qed.

(** C4. A message is removed upstream only once the host has stored it: for
    an event source, every ack names a delivery whose event the host
    acknowledged, by the sequence number that delivery alone had, or one
    whose event could not be handed over at all. *)
Theorem acked_after_host s q r :
  event_source = true -> reach s -> UAck q r ∈ calls s ->
  match q with
  | Some q => from_host s q r
  | None => undeliverable s r
  end.
Proof.
  intros He Hr Hin. destruct q as [q|]; [|by apply acked_bare].
  by apply (pv_acked _ (reachable_provenance s Hr)).
Qed.

(** A stopped watch stops receiving: from any reachable state after the
    cancel, the receiving thread can always take a step until it has ended,
    each step of its own brings it closer, and no other thread sets it back;
    it takes at most three steps for each delivery of a full window and four. *)
Theorem receiver_stops s :
  reach s -> stop s = true -> w_next_seq (window s) < u64_max ->
  (steps_left (rpc s) <= 3 * q_max_in_flight options + 4)%nat
  /\ (rpc s <> RDone -> exists s', rstep options event_source to_string limit s s')
  /\ (forall s', step s s' ->
      (rpc s' = rpc s \/ (steps_left (rpc s') < steps_left (rpc s))%nat) /\ stop s' = true).
Proof.
  intros Hr Hst Hn. split_and!.
  - pose proof (wf_room _ (reachable_wf s Hr)). destruct (rpc s); simpl in *; lia.
  - by apply receiver_progress.
  - intros s' [H|H|H].
    + destruct (steps_left_decrease s s' Hst H). split; [by right|done].
    + split; [left; apply others_keep_receiver; by left|]. destruct H; try done.
      by repeat case_match.
    + split; [left; apply others_keep_receiver; by right|]. by destruct H.
Qed.
End Facts.

(** The settling thread releases exactly what is late: after [expired], a
    delivery is in the window if and only if it was and had not waited out
    [ack_timeout], and the receipts handed back are those of the others. *)
Theorem expired_exact {jv} timeout clock (w : Window jv) :
  (forall k r t, w_pending (expired timeout clock w).2 !! k = Some (r, t) <->
     w_pending w !! k = Some (r, t) /\ saturating_since (clock k) t < timeout)
  /\ held w ≡ₚ (expired timeout clock w).1 ++ held (expired timeout clock w).2.
Proof.
  destruct (expired_spec timeout clock w) as (_ & Hsub & Hp). split; [|exact Hp].
  intros k r t. unfold expired in *.
  pose proof (remove_all_held (late timeout clock w) w) as Hr.
  destruct (decide (k ∈ late timeout clock w)) as [Hin|Hn].
  - destruct (remove_all _ w) as [rs w'] eqn:E. destruct Hr as (_ & _ & _ & Hk). simpl.
    rewrite Hk by done. split; [done|]. intros [Hw Hlt].
    apply elem_late in Hin as (r' & t' & Hw' & Hle). rewrite Hw in Hw'. simplify_eq. lia.
  - rewrite remove_all_other by done. split; [|by intros [? _]]. intros Hw. split; [done|].
    destruct (Z.lt_ge_cases (saturating_since (clock k) t) timeout); [done|].
    destruct Hn. apply elem_late. by exists r, t.
Qed.

(** The position the host acknowledges is the one the event carried: the
    sequence number read back from a delivery's cursor takes that delivery out
    of the window, and a position the watch did not write, or one settled
    before, takes nothing. *)
Theorem cursor_takes {jv} `{JL : JsonLaws jv} r at_ (w : Window jv) :
  0 <= w_next_seq w <= u64_max -> w_pending w !! w_next_seq w = None ->
  let '(seq, w') := hold r at_ w in
  position_seq (queue_cursor seq) = Some seq
  /\ (take seq w').1 = Some r
  /\ w_pending (take seq w').2 = w_pending w
  /\ (take seq (take seq w').2).1 = None.
Proof.
  intros Hn Hf. unfold hold, take. cbn [w_pending fst snd].
  rewrite position_of_cursor, lookup_insert_eq, delete_insert_id by done. split_and!; try done.
  by rewrite Hf.
Qed.

(** ** Witnesses *)

Import Tree.

Module Example1.
Definition opts : QueueOptions :=
  {| q_source := "amqp:q"; q_max_in_flight := 2; q_ack_timeout := secs 60; receive_wait := secs 1 |}.
Definition msg : Delivery jtree := {| dl_event := default_event; receipt := TStr "tag-1" |}.
Definition ok_text (_ : WatchEvent jtree) : result string string := Ok "{}"%string.
Definition bad_text (_ : WatchEvent jtree) : result string string := Err "no"%string.


(** One message received, offered, then a cancel before the host's
    acknowledgement. *)
Definition run : list (input (jv := jtree)) :=
  [IReceive; IReceive; IReceive; IDeliver [msg]; IReceive; IHoldAt 0; IReceive; IReceive;
   ICancel; IReceive; ICancel; IExpire (fun _ => 0); ISettle; ISettle; ISettle; ISettle;
   ISettle; ICancel].
Definition ended : qstate :=
  default initial (schedule opts true ok_text 1000 run initial).

(** The host's acknowledgement arrives in time. *)
Definition acked_run : list (input (jv := jtree)) :=
  [IReceive; IReceive; IReceive; IDeliver [msg]; IReceive; IHoldAt 0; IReceive;
   IHostAck (queue_cursor 0); IExpire (fun _ => 0); ISettle; ISettle; ISettle].
Definition acked : qstate :=
  default initial (schedule opts true ok_text 1000 acked_run initial).

(** An event that cannot be handed over, expired before it is dropped. *)
Definition race_run : list (input (jv := jtree)) :=
  [IReceive; IReceive; IReceive; IDeliver [msg]; IReceive; IHoldAt 0;
   IExpire (fun _ => secs 60); ISettle; IReceive; IReceive].
Definition raced : qstate :=
  default initial (schedule opts true bad_text 1000 race_run initial).

Lemma ended_reachable : reachable opts true ok_text 1000 ended.
Proof. apply (schedule_reachable _ _ _ _ run). vm_compute. reflexivity. Qed.
Lemma acked_reachable : reachable opts true ok_text 1000 acked.
Proof. apply (schedule_reachable _ _ _ _ acked_run). vm_compute. reflexivity. Qed.
Lemma raced_reachable : reachable opts true bad_text 1000 raced.
Proof. apply (schedule_reachable _ _ _ _ race_run). vm_compute. reflexivity. Qed.

(** A delivery that expires between the hold and the drop of an event the
    host cannot take is both released and acked upstream. *)
Lemma raced_twice : calls raced = [URelease (TStr "tag-1"); UAck None (TStr "tag-1")].
Proof. vm_compute. reflexivity. Qed.
End Example1.

Import Example1.

Lemma window_bounded_witness : (stdpp.base.size (w_pending (window acked)) <= 2)%nat.
Proof. apply (window_bounded opts true ok_text 1000 acked acked_reachable). Defined.

Lemma no_delivery_lost_witness :
  received raced = [TStr "tag-1"] /\ received raced ⊆+ accounted raced.
Proof.
  split; [vm_compute; reflexivity|].
  exact (proj1 (no_delivery_lost opts true bad_text 1000 raced raced_reachable)).
Defined.

Lemma settled_exactly_once_witness :
  received ended ≡ₚ settled_receipt <$> calls ended /\ calls ended = [URelease (TStr "tag-1")].
Proof.
  split; [|vm_compute; reflexivity].
  refine (proj2 (settled_exactly_once opts true ok_text 1000 ended _ ended_reachable) _);
    [intros q d; by exists "{}"%string|vm_compute; reflexivity].
Defined.

Lemma acked_after_host_witness : from_host acked 0 (TStr "tag-1").
Proof.
  apply (acked_after_host opts true ok_text 1000 acked (Some 0) (TStr "tag-1"));
    [reflexivity|exact acked_reachable|].
  assert (E : calls acked = [UAck (Some 0) (TStr "tag-1")]) by (vm_compute; reflexivity).
  rewrite E. left.
Defined.

Lemma receiver_stops_witness :
  stop ended = true /\ (steps_left (rpc ended) <= 10)%nat.
Proof.
  split; [vm_compute; reflexivity|].
  apply (receiver_stops opts true ok_text 1000 ended ended_reachable); vm_compute; reflexivity.
Defined.

Lemma cursor_takes_witness :
  (take 0 (hold (TStr "tag-1") 0 {| w_pending := ∅; w_next_seq := 0 |}).2).1 = Some (TStr "tag-1").
Proof.
  apply (cursor_takes (TStr "tag-1") 0 {| w_pending := ∅; w_next_seq := 0 |});
    [vm_compute; split; discriminate|reflexivity].
Defined.
