(* ===== verification/Spawn.v ===== *)
(** * Starting the threads of a watch, which may fail

    [std::thread::Builder::spawn] answers an error when the system has no
    thread to give. A polling watch panics then (src/src/watch.rs), an inventory
    watch refuses (src/src/inventory.rs), and a queue watch (src/src/queue.rs)
    refuses too, but its two threads start one after the other, and the first is
    running when the second fails. *)

From Stdlib Require Import Ascii String.
From S2P Require Import Prelude Json Ffi Watch Inventory InventoryWatch Queue QueueFacts.

(** What the system answers to a spawn, with its message. *)
Definition thread_start : Type := result unit string.

(** ** Polling and inventory watches *)

(** The spawn of [spawn_diffing_watch]: the watch it starts, or its panic. *)
Definition start_diffing_watch {A} (thread : thread_start) (watch : A) : outcome A :=
  match thread with Ok _ => Returned watch | Err _ => Panicked end.

Section InventoryStart.
Context {jv : Type} `{J : Json jv} {D : Type}.
Variable serde_error : jv -> string.

(** The end of [spawn_inventory_watch_hooked]: the handle's inventory only once
    its thread runs. *)
Definition start_inventory_watch (thread : thread_start) (o : InventoryOptions) (resume : option jv)
    (hooks : InventoryHooks (Describe (jv := jv) (D := D))) : result (Inventory (jv := jv) (D := D)) WatchError :=
  let? i := spawn_inventory_watch_hooked serde_error o resume hooks in
  match thread with
  | Ok _ => Ok i
  | Err e => Err (Subscribe ("inventory watch: cannot start its thread: " ++ e))
  end.
End InventoryStart.

(** ** Queue watches *)

Section QueueStart.
Context {jv : Type} `{JL : JsonLaws jv}.
Variable options : QueueOptions.
Variable event_source : bool.
Variable to_string : WatchEvent jv -> result string string.
Variable limit : Z.

(** No watch; an error with the receiving thread left running; or a watch. *)
Inductive queue_start :=
| NotStarted (e : WatchError)
| Orphaned (s : qstate (jv := jv)) (e : WatchError)
| Started (s : qstate (jv := jv)).

(** [spawn_queue_watch], its two spawns included. *)
Definition start_queue_watch (receiving settling : thread_start) : queue_start :=
  let failed e := Subscribe ("queue watch: cannot start its thread: " ++ e) in
  match spawn_queue_watch options with
  | Err e => NotStarted e
  | Ok s =>
      match receiving with
      | Err e => NotStarted (failed e)
      | Ok _ => match settling with Err e => Orphaned s (failed e) | Ok _ => Started s end
      end
  end.

(** What the caller gets. *)
Definition start_answer (q : queue_start) : result unit WatchError :=
  match q with NotStarted e | Orphaned _ e => Err e | Started _ => Ok tt end.

Abbreviation rstep := (rstep options event_source to_string limit).
Abbreviation reach := (reachable options event_source to_string limit).

Lemma receiving_reachable s : rtc rstep initial s -> reach s.
Proof.
  intros H. remember initial as s0 eqn:E. assert (H0 : reach s0) by (subst; apply reach_initial). clear E.
  induction H as [|s s' s'' Hs _ IH]; [done|]. apply IH. eapply reach_step; [done|by apply q_receive].
Qed.

(** ** The receiver left alone *)

(** Where an orphan may be. *)
Definition orphan_at (p : receiver (jv := jv)) : Prop :=
  match p with RDone | RReleasing _ => False | _ => True end.

(** Nobody told it to stop; what it puts into the window stays there, and what
    it settles it acks itself. *)
Record orphan (s : qstate (jv := jv)) : Prop := {
  or_stop : stop s = false;
  or_at : orphan_at (rpc s);
  or_settler : spc s = SExpire;
  or_held : held_is_held s;
  or_calls u : u ∈ calls s -> exists r, u = UAck None r;
  or_accounted : accounted s ≡ₚ received s;
}.

Lemma orphan_initial : orphan initial.
Proof. split; try done. intros u Hu. by apply not_elem_of_nil in Hu. Qed.

Lemma orphan_step s s' : reach s -> orphan s -> rstep s s' -> orphan s'.
Proof.
  intros Hwf [Hst Ha Hsp Hh Hc Hacc] Hs.
  assert (accounted s' ≡ₚ received s') as Hacc'.
  { destruct (step_accounted options event_source to_string limit s s') as (new & extra & Hn & Hx & He);
      [by eapply reachable_wf|by apply q_receive|].
    rewrite Hn, Hx, He, Hacc by (by right). by rewrite app_nil_r. }
  assert (stop s' = false /\ spc s' = SExpire) as [Hst' Hsp'] by (by destruct Hs).
  split; try done; clear Hacc Hacc'.
  - destruct Hs as [s Hp|s Hp|s Hp|s Hp|s Hp Hx|s n Hp Hx Hroom|s n ds Hp Hn|s n Hp|s ds Hp|s d ds Hp|s Hp
      |s d ds Hp|s Hp|s d ds at_ Hp Hn|s Hp|s q d ds t Hp Ht|s q d ds Hp Ht|s d ds Hp];
      simpl in *; rewrite ?Hp in Ha; simpl in *; try done; try congruence.
    + rewrite Hst. by destruct (connected s).
    + unfold got. rewrite Hst. destruct ds; [done|]. by destruct event_source.
  - intros q d ds E. destruct Hs as [s Hp|s Hp|s Hp|s Hp|s Hp Hx|s n Hp Hx Hroom|s n ds' Hp Hn|s n Hp
      |s ds' Hp|s d' ds' Hp|s Hp|s d' ds' Hp|s Hp|s d' ds' at_ Hp Hn|s Hp|s q' d' ds' t Hp Ht
      |s q' d' ds' Hp Ht|s d' ds' Hp]; simpl in E; try done.
    + by repeat case_match.
    + unfold got in E. by repeat case_match.
    + injection E as <- <- <-. simpl. rewrite lookup_insert_eq. by eexists.
  - intros u Hu. destruct Hs; simpl in Hu; try (by apply Hc).
    + exfalso. match goal with H : rpc _ = _ |- _ => by rewrite H in Ha end.
    + apply elem_of_snoc in Hu as [Hu | ->]; [by apply Hc|by eexists].
    + apply elem_of_snoc in Hu as [Hu | ->]; [by apply Hc|by eexists].
Qed.

Lemma orphan_run s : rtc rstep initial s -> orphan s.
Proof.
  intros H. remember initial as s0 eqn:E.
  assert (H0 : reach s0 /\ orphan s0) by (subst; split; [apply reach_initial|apply orphan_initial]). clear E.
  induction H as [s|s s' s'' Hs _ IH]; [by apply H0|]. destruct H0 as [Hr Ho]. apply IH. split.
  - eapply reach_step; [done|by apply q_receive].
  - by eapply orphan_step.
Qed.

(** It can always go on, but for a full window, where it waits for ever. *)
Definition stuck_full (s : qstate (jv := jv)) : Prop := rpc s = RRoom /\ room options (window s) = None.

Lemma orphan_goes_on s : orphan s -> w_next_seq (window s) < u64_max ->
  stuck_full s \/ exists s', rstep s s'.
Proof.
  intros [Hst Ha _ _ _ _] Hn. destruct (rpc s) as [| | | |n|ds|[|d ds]|[|d ds]|[|d ds]|q d ds|d ds|] eqn:Hp;
    simpl in Ha; try done.
  4: { destruct (room options (window s)) as [n|] eqn:Hr; [|by left]. right. eexists. by apply (r_room _ _ _ _ s n). }
  10: { right. destruct (payload to_string limit q d) as [t|] eqn:Hpl; eexists; [by eapply r_emit|by eapply r_drop]. }
  all: right; eexists.
  - by apply r_loop.
  - by apply r_connected.
  - by apply r_pause.
  - by apply (r_receive_failed _ _ _ _ s n).
  - by eapply r_got.
  - by eapply r_acked.
  - by eapply r_ack.
  - by eapply r_offered.
  - by eapply (r_hold _ _ _ _ s d ds 0).
  - by eapply r_drop_ack.
Qed.

Lemma stuck_stays s s' : stuck_full s -> stop s = false -> ~ rstep s s'.
Proof.
  intros [Hp Hr] Hst Hs. destruct Hs; congruence.
Qed.

(** ** It fills its window and waits *)

(** The first [n] sequence numbers leave room for the delivery's event. *)
Definition fits_window (n : nat) (d : Delivery jv) : Prop :=
  forall q, 0 <= q < Z.of_nat n -> is_Some (payload to_string limit q d).

Lemma offers n d k s :
  rpc s = ROffer (replicate k d) -> fits_window n d ->
  (forall q v, w_pending (window s) !! q = Some v -> q < w_next_seq (window s)) ->
  0 <= w_next_seq (window s) -> w_next_seq (window s) + Z.of_nat k <= Z.of_nat n -> Z.of_nat n < u64_max ->
  exists s', rtc rstep s s' /\ rpc s' = ROffer [] /\ stop s' = stop s /\ connected s' = connected s
    /\ stdpp.base.size (w_pending (window s')) = (stdpp.base.size (w_pending (window s)) + k)%nat.
Proof.
  revert s. induction k as [|k IH]; intros s Hp Hd Hk H0 Hn Hm; simpl in Hp.
  { exists s. split_and!; [apply rtc_refl|done..|lia]. }
  set (s1 := set_rpc (RHeld (w_next_seq (window s)) d (replicate k d)) (hold_in d 0 s)).
  destruct (Hd (w_next_seq (window s))) as [t Ht]; [lia|].
  set (s2 := set_rpc (ROffer (replicate k d)) (emit t s1)).
  assert (Hnext : as_u64 (w_next_seq (window s) + 1) = w_next_seq (window s) + 1).
  { unfold as_u64. apply Z.mod_small. unfold u64_max in Hm. lia. }
  assert (Hfresh : w_pending (window s) !! w_next_seq (window s) = None).
  { destruct (w_pending (window s) !! w_next_seq (window s)) as [v|] eqn:Hv; [|done]. apply Hk in Hv. lia. }
  assert (Hp2 : w_pending (window s2) = <[w_next_seq (window s) := (receipt d, 0)]> (w_pending (window s))) by done.
  assert (Hn2 : w_next_seq (window s2) = w_next_seq (window s) + 1) by exact Hnext.
  destruct (IH s2) as (s' & Hrun & Hr & Hst & Hcn & Hsz); [done|done| |lia|lia|lia|].
  - intros q v. rewrite Hp2, Hn2, lookup_insert_Some. intros [[<- _]|[_ Hv]]; [lia|]. apply Hk in Hv. lia.
  - exists s'. split_and!; [|done|done|done|].
    + eapply rtc_l; [by eapply (r_hold _ _ _ _ s d (replicate k d) 0); [|lia]|]. fold s1.
      eapply rtc_l; [|exact Hrun]. by eapply (r_emit _ _ _ _ s1).
    + rewrite Hsz, Hp2, map_size_insert_None by done. lia.
Qed.

Lemma fills (d : Delivery jv) : queue_validate options = Ok tt -> event_source = true ->
  fits_window (q_max_in_flight options) d ->
  exists s, rtc rstep initial s /\ stdpp.base.size (w_pending (window s)) = q_max_in_flight options
            /\ stuck_full s /\ stop s = false.
Proof.
  intros Hv Hes Hall. assert (Hm : (1 <= q_max_in_flight options <= 1000)%nat).
  { unfold queue_validate in Hv. destruct (1 <=? q_max_in_flight options)%nat eqn:H1, (q_max_in_flight options <=? 1000)%nat eqn:H2;
      try done. apply Nat.leb_le in H1, H2. lia. }
  set (n := q_max_in_flight options) in *. set (ds := replicate n d).
  set (s1 := set_rpc RRoom (set_link true FIRST_BACKOFF (set_rpc RConnect initial)) : qstate (jv := jv)).
  set (s2 := set_rpc (RGot ds) (deliver_in ds (set_rpc (RReceive n) s1))).
  set (s3 := set_rpc (ROffer ds) s2).
  assert (Hlen : length ds = n) by apply length_replicate.
  destruct (offers n d n s3) as (s4 & Hrun & Hr & Hst & Hcn & Hsz).
  { done. } { done. } { intros q v Hk. simpl in Hk. by rewrite lookup_empty in Hk. } { simpl. lia. }
  { simpl. lia. } { unfold u64_max. lia. }
  assert (Hs4 : connected s4 = true /\ stop s4 = false /\ stdpp.base.size (w_pending (window s4)) = n).
  { rewrite Hst, Hcn, Hsz. split_and!; [done|done|]. simpl. rewrite map_size_empty. lia. }
  destruct Hs4 as (H4c & H4s & H4w).
  exists (set_rpc RRoom (set_rpc RLoop s4)). split_and!.
  - eapply rtc_l; [by apply r_loop|]. simpl.
    eapply rtc_l; [by apply r_connected|]. fold s1.
    eapply rtc_l; [apply (r_room _ _ _ _ s1 n); [done|done|]|].
    { unfold room. simpl. rewrite map_size_empty. fold n. destruct (Nat.ltb_spec 0 n); [f_equal; lia|lia]. }
    eapply rtc_l; [by apply (r_received _ _ _ _ _ n ds); [|rewrite Hlen]|]. fold s2.
    eapply rtc_l; [by apply r_got|].
    assert (set_rpc (got event_source ds s2) s2 = s3) as ->.
    { unfold s3, got. rewrite Hes. unfold ds. destruct n; [lia|]. done. }
    etransitivity; [exact Hrun|].
    eapply rtc_l; [by apply r_offered|]. eapply rtc_l; [by apply r_loop|]. simpl. rewrite H4s, H4c. apply rtc_refl.
  - done.
  - split; [done|]. unfold room. simpl. rewrite H4w. fold n. by rewrite Nat.ltb_irrefl.
  - done.
Qed.

(** C21. A queue watch of an event source whose second thread does not start
    answers an error and no handle, but its first thread goes on for ever:
    nobody can stop it, and of what it took it settles nothing but the
    deliveries whose event cannot be handed to the host, which it acks away.
    Every other one stays in the window, and messages that can be handed over
    under the sequence numbers of a first window fill it, after which the
    thread waits for room that never comes. *)
Theorem orphaned_receiver e :
  queue_validate options = Ok tt -> event_source = true ->
  (exists m, start_queue_watch (Ok tt) (Err e) = Orphaned initial (Subscribe m))
  /\ (forall s, rtc rstep initial s ->
        rpc s <> RDone /\ stop s = false
        /\ received s ≡ₚ (settled_receipt <$> calls s) ++ held (window s) ++ receiver_holds (rpc s)
        /\ (forall u, u ∈ calls s -> exists r, u = UAck None r /\ undeliverable to_string limit s r)
        /\ (w_next_seq (window s) < u64_max -> stuck_full s \/ exists s', rstep s s'))
  /\ forall d : Delivery jv, fits_window (q_max_in_flight options) d ->
       exists s, rtc rstep initial s
         /\ stdpp.base.size (w_pending (window s)) = q_max_in_flight options
         /\ forall s', ~ rstep s s'.
Proof.
  intros Hv Hes. split_and!.
  - eexists. unfold start_queue_watch, spawn_queue_watch. by rewrite Hv.
  - intros s Hr. pose proof (orphan_run s Hr) as Ho. pose proof Ho as [Hst Ha Hsp Hh Hc Hacc].
    split_and!; [by intros Hd; rewrite Hd in Ha|done| | |intros Hn; by apply orphan_goes_on].
    + rewrite <- Hacc. unfold accounted. by rewrite Hsp, !app_nil_r.
    + intros u Hu. destruct (Hc u Hu) as [r ->]. exists r. split; [done|].
      apply (acked_bare options event_source to_string limit s r Hes (receiving_reachable s Hr) Hu).
  - intros d Hd. destruct (fills d Hv Hes Hd) as (s & Hr & Hsz & Hfull & Hst). exists s.
    split_and!; [done|done|]. intros s'. by apply stuck_stays.
Qed.
End QueueStart.

(** ** Witness *)

Module Sample.
Import Tree Example1.

(** The event printed as JSON, its position included. *)
Definition json_text (e : WatchEvent jtree) : result string string :=
  Ok (j_print (j_obj {["event_id" := default j_null (j_str <$> event_id e); "data" := default j_null (ev_data e);
                       "upstream_cursor" := default j_null (upstream_cursor e)]}%string : jtree)).

(** A message that is handed over, and one the host's limit refuses. *)
Definition small : Delivery jtree := {| dl_event := default_event; receipt := TStr "tag-1" |}.
Definition large : Delivery jtree :=
  {| dl_event := {| event_id := Some "big"%string; event_type := None; occurred_at := None;
                    ev_data := Some (TArr (replicate 200 (TNum 7))); upstream_cursor := None; ev_gap := false |};
     receipt := TStr "tag-2" |}.

Lemma large_refused : payload json_text 1000 0 large = None.
Proof. vm_compute. reflexivity. Qed.

Lemma orphaned_receiver_witness :
  exists s, rtc (rstep opts true json_text 1000) initial s
    /\ stdpp.base.size (w_pending (window s)) = 2%nat
    /\ forall s', ~ rstep opts true json_text 1000 s s'.
Proof.
  apply (proj2 (proj2 (orphaned_receiver opts true json_text 1000 "no thread" eq_refl eq_refl)) small).
  intros q Hq. simpl in Hq. assert (q = 0 \/ q = 1) as [-> | ->] by lia; eexists; vm_compute; reflexivity.
Defined.
End Sample.
