(* ===== verification/ClusterBackend.v ===== *)
(** * The cluster backend contract (src/src/ffi.rs, [SyncClusterBackend])

    A plugin method is a [comp] over the plugin's state. mcpg_cluster_api's
    types are a class; the default methods of the trait and [collect_pages]
    are definitions over the record of the others. *)

From Stdlib Require Import Ascii String.
From S2P Require Export Ffi.
From S2P Require Import Prelude Json.

(** ** mcpg_cluster_api *)

Class ClusterApi (jv : Type) := {
  ClusterError : Type;
  ce_internal : string -> ClusterError;
  ce_invalid_reference : string -> ClusterError;
  ce_unsupported : string -> ClusterError;
  ce_lease_expired : ClusterError;
  ce_to_value : ClusterError -> jv;
  ce_from_value : jv -> option ClusterError;
  ClusterNodeInfo : Type;
  empty_node_info : ClusterNodeInfo;
  node_info_to_value : ClusterNodeInfo -> jv;
  node_info_from_value : jv -> option ClusterNodeInfo;
  ClusterPeer : Type;
  peers_to_value : list ClusterPeer -> jv;
  peers_from_value : jv -> option (list ClusterPeer);
  PublishedMessage : Type;
  message_from_value : jv -> option PublishedMessage;
  PeerEvent : Type;
  peer_event_from_value : jv -> option PeerEvent;
  Entry : Type;
  (** [KvEntryWire::from_entry], serialised. *)
  entry_wire : Entry -> bool -> jv;
  (** [KvPageWire::from_page] and [KvListEntryWire], serialised; an [i64]. *)
  page_wire : list (string * Entry) -> option string -> bool -> jv;
  list_entry_wire : string -> jv -> jv;
  i64_value : Z -> jv;
  (** The arguments of the key-value slots, as far as the slots read them, and
      their deserialisation. *)
  KvKeyArgs : Type;
  key_args : jv -> option KvKeyArgs;
  ka_store : KvKeyArgs -> option string;
  ka_key : KvKeyArgs -> string;
  ka_base64 : KvKeyArgs -> bool;
  KvPutArgs : Type;
  put_args : jv -> option KvPutArgs;
  pa_store : KvPutArgs -> option string;
  pa_key : KvPutArgs -> string;
  pa_value : KvPutArgs -> list Z;
  pa_ttl_ms : KvPutArgs -> option Z;
  KvListPrefixArgs : Type;
  list_args : jv -> option KvListPrefixArgs;
  la_store : KvListPrefixArgs -> option string;
  la_prefix : KvListPrefixArgs -> string;
  la_limit : KvListPrefixArgs -> Z;
  la_page : KvListPrefixArgs -> bool;
  la_cursor : KvListPrefixArgs -> option string;
  la_base64 : KvListPrefixArgs -> bool;
  KvExpireArgs : Type;
  expire_args : jv -> option KvExpireArgs;
  ea_store : KvExpireArgs -> option string;
  ea_key : KvExpireArgs -> string;
  ea_ttl_ms : KvExpireArgs -> option Z;
  KvIncrArgs : Type;
  incr_args : jv -> option KvIncrArgs;
  ia_store : KvIncrArgs -> option string;
  ia_key : KvIncrArgs -> string;
  ia_delta : KvIncrArgs -> Z;
  ia_floor : KvIncrArgs -> option Z;
  ia_ttl_ms : KvIncrArgs -> option Z;
  LIST_PAGE_SIZE : nat;
}.

(** What a coordinator's serialised values promise to its readers. *)
Class ClusterApiLaws (jv : Type) `{JL : JsonLaws jv} {CA : ClusterApi jv} := {
  ce_roundtrip e : ce_from_value (ce_to_value e) = Some e;
  node_info_roundtrip i : node_info_from_value (node_info_to_value i) = Some i;
  peers_roundtrip l : peers_from_value (peers_to_value l) = Some l;
  (** A page holds something. *)
  page_size_pos : (0 < LIST_PAGE_SIZE)%nat;
}.

(** One page of a listing. *)
Record KvPage `{ClusterApi jv} := { entries : list (string * Entry); next : option string }.
Arguments KvPage jv {H}.

(** The ABI's lease handle: 0 is null. *)
Record LeaseHandle := {
  lh_handle : Z;
  lh_fencing_token : Z;
  lh_expires_at : string;
  lh_error_json : string;
}.

Section Backend.
Context {jv : Type} `{J : Json jv} {CA : ClusterApi jv} {B : Type}.

Abbreviation res A := (result A ClusterError).
Abbreviation method A := (comp B (res A)).

(** ** The key-value methods *)

Record KvPlain := {
  kv_get : string -> method (option Entry);
  kv_put : string -> list Z -> option Z -> method unit;
  kv_put_if_absent : string -> list Z -> option Z -> method bool;
  kv_delete : string -> method bool;
  kv_list_page : string -> option string -> nat -> method (KvPage jv);
  kv_expire : string -> option Z -> method bool;
  kv_incr : string -> Z -> option Z -> method Z;
  kv_incr_floor : string -> Z -> Z -> option Z -> method Z;
}.

Record KvNamed := {
  kv_get_in : option string -> string -> method (option Entry);
  kv_put_in : option string -> string -> list Z -> option Z -> method unit;
  kv_put_if_absent_in : option string -> string -> list Z -> option Z -> method bool;
  kv_delete_in : option string -> string -> method bool;
  kv_list_page_in : option string -> string -> option string -> nat -> method (KvPage jv);
  kv_expire_in : option string -> string -> option Z -> method bool;
  kv_incr_in : option string -> string -> Z -> option Z -> method Z;
  kv_incr_floor_in : option string -> string -> Z -> Z -> option Z -> method Z;
}.

(** The error of the default methods. *)
Definition kv_unsupported : ClusterError :=
  ce_unsupported "coordinator does not provide a key_value_store".

(** The defaults of a coordinator without a store. *)
Definition kv_plain_defaults : KvPlain := {|
  kv_get _ := ret (Err kv_unsupported);
  kv_put _ _ _ := ret (Err kv_unsupported);
  kv_put_if_absent _ _ _ := ret (Err kv_unsupported);
  kv_delete _ := ret (Err kv_unsupported);
  kv_list_page _ _ _ := ret (Err kv_unsupported);
  kv_expire _ _ := ret (Err kv_unsupported);
  kv_incr _ _ _ := ret (Err kv_unsupported);
  kv_incr_floor _ _ _ _ := ret (Err kv_unsupported);
|}.

(** The defaults of a coordinator with one keyspace. *)
Definition kv_named_defaults (k : KvPlain) : KvNamed := {|
  kv_get_in _ := kv_get k;
  kv_put_in _ := kv_put k;
  kv_put_if_absent_in _ := kv_put_if_absent k;
  kv_delete_in _ := kv_delete k;
  kv_list_page_in _ := kv_list_page k;
  kv_expire_in _ := kv_expire k;
  kv_incr_in _ := kv_incr k;
  kv_incr_floor_in _ := kv_incr_floor k;
|}.

(** [collect_pages]; [None] out of fuel. *)
Fixpoint collect_pages (fuel : nat) (limit : nat)
    (next_page : option string -> nat -> method (KvPage jv))
    (cursor : option string) (out : list (string * Entry)) (b : B)
    : option (B * outcome (res (list (string * Entry)))) :=
  match fuel with
  | O => None
  | S fuel =>
      if (length out <? limit)%nat then
        let want := Nat.min (limit - length out) LIST_PAGE_SIZE in
        match next_page cursor want b with
        | (b, Panicked) => Some (b, Panicked)
        | (b, Returned (Err e)) => Some (b, Returned (Err e))
        | (b, Returned (Ok page)) =>
            let room := (limit - length out)%nat in
            let out := out ++ take room (entries page) in
            match next page with
            | Some n =>
                if decide (cursor <> Some n)
                then collect_pages fuel limit next_page (Some n) out b
                else Some (b, Returned (Ok out))
            | None => Some (b, Returned (Ok out))
            end
        end
      else Some (b, Returned (Ok out))
  end.

Definition kv_list_prefix (k : KvPlain) (fuel : nat) (prefix : string) (limit : nat) (b : B)
    : option (B * outcome (res (list (string * Entry)))) :=
  collect_pages fuel limit (kv_list_page k prefix) None [] b.

Definition kv_list_prefix_in (k : KvNamed) (fuel : nat) (store : option string) (prefix : string)
    (limit : nat) (b : B) : option (B * outcome (res (list (string * Entry)))) :=
  collect_pages fuel limit (kv_list_page_in k store prefix) None [] b.

(** ** The other methods of the trait *)

(** What an acquired lease is: its handle, fencing token and expiry. *)
Abbreviation grant := (Z * Z * string)%type.

Record SyncClusterBackend := {
  b_node_info : comp B ClusterNodeInfo;
  b_list_peers : comp B (list ClusterPeer);
  b_publish : string -> option string -> list Z -> method unit;
  b_subscribe : string -> option string -> option string -> Z -> method Z;
  b_watch_peers : Z -> method Z;
  b_cancel_stream : Z -> comp B unit;
  b_acquire_leadership : string -> Z -> method grant;
  b_acquire_lock : string -> Z -> method grant;
  b_try_acquire_leadership : string -> Z -> method (option grant);
  b_try_acquire_lock : string -> Z -> method (option grant);
  b_lease_renew : Z -> method string;
  b_lease_release : Z -> method unit;
  b_lease_drop : Z -> comp B unit;
  b_kv : KvNamed;
  b_shutdown : comp B unit;
}.

(** The default try-variants: the blocking method, never declined. *)
Definition try_acquire_default (acquire : string -> Z -> method grant) (name : string) (ttl_ms : Z)
    : method (option grant) :=
  r <-- acquire name ttl_ms; ret (map_ok Some r).

(** The defaults of the trait, given the methods without one. *)
Definition backend_defaults (node_info : comp B ClusterNodeInfo)
    (list_peers : comp B (list ClusterPeer))
    (publish : string -> option string -> list Z -> method unit) : SyncClusterBackend := {|
  b_node_info := node_info;
  b_list_peers := list_peers;
  b_publish := publish;
  b_subscribe _ _ _ _ := ret (Err (ce_internal "subscribe not implemented"));
  b_watch_peers _ := ret (Err (ce_internal "watch_peers not implemented"));
  b_cancel_stream _ := ret tt;
  b_acquire_leadership _ _ := ret (Err (ce_internal "acquire_leadership not implemented"));
  b_acquire_lock _ _ := ret (Err (ce_internal "acquire_lock not implemented"));
  b_try_acquire_leadership := try_acquire_default (fun _ _ =>
    ret (Err (ce_internal "acquire_leadership not implemented")));
  b_try_acquire_lock := try_acquire_default (fun _ _ =>
    ret (Err (ce_internal "acquire_lock not implemented")));
  b_lease_renew _ := ret (Err ce_lease_expired);
  b_lease_release _ := ret (Ok tt);
  b_lease_drop _ := ret tt;
  b_kv := kv_named_defaults kv_plain_defaults;
  b_shutdown := ret tt;
|}.
End Backend.
Arguments KvPlain jv {CA} B.
Arguments KvNamed jv {CA} B.
Arguments SyncClusterBackend jv {CA} B.

(** ** Lemmas *)

Section PageFacts.
Context {jv : Type} `{CL : ClusterApiLaws jv} {B : Type}.
Variable next_page : option string -> nat -> comp B (result (KvPage jv) ClusterError).
Variable limit : nat.

(** The pages of a backend as runs of a list: [at_ c p k] says that cursor [c]
    stands at position [p] with at most [k] pages after the one it asks for. A
    page is as long as the backend likes; its cursor moves on, and is absent, or
    the one asked with, only where nothing is left. *)
Definition runs_of (at_ : option string -> nat -> nat -> Prop) (all : list (string * Entry)) : Prop :=
  forall c p k want b, at_ c p k -> (0 < want <= LIST_PAGE_SIZE)%nat ->
    exists b' page m, next_page c want b = (b', Returned (Ok page))
      /\ entries page = take m (drop p all)
      /\ match next page with
         | None => (length all <= p + m)%nat
         | Some n => if decide (c = Some n) then (length all <= p + m)%nat
                     else exists k', (k' < k)%nat /\ at_ (Some n) (p + m)%nat k'
         end.

(** What is kept of a run after [take p all]. *)
Lemma take_room p m (all : list (string * Entry)) :
  (p <= limit)%nat ->
  take (Nat.min p limit) all ++ take (limit - length (take (Nat.min p limit) all)) (take m (drop p all))
  = take (Nat.min (p + m) limit) all.
Proof.
  intros Hp. rewrite Nat.min_l by done. destruct (le_lt_dec (length all) p) as [Hl|Hl].
  - rewrite drop_ge, take_nil, take_nil, app_nil_r by done. rewrite !take_ge by lia. done.
  - rewrite length_take, Nat.min_l by lia. rewrite take_take, take_take_drop. f_equal. lia.
Qed.

Lemma collect_runs at_ all fuel c p k out b :
  runs_of at_ all -> at_ c p k -> out = take (Nat.min p limit) all -> (k < fuel)%nat ->
  exists b', collect_pages fuel limit next_page c out b = Some (b', Returned (Ok (take limit all))).
Proof.
  intros H. revert c p k out b. induction fuel as [|fuel IH]; intros c p k out b Hc Ho Hf; [lia|].
  cbn [collect_pages]. destruct (Nat.ltb_spec (length out) limit) as [Hlt|Hge].
  - pose proof page_size_pos as Hps.
    destruct (H c p k (Nat.min (limit - length out) LIST_PAGE_SIZE) b Hc) as (b' & page & m & -> & He & Hn); [lia|].
    assert (Hout : out ++ take (limit - length out) (entries page) = take (Nat.min (p + m) limit) all).
    { rewrite He, Ho. destruct (le_lt_dec p limit) as [Hp|Hp]; [by apply take_room|].
      rewrite Ho, Nat.min_r in Hlt by lia. rewrite length_take in Hlt.
      rewrite drop_ge, take_nil, take_nil, app_nil_r by lia. rewrite !take_ge by lia. done. }
    rewrite Hout. assert (Hend : (length all <= p + m)%nat -> take (Nat.min (p + m) limit) all = take limit all).
    { intros Hl. destruct (le_lt_dec limit (p + m)); [by rewrite Nat.min_r by lia|]. rewrite !take_ge by lia. done. }
    destruct (next page) as [n|]; [|exists b'; by rewrite Hend].
    destruct (decide (c = Some n)) as [->|Hne].
    + rewrite decide_False by (intros Hn'; by apply Hn'). exists b'. by rewrite Hend.
    + destruct Hn as (k' & Hk & Hn). rewrite decide_True by done.
      apply (IH (Some n) (p + m)%nat k'); [done|done|lia].
  - exists b. do 4 f_equal. rewrite Ho in Hge |- *. rewrite length_take in Hge. f_equal. lia.
Qed.

(** Never more than asked for, from any backend. *)
Lemma collect_pages_bounded fuel c out b b' r :
  (length out <= limit)%nat -> collect_pages fuel limit next_page c out b = Some (b', Returned (Ok r)) ->
  (length r <= limit)%nat.
Proof.
  revert c out b. induction fuel as [|fuel IH]; intros c out b Hl H; [done|]. cbn [collect_pages] in H.
  destruct (Nat.ltb_spec (length out) limit); [|by simplify_eq].
  destruct (next_page _ _ b) as [b1 [[page|e]|]]; [|by simplify_eq..].
  assert (Hl' : (length (out ++ take (limit - length out) (entries page)) <= limit)%nat)
    by (rewrite length_app, length_take; lia).
  destruct (next page) as [n|]; [|by simplify_eq]. case_decide; [by eapply IH|by simplify_eq].
Qed.
End PageFacts.
