(* ===== verification/ClusterSlots.v ===== *)
(** * The cluster slots of a plugin (src/src/macros.rs, [__mcpg_decl_cluster_backend_entity])

    Each slot decodes its JSON arguments, calls the plugin's method and encodes
    the answer; a panic is caught at the boundary. [respond_result] is
    mcpg_plugin_protocol's result envelope. *)

From Stdlib Require Import Ascii String.
From S2P Require Import Prelude Json ClusterBackend.

(** ** The vtable a host calls: every slot over the coordinator's state *)

Record ClusterVTable (C : Type) := {
  v_node_info : C -> C * string;
  v_list_peers : C -> C * string;
  v_publish : string -> C -> C * string;
  v_subscribe : string -> Z -> C -> C * StreamHandle;
  v_watch_peers : Z -> C -> C * StreamHandle;
  v_cancel_stream : Z -> C -> C;
  v_acquire_leadership : string -> C -> C * LeaseHandle;
  v_acquire_lock : string -> C -> C * LeaseHandle;
  v_try_acquire_leadership : string -> C -> C * LeaseHandle;
  v_try_acquire_lock : string -> C -> C * LeaseHandle;
  v_lease_renew : Z -> C -> C * string;
  v_lease_release : Z -> C -> C * string;
  v_lease_drop : Z -> C -> C;
  v_kv_get : string -> C -> C * string;
  v_kv_put : string -> C -> C * string;
  v_kv_put_if_absent : string -> C -> C * string;
  v_kv_delete : string -> C -> C * string;
  v_kv_list_prefix : string -> C -> option (C * string);
  v_kv_expire : string -> C -> C * string;
  v_kv_incr : string -> C -> C * string;
  v_shutdown : C -> C;
}.
Arguments v_node_info {C} _.
Arguments v_list_peers {C} _.
Arguments v_publish {C} _.
Arguments v_subscribe {C} _.
Arguments v_watch_peers {C} _.
Arguments v_cancel_stream {C} _.
Arguments v_acquire_leadership {C} _.
Arguments v_acquire_lock {C} _.
Arguments v_try_acquire_leadership {C} _.
Arguments v_try_acquire_lock {C} _.
Arguments v_lease_renew {C} _.
Arguments v_lease_release {C} _.
Arguments v_lease_drop {C} _.
Arguments v_kv_get {C} _.
Arguments v_kv_put {C} _.
Arguments v_kv_put_if_absent {C} _.
Arguments v_kv_delete {C} _.
Arguments v_kv_list_prefix {C} _.
Arguments v_kv_expire {C} _.
Arguments v_kv_incr {C} _.
Arguments v_shutdown {C} _.

Section Slots.
Context {jv : Type} `{J : Json jv} {CA : ClusterApi jv} {B : Type}.
(** [respond_result_rstring] and [respond_err_rstring] on serialised values. *)
Variable respond_result : result jv jv -> string.
(** The message of a text that does not decode. *)
Variable serde_error : string -> string.

Variable p : SyncClusterBackend jv B.

Definition ce_text (e : ClusterError) : string := j_print (ce_to_value e).

(** [respond_result_rstring] of a method's answer. *)
Definition respond {A} (to_value : A -> jv) (r : result A ClusterError) : string :=
  respond_result (match r with Ok a => Ok (to_value a) | Err e => Err (ce_to_value e) end).
Definition respond_err (e : ClusterError) : string := respond_result (Err (ce_to_value e)).

Definition unit_value (_ : unit) : jv := j_null.

(** Decoded arguments, or the error text. *)
Definition decode {A} (of_value : jv -> option A) (args_json : string) : result A string :=
  match j_parse args_json with
  | Ok v => match of_value v with Some a => Ok a | None => Err (serde_error args_json) end
  | Err _ => Err (serde_error args_json)
  end.

(** ** Snapshots *)

Definition __mcpg_cluster_node_info : B -> B * string :=
  catch_to_empty (info <-- b_node_info p; ret (j_print (node_info_to_value info))).

Definition __mcpg_cluster_list_peers : B -> B * string :=
  catch_to_empty (peers <-- b_list_peers p; ret (j_print (peers_to_value peers))).

(** ** Publish, subscribe *)

Definition publish_args (v : jv) : option (string * option string * list Z) :=
  match struct_fields ["topic"; "routing_key"; "payload"]%string v with
  | Some [t; rk; pl] =>
      match field_str t, field_opt_str rk, field_bytes pl with
      | Some t, Some rk, Some pl => Some (t, rk, pl)
      | _, _, _ => None
      end
  | _ => None
  end.

Definition __mcpg_cluster_publish (args_json : string) : B -> B * string :=
  catch_to_empty
    match decode publish_args args_json with
    | Err e => ret (respond_err (ce_invalid_reference ("malformed publish args: " ++ e)))
    | Ok (topic, routing_key, payload) =>
        r <-- b_publish p topic routing_key payload; ret (respond unit_value r)
    end.

Definition stream_err (e : ClusterError) : StreamHandle :=
  {| sh_handle := 0; sh_error_json := ce_text e; sh_metadata_json := "" |}.
Definition stream_of (r : result Z ClusterError) : StreamHandle :=
  match r with
  | Ok h => {| sh_handle := h; sh_error_json := ""; sh_metadata_json := "" |}
  | Err e => stream_err e
  end.

Definition subscribe_args (v : jv) : option (string * option string * option string) :=
  match struct_fields ["topic"; "group"; "routing_key"]%string v with
  | Some [t; g; rk] =>
      match field_str t, field_opt_str g, field_opt_str rk with
      | Some t, Some g, Some rk => Some (t, g, rk)
      | _, _, _ => None
      end
  | _ => None
  end.

(** [sink] is the context the emitted events are called back with. *)
Definition __mcpg_cluster_subscribe (args_json : string) (sink : Z) : B -> B * StreamHandle :=
  catch_or (stream_err (ce_internal "plugin panicked during subscribe"))
    match decode subscribe_args args_json with
    | Err e => ret (stream_err (ce_invalid_reference ("malformed subscribe args: " ++ e)))
    | Ok (topic, group, routing_key) =>
        r <-- b_subscribe p topic group routing_key sink; ret (stream_of r)
    end.

Definition __mcpg_cluster_watch_peers (sink : Z) : B -> B * StreamHandle :=
  catch_or (stream_err (ce_internal "plugin panicked during watch_peers"))
    (r <-- b_watch_peers p sink; ret (stream_of r)).

Definition __mcpg_cluster_cancel_stream (stream_handle : Z) : B -> B :=
  catch_silent (b_cancel_stream p stream_handle).

(** ** Leases *)

Definition __mcpg_cluster_lease_acquire_err (e : ClusterError) : LeaseHandle :=
  {| lh_handle := 0; lh_fencing_token := 0; lh_expires_at := ""; lh_error_json := ce_text e |}.

Definition lease_of (r : result (Z * Z * string) ClusterError) : LeaseHandle :=
  match r with
  | Ok (h, token, expires) =>
      {| lh_handle := h; lh_fencing_token := token; lh_expires_at := expires; lh_error_json := "" |}
  | Err e => __mcpg_cluster_lease_acquire_err e
  end.

Definition try_lease_of (r : result (option (Z * Z * string)) ClusterError) : LeaseHandle :=
  match r with
  | Ok (Some (h, token, expires)) =>
      {| lh_handle := h; lh_fencing_token := token; lh_expires_at := expires; lh_error_json := "" |}
  | Ok None =>
      {| lh_handle := 0; lh_fencing_token := 0; lh_expires_at := ""; lh_error_json := "" |}
  | Err e => __mcpg_cluster_lease_acquire_err e
  end.

Definition acquire_args (name_field : string) (v : jv) : option (string * Z) :=
  match struct_fields [name_field; "ttl_ms"]%string v with
  | Some [n; t] =>
      match field_str n, field_u64 t with Some n, Some t => Some (n, t) | _, _ => None end
  | _ => None
  end.

(** The shape the four acquire slots share. *)
Definition acquire_slot {A} (name_field what : string) (method : string -> Z -> comp B (result A ClusterError))
    (handle_of : result A ClusterError -> LeaseHandle) (args_json : string) : B -> B * LeaseHandle :=
  catch_or (__mcpg_cluster_lease_acquire_err (ce_internal ("plugin panicked during " ++ what)))
    match decode (acquire_args name_field) args_json with
    | Err e => ret (__mcpg_cluster_lease_acquire_err
                      (ce_invalid_reference ("malformed acquire args: " ++ e)))
    | Ok (name, ttl_ms) => r <-- method name ttl_ms; ret (handle_of r)
    end.

Definition __mcpg_cluster_acquire_leadership : string -> B -> B * LeaseHandle :=
  acquire_slot "role" "acquire_leadership" (b_acquire_leadership p) lease_of.
Definition __mcpg_cluster_acquire_lock : string -> B -> B * LeaseHandle :=
  acquire_slot "key" "acquire_lock" (b_acquire_lock p) lease_of.
Definition __mcpg_cluster_try_acquire_leadership : string -> B -> B * LeaseHandle :=
  acquire_slot "role" "try_acquire_leadership" (b_try_acquire_leadership p) try_lease_of.
Definition __mcpg_cluster_try_acquire_lock : string -> B -> B * LeaseHandle :=
  acquire_slot "key" "try_acquire_lock" (b_try_acquire_lock p) try_lease_of.

Definition __mcpg_cluster_lease_renew (lease_handle : Z) : B -> B * string :=
  catch_to_empty (r <-- b_lease_renew p lease_handle; ret (respond j_str r)).
Definition __mcpg_cluster_lease_release (lease_handle : Z) : B -> B * string :=
  catch_to_empty (r <-- b_lease_release p lease_handle; ret (respond unit_value r)).
Definition __mcpg_cluster_lease_drop (lease_handle : Z) : B -> B :=
  catch_silent (b_lease_drop p lease_handle).

(** ** Key-value slots *)

Abbreviation kv := (b_kv p).

(** The shape of a key-value slot: decode, call, encode. *)
Definition kv_slot {A R} (what : string) (args : jv -> option A)
    (method : A -> comp B (result R ClusterError)) (to_value : A -> R -> jv) (args_json : string)
    : B -> B * string :=
  catch_to_empty
    match decode args args_json with
    | Err e => ret (respond_err (ce_invalid_reference ("malformed " ++ what ++ " args: " ++ e)))
    | Ok a => r <-- method a; ret (respond (to_value a) r)
    end.

Definition __mcpg_cluster_kv_get : string -> B -> B * string :=
  kv_slot "kv_get" key_args (fun a => kv_get_in kv (ka_store a) (ka_key a))
    (fun a o => match o with Some e => entry_wire e (ka_base64 a) | None => j_null end).

Definition __mcpg_cluster_kv_put : string -> B -> B * string :=
  kv_slot "kv_put" put_args
    (fun a => kv_put_in kv (pa_store a) (pa_key a) (pa_value a) (pa_ttl_ms a)) (fun _ => unit_value).

Definition __mcpg_cluster_kv_put_if_absent : string -> B -> B * string :=
  kv_slot "kv_put_if_absent" put_args
    (fun a => kv_put_if_absent_in kv (pa_store a) (pa_key a) (pa_value a) (pa_ttl_ms a))
    (fun _ => j_bool).

Definition __mcpg_cluster_kv_delete : string -> B -> B * string :=
  kv_slot "kv_delete" key_args (fun a => kv_delete_in kv (ka_store a) (ka_key a)) (fun _ => j_bool).

(** [usize::try_from] never fails on a 64-bit target. The prefix listing
    takes the fuel of [collect_pages]; [None] is out of fuel. *)
Definition __mcpg_cluster_kv_list_prefix (fuel : nat) (args_json : string) (b : B)
    : option (B * string) :=
  match decode list_args args_json with
  | Err e => Some (b, respond_err (ce_invalid_reference ("malformed kv_list_prefix args: " ++ e)))
  | Ok a =>
      let limit := Z.to_nat (la_limit a) in
      if la_page a then
        Some (catch_to_empty
          (r <-- kv_list_page_in kv (la_store a) (la_prefix a) (la_cursor a) limit;
           ret (respond (fun page => page_wire (entries page) (next page) (la_base64 a)) r)) b)
      else
        match kv_list_prefix_in kv fuel (la_store a) (la_prefix a) limit b with
        | None => None
        | Some (b, Panicked) => Some (b, ""%string)
        | Some (b, Returned r) =>
            Some (b, respond (fun pairs : list (string * Entry) =>
              j_arr ((fun ke => list_entry_wire ke.1 (entry_wire ke.2 (la_base64 a))) <$> pairs)) r)
        end
  end.

Definition __mcpg_cluster_kv_expire : string -> B -> B * string :=
  kv_slot "kv_expire" expire_args
    (fun a => kv_expire_in kv (ea_store a) (ea_key a) (ea_ttl_ms a)) (fun _ => j_bool).

Definition __mcpg_cluster_kv_incr : string -> B -> B * string :=
  kv_slot "kv_incr" incr_args
    (fun a => match ia_floor a with
              | Some floor => kv_incr_floor_in kv (ia_store a) (ia_key a) (ia_delta a) floor (ia_ttl_ms a)
              | None => kv_incr_in kv (ia_store a) (ia_key a) (ia_delta a) (ia_ttl_ms a)
              end) (fun _ => i64_value).

Definition __mcpg_cluster_shutdown : B -> B := catch_silent (b_shutdown p).

(** [make_vtable]: every slot of a made instance; [fuel] is for the prefix
    listing. *)
Definition make_vtable (fuel : nat) : ClusterVTable B := {|
  v_node_info := __mcpg_cluster_node_info;
  v_list_peers := __mcpg_cluster_list_peers;
  v_publish := __mcpg_cluster_publish;
  v_subscribe := __mcpg_cluster_subscribe;
  v_watch_peers := __mcpg_cluster_watch_peers;
  v_cancel_stream := __mcpg_cluster_cancel_stream;
  v_acquire_leadership := __mcpg_cluster_acquire_leadership;
  v_acquire_lock := __mcpg_cluster_acquire_lock;
  v_try_acquire_leadership := __mcpg_cluster_try_acquire_leadership;
  v_try_acquire_lock := __mcpg_cluster_try_acquire_lock;
  v_lease_renew := __mcpg_cluster_lease_renew;
  v_lease_release := __mcpg_cluster_lease_release;
  v_lease_drop := __mcpg_cluster_lease_drop;
  v_kv_get := __mcpg_cluster_kv_get;
  v_kv_put := __mcpg_cluster_kv_put;
  v_kv_put_if_absent := __mcpg_cluster_kv_put_if_absent;
  v_kv_delete := __mcpg_cluster_kv_delete;
  v_kv_list_prefix := __mcpg_cluster_kv_list_prefix fuel;
  v_kv_expire := __mcpg_cluster_kv_expire;
  v_kv_incr := __mcpg_cluster_kv_incr;
  v_shutdown := __mcpg_cluster_shutdown;
|}.
End Slots.
