(* ===== verification/Cluster.v ===== *)
(** * The cluster client (src/src/cluster.rs)

    [ClusterClient]'s methods over a coordinator vtable, with the
    coordinator's state passed along; leases with their release flag; and the
    callback boxes of subscriptions as a heap, with the protocol of
    subscribing, delivering and dropping as a step relation. *)

From Stdlib Require Import Ascii String.
From S2P Require Import Prelude Json ClusterBackend ClusterSlots.

(** ** The client *)

Section Client.
Context {jv : Type} `{J : Json jv} {CA : ClusterApi jv} {C : Type}.
Variable vtable : ClusterVTable C.

(** [decode_error]. *)
Definition decode_error (payload op : string) : ClusterError :=
  match result_ok (j_parse payload) ≫= ce_from_value with
  | Some e => e
  | None => ce_internal ("undecodable " ++ op ++ " error from coordinator")
  end.

Definition node_info (c : C) : C * ClusterNodeInfo :=
  let '(c, text) := v_node_info vtable c in
  (c, default empty_node_info (result_ok (j_parse text) ≫= node_info_from_value)).

Definition list_peers (c : C) : C * list ClusterPeer :=
  let '(c, text) := v_list_peers vtable c in
  (c, default [] (result_ok (j_parse text) ≫= peers_from_value)).

Definition publish (topic : string) (routing_key : option string) (payload : list Z) (c : C)
    : C * result unit ClusterError :=
  let args := j_obj ({[ "topic" := j_str topic; "routing_key" := j_opt_str routing_key;
                        "payload" := j_bytes payload ]}%string) in
  let '(c, result) := v_publish vtable (j_print args) c in
  (c, if String.eqb result "" then Ok tt else Err (decode_error result "publish")).

(** ** Leases *)

Record ClusterLease := {
  lease_handle : Z;
  fencing_token : Z;
  expires_at : string;
  released : bool;
}.

(** [as_millis() as u64]. *)
Definition ttl_ms (lease_ttl : Z) : Z := as_u64 (as_millis lease_ttl).

Definition acquire_request (name_field name : string) (lease_ttl : Z) : jv :=
  j_obj ({[ name_field := j_str name; "ttl_ms" := j_u64 (ttl_ms lease_ttl) ]}%string).

Definition acquire_common (slot : string -> C -> C * LeaseHandle) (args : jv) (c : C)
    : C * result ClusterLease ClusterError :=
  let '(c, r) := slot (j_print args) c in
  (c, if lh_handle r =? 0 then Err (decode_error (lh_error_json r) "acquire")
      else Ok {| lease_handle := lh_handle r; fencing_token := lh_fencing_token r;
                 expires_at := lh_expires_at r; released := false |}).

Inductive TryAcquireOutcome :=
| Acquired (lease_handle fencing_token : Z) (expires_at : string)
| Declined.

Definition decode_try_acquire (r : LeaseHandle) : result TryAcquireOutcome ClusterError :=
  if negb (lh_handle r =? 0) then
    Ok (Acquired (lh_handle r) (lh_fencing_token r) (lh_expires_at r))
  else if String.eqb (lh_error_json r) "" then Ok Declined
  else Err (decode_error (lh_error_json r) "try_acquire").

Definition try_acquire_common (slot : string -> C -> C * LeaseHandle) (args : jv) (c : C)
    : C * result (option ClusterLease) ClusterError :=
  let '(c, r) := slot (j_print args) c in
  (c, let? outcome := decode_try_acquire r in
      Ok (match outcome with
          | Acquired h t e =>
              Some {| lease_handle := h; fencing_token := t; expires_at := e; released := false |}
          | Declined => None
          end)).

Definition acquire_leadership (role : string) (lease_ttl : Z) :=
  acquire_common (v_acquire_leadership vtable) (acquire_request "role" role lease_ttl).
Definition acquire_lock (key : string) (lease_ttl : Z) :=
  acquire_common (v_acquire_lock vtable) (acquire_request "key" key lease_ttl).
Definition try_acquire_leadership (role : string) (lease_ttl : Z) :=
  try_acquire_common (v_try_acquire_leadership vtable) (acquire_request "role" role lease_ttl).
Definition try_acquire_lock (key : string) (lease_ttl : Z) :=
  try_acquire_common (v_try_acquire_lock vtable) (acquire_request "key" key lease_ttl).

Definition set_released (l : ClusterLease) : ClusterLease :=
  {| lease_handle := lease_handle l; fencing_token := fencing_token l;
     expires_at := expires_at l; released := true |}.

(** [ClusterLease::renew]: the lease after it, and the answer. *)
Definition renew (l : ClusterLease) (c : C) : C * ClusterLease * result unit ClusterError :=
  let '(c, payload) := v_lease_renew vtable (lease_handle l) c in
  let failed := (c, l, Err (ce_internal ("undecodable renew payload: " ++ payload))) in
  match j_parse payload with
  | Err _ => failed
  | Ok value =>
      match j_get value "ok" ≫= j_as_str with
      | Some expires =>
          (c, {| lease_handle := lease_handle l; fencing_token := fencing_token l;
                 expires_at := expires; released := released l |}, Ok tt)
      | None =>
          match j_get value "err" ≫= ce_from_value with
          | Some e => (c, l, Err e)
          | None => failed
          end
      end
  end.

(** [ClusterLease::release]. *)
Definition release (l : ClusterLease) (c : C) : C * ClusterLease * result unit ClusterError :=
  if released l then (c, l, Ok tt)
  else
    let '(c, payload) := v_lease_release vtable (lease_handle l) c in
    (c, set_released l,
     if String.eqb payload "" then Ok tt else Err (decode_error payload "release")).

(** [Drop] of a lease. *)
Definition drop_lease (l : ClusterLease) (c : C) : C :=
  let c := if released l then c else (v_lease_release vtable (lease_handle l) c).1 in
  v_lease_drop vtable (lease_handle l) c.

(** The life of a lease: any calls, then the drop. *)
Inductive lease_call := LRenew | LRelease.

Definition lease_step (call : lease_call) (lc : ClusterLease * C) : ClusterLease * C :=
  match call with
  | LRenew => let '(c, l, _) := renew lc.1 lc.2 in (l, c)
  | LRelease => let '(c, l, _) := release lc.1 lc.2 in (l, c)
  end.

Definition lease_life (calls : list lease_call) (l : ClusterLease) (c : C) : C :=
  let '(l, c) := foldl (fun lc call => lease_step call lc) (l, c) calls in drop_lease l c.
End Client.

(** ** Subscriptions *)

Section Subscriptions.
Context {jv : Type} `{J : Json jv} {CA : ClusterApi jv} {C U E : Type}.
(** [serde_json::from_str] to the event type. *)
Variable event_of : jv -> option E.

(** A boxed callback acts on the user's state; a panic inside it is caught. *)
Definition CallbackBox : Type := E -> U -> U * outcome unit.

(** The client's side of the world: the live boxes by address, and the
    user's state. *)
Record cluster_world := {
  coordinator : C;
  boxes : gmap Z CallbackBox;
  user : U;
}.

Record Subscription := { stream_handle : Z; callback_ptr : Z }.

(** [trampoline_published] and [trampoline_peer]; [None] when the context is
    not a live box, which would be a use after free. *)
Definition trampoline (ctx : Z) (json : string) (w : cluster_world) : option cluster_world :=
  if ctx =? 0 then Some w
  else
    match boxes w !! ctx with
    | None => None
    | Some cb =>
        if String.eqb json "" then Some w
        else
          match result_ok (j_parse json) ≫= event_of with
          | Some e => Some {| coordinator := coordinator w; boxes := boxes w; user := (cb e (user w)).1 |}
          | None => Some w
          end
    end.

(** [subscribe] and [watch_peers]: the box at a fresh address [ptr], the slot
    called with it, and the box freed again if the slot refuses. *)
Definition subscribe_with (slot : Z -> C -> C * StreamHandle) (op : string) (ptr : Z)
    (cb : CallbackBox) (w : cluster_world) : cluster_world * result Subscription ClusterError :=
  let boxed := <[ptr := cb]> (boxes w) in
  let '(c, r) := slot ptr (coordinator w) in
  if sh_handle r =? 0 then
    ({| coordinator := c; boxes := delete ptr boxed; user := user w |},
     Err (decode_error (sh_error_json r) op))
  else
    ({| coordinator := c; boxes := boxed; user := user w |},
     Ok {| stream_handle := sh_handle r; callback_ptr := ptr |}).

Definition subscribe (vtable : ClusterVTable C) (topic : string) (group routing_key : option string)
    : Z -> CallbackBox -> cluster_world -> cluster_world * result Subscription ClusterError :=
  let args := j_obj ({[ "topic" := j_str topic; "group" := j_opt_str group;
                        "routing_key" := j_opt_str routing_key ]}%string) in
  subscribe_with (v_subscribe vtable (j_print args)) "subscribe".

Definition watch_peers (vtable : ClusterVTable C)
    : Z -> CallbackBox -> cluster_world -> cluster_world * result Subscription ClusterError :=
  subscribe_with (v_watch_peers vtable) "watch_peers".

(** [Drop] of a subscription: cancel, then free the box. *)
Definition drop_subscription (vtable : ClusterVTable C) (s : Subscription) (w : cluster_world)
    : cluster_world :=
  let c := v_cancel_stream vtable (stream_handle s) (coordinator w) in
  {| coordinator := c;
     boxes := if callback_ptr s =? 0 then boxes w else delete (callback_ptr s) (boxes w);
     user := user w |}.
End Subscriptions.
Arguments CallbackBox : clear implicits.
Arguments cluster_world : clear implicits.
