(* ===== verification/ClusterFacts.v ===== *)
(** * The cluster client against the slots of a plugin: properties *)

From Stdlib Require Import Ascii String.
From S2P Require Import Prelude Json ClusterBackend ClusterSlots Cluster.

(** The result envelope of mcpg_plugin_protocol, as its readers rely on it. *)
Definition envelope_law {jv} `{Json jv} (respond_result : result jv jv -> string) : Prop :=
  (forall v, respond_result (Ok v) = j_print (j_obj {["ok"%string := v]}))
  /\ (forall e, respond_result (Err e) = j_print (j_obj {["err"%string := e]})).

Section Facts.
Context {jv : Type} `{CL : ClusterApiLaws jv} {B : Type}.
Variable respond_result : result jv jv -> string.
Variable serde_error : string -> string.
Variable p : SyncClusterBackend jv B.
Variable fuel : nat.

Abbreviation vt := (make_vtable respond_result serde_error p fuel).

(** What a client sees of a method: a panic is an internal error. *)
Definition seen {A} (what : string) (o : outcome (result A ClusterError)) : result A ClusterError :=
  match o with
  | Returned r => r
  | Panicked => Err (ce_internal ("plugin panicked during " ++ what))
  end.

Definition lease_from (g : Z * Z * string) : ClusterLease :=
  {| lease_handle := g.1.1; fencing_token := g.1.2; expires_at := g.2; released := false |}.

(** A grant as the client takes it. A handle of 0 is the ABI's failure, so a
    grant under it is an error of an empty text, and to the non-blocking calls
    a refusal. *)
Definition lease_of_grant (g : Z * Z * string) : result ClusterLease ClusterError :=
  if g.1.1 =? 0 then Err (ce_internal "undecodable acquire error from coordinator")
  else Ok (lease_from g).
Definition try_lease_of_grant (g : Z * Z * string) : option ClusterLease :=
  if g.1.1 =? 0 then None else Some (lease_from g).

Lemma decode_error_empty op :
  decode_error "" op = ce_internal ("undecodable " ++ op ++ " error from coordinator").
Proof.
  unfold decode_error. pose proof j_parse_empty as H. by destruct (j_parse "").
Qed.

Lemma decode_error_text e op : decode_error (ce_text e) op = e.
Proof. unfold decode_error, ce_text. rewrite j_parse_print. simpl. by rewrite ce_roundtrip. Qed.

Lemma ttl_in_range t : 0 <= ttl_ms t <= u64_max.
Proof. unfold ttl_ms, as_u64, u64_max. pose proof (Z.mod_pos_bound (as_millis t) (2 ^ 64)). lia. Qed.

Lemma acquire_args_request f n t :
  f <> "ttl_ms"%string -> decode serde_error (acquire_args f) (j_print (acquire_request f n t))
  = Ok (n, ttl_ms t).
Proof.
  intros Hf. unfold decode, acquire_request. rewrite j_parse_print. unfold acquire_args.
  rewrite struct_fields_2 by done.
  unfold field_str, field_u64. simpl. rewrite j_as_str_str, j_as_u64_u64 by apply ttl_in_range. done.
Qed.

Lemma acquire_slot_spec {A} f what (method : string -> Z -> comp B (result A ClusterError)) conv n t b :
  f <> "ttl_ms"%string ->
  acquire_slot serde_error f what method conv (j_print (acquire_request f n t)) b
  = ((method n (ttl_ms t) b).1,
     match (method n (ttl_ms t) b).2 with
     | Returned r => conv r
     | Panicked => __mcpg_cluster_lease_acquire_err (ce_internal ("plugin panicked during " ++ what))
     end).
Proof.
  intros Hf. unfold acquire_slot. rewrite acquire_args_request by done.
  unfold catch_or, bind, ret. by destruct (method n (ttl_ms t) b) as [b' [r|]].
Qed.

Lemma acquire_common_spec f what
    (method : string -> Z -> comp B (result (Z * Z * string) ClusterError)) n t b :
  f <> "ttl_ms"%string ->
  acquire_common (acquire_slot serde_error f what method lease_of) (acquire_request f n t) b
  = ((method n (ttl_ms t) b).1, let? g := seen what (method n (ttl_ms t) b).2 in lease_of_grant g).
Proof.
  intros Hf. unfold acquire_common. rewrite acquire_slot_spec by done.
  destruct (method n (ttl_ms t) b) as [b' [[[[h tk] ex]|e]|]]; simpl in *;
    by rewrite ?decode_error_text, ?decode_error_empty.
Qed.

Lemma try_acquire_common_spec f what
    (method : string -> Z -> comp B (result (option (Z * Z * string)) ClusterError)) n t b :
  f <> "ttl_ms"%string ->
  try_acquire_common (acquire_slot serde_error f what method try_lease_of) (acquire_request f n t) b
  = ((method n (ttl_ms t) b).1,
     map_ok (mbind try_lease_of_grant) (seen what (method n (ttl_ms t) b).2)).
Proof.
  intros Hf. unfold try_acquire_common. rewrite acquire_slot_spec by done.
  assert (Hne : forall e, String.eqb (ce_text e) "" = false).
  { intros e. apply String.eqb_neq. apply j_print_nonempty. }
  destruct (method n (ttl_ms t) b) as [b' [[[[[h tk] ex]|]|e]|]]; simpl in *;
    unfold decode_try_acquire, try_lease_of_grant; simpl; rewrite ?Hne, ?decode_error_text; try done.
  by destruct (h =? 0).
Qed.

Lemma envelope_misread op (r : result unit ClusterError) :
  envelope_law respond_result ->
  (forall k x, k = "ok"%string \/ k = "err"%string -> ce_from_value (j_obj {[k := x]}) = None) ->
  (if String.eqb (respond respond_result unit_value r) "" then Ok tt
   else Err (decode_error (respond respond_result unit_value r) op))
  = Err (A := unit) (ce_internal ("undecodable " ++ op ++ " error from coordinator")).
Proof.
  intros [Hok Herr] Hce. unfold respond.
  assert (exists k x, (k = "ok"%string \/ k = "err"%string)
    /\ respond_result (match r with Ok a => Ok (unit_value a) | Err e => Err (ce_to_value e) end)
       = j_print (j_obj {[k := x]})) as (k & x & Hk & ->) by (destruct r; eauto 6).
  rewrite (proj2 (String.eqb_neq _ _)) by apply j_print_nonempty.
  unfold decode_error. rewrite j_parse_print. simpl. by rewrite Hce.
Qed.

(** C26. Acquiring through the ABI is acquiring on the plugin, whatever it
    answers: the plugin is asked once, for the same name and the time to live
    in milliseconds taken modulo 2^64, and the client gets its lease or its own
    error; a panic is an internal error, and so is a lease granted under the
    null handle, which the ABI reads as a failure. *)
Theorem acquire_parity name ttl b :
  acquire_leadership vt name ttl b
  = ((b_acquire_leadership p name (as_millis ttl mod 2 ^ 64) b).1,
     let? g := seen "acquire_leadership" (b_acquire_leadership p name (as_millis ttl mod 2 ^ 64) b).2 in
     lease_of_grant g)
  /\ acquire_lock vt name ttl b
  = ((b_acquire_lock p name (as_millis ttl mod 2 ^ 64) b).1,
     let? g := seen "acquire_lock" (b_acquire_lock p name (as_millis ttl mod 2 ^ 64) b).2 in
     lease_of_grant g).
Proof. split; by apply acquire_common_spec. Qed.

(** The non-blocking calls keep their three outcomes apart across the
    ABI: acquired, declined and failed come back as the plugin gave them,
    although one handle and one error text carry all three; only a lease
    granted under the null handle comes back declined. *)
Theorem try_acquire_parity name ttl b :
  try_acquire_leadership vt name ttl b
  = ((b_try_acquire_leadership p name (ttl_ms ttl) b).1,
     map_ok (mbind try_lease_of_grant)
       (seen "try_acquire_leadership" (b_try_acquire_leadership p name (ttl_ms ttl) b).2))
  /\ try_acquire_lock vt name ttl b
  = ((b_try_acquire_lock p name (ttl_ms ttl) b).1,
     map_ok (mbind try_lease_of_grant) (seen "try_acquire_lock" (b_try_acquire_lock p name (ttl_ms ttl) b).2)).
Proof. split; by apply try_acquire_common_spec. Qed.

(** Renewing through the ABI: a new expiry replaces the lease's, an error
    is the plugin's own and leaves the lease as it was. *)
Theorem renew_parity l b :
  envelope_law respond_result ->
  let '(b', o) := b_lease_renew p (lease_handle l) b in
  renew vt l b =
    (b', match o with
         | Returned (Ok e) => {| lease_handle := lease_handle l; fencing_token := fencing_token l;
                                 expires_at := e; released := released l |}
         | _ => l
         end,
     match o with
     | Returned (Ok _) => Ok tt
     | Returned (Err e) => Err e
     | Panicked => Err (ce_internal "undecodable renew payload: ")
     end).
Proof.
  intros [Hok Herr]. destruct (b_lease_renew p (lease_handle l) b) as [b' o] eqn:E.
  unfold renew. simpl. unfold __mcpg_cluster_lease_renew, catch_to_empty, bind. rewrite E.
  destruct o as [[e|e]|]; simpl; unfold respond.
  - rewrite Hok, j_parse_print, j_get_obj, lookup_singleton_eq. simpl. by rewrite j_as_str_str.
  - rewrite Herr, j_parse_print, !j_get_obj. rewrite lookup_singleton_ne by done. simpl.
    rewrite lookup_singleton_eq. simpl. by rewrite ce_roundtrip.
  - pose proof j_parse_empty as He. by destruct (j_parse "").
Qed.

(** C30. Publishing and releasing report the opposite of what happened: the
    slots answer with the result envelope, while the client takes only the
    empty text for success, so a publish or a release the plugin performed, or
    refused with an error of its own, comes back as an undecodable error; the
    empty text is what a panic in the plugin answers, and reads as success. *)
Theorem unit_answers_misread topic rk payload l b :
  envelope_law respond_result ->
  (forall k x, k = "ok"%string \/ k = "err"%string -> ce_from_value (j_obj {[k := x]}) = None) ->
  Forall (fun n => 0 <= n <= 255) payload -> released l = false ->
  (publish vt topic rk payload b).2 =
    match (b_publish p topic rk payload b).2 with
    | Returned _ => Err (ce_internal "undecodable publish error from coordinator")
    | Panicked => Ok tt
    end
  /\ (release vt l b).2 =
    match (b_lease_release p (lease_handle l) b).2 with
    | Returned _ => Err (ce_internal "undecodable release error from coordinator")
    | Panicked => Ok tt
    end.
Proof.
  intros Henv Hce Hp Hl. split.
  - unfold publish. simpl. unfold __mcpg_cluster_publish, decode. rewrite j_parse_print.
    unfold publish_args. rewrite struct_fields_3 by done.
    rewrite field_opt_str_opt, field_bytes_bytes by done. unfold field_str. simpl.
    rewrite j_as_str_str. unfold catch_to_empty, bind, ret.
    destruct (b_publish p topic rk payload b) as [b' [r|]]; simpl; [|done].
    by apply (envelope_misread "publish").
  - unfold release. rewrite Hl. simpl. unfold __mcpg_cluster_lease_release, catch_to_empty, bind, ret.
    destruct (b_lease_release p (lease_handle l) b) as [b' [r|]]; simpl; [|done].
    by apply (envelope_misread "release").
Qed.
End Facts.

(** ** The life of a lease *)

Inductive lease_event := ERenew (h : Z) | ERelease (h : Z) | EDropped (h : Z).

(** A vtable that records the lease calls it takes. *)
Definition recording {C} (v : ClusterVTable C) : ClusterVTable (C * list lease_event) :=
  let on {R} (f : C -> C * R) (c : C * list lease_event) :=
    let '(c', r) := f c.1 in ((c', c.2), r) in
  {| v_node_info := on (v_node_info v);
     v_list_peers := on (v_list_peers v);
     v_publish a := on (v_publish v a);
     v_subscribe a s := on (v_subscribe v a s);
     v_watch_peers s := on (v_watch_peers v s);
     v_cancel_stream s c := (v_cancel_stream v s c.1, c.2);
     v_acquire_leadership a := on (v_acquire_leadership v a);
     v_acquire_lock a := on (v_acquire_lock v a);
     v_try_acquire_leadership a := on (v_try_acquire_leadership v a);
     v_try_acquire_lock a := on (v_try_acquire_lock v a);
     v_lease_renew h c :=
       let '(c', r) := v_lease_renew v h c.1 in ((c', c.2 ++ [ERenew h]), r);
     v_lease_release h c :=
       let '(c', r) := v_lease_release v h c.1 in ((c', c.2 ++ [ERelease h]), r);
     v_lease_drop h c := (v_lease_drop v h c.1, c.2 ++ [EDropped h]);
     v_kv_get a := on (v_kv_get v a);
     v_kv_put a := on (v_kv_put v a);
     v_kv_put_if_absent a := on (v_kv_put_if_absent v a);
     v_kv_delete a := on (v_kv_delete v a);
     v_kv_list_prefix a c := (fun r => ((r.1, c.2), r.2)) <$> v_kv_list_prefix v a c.1;
     v_kv_expire a := on (v_kv_expire v a);
     v_kv_incr a := on (v_kv_incr v a);
     v_shutdown c := (v_shutdown v c.1, c.2) |}.

Section LeaseLife.
Context {jv : Type} `{J : Json jv} {CA : ClusterApi jv} {C : Type}.
Variable v : ClusterVTable C.

Definition releases (t : list lease_event) : nat :=
  length (List.filter (fun e => match e with ERelease _ => true | _ => false end) t).

(** The calls so far on lease [h]: no drop, and as many releases as the flag
    says. *)
Definition calls_ok (h : Z) (l : ClusterLease) (t : list lease_event) : Prop :=
  lease_handle l = h
  /\ Forall (fun e => e = ERenew h \/ e = ERelease h) t
  /\ releases t = (if released l then 1 else 0)%nat.

Lemma releases_app t u : releases (t ++ u) = (releases t + releases u)%nat.
Proof. unfold releases. by rewrite List.filter_app, length_app. Qed.

Lemma renew_frame {C'} (w : ClusterVTable C') l c :
  let '(c', l', _) := renew w l c in
  lease_handle l' = lease_handle l /\ released l' = released l
  /\ c' = (v_lease_renew w (lease_handle l) c).1.
Proof. unfold renew. destruct (v_lease_renew w (lease_handle l) c). by repeat case_match; simplify_eq. Qed.

Lemma lease_step_ok call h l c t l' c' t' :
  calls_ok h l t -> lease_step (recording v) call (l, (c, t)) = (l', (c', t')) -> calls_ok h l' t'.
Proof.
  intros (Hh & Hf & Hr). destruct call; unfold lease_step; cbn [fst snd].
  - pose proof (renew_frame (recording v) l (c, t)) as Hfr.
    destruct (renew (recording v) l (c, t)) as [[ct l1] r]. destruct Hfr as (E1 & E2 & E3).
    intros [= <- ->]. unfold calls_ok. rewrite E1, E2. split; [done|].
    simpl in E3. destruct (v_lease_renew v (lease_handle l) c) as [c1 r1]. injection E3 as -> ->.
    rewrite Hh, releases_app, Hr, Nat.add_0_r. split; [|done].
    apply Forall_app. split; [done|]. apply Forall_singleton. by left.
  - unfold release. destruct (released l) eqn:El.
    + intros [= <- <- <-]. unfold calls_ok. by rewrite El.
    + simpl. destruct (v_lease_release v (lease_handle l) c) as [c1 r]. rewrite Hh.
      intros [= <- <- <-]. split; [done|]. split; [|rewrite releases_app, Hr; done].
      apply Forall_app. split; [done|]. apply Forall_singleton. by right.
Qed.

(** C18. A lease is released once and freed last: whatever renews and releases
    its owner makes, the coordinator sees, for that lease's handle, exactly
    one release before the one [lease_drop] that ends its life. *)
Theorem lease_released_once calls l c :
  released l = false ->
  exists pre, (lease_life (recording v) calls l (c, [])).2 = pre ++ [EDropped (lease_handle l)]
    /\ Forall (fun e => e = ERenew (lease_handle l) \/ e = ERelease (lease_handle l)) pre
    /\ releases pre = 1%nat.
Proof.
  intros Hl. unfold lease_life.
  assert (Hinv : forall cs l0 c0 t0, calls_ok (lease_handle l) l0 t0 ->
    let '(l1, (c1, t1)) := foldl (fun lc call => lease_step (recording v) call lc) (l0, (c0, t0)) cs in
    calls_ok (lease_handle l) l1 t1).
  { induction cs as [|call cs IH]; intros l0 c0 t0 H0; cbn [foldl]; [done|].
    destruct (lease_step (recording v) call (l0, (c0, t0))) as [l1 [c1 t1]] eqn:E.
    apply IH. by eapply lease_step_ok. }
  specialize (Hinv calls l c []). destruct (foldl _ _ _) as [l1 [c1 t1]].
  destruct Hinv as (Hh & Hf & Hr); [unfold calls_ok; by rewrite Hl|].
  unfold drop_lease. simpl. destruct (released l1) eqn:E1; simpl.
  - exists t1. by rewrite Hh.
  - destruct (v_lease_release v (lease_handle l1) c1) as [c2 r]. simpl. rewrite Hh.
    exists (t1 ++ [ERelease (lease_handle l)]). split; [done|]. split.
    + apply Forall_app. split; [done|]. apply Forall_singleton. by right.
    + by rewrite releases_app, Hr.
Qed.

(** A renew after a release still reaches the coordinator. *)
Lemma renew_after_release l c :
  released l = false ->
  (lease_life (recording v) [LRelease; LRenew] l (c, [])).2
  = [ERelease (lease_handle l); ERenew (lease_handle l); EDropped (lease_handle l)].
Proof.
  intros Hl. unfold lease_life. cbn [foldl]. unfold lease_step at 2. unfold release. simpl. rewrite Hl.
  destruct (v_lease_release v (lease_handle l) c) as [c1 r]. simpl. unfold renew. simpl.
  destruct (v_lease_renew v (lease_handle l) c1) as [c2 r2]. simpl.
  repeat case_match; simplify_eq; unfold drop_lease; simpl; done.
Qed.
End LeaseLife.

(** ** Subscriptions *)

Section SubscriptionLife.
Context {jv : Type} `{J : Json jv} {CA : ClusterApi jv} {C U E : Type}.
Variable event_of : jv -> option E.
Variable vtable : ClusterVTable C.

Abbreviation cworld := (cluster_world C U E).

(** The subscriptions the plugin holds, and the streams the coordinator may
    still call back, by stream handle. A use of a dead box is [Crashed]. *)
Record sub_state := { sworld : cworld; subs : list Subscription; streams : gmap Z Z }.
Inductive sub_config := Live (s : sub_state) | Crashed.

(** The coordinator hands out handles not in use, and calls back only for the
    streams it has not been told to cancel; the allocator gives fresh
    addresses. *)
Inductive sub_step : sub_config -> sub_config -> Prop :=
| sub_opened s slot op ptr cb w sub :
    ptr <> 0 -> boxes (sworld s) !! ptr = None ->
    subscribe_with slot op ptr cb (sworld s) = (w, Ok sub) ->
    streams s !! stream_handle sub = None ->
    sub_step (Live s) (Live {| sworld := w; subs := sub :: subs s;
                               streams := <[stream_handle sub := ptr]> (streams s) |})
| sub_refused s slot op ptr cb w e :
    ptr <> 0 -> boxes (sworld s) !! ptr = None ->
    subscribe_with slot op ptr cb (sworld s) = (w, Err e) ->
    sub_step (Live s) (Live {| sworld := w; subs := subs s; streams := streams s |})
| sub_event s st ctx json :
    streams s !! st = Some ctx ->
    sub_step (Live s)
      (match trampoline event_of ctx json (sworld s) with
       | Some w => Live {| sworld := w; subs := subs s; streams := streams s |}
       | None => Crashed
       end)
| sub_dropped s n sub :
    subs s !! n = Some sub ->
    sub_step (Live s) (Live {| sworld := drop_subscription vtable sub (sworld s);
                               subs := delete n (subs s);
                               streams := delete (stream_handle sub) (streams s) |}).

Inductive sub_reach (w : cworld) : sub_config -> Prop :=
| sub_start : boxes w = ∅ -> sub_reach w (Live {| sworld := w; subs := []; streams := ∅ |})
| sub_next c c' : sub_reach w c -> sub_step c c' -> sub_reach w c'.

(** Each subscription owns one live box and one stream, and there are no
    others. *)
Record sub_wf (s : sub_state) : Prop := {
  sw_ptrs : NoDup (callback_ptr <$> subs s);
  sw_boxes : forall p, is_Some (boxes (sworld s) !! p) <-> p ∈ callback_ptr <$> subs s;
  sw_streams : forall st p, streams s !! st = Some p <->
               exists sub, sub ∈ subs s /\ stream_handle sub = st /\ callback_ptr sub = p;
  sw_nonzero : Forall (fun sub => callback_ptr sub <> 0) (subs s);
}.

Lemma sub_opened_wf s slot op ptr cb w sub :
  sub_wf s -> ptr <> 0 -> boxes (sworld s) !! ptr = None ->
  subscribe_with slot op ptr cb (sworld s) = (w, Ok sub) ->
  streams s !! stream_handle sub = None ->
  sub_wf {| sworld := w; subs := sub :: subs s; streams := <[stream_handle sub := ptr]> (streams s) |}.
Proof.
  intros [H1 H2 H3 H4] Hp Hf Hs Hst. unfold subscribe_with in Hs.
  destruct (slot ptr (coordinator (sworld s))) as [c r]. destruct (sh_handle r =? 0); [done|].
  injection Hs as <- <-. simpl in *.
  assert (Hnp : ptr ∉ callback_ptr <$> subs s) by (rewrite <- H2, Hf; by intros []).
  split; simpl.
  - apply NoDup_cons. by split.
  - intros q. rewrite lookup_insert_is_Some, elem_of_cons, H2. split.
    + intros [->|[_ ?]]; [by left|by right].
    + intros [->|?]; [by left|]. destruct (decide (ptr = q)) as [->|]; [by left|by right].
  - intros st q. rewrite lookup_insert_Some. split.
    + intros [[<- <-]|[_ (sub & Hin & ? & ?)%H3]];
        [eexists; split; [left|done]|exists sub; split; [by right|done]].
    + intros (sub & [->|Hin]%elem_of_cons & <- & <-); [by left|right]. split.
      * intros Est. destruct (H3 (stream_handle sub) (callback_ptr sub)) as [_ Hs].
        rewrite Est in Hst. rewrite Hs in Hst; [done|]. by exists sub.
      * apply H3. by exists sub.
  - by constructor.
Qed.

Lemma sub_dropped_wf s n sub :
  sub_wf s -> subs s !! n = Some sub ->
  sub_wf {| sworld := drop_subscription vtable sub (sworld s); subs := delete n (subs s);
            streams := delete (stream_handle sub) (streams s) |}.
Proof.
  intros [H1 H2 H3 H4] Hn. apply delete_Permutation in Hn as Hperm.
  assert (Hnz : callback_ptr sub <> 0).
  { rewrite Forall_forall in H4. apply H4. by apply list_elem_of_lookup_2 in Hn. }
  assert (Hp' : NoDup (callback_ptr sub :: (callback_ptr <$> delete n (subs s))))
    by (pose proof H1 as Hx; rewrite Hperm in Hx; exact Hx).
  apply NoDup_cons in Hp' as [Hni Hnd].
  assert (Hel : forall x, x ∈ subs s <-> x = sub \/ x ∈ delete n (subs s))
    by (intros x; rewrite Hperm at 1; apply elem_of_cons).
  split; simpl.
  - done.
  - intros q. rewrite (proj2 (Z.eqb_neq _ _) Hnz). rewrite lookup_delete_is_Some, H2.
    rewrite Hperm at 1. rewrite fmap_cons, elem_of_cons. split.
    + by intros [? [?|?]].
    + intros Hq. split; [by intros <-|by right].
  - intros st q. rewrite lookup_delete_Some. split.
    + intros [Hne (x & [->|Hx]%Hel & <- & <-)%H3]; [done|]. by exists x.
    + intros (x & Hx & <- & <-). split.
      * intros Est. apply Hni. apply list_elem_of_fmap. exists x. split; [|done].
        assert (Hs1 : streams s !! stream_handle x = Some (callback_ptr x))
          by (apply H3; exists x; split; [apply Hel; by right|done]).
        assert (Hs2 : streams s !! stream_handle sub = Some (callback_ptr sub))
          by (apply H3; exists sub; split; [apply Hel; by left|done]).
        rewrite Est in Hs2. congruence.
      * apply H3. exists x. split; [apply Hel; by right|done].
  - rewrite Hperm in H4. by apply Forall_cons in H4 as [_ H4].
Qed.

Lemma trampoline_live ctx json w :
  is_Some (boxes w !! ctx) ->
  exists w' : cworld, trampoline event_of ctx json w = Some w' /\ boxes w' = boxes w.
Proof.
  intros [cb Hcb]. unfold trampoline. destruct (ctx =? 0); [by eauto|].
  destruct (boxes w !! ctx); [|done]. destruct (String.eqb json ""); [by eauto|].
  destruct (result_ok (j_parse json) ≫= event_of); by eauto.
Qed.

Lemma sub_reach_wf w c :
  sub_reach w c -> match c with Live s => sub_wf s | Crashed => False end.
Proof.
  induction 1 as [Hb|c c' _ IH Hs].
  - split; simpl; try (by constructor).
    + intros q. rewrite Hb, lookup_empty, elem_of_nil. split; [by intros []|done].
    + intros st q. rewrite lookup_empty. split; [done|].
      by intros (sub & Hx%elem_of_nil & _).
  - destruct Hs as [s slot op ptr cb w' sub Hp Hf Hsub Hst|s slot op ptr cb w' e Hp Hf Hsub
      |s st ctx json Hst|s n sub Hn].
    + by eapply sub_opened_wf.
    + unfold subscribe_with in Hsub. destruct (slot ptr (coordinator (sworld s))) as [c r].
      destruct (sh_handle r =? 0); [|done]. injection Hsub as <- _.
      destruct IH as [H1 H2 H3 H4]. split; simpl; try done.
      by rewrite delete_insert_id by done.
    + destruct IH as [H1 H2 H3 H4].
      assert (Hl : is_Some (boxes (sworld s) !! ctx)).
      { apply H2. apply H3 in Hst as (sub & Hin & _ & <-). by apply list_elem_of_fmap_2. }
      destruct (trampoline_live ctx json _ Hl) as (w' & -> & Hbx). split; simpl; try done.
      by rewrite Hbx.
    + by apply sub_dropped_wf.
Qed.

(** The callback bridge is memory safe: however subscriptions, refusals,
    events and drops interleave, no event reaches a freed callback; each
    subscription owns its own live box, and once the last one is dropped no
    box is left. *)
Theorem callbacks_memory_safe w c :
  sub_reach w c ->
  match c with
  | Crashed => False
  | Live s => NoDup (callback_ptr <$> subs s)
      /\ (forall sub, sub ∈ subs s -> is_Some (boxes (sworld s) !! callback_ptr sub))
      /\ (subs s = [] -> boxes (sworld s) = ∅)
  end.
Proof.
  intros Hr. pose proof (sub_reach_wf w c Hr) as Hw. destruct c as [s|]; [|done].
  destruct Hw as [H1 H2 H3 H4]. split; [done|]. split.
  - intros sub Hin. apply H2. by apply list_elem_of_fmap_2.
  - intros Enil. apply map_empty. intros q. destruct (boxes (sworld s) !! q) eqn:Eq; [|done].
    assert (Hq : is_Some (boxes (sworld s) !! q)) by (by rewrite Eq).
    apply H2 in Hq. rewrite Enil in Hq. by apply elem_of_nil in Hq.
Qed.
End SubscriptionLife.

(** ** Paging *)

(** C24. A prefix listing is bounded, and complete where the pages are: from
    whatever backend, a listing that ends well has at most [limit] entries;
    over a backend whose pages are consecutive runs of a list (of any lengths,
    empty or longer than asked, the last one marked by no cursor or by the
    cursor it was asked with) [collect_pages] ends within the pages the
    backend has, and returns the first [limit] entries, in order. *)
Theorem listing_complete {jv} `{CL : ClusterApiLaws jv} {B} (next_page : option string -> nat ->
    comp B (result (KvPage jv) ClusterError)) limit b :
  (forall fuel b' out, collect_pages fuel limit next_page None [] b = Some (b', Returned (Ok out)) ->
     (length out <= limit)%nat)
  /\ forall at_ all k, runs_of next_page at_ all -> at_ None 0%nat k ->
       exists b', collect_pages (S k) limit next_page None [] b
                  = Some (b', Returned (Ok (take limit all))).
Proof.
  split.
  - intros fuel b' out H. by apply (collect_pages_bounded next_page limit fuel None [] b b' out (Nat.le_0_l _)).
  - intros at_ all k H Hk. by apply (collect_runs next_page limit at_ all (S k) None 0 k [] b); [..|lia].
Qed.

(** A backend whose empty pages name two cursors in turn is asked for ever. *)
Lemma alternating_pages_never_end {jv} `{ClusterApi jv} fuel c b :
  collect_pages (B := unit) fuel 1
    (fun c _ => ret (Ok {| entries := []; next := Some (if decide (c = Some "a") then "b" else "a")%string |}))
    c [] b = None.
Proof.
  revert c. induction fuel as [|fuel IH]; intros c; [done|]. cbn [collect_pages length Nat.ltb Nat.leb].
  unfold ret at 1. cbn [entries next]. rewrite take_nil, app_nil_l.
  rewrite decide_True; [apply IH|]. destruct (decide (c = Some "a"%string)) as [->|Hne]; [done|].
  intros ->. done.
Qed.

(** ** Witnesses *)

Import Tree.

Module Example1.
Definition error_value (e : string * string) : jtree :=
  TObj [("kind", TStr e.1); ("reason", TStr e.2)]%string.
Definition error_of (v : jtree) : option (string * string) :=
  match j_get v "kind" ≫= j_as_str, j_get v "reason" ≫= j_as_str with
  | Some k, Some r => Some (k, r)
  | _, _ => None
  end.

#[export] Instance api : ClusterApi jtree := {|
  ClusterError := string * string;
  ce_internal r := ("internal", r)%string;
  ce_invalid_reference r := ("invalid", r)%string;
  ce_unsupported r := ("unsupported", r)%string;
  ce_lease_expired := ("expired", "")%string;
  ce_to_value := error_value;
  ce_from_value := error_of;
  ClusterNodeInfo := string;
  empty_node_info := "";
  node_info_to_value := TStr;
  node_info_from_value := j_as_str;
  ClusterPeer := string;
  peers_to_value l := TArr (TStr <$> l);
  peers_from_value v := match v with TArr l => mapM j_as_str l | _ => None end;
  PublishedMessage := string;
  message_from_value := j_as_str;
  PeerEvent := string;
  peer_event_from_value := j_as_str;
  Entry := Z;
  entry_wire e _ := TNum e;
  page_wire _ _ _ := TNull; list_entry_wire _ v := v; i64_value := TNum;
  KvKeyArgs := string; key_args := j_as_str; ka_store _ := None; ka_key k := k; ka_base64 _ := false;
  KvPutArgs := string; put_args := j_as_str; pa_store _ := None; pa_key k := k; pa_value _ := [];
  pa_ttl_ms _ := None;
  KvListPrefixArgs := string; list_args := j_as_str; la_store _ := None; la_prefix k := k;
  la_limit _ := 5; la_page _ := false; la_cursor _ := None; la_base64 _ := false;
  KvExpireArgs := string; expire_args := j_as_str; ea_store _ := None; ea_key k := k;
  ea_ttl_ms _ := None;
  KvIncrArgs := string; incr_args := j_as_str; ia_store _ := None; ia_key k := k; ia_delta _ := 1;
  ia_floor _ := None; ia_ttl_ms _ := None;
  LIST_PAGE_SIZE := 2;
|}.

#[export] Instance api_laws : ClusterApiLaws jtree.
Proof.
  constructor; try done.
  - by intros [k r].
  - intros l. simpl. apply mapM_Some. apply Forall2_fmap_l. by apply Forall_Forall2_diag, Forall_true.
  - simpl. lia.
Qed.

Definition envelope (r : result jtree jtree) : string :=
  match r with
  | Ok v => j_print (j_obj {["ok"%string := v]})
  | Err e => j_print (j_obj {["err"%string := e]})
  end.

(** A coordinator that counts its calls and grants every lock. *)
Definition plugin : SyncClusterBackend jtree nat := {|
  b_node_info := ret "n1"%string;
  b_list_peers := ret [];
  b_publish _ _ _ b := (S b, Returned (Ok tt));
  b_subscribe _ _ _ _ := ret (Ok 7);
  b_watch_peers _ := ret (Ok 8);
  b_cancel_stream _ := ret tt;
  b_acquire_leadership _ _ := ret (Err ("expired", "")%string);
  b_acquire_lock k t b := (S b, Returned (Ok (5, t, k)));
  b_try_acquire_leadership _ _ := ret (Ok None);
  b_try_acquire_lock _ _ b := (b, Panicked);
  b_lease_renew _ := ret (Ok "later"%string);
  b_lease_release _ := ret (Ok tt);
  b_lease_drop _ := ret tt;
  b_kv := kv_named_defaults kv_plain_defaults;
  b_shutdown := ret tt;
|}.

Definition no_error (_ : string) : string := "".
(** A callback that counts, and panics. *)
Definition callback : CallbackBox Z string := fun _ u => (u + 1, Panicked).
Definition lease : ClusterLease :=
  {| lease_handle := 5; fencing_token := 1; expires_at := "now"; released := false |}.

(** Five entries in pages of one more than asked, the cursor a position; the last
    page hands back the cursor it was asked with. *)
Definition all : list (string * Entry) := [("a", 1); ("b", 2); ("c", 3); ("d", 4); ("e", 5)]%string.
Definition cursor_pos (c : option string) : nat :=
  match c with None => 0 | Some s => String.length s end.
Definition pager (c : option string) (want : nat) : comp unit (result (KvPage jtree) ClusterError) :=
  let p := cursor_pos c in
  ret (Ok {| entries := take (S want) (drop p all);
             next := if (p + S want <? length all)%nat
                     then Some (unchars (replicate (p + S want) "x"%char)) else c |}).

Lemma pager_runs : runs_of pager (fun c p k => cursor_pos c = p /\ k = (length all - p)%nat) all.
Proof.
  intros c p k want b [<- ->] Hw. eexists b, _, (S want). split; [reflexivity|]. split; [done|]. cbn [next].
  destruct (Nat.ltb_spec (cursor_pos c + S want) (length all)) as [Hlt|Hge].
  - assert (Hl : forall n, String.length (unchars (replicate n "x"%char)) = n)
      by (intros n; induction n; simpl; congruence).
    rewrite decide_False.
    + eexists. split; [|split; [apply Hl|done]]. lia.
    + intros E. apply (f_equal cursor_pos) in E. cbn [cursor_pos] in E. rewrite Hl in E. lia.
  - destruct c as [s|]; [by rewrite decide_True|exact Hge].
Qed.
End Example1.

Import Example1.

Lemma acquire_parity_witness :
  acquire_lock (make_vtable envelope no_error plugin 9) "job" (secs 2) 0%nat
  = (1%nat, Ok {| lease_handle := 5; fencing_token := 2000; expires_at := "job"; released := false |}).
Proof.
  rewrite (proj2 (acquire_parity envelope no_error plugin 9 "job" (secs 2) 0%nat)). reflexivity.
Defined.

Lemma try_acquire_parity_witness :
  try_acquire_lock (make_vtable envelope no_error plugin 9) "job" (secs 2) 0%nat
  = (0%nat, Err ("internal", "plugin panicked during try_acquire_lock")%string).
Proof.
  etransitivity; [|vm_compute; reflexivity].
  exact (proj2 (try_acquire_parity envelope no_error plugin 9 "job" (secs 2) 0%nat)).
Defined.

Lemma renew_parity_witness :
  renew (make_vtable envelope no_error plugin 9) lease 0%nat
  = (0%nat, {| lease_handle := 5; fencing_token := 1; expires_at := "later"; released := false |}, Ok tt).
Proof.
  exact (renew_parity envelope no_error plugin 9 lease 0%nat
    (conj (fun _ => eq_refl) (fun _ => eq_refl))).
Defined.

Lemma unit_answers_misread_witness :
  (publish (make_vtable envelope no_error plugin 9) "t" None [] 0%nat).2
  = Err ("internal", "undecodable publish error from coordinator")%string.
Proof.
  refine (proj1 (unit_answers_misread envelope no_error plugin 9 "t" None [] lease 0%nat
    (conj (fun _ => eq_refl) (fun _ => eq_refl)) _ _ _)); [|constructor|reflexivity].
  intros k x [-> | ->]; vm_compute; reflexivity.
Defined.

Lemma lease_released_once_witness :
  exists pre, (lease_life (recording (make_vtable envelope no_error plugin 9)) [LRenew; LRelease; LRelease]
                 lease (0%nat, [])).2 = pre ++ [EDropped 5] /\ releases pre = 1%nat.
Proof.
  destruct (lease_released_once (make_vtable envelope no_error plugin 9) [LRenew; LRelease; LRelease]
    lease 0%nat eq_refl) as (pre & Hp & _ & Hr).
  exists pre. split; [exact Hp|exact Hr].
Defined.

Lemma callbacks_memory_safe_witness :
  let w : cluster_world unit Z string := {| coordinator := tt; boxes := ∅; user := 0 |} in
  let s := {| sworld := {| coordinator := tt; boxes := {[16 := callback]}; user := 0 |};
              subs := [{| stream_handle := 7; callback_ptr := 16 |}]; streams := {[7 := 16]} |} in
  is_Some (boxes (sworld s) !! 16).
Proof.
  intros w s.
  set (v := {| v_node_info := fun c : unit => (c, ""%string); v_list_peers := fun c => (c, ""%string);
    v_publish := fun _ c => (c, ""%string);
    v_subscribe := fun _ _ c => (c, {| sh_handle := 7; sh_error_json := ""; sh_metadata_json := "" |});
    v_watch_peers := fun _ c => (c, {| sh_handle := 7; sh_error_json := ""; sh_metadata_json := "" |});
    v_cancel_stream := fun _ c => c;
    v_acquire_leadership := fun _ c => (c, lease_of (Err (ce_internal "")));
    v_acquire_lock := fun _ c => (c, lease_of (Err (ce_internal "")));
    v_try_acquire_leadership := fun _ c => (c, lease_of (Err (ce_internal "")));
    v_try_acquire_lock := fun _ c => (c, lease_of (Err (ce_internal "")));
    v_lease_renew := fun _ c => (c, ""%string); v_lease_release := fun _ c => (c, ""%string);
    v_lease_drop := fun _ c => c; v_kv_get := fun _ c => (c, ""%string); v_kv_put := fun _ c => (c, ""%string);
    v_kv_put_if_absent := fun _ c => (c, ""%string); v_kv_delete := fun _ c => (c, ""%string);
    v_kv_list_prefix := fun _ _ => None; v_kv_expire := fun _ c => (c, ""%string);
    v_kv_incr := fun _ c => (c, ""%string); v_shutdown := fun c => c |}).
  assert (Hr : sub_reach j_as_str v w (Live s)).
  { eapply sub_next; [by apply sub_start|].
    exact (sub_opened j_as_str v {| sworld := w; subs := []; streams := ∅ |} (v_watch_peers v)
      "watch_peers" 16 callback (sworld s) {| stream_handle := 7; callback_ptr := 16 |}
      ltac:(discriminate) eq_refl eq_refl eq_refl). }
  destruct (callbacks_memory_safe j_as_str v w (Live s) Hr) as (_ & Hs & _).
  apply (Hs {| stream_handle := 7; callback_ptr := 16 |}). left.
Defined.

Lemma listing_complete_witness :
  collect_pages 6 4 pager None [] tt
    = Some (tt, Returned (Ok [("a", 1); ("b", 2); ("c", 3); ("d", 4)]%string))
  /\ collect_pages 6 9 pager None [] tt = Some (tt, Returned (Ok all)).
Proof.
  split.
  - destruct (proj2 (listing_complete pager 4 tt) _ all 5%nat pager_runs (conj eq_refl eq_refl)) as ([] & H). exact H.
  - destruct (proj2 (listing_complete pager 9 tt) _ all 5%nat pager_runs (conj eq_refl eq_refl)) as ([] & H). exact H.
Defined.
