(* ===== verification/Gateway.v ===== *)
(** * The mock gateway (src/src/testing.rs, [MockGateway])

    The harness an author tests a plugin with: the chain of a tool call, the
    identity chain, HTTP dispatch, the fan-outs and the tables that bind a
    plugin to a role, a namespace, a scheme or a name. A plugin's method is a
    function of the world [W], the state of every plugin; a builder that would
    panic gives [None]. *)

From Stdlib Require Import Ascii String.
From S2P Require Import Prelude Json SqlGuard.

(** The types of the protocol crate, as far as the gateway reads them. *)
Inductive gate_view (jv : Type) :=
| VAllow
| VDeny (message : string)
| VChallenge (challenge_data : jv)
| VPendingApproval.
Arguments VAllow {jv}.
Arguments VDeny {jv} message.
Arguments VChallenge {jv} challenge_data.
Arguments VPendingApproval {jv}.

Inductive transform_view (jv : Type) := VUnchanged | VModified (value : jv) | VError (message : string).
Arguments VUnchanged {jv}.
Arguments VModified {jv} value.
Arguments VError {jv} message.

Inductive identity_view := VResolved | VInvalid | VNone.

Class ProtocolApi (jv : Type) := {
  GateDecision : Type;
  gate_is : GateDecision -> gate_view jv;
  TransformResult : Type;
  transform_is : TransformResult -> transform_view jv;
  IdentityResolution : Type;
  identity_is : IdentityResolution -> identity_view;
  identity_none : IdentityResolution;
  RequestMetadata : Type;
  metadata_default : RequestMetadata;
  Attribute : Type;
  RouteSpec : Type;
  spec_method : RouteSpec -> string;
  spec_path : RouteSpec -> string;
  HttpRouteRequest : Type;
  req_method : HttpRouteRequest -> string;
  req_full_path : HttpRouteRequest -> string;
  HttpRouteResponse : Type;
  response_status : Z -> HttpRouteResponse;
  AuditEvent : Type;
  AuditOutcome : Type;
  TelemetryItem : Type;
  LogItem : Type;
  StoreRole : Type;
  #[global] StoreRole_eq :: EqDecision StoreRole;
  #[global] StoreRole_countable :: Countable StoreRole;
  Store : Type;
  supported_roles : Store -> list StoreRole;
  Cache : Type;
  supported_namespaces : Cache -> list string;
  serves_any_namespace : Cache -> bool;
  SecretProvider : Type;
  secret_schemes : SecretProvider -> list string;
  ConfigProvider : Type;
  config_schemes : ConfigProvider -> list string;
  Transport : Type;
  transport_name : Transport -> string;
  PolicyEngine : Type;
  policy_name : PolicyEngine -> string;
  ClusterBackendRef : Type;
}.

Record PluginIdentity `{ProtocolApi jv} := {
  id_kind : string;
  trust_level : string;
  subject_id : option string;
  auth_provider : option string;
  issuer : option string;
  roles : list string;
  groups : list string;
  scopes : list string;
  attributes : gmap string Attribute;
}.

Record PluginContext `{ProtocolApi jv} := {
  request_id : string;
  session_id : option string;
  tool_name : string;
  surface : string;
  ctx_identity : PluginIdentity;
  transport : string;
}.

(** The plugins the gateway calls. *)
Record ToolGatePlugin (jv : Type) `{ProtocolApi jv} (W : Type) := {
  evaluate_pre_dispatch : PluginContext -> jv -> option jv -> jv -> W -> W * GateDecision;
  evaluate_post_dispatch : PluginContext -> jv -> jv -> Z -> jv -> W -> W * GateDecision;
}.
Arguments evaluate_pre_dispatch {jv _ W} _ _ _ _ _ _.
Arguments evaluate_post_dispatch {jv _ W} _ _ _ _ _ _ _.
Record TransformPlugin (jv : Type) `{ProtocolApi jv} (W : Type) := {
  transform_arguments : PluginContext -> jv -> jv -> W -> W * TransformResult;
  transform_result : PluginContext -> jv -> jv -> W -> W * TransformResult;
}.
Arguments transform_arguments {jv _ W} _ _ _ _ _.
Arguments transform_result {jv _ W} _ _ _ _ _.
Record IdentityProviderPlugin (jv : Type) `{ProtocolApi jv} (W : Type) := {
  resolve : list (string * string) -> RequestMetadata -> jv -> W -> W * IdentityResolution;
}.
Arguments resolve {jv _ W} _ _ _ _ _.
Record HttpRoute (jv : Type) `{ProtocolApi jv} (W : Type) := {
  routes : W -> W * list RouteSpec;
  handle : HttpRouteRequest -> W -> W * HttpRouteResponse;
}.
Arguments routes {jv _ W} _ _.
Arguments handle {jv _ W} _ _ _.

(** The gateway. *)
Record MockGateway (jv : Type) `{ProtocolApi jv} (W : Type) := MkGateway {
  tool_gates : list (ToolGatePlugin jv W * jv);
  transforms : list (TransformPlugin jv W * jv);
  identities : list (IdentityProviderPlugin jv W * jv);
  http_routes : list (string * HttpRoute jv W);
  audit_sinks : list (AuditEvent -> W -> W * AuditOutcome);
  stores : gmap StoreRole Store;
  caches : gmap string Cache;
  telemetry_sinks : list (TelemetryItem -> W -> W);
  log_sinks : list (LogItem -> W -> W);
  secret_providers : gmap string SecretProvider;
  config_providers : gmap string ConfigProvider;
  transports : gmap string Transport;
  policy_engines : gmap string PolicyEngine;
  cluster_backend : option ClusterBackendRef;
  default_identity : PluginIdentity;
}.
Arguments MkGateway {jv _ W} _ _ _ _ _ _ _ _ _ _ _ _ _ _ _.
Arguments tool_gates {jv _ W} _.
Arguments transforms {jv _ W} _.
Arguments identities {jv _ W} _.
Arguments http_routes {jv _ W} _.
Arguments audit_sinks {jv _ W} _.
Arguments stores {jv _ W} _.
Arguments caches {jv _ W} _.
Arguments telemetry_sinks {jv _ W} _.
Arguments log_sinks {jv _ W} _.
Arguments secret_providers {jv _ W} _.
Arguments config_providers {jv _ W} _.
Arguments transports {jv _ W} _.
Arguments policy_engines {jv _ W} _.
Arguments cluster_backend {jv _ W} _.
Arguments default_identity {jv _ W} _.

(** A [for] loop whose body may return: [inl] goes on with the new state,
    [inr] returns. *)
Fixpoint each {P S R W} (body : P -> S -> W -> W * (S + R)) (l : list P) (s : S) (w : W)
    : W * (S + R) :=
  match l with
  | [] => (w, inl s)
  | p :: l =>
      match body p s w with
      | (w, inl s) => each body l s w
      | (w, inr r) => (w, inr r)
      end
  end.

Section Gateway.
Context {jv : Type} `{J : Json jv} {PA : ProtocolApi jv} {W : Type}.
Abbreviation Gw := (MockGateway jv W).

Definition mock_identity : PluginIdentity := {|
  id_kind := "anonymous"; trust_level := "unauthenticated"; subject_id := None;
  auth_provider := None; issuer := None; roles := []; groups := []; scopes := [];
  attributes := ∅ |}.

Definition new_gateway : Gw :=
  MkGateway [] [] [] [] [] ∅ ∅ [] [] ∅ ∅ ∅ ∅ None mock_identity.

(** ** Builders *)

Definition empty_config : jv := j_obj ∅.

Definition with_tool_gate_config (p : ToolGatePlugin jv W) (config : jv) (g : Gw) : Gw :=
  let '(MkGateway tg tr id hr au st ca te lo se co ts po cl di) := g in
  MkGateway (tg ++ [(p, config)]) tr id hr au st ca te lo se co ts po cl di.
Definition with_tool_gate (p : ToolGatePlugin jv W) (g : Gw) : Gw :=
  with_tool_gate_config p empty_config g.
Definition with_transform_config (p : TransformPlugin jv W) (config : jv) (g : Gw) : Gw :=
  let '(MkGateway tg tr id hr au st ca te lo se co ts po cl di) := g in
  MkGateway tg (tr ++ [(p, config)]) id hr au st ca te lo se co ts po cl di.
Definition with_transform (p : TransformPlugin jv W) (g : Gw) : Gw :=
  with_transform_config p empty_config g.
Definition with_identity (p : IdentityProviderPlugin jv W) (g : Gw) : Gw :=
  let '(MkGateway tg tr id hr au st ca te lo se co ts po cl di) := g in
  MkGateway tg tr (id ++ [(p, empty_config)]) hr au st ca te lo se co ts po cl di.
Definition with_default_identity (i : PluginIdentity) (g : Gw) : Gw :=
  let '(MkGateway tg tr id hr au st ca te lo se co ts po cl di) := g in
  MkGateway tg tr id hr au st ca te lo se co ts po cl i.
Definition with_http_route (entity_name : string) (p : HttpRoute jv W) (g : Gw) : Gw :=
  let '(MkGateway tg tr id hr au st ca te lo se co ts po cl di) := g in
  MkGateway tg tr id (hr ++ [(entity_name, p)]) au st ca te lo se co ts po cl di.
Definition with_audit_sink (sink : AuditEvent -> W -> W * AuditOutcome) (g : Gw) : Gw :=
  let '(MkGateway tg tr id hr au st ca te lo se co ts po cl di) := g in
  MkGateway tg tr id hr (au ++ [sink]) st ca te lo se co ts po cl di.
Definition with_telemetry_sink (sink : TelemetryItem -> W -> W) (g : Gw) : Gw :=
  let '(MkGateway tg tr id hr au st ca te lo se co ts po cl di) := g in
  MkGateway tg tr id hr au st ca (te ++ [sink]) lo se co ts po cl di.
Definition with_log_sink (sink : LogItem -> W -> W) (g : Gw) : Gw :=
  let '(MkGateway tg tr id hr au st ca te lo se co ts po cl di) := g in
  MkGateway tg tr id hr au st ca te (lo ++ [sink]) se co ts po cl di.

Definition with_store (role : StoreRole) (plugin : Store) (g : Gw) : option Gw :=
  let '(MkGateway tg tr id hr au st ca te lo se co ts po cl di) := g in
  if bool_decide (role ∈ supported_roles plugin)
  then Some (MkGateway tg tr id hr au (<[role := plugin]> st) ca te lo se co ts po cl di)
  else None.
Definition with_cache (namespace : string) (plugin : Cache) (g : Gw) : option Gw :=
  let '(MkGateway tg tr id hr au st ca te lo se co ts po cl di) := g in
  if serves_any_namespace plugin
     || existsb (String.eqb namespace) (supported_namespaces plugin)
  then Some (MkGateway tg tr id hr au st (<[namespace := plugin]> ca) te lo se co ts po cl di)
  else None.
Definition with_secret_provider (scheme : string) (provider : SecretProvider) (g : Gw) : option Gw :=
  let '(MkGateway tg tr id hr au st ca te lo se co ts po cl di) := g in
  if existsb (String.eqb scheme) (secret_schemes provider)
  then Some (MkGateway tg tr id hr au st ca te lo (<[scheme := provider]> se) co ts po cl di)
  else None.
Definition with_config_provider (scheme : string) (provider : ConfigProvider) (g : Gw) : option Gw :=
  let '(MkGateway tg tr id hr au st ca te lo se co ts po cl di) := g in
  if existsb (String.eqb scheme) (config_schemes provider)
  then Some (MkGateway tg tr id hr au st ca te lo se (<[scheme := provider]> co) ts po cl di)
  else None.
Definition with_transport (t : Transport) (g : Gw) : option Gw :=
  let '(MkGateway tg tr id hr au st ca te lo se co ts po cl di) := g in
  let name := transport_name t in
  if bool_decide (name = ""%string) then None
  else if bool_decide (is_Some (ts !! name)) then None
  else Some (MkGateway tg tr id hr au st ca te lo se co (<[name := t]> ts) po cl di).
Definition with_policy_engine (e : PolicyEngine) (g : Gw) : option Gw :=
  let '(MkGateway tg tr id hr au st ca te lo se co ts po cl di) := g in
  let name := policy_name e in
  if bool_decide (name = ""%string) then None
  else if bool_decide (is_Some (po !! name)) then None
  else Some (MkGateway tg tr id hr au st ca te lo se co ts (<[name := e]> po) cl di).
Definition with_cluster_backend (c : ClusterBackendRef) (g : Gw) : option Gw :=
  let '(MkGateway tg tr id hr au st ca te lo se co ts po cl di) := g in
  match cl with
  | Some _ => None
  | None => Some (MkGateway tg tr id hr au st ca te lo se co ts po (Some c) di)
  end.

Definition store_for_role (g : Gw) (role : StoreRole) : option Store := stores g !! role.
Definition cache_for_namespace (g : Gw) (namespace : string) : option Cache :=
  caches g !! namespace.
Definition secret_provider_for_scheme (g : Gw) (scheme : string) : option SecretProvider :=
  secret_providers g !! scheme.
Definition config_provider_for_scheme (g : Gw) (scheme : string) : option ConfigProvider :=
  config_providers g !! scheme.
Definition transport_by_name (g : Gw) (name : string) : option Transport := transports g !! name.
Definition policy_engine_by_name (g : Gw) (name : string) : option PolicyEngine :=
  policy_engines g !! name.

(** ** Fan-out *)

Fixpoint emit_audit_loop (event : AuditEvent) (sinks : list (AuditEvent -> W -> W * AuditOutcome))
    (w : W) : W * list AuditOutcome :=
  match sinks with
  | [] => (w, [])
  | sink :: sinks =>
      let '(w, o) := sink event w in
      let '(w, out) := emit_audit_loop event sinks w in (w, o :: out)
  end.
Definition emit_audit (g : Gw) (event : AuditEvent) : W -> W * list AuditOutcome :=
  emit_audit_loop event (audit_sinks g).
(** [emit_telemetry_span_started], [_span_ended] and [_metric]. *)
Definition emit_telemetry (g : Gw) (item : TelemetryItem) (w : W) : W :=
  foldl (fun w sink => sink item w) w (telemetry_sinks g).
Definition emit_log_record (g : Gw) (record : LogItem) (w : W) : W :=
  foldl (fun w sink => sink record w) w (log_sinks g).

(** ** The tool call chain *)

Inductive ToolCallPhase :=
| PreDispatchGate
| PreDispatchTransform
| PostDispatchGate
| PostDispatchTransform
| Complete.

(** Every result of the code has empty metadata, against the field's doc. *)
Record ToolCallResult := {
  phase : ToolCallPhase;
  gate_decision : option GateDecision;
  arguments : jv;
  tc_result : option jv;
  metadata : list jv;
}.

Definition mock_context (g : Gw) (name : string) : PluginContext := {|
  request_id := "mock-request-1"; session_id := Some "mock-session-1"%string;
  tool_name := name; surface := "tool"; ctx_identity := default_identity g;
  transport := "mock" |}.

(** The bodies of the four loops. *)
Definition pre_gate (ctx : PluginContext) (arguments : jv) (meta : option jv)
    (gc : ToolGatePlugin jv W * jv) (s : unit) (w : W) : W * (unit + ToolCallResult) :=
  let '(w, decision) := evaluate_pre_dispatch gc.1 ctx arguments meta gc.2 w in
  match gate_is decision with
  | VAllow => (w, inl tt)
  | _ => (w, inr {| phase := PreDispatchGate; gate_decision := Some decision;
                    arguments := arguments; tc_result := None; metadata := [] |})
  end.

Definition error_value (message : string) : jv := j_obj {[ "error"%string := j_str message ]}.

Definition arg_transform (ctx : PluginContext) (tc : TransformPlugin jv W * jv) (args : jv) (w : W)
    : W * (jv + ToolCallResult) :=
  let '(w, t) := transform_arguments tc.1 ctx args tc.2 w in
  match transform_is t with
  | VUnchanged => (w, inl args)
  | VModified value => (w, inl value)
  | VError message =>
      (w, inr {| phase := PreDispatchTransform; gate_decision := None; arguments := args;
                 tc_result := Some (error_value message); metadata := [] |})
  end.

Definition execution_result (args : jv) : jv :=
  j_obj (<["content"%string :=
            j_arr [j_obj (<["type"%string := j_str "text"]> {["text"%string := j_str (j_print args)]})]]>
         {["isError"%string := j_bool false]}).

Definition result_transform (ctx : PluginContext) (args : jv) (tc : TransformPlugin jv W * jv)
    (current : jv) (w : W) : W * (jv + ToolCallResult) :=
  let '(w, t) := transform_result tc.1 ctx current tc.2 w in
  match transform_is t with
  | VUnchanged => (w, inl current)
  | VModified value => (w, inl value)
  | VError message =>
      (w, inr {| phase := PostDispatchTransform; gate_decision := None; arguments := args;
                 tc_result := Some (error_value message); metadata := [] |})
  end.

Definition post_gate (ctx : PluginContext) (args current : jv) (gc : ToolGatePlugin jv W * jv)
    (s : unit) (w : W) : W * (unit + ToolCallResult) :=
  let '(w, decision) := evaluate_post_dispatch gc.1 ctx args current 1 gc.2 w in
  match gate_is decision with
  | VAllow => (w, inl tt)
  | _ => (w, inr {| phase := PostDispatchGate; gate_decision := Some decision;
                    arguments := args; tc_result := Some current; metadata := [] |})
  end.

Definition call_tool_with_meta (g : Gw) (name : string) (arguments : jv) (meta : option jv) (w : W)
    : W * ToolCallResult :=
  let ctx := mock_context g name in
  match each (pre_gate ctx arguments meta) (tool_gates g) tt w with
  | (w, inr r) => (w, r)
  | (w, inl _) =>
  match each (arg_transform ctx) (transforms g) arguments w with
  | (w, inr r) => (w, r)
  | (w, inl args) =>
  match each (result_transform ctx args) (transforms g) (execution_result args) w with
  | (w, inr r) => (w, r)
  | (w, inl current) =>
  match each (post_gate ctx args current) (tool_gates g) tt w with
  | (w, inr r) => (w, r)
  | (w, inl _) =>
      (w, {| phase := Complete; gate_decision := None; arguments := args;
             tc_result := Some current; metadata := [] |})
  end end end end.

Definition call_tool (g : Gw) (name : string) (arguments : jv) (w : W) : W * ToolCallResult :=
  call_tool_with_meta g name arguments None w.

Definition is_allowed (r : ToolCallResult) : bool :=
  match phase r with Complete => true | _ => false end.
Definition denial_message (r : ToolCallResult) : option string :=
  match gate_is <$> gate_decision r with Some (VDeny message) => Some message | _ => None end.
Definition is_denied (r : ToolCallResult) : bool :=
  match gate_is <$> gate_decision r with Some (VDeny _) => true | _ => false end.
Definition is_challenged (r : ToolCallResult) : bool :=
  match gate_is <$> gate_decision r with Some (VChallenge _) => true | _ => false end.
Definition challenge_data_of (r : ToolCallResult) : option jv :=
  match gate_is <$> gate_decision r with Some (VChallenge data) => Some data | _ => None end.

(** [ToolCallResultAssertions]: [None] is the assertion's panic. *)
Definition assert_that (b : bool) : option unit := if b then Some tt else None.
Definition assert_allowed (r : ToolCallResult) : option unit := assert_that (is_allowed r).
Definition assert_denied (r : ToolCallResult) : option unit := assert_that (is_denied r).
Definition assert_challenged (r : ToolCallResult) : option unit := assert_that (is_challenged r).
Definition assert_denied_with_message (r : ToolCallResult) (expected : string) : option unit :=
  match assert_that (is_denied r) with
  | Some _ =>
      let msg := default ""%string (denial_message r) in
      assert_that (match String.index 0 expected msg with Some _ => true | None => false end)
  | None => None
  end.

(** ** Identity *)

Definition try_identity (headers : list (string * string)) (md : RequestMetadata)
    (pc : IdentityProviderPlugin jv W * jv) (s : unit) (w : W) : W * (unit + IdentityResolution) :=
  let '(w, r) := resolve pc.1 headers md pc.2 w in
  match identity_is r with
  | VNone => (w, inl tt)
  | _ => (w, inr r)
  end.

Definition resolve_identity_with_metadata (g : Gw) (headers : list (string * string))
    (md : RequestMetadata) (w : W) : W * IdentityResolution :=
  match each (try_identity headers md) (identities g) tt w with
  | (w, inr r) => (w, r)
  | (w, inl _) => (w, identity_none)
  end.
Definition resolve_identity (g : Gw) (headers : list (string * string)) : W -> W * IdentityResolution :=
  resolve_identity_with_metadata g headers metadata_default.
End Gateway.

(** ** HTTP dispatch *)

Definition is_slash (c : ascii) : bool := (c =? "/")%char.

(** [str::trim_start_matches('/')] and [trim_end_matches('/')]. *)
Fixpoint trim_start_slashes (l : bytes) : bytes :=
  match l with
  | c :: l' => if is_slash c then trim_start_slashes l' else l
  | [] => []
  end.
Definition trim_end_slashes (l : bytes) : bytes := reverse (trim_start_slashes (reverse l)).

(** [str::ends_with]. *)
Definition ends_with (l suffix : bytes) : bool :=
  bool_decide (drop (length l - length suffix) l = suffix).

Definition normalise (p : bytes) : bytes :=
  let trimmed := trim_end_slashes p in
  match trimmed with
  | [] => ["/"%char]
  | c :: _ => if is_slash c then trimmed else "/"%char :: trimmed
  end.

(** [str::eq_ignore_ascii_case]. *)
Definition eq_ignore_ascii_case (a b : string) : bool :=
  bool_decide (to_ascii_uppercase (chars a) = to_ascii_uppercase (chars b)).

Definition spec_matches (method path incoming_method incoming_path : string) : bool :=
  let method_ok := String.eqb method "*" || eq_ignore_ascii_case method incoming_method in
  if negb method_ok then false
  else
    let suffix := normalise (chars path) in
    let incoming := normalise (chars incoming_path) in
    bool_decide (incoming = suffix)
    || ends_with incoming ("/"%char :: trim_start_slashes suffix).

Definition call_http_route {jv : Type} `{PA : ProtocolApi jv} {W : Type} (g : MockGateway jv W)
    (entity_name : string) (req : HttpRouteRequest) (w : W) : W * HttpRouteResponse :=
  match List.find (fun e => String.eqb e.1 entity_name) (http_routes g) with
  | None => (w, response_status 404)
  | Some (_, plugin) =>
      let '(w, specs) := routes plugin w in
      if existsb (fun s => spec_matches (spec_method s) (spec_path s)
                             (req_method req) (req_full_path req)) specs
      then handle plugin req w
      else (w, response_status 404)
  end.

(** ** Contexts for tests *)

Section ContextBuilder.
Context `{PA : ProtocolApi jv}.

Record ContextBuilder := {
  cb_request_id : string;
  cb_session_id : option string;
  cb_tool_name : string;
  cb_identity : PluginIdentity;
  cb_transport : string;
}.

Definition identity_of_kind (kind trust : string) (subject provider iss : option string) : PluginIdentity := {|
  id_kind := kind; trust_level := trust; subject_id := subject; auth_provider := provider; issuer := iss;
  roles := []; groups := []; scopes := []; attributes := ∅ |}.

Definition new_context (name : string) : ContextBuilder := {|
  cb_request_id := "test-request-1"; cb_session_id := Some "test-session-1"%string; cb_tool_name := name;
  cb_identity := identity_of_kind "anonymous" "unauthenticated" None None None; cb_transport := "http" |}.
Definition with_request_id (b : ContextBuilder) (id : string) : ContextBuilder := {|
  cb_request_id := id; cb_session_id := cb_session_id b; cb_tool_name := cb_tool_name b;
  cb_identity := cb_identity b; cb_transport := cb_transport b |}.
Definition with_session_id (b : ContextBuilder) (id : string) : ContextBuilder := {|
  cb_request_id := cb_request_id b; cb_session_id := Some id; cb_tool_name := cb_tool_name b;
  cb_identity := cb_identity b; cb_transport := cb_transport b |}.
Definition with_identity_as (b : ContextBuilder) (i : PluginIdentity) : ContextBuilder := {|
  cb_request_id := cb_request_id b; cb_session_id := cb_session_id b; cb_tool_name := cb_tool_name b;
  cb_identity := i; cb_transport := cb_transport b |}.
Definition anonymous (b : ContextBuilder) : ContextBuilder :=
  with_identity_as b (identity_of_kind "anonymous" "unauthenticated" None None None).
Definition verified (b : ContextBuilder) (subject : string) : ContextBuilder :=
  with_identity_as b (identity_of_kind "verified" "verified" (Some subject) (Some "test"%string)
                        (Some "test-issuer"%string)).
Definition with_transport_name (b : ContextBuilder) (t : string) : ContextBuilder := {|
  cb_request_id := cb_request_id b; cb_session_id := cb_session_id b; cb_tool_name := cb_tool_name b;
  cb_identity := cb_identity b; cb_transport := t |}.
Definition build_context (b : ContextBuilder) : PluginContext := {|
  request_id := cb_request_id b; session_id := cb_session_id b; tool_name := cb_tool_name b;
  surface := "tool"; ctx_identity := cb_identity b; transport := cb_transport b |}.
End ContextBuilder.
