(* ===== verification/GatewayFacts.v ===== *)
(** * Properties of the mock gateway

    Plugins are recorded by position, so that the order in which a call
    consults them is part of a theorem's statement. *)

From Stdlib Require Import Ascii String.
From S2P Require Import Prelude Json SqlGuard Gateway.

(** ** Recording *)

(** Who a call consulted: a gate before the call, a transform on the
    arguments, a transform on the result, a gate after the call. *)
Inductive visit := ByPre (i : nat) | ByArg (i : nat) | ByRes (i : nat) | ByPost (i : nat) | ById (i : nat).

(** The visits of a call, and those that did not let it go on. *)
Abbreviation visits := (list visit * list visit)%type.

Section EachRecorded.
Context {P P' S R W : Type}.
Variable body : P -> S -> W -> W * (S + R).
Variable body' : P' -> S -> W * visits -> (W * visits) * (S + R).
Variable tag : nat -> P -> P'.
Variable visited : nat -> visit.

Definition stop_at (o : S + R) (v : visit) (bad : list visit) : list visit :=
  match o with inl _ => bad | inr _ => bad ++ [v] end.

Hypothesis body_tag : forall i p s w log bad,
  body' (tag i p) s (w, (log, bad))
  = let '(w', o) := body p s w in ((w', (log ++ [visited i], stop_at o (visited i) bad)), o).

(** A recorded loop consults its items in order, up to the one that
    returns, which alone did not let it go on. *)
Lemma each_recorded l off s w log bad :
  exists k o w', each body l s w = (w', o)
  /\ each body' (imap (fun i => tag (off + i)) l) s (w, (log, bad))
     = ((w', (log ++ take k (visited <$> seq off (length l)),
              stop_at o (visited (off + pred k)) bad)), o)
  /\ match o with
     | inl _ => k = length l
     | inr r => (exists i, k = Datatypes.S i /\ (i < length l)%nat)
                /\ exists p s0 w0 w1, body p s0 w0 = (w1, inr r)
     end.
Proof.
  revert off s w log. induction l as [|p l IH]; intros off s w log; simpl.
  - exists 0%nat, (inl s), w. rewrite app_nil_r. done.
  - rewrite Nat.add_0_r, body_tag. destruct (body p s w) as [w1 [s1|r]] eqn:Hb; simpl.
    + destruct (IH (Datatypes.S off) s1 w1 (log ++ [visited off])) as (k & o & w' & He & He' & Ho).
      exists (Datatypes.S k), o, w'. rewrite He. split; [done|]. split.
      * rewrite <- (assoc_L (++)) in He'. etrans; [etrans; [|exact He']|].
        -- f_equal. apply imap_ext. intros i x _. simpl. by rewrite Nat.add_succ_r.
        -- destruct o as [?|r]; [done|]. destruct Ho as [(i & -> & _) _].
           simpl. by rewrite Nat.add_succ_r.
      * destruct o as [?|r]; [lia|]. destruct Ho as [(i & -> & Hi) Hr].
        split; [|done]. exists (Datatypes.S i). lia.
    + exists 1%nat, (inr r), w1. split; [done|]. split; [by rewrite Nat.add_0_r|].
      split; [exists 0%nat; lia|]. by exists p, s, w, w1.
Qed.
End EachRecorded.

Section Recorded.
Context {jv : Type} `{J : Json jv} {PA : ProtocolApi jv} {W : Type}.
Abbreviation Gw := (MockGateway jv W).
Abbreviation WL := (W * visits)%type.

Definition note {A} (goes_on : A -> bool) (v : visit) (f : W -> W * A) : WL -> WL * A :=
  fun wl => let '(w, a) := f wl.1 in
    ((w, (wl.2.1 ++ [v], if goes_on a then wl.2.2 else wl.2.2 ++ [v])), a).

Definition allows (d : GateDecision) : bool := match gate_is d with VAllow => true | _ => false end.
Definition succeeds (t : TransformResult) : bool :=
  match transform_is t with VError _ => false | _ => true end.
Definition abstains (r : IdentityResolution) : bool :=
  match identity_is r with VNone => true | _ => false end.

Definition recorded_gate (i : nat) (gc : ToolGatePlugin jv W * jv) : ToolGatePlugin jv WL * jv :=
  ({| evaluate_pre_dispatch c a m k := note allows (ByPre i) (evaluate_pre_dispatch gc.1 c a m k);
      evaluate_post_dispatch c a r t k :=
        note allows (ByPost i) (evaluate_post_dispatch gc.1 c a r t k) |}, gc.2).
Definition recorded_transform (i : nat) (tc : TransformPlugin jv W * jv) : TransformPlugin jv WL * jv :=
  ({| transform_arguments c a k := note succeeds (ByArg i) (transform_arguments tc.1 c a k);
      transform_result c a k := note succeeds (ByRes i) (transform_result tc.1 c a k) |}, tc.2).
Definition recorded_identity (i : nat) (pc : IdentityProviderPlugin jv W * jv)
    : IdentityProviderPlugin jv WL * jv :=
  ({| resolve h m k := note abstains (ById i) (resolve pc.1 h m k) |}, pc.2).

(** The gateway with every chain plugin recorded. *)
Definition recorded (g : Gw) : MockGateway jv WL :=
  MkGateway (imap recorded_gate (tool_gates g)) (imap recorded_transform (transforms g))
    (imap recorded_identity (identities g)) [] [] (stores g) (caches g) [] []
    (secret_providers g) (config_providers g) (transports g) (policy_engines g)
    (cluster_backend g) (default_identity g).

Definition n_gates (g : Gw) : nat := length (tool_gates g).
Definition n_transforms (g : Gw) : nat := length (transforms g).

(** The documented order of a call. *)
Definition order (g : Gw) : list visit :=
  (ByPre <$> seq 0 (n_gates g)) ++ (ByArg <$> seq 0 (n_transforms g))
  ++ (ByRes <$> seq 0 (n_transforms g)) ++ (ByPost <$> seq 0 (n_gates g)).

Definition blocked (r : ToolCallResult) : Prop :=
  exists d, gate_decision r = Some d /\ gate_is d <> VAllow.
Definition failed (r : ToolCallResult) : Prop :=
  gate_decision r = None /\ exists message, tc_result r = Some (error_value message).

(** What the result of a call says, [k] plugins of the order consulted and
    those of [bad] not letting it go on. *)
Definition verdict (g : Gw) (args : jv) (k : nat) (bad : list visit) (r : ToolCallResult) : Prop :=
  let n := n_gates g in let m := n_transforms g in
  metadata r = [] /\
  match phase r with
  | PreDispatchGate =>
      (exists i, (k = S i /\ i < n)%nat /\ bad = [ByPre i])
      /\ blocked r /\ arguments r = args /\ tc_result r = None
  | PreDispatchTransform =>
      (exists i, (k = n + S i /\ i < m)%nat /\ bad = [ByArg i]) /\ failed r
  | PostDispatchTransform =>
      (exists i, (k = n + (m + S i) /\ i < m)%nat /\ bad = [ByRes i]) /\ failed r
  | PostDispatchGate =>
      (exists i, (k = n + (m + (m + S i)) /\ i < n)%nat /\ bad = [ByPost i])
      /\ blocked r /\ is_Some (tc_result r)
  | Complete => k = length (order g) /\ bad = [] /\ gate_decision r = None /\ is_Some (tc_result r)
  end.

(** One stage of a call: a recorded loop over the gates or the transforms,
    and what a result that it returns says. *)
Definition stage {P P' S} (body : P -> S -> W -> W * (S + ToolCallResult))
    (body' : P' -> S -> WL -> WL * (S + ToolCallResult)) (tag : nat -> P -> P')
    (v : nat -> visit) (l : list P) (returned : ToolCallResult -> Prop) : Prop :=
  forall s w log bad, exists k o w', each body l s w = (w', o)
    /\ each body' (imap tag l) s (w, (log, bad))
       = ((w', (log ++ take k (v <$> seq 0 (length l)), stop_at o (v (pred k)) bad)), o)
    /\ match o with
       | inl _ => k = length l
       | inr r => (exists i, k = Datatypes.S i /\ (i < length l)%nat)
                  /\ metadata r = [] /\ returned r
       end.

Lemma recorded_stage {P P' S} body body' tag v l returned :
  (forall i p s w log bad,
    body' (tag i p) s (w, (log, bad))
    = let '(w', o) := body p s w in ((w', (log ++ [v i], stop_at o (v i) bad)), o)) ->
  (forall p s w w' r, body p s w = (w', inr r) -> metadata r = [] /\ returned r) ->
  @stage P P' S body body' tag v l returned.
Proof.
  intros Htag Hret s w log bad.
  destruct (each_recorded body body' tag v Htag l 0 s w log bad) as (k & o & w' & He & He' & Ho).
  exists k, o, w'. split; [done|]. split; [exact He'|].
  destruct o as [?|r]; [done|]. destruct Ho as [Hi (p & s0 & w0 & w1 & Hr)]. eauto.
Qed.

(** A stage holds by cases on what the plugin answers. *)
Ltac solve_stage :=
  apply recorded_stage; intros;
  unfold pre_gate, post_gate, arg_transform, result_transform, recorded_gate,
    recorded_transform, note, allows, succeeds in *; simpl in *;
  repeat case_match; simplify_eq/=; repeat split; try done;
  try congruence;
  try (eexists; split; [done|congruence]); eauto.

Lemma pre_stage (g : Gw) c args meta :
  stage (pre_gate c args meta) (pre_gate c args meta) recorded_gate ByPre (tool_gates g)
    (fun r => phase r = PreDispatchGate /\ blocked r /\ arguments r = args /\ tc_result r = None).
Proof. solve_stage. Qed.

Lemma post_stage (g : Gw) c args cur :
  stage (post_gate c args cur) (post_gate c args cur) recorded_gate ByPost (tool_gates g)
    (fun r => phase r = PostDispatchGate /\ blocked r /\ is_Some (tc_result r)).
Proof. solve_stage. Qed.

Lemma arg_stage (g : Gw) c :
  stage (arg_transform c) (arg_transform c) recorded_transform ByArg (transforms g)
    (fun r => phase r = PreDispatchTransform /\ failed r).
Proof. solve_stage. Qed.

Lemma result_stage (g : Gw) c args :
  stage (result_transform c args) (result_transform c args) recorded_transform ByRes (transforms g)
    (fun r => phase r = PostDispatchTransform /\ failed r).
Proof. solve_stage. Qed.

(** The log of a call, stage by stage. *)
Lemma take_full (f : nat -> visit) n k : (n <= k)%nat -> take k (f <$> seq 0 n) = f <$> seq 0 n.
Proof. intros. apply take_ge. by rewrite length_fmap, length_seq. Qed.
Lemma take_in (f : nat -> visit) n k l :
  (k <= n)%nat -> take k ((f <$> seq 0 n) ++ l) = take k (f <$> seq 0 n).
Proof. intros. apply take_app_le. by rewrite length_fmap, length_seq. Qed.
Lemma take_past (f : nat -> visit) n k l :
  take (n + k) ((f <$> seq 0 n) ++ l) = (f <$> seq 0 n) ++ take k l.
Proof. rewrite take_app, length_fmap, length_seq. f_equal; [|f_equal; lia]. apply take_full. lia. Qed.

Lemma chain_phases (g : Gw) name args meta w :
  exists w' r k bad, call_tool_with_meta g name args meta w = (w', r)
    /\ call_tool_with_meta (recorded g) name args meta (w, ([], []))
       = ((w', (take k (order g), bad)), r)
    /\ verdict g args k bad r.
Proof.
  unfold call_tool_with_meta. simpl.
  change (mock_context (recorded g) name) with (mock_context g name).
  set (c := mock_context g name). unfold order.
  destruct (pre_stage g c args meta tt w [] []) as (k & o & w1 & -> & -> & Ho).
  fold (n_gates g) in *. simpl. destruct o as [u|r]; simpl.
  2: { destruct Ho as [(i & -> & Hi) (Hm & Hp & ?)]. exists w1, r, (S i), [ByPre i].
       rewrite take_in by lia. unfold verdict. rewrite Hp. eauto 10. }
  subst k. rewrite take_full by done.
  destruct (arg_stage g c args w1 (ByPre <$> seq 0 (n_gates g)) []) as (k & o & w2 & -> & -> & Ho).
  fold (n_transforms g) in *. destruct o as [args'|r]; simpl.
  2: { destruct Ho as [(i & -> & Hi) (Hm & Hp & ?)]. exists w2, r, (n_gates g + S i)%nat, [ByArg i].
       rewrite take_past, take_in by lia. unfold verdict. rewrite Hp. eauto 10. }
  subst k. rewrite take_full by done.
  destruct (result_stage g c args' (execution_result args') w2
    ((ByPre <$> seq 0 (n_gates g)) ++ (ByArg <$> seq 0 (n_transforms g))) [])
    as (k & o & w3 & -> & -> & Ho).
  fold (n_transforms g) in *. destruct o as [cur|r]; simpl.
  2: { destruct Ho as [(i & -> & Hi) (Hm & Hp & ?)].
       exists w3, r, (n_gates g + (n_transforms g + S i))%nat, [ByRes i].
       rewrite !take_past, take_in, <- (assoc_L (++)) by lia. unfold verdict. rewrite Hp. eauto 10. }
  subst k. rewrite take_full by done. rewrite <- !(assoc_L (++)).
  destruct (post_stage g c args' cur tt w3
    ((ByPre <$> seq 0 (n_gates g)) ++ (ByArg <$> seq 0 (n_transforms g))
     ++ (ByRes <$> seq 0 (n_transforms g))) []) as (k & o & w4 & -> & -> & Ho).
  fold (n_gates g) in *. destruct o as [u'|r]; simpl.
  - subst k. eexists w4, _, (length (order g)), [].
    rewrite take_full, (take_ge (order g)), <- !(assoc_L (++)) by done.
    split; [done|]. split; [done|]. unfold verdict. simpl. eauto 10.
  - destruct Ho as [(i & -> & Hi) (Hm & Hp & ?)].
    exists w4, r, (n_gates g + (n_transforms g + (n_transforms g + S i)))%nat, [ByPost i].
    rewrite !take_past, <- !(assoc_L (++)). unfold verdict. rewrite Hp. eauto 10.
Qed.
End Recorded.

(** ** Builders *)

Section Builders.
Context {jv : Type} `{J : Json jv} {PA : ProtocolApi jv} {W : Type}.
Abbreviation Gw := (MockGateway jv W).

(** A call of a [with_*] method. *)
Inductive builder_call :=
| WithToolGate (p : ToolGatePlugin jv W)
| WithToolGateConfig (p : ToolGatePlugin jv W) (config : jv)
| WithTransform (p : TransformPlugin jv W)
| WithTransformConfig (p : TransformPlugin jv W) (config : jv)
| WithIdentity (p : IdentityProviderPlugin jv W)
| WithDefaultIdentity (i : PluginIdentity)
| WithHttpRoute (entity_name : string) (p : HttpRoute jv W)
| WithAuditSink (sink : AuditEvent -> W -> W * AuditOutcome)
| WithTelemetrySink (sink : TelemetryItem -> W -> W)
| WithLogSink (sink : LogItem -> W -> W)
| WithStore (role : StoreRole) (s : Store)
| WithCache (namespace : string) (c : Cache)
| WithSecretProvider (scheme : string) (p : SecretProvider)
| WithConfigProvider (scheme : string) (p : ConfigProvider)
| WithTransport (t : Transport)
| WithPolicyEngine (e : PolicyEngine)
| WithClusterBackend (c : ClusterBackendRef).

Definition build_call (c : builder_call) (g : Gw) : option Gw :=
  match c with
  | WithToolGate p => Some (with_tool_gate p g)
  | WithToolGateConfig p config => Some (with_tool_gate_config p config g)
  | WithTransform p => Some (with_transform p g)
  | WithTransformConfig p config => Some (with_transform_config p config g)
  | WithIdentity p => Some (with_identity p g)
  | WithDefaultIdentity i => Some (with_default_identity i g)
  | WithHttpRoute n p => Some (with_http_route n p g)
  | WithAuditSink s => Some (with_audit_sink s g)
  | WithTelemetrySink s => Some (with_telemetry_sink s g)
  | WithLogSink s => Some (with_log_sink s g)
  | WithStore r s => with_store r s g
  | WithCache n c => with_cache n c g
  | WithSecretProvider n p => with_secret_provider n p g
  | WithConfigProvider n p => with_config_provider n p g
  | WithTransport t => with_transport t g
  | WithPolicyEngine e => with_policy_engine e g
  | WithClusterBackend c => with_cluster_backend c g
  end.

Fixpoint build (calls : list builder_call) (g : Gw) : option Gw :=
  match calls with
  | [] => Some g
  | c :: calls => build_call c g ≫= build calls
  end.

(** Every binding is one the plugin advertises. *)
Record tables_ok (g : Gw) : Prop := {
  store_ok : map_Forall (fun r s => r ∈ supported_roles s) (stores g);
  cache_ok : map_Forall (fun n c => serves_any_namespace c = true \/ n ∈ supported_namespaces c)
               (caches g);
  secret_ok : map_Forall (fun n p => n ∈ secret_schemes p) (secret_providers g);
  config_ok : map_Forall (fun n p => n ∈ config_schemes p) (config_providers g);
  transport_ok : map_Forall (fun n t => n = transport_name t /\ n <> ""%string) (transports g);
  policy_ok : map_Forall (fun n e => n = policy_name e /\ n <> ""%string) (policy_engines g);
}.

(** What a call binds, in each table. *)
Definition binds_store (role : StoreRole) (c : builder_call) : option Store :=
  match c with WithStore r s => if bool_decide (r = role) then Some s else None | _ => None end.
Definition binds_cache (n : string) (c : builder_call) : option Cache :=
  match c with WithCache n' p => if bool_decide (n' = n) then Some p else None | _ => None end.
Definition binds_secret (n : string) (c : builder_call) : option SecretProvider :=
  match c with WithSecretProvider n' p => if bool_decide (n' = n) then Some p else None | _ => None end.
Definition binds_config (n : string) (c : builder_call) : option ConfigProvider :=
  match c with WithConfigProvider n' p => if bool_decide (n' = n) then Some p else None | _ => None end.
Definition binds_transport (n : string) (c : builder_call) : option Transport :=
  match c with
  | WithTransport t => if bool_decide (transport_name t = n) then Some t else None
  | _ => None
  end.
Definition binds_policy (n : string) (c : builder_call) : option PolicyEngine :=
  match c with
  | WithPolicyEngine e => if bool_decide (policy_name e = n) then Some e else None
  | _ => None
  end.
Definition binds_cluster (c : builder_call) : option ClusterBackendRef :=
  match c with WithClusterBackend b => Some b | _ => None end.

Lemma existsb_elem n l : existsb (String.eqb n) l = true -> n ∈ l.
Proof. intros (x & Hx & He%String.eqb_eq)%existsb_exists. subst. by apply list_elem_of_In. Qed.

Lemma build_call_ok c g g' : build_call c g = Some g' -> tables_ok g -> tables_ok g'.
Proof.
  intros H [H1 H2 H3 H4 H5 H6]. destruct g as [tg tr id hr au st ca te lo se co ts po cl di].
  destruct c; simpl in *; repeat case_bool_decide; repeat case_match; simplify_eq/=;
    constructor; simpl; try done; apply map_Forall_insert_2; auto using existsb_elem.
  apply orb_true_iff in H0 as [?|?]; auto using existsb_elem.
Qed.

(** A chain of maps is read off its calls, the last binding of a key
    first. *)
Definition tables_are (calls : list builder_call) (g : Gw) : Prop :=
  (forall r, store_for_role g r = last (omap (binds_store r) calls))
  /\ (forall n, cache_for_namespace g n = last (omap (binds_cache n) calls))
  /\ (forall n, secret_provider_for_scheme g n = last (omap (binds_secret n) calls))
  /\ (forall n, config_provider_for_scheme g n = last (omap (binds_config n) calls))
  /\ (forall n, transport_by_name g n = last (omap (binds_transport n) calls))
  /\ (forall n, policy_engine_by_name g n = last (omap (binds_policy n) calls))
  /\ cluster_backend g = last (omap binds_cluster calls).

(** A name and the coordinator are bound at most once. *)
Definition bound_once (calls : list builder_call) : Prop :=
  (forall n, length (omap (binds_transport n) calls) <= 1)%nat
  /\ (forall n, length (omap (binds_policy n) calls) <= 1)%nat
  /\ (length (omap binds_cluster calls) <= 1)%nat.

Lemma last_omap_snoc {A B} (f : A -> option B) l x :
  last (omap f (l ++ [x])) = match f x with Some y => Some y | None => last (omap f l) end.
Proof.
  rewrite omap_app. simpl. destruct (f x); [by rewrite last_snoc|by rewrite app_nil_r].
Qed.

Lemma length_omap_snoc {A B} (f : A -> option B) l x :
  length (omap f (l ++ [x])) = (length (omap f l) + match f x with Some _ => 1 | None => 0 end)%nat.
Proof. rewrite omap_app, length_app. simpl. by destruct (f x). Qed.

Lemma last_none_length {A} (l : list A) : last l = None -> length l = 0%nat.
Proof. by intros ->%last_None. Qed.

Lemma tables_snoc calls c g g' :
  tables_are calls g -> build_call c g = Some g' -> tables_are (calls ++ [c]) g'.
Proof.
  intros (H1 & H2 & H3 & H4 & H5 & H6 & H7) H.
  destruct g as [tg tr id hr au st ca te lo se co ts po cl di].
  unfold store_for_role, cache_for_namespace, secret_provider_for_scheme,
    config_provider_for_scheme, transport_by_name, policy_engine_by_name in *; simpl in *.
  repeat split; intros; rewrite last_omap_snoc;
    destruct c; simpl in *; repeat case_bool_decide; repeat case_match; simplify_eq/=; auto;
    unfold store_for_role, cache_for_namespace, secret_provider_for_scheme,
      config_provider_for_scheme, transport_by_name, policy_engine_by_name; simpl;
    rewrite ?lookup_insert_eq, ?lookup_insert_ne by done; auto.
Qed.

Lemma once_snoc calls c g g' :
  tables_are calls g -> build_call c g = Some g' -> bound_once calls -> bound_once (calls ++ [c]).
Proof.
  intros (_ & _ & _ & _ & H5 & H6 & H7) H (O1 & O2 & O3).
  destruct g as [tg tr id hr au st ca te lo se co ts po cl di].
  unfold transport_by_name, policy_engine_by_name in *; simpl in *.
  repeat split; intros; rewrite length_omap_snoc; destruct c; simpl in *;
    rewrite ?Nat.add_0_r; auto; repeat case_bool_decide; repeat case_match; simplify_eq/=;
    rewrite ?Nat.add_0_r; auto.
  - match goal with Hn : ~ is_Some (ts !! _) |- _ => apply eq_None_not_Some in Hn; rewrite H5 in Hn end.
    rewrite last_none_length by done. lia.
  - match goal with Hn : ~ is_Some (po !! _) |- _ => apply eq_None_not_Some in Hn; rewrite H6 in Hn end.
    rewrite last_none_length by done. lia.
  - rewrite last_none_length by done. lia.
Qed.

Lemma build_snoc calls c g : build (calls ++ [c]) g = build calls g ≫= build_call c.
Proof.
  revert g. induction calls as [|c' calls IH]; intros g; simpl; [by destruct (build_call c g)|].
  destruct (build_call c' g); simpl; [apply IH|done].
Qed.

Lemma build_facts calls g :
  build calls new_gateway = Some g -> tables_ok g /\ tables_are calls g /\ bound_once calls.
Proof.
  revert g. induction calls as [|c calls IH] using rev_ind; intros g.
  - intros [= <-]. split; [constructor; apply map_Forall_empty|].
    split; repeat split; intros; simpl; try apply lookup_empty; auto.
  - rewrite build_snoc. destruct (build calls new_gateway) as [g0|] eqn:Hb; [|done].
    intros Hc. simpl in Hc. destruct (IH g0 eq_refl) as (H1 & H2 & H3).
    split; [by eapply build_call_ok|]. split; [by eapply tables_snoc|by eapply once_snoc].
Qed.
End Builders.

(** ** Routes *)

Abbreviation slash := ("/"%char).
Definition slashes (k : nat) : bytes := replicate k slash.

Lemma is_slash_true c : is_slash c = true <-> c = slash.
Proof. unfold is_slash. apply Ascii.eqb_eq. Qed.
Lemma is_slash_false c : is_slash c = false <-> c <> slash.
Proof. unfold is_slash. apply Ascii.eqb_neq. Qed.

Lemma trim_start_slashes_split l :
  exists k, l = slashes k ++ trim_start_slashes l /\ head (trim_start_slashes l) <> Some slash.
Proof.
  induction l as [|c l (k & Hl & Hh)]; [by exists 0%nat|]. simpl.
  destruct (is_slash c) eqn:Hc.
  - apply is_slash_true in Hc as ->. exists (S k). split; [|done].
    unfold slashes in *. simpl. by f_equal.
  - exists 0%nat. split; [done|]. apply is_slash_false in Hc. simpl. congruence.
Qed.

Lemma trim_start_slashes_id l : head l <> Some slash -> trim_start_slashes l = l.
Proof.
  destruct l as [|c l]; intros H; [done|]. simpl.
  destruct (is_slash c) eqn:Hc; [|done]. apply is_slash_true in Hc as ->. done.
Qed.

Lemma trim_start_slashes_app k l : trim_start_slashes (slashes k ++ l) = trim_start_slashes l.
Proof. induction k as [|k IH]; simpl; [done|]. apply IH. Qed.

Lemma trim_end_slashes_split l :
  exists k, l = trim_end_slashes l ++ slashes k /\ last (trim_end_slashes l) <> Some slash.
Proof.
  destruct (trim_start_slashes_split (reverse l)) as (k & Hl & Hh). exists k. unfold trim_end_slashes.
  rewrite last_reverse. split; [|done].
  apply (f_equal reverse) in Hl. rewrite reverse_involutive, reverse_app in Hl.
  unfold slashes in *. by rewrite reverse_replicate in Hl.
Qed.

Lemma trim_end_slashes_app l k : last l <> Some slash -> trim_end_slashes (l ++ slashes k) = l.
Proof.
  intros H. unfold trim_end_slashes, slashes. rewrite reverse_app, reverse_replicate.
  fold (slashes k). rewrite trim_start_slashes_app, trim_start_slashes_id by by rewrite head_reverse.
  apply reverse_involutive.
Qed.

Lemma ends_with_true l s : ends_with l s = true <-> exists m, l = m ++ s.
Proof.
  unfold ends_with. rewrite bool_decide_eq_true. split.
  - intros H. exists (take (length l - length s) l). rewrite <- H at 2. by rewrite take_drop.
  - intros [m ->]. rewrite length_app. replace (length m + length s - length s)%nat with (length m) by lia.
    apply drop_app_length.
Qed.

(** A normalised path starts with a slash, and ends with one only when it is
    the root. *)
Lemma normalise_route rest :
  last rest <> Some slash -> normalise (slash :: rest) = slash :: rest.
Proof.
  intros Hl. unfold normalise. destruct rest as [|c rest]; [done|].
  assert (trim_end_slashes (slash :: c :: rest) = slash :: c :: rest) as ->; [|done].
  rewrite <- (app_nil_r (slash :: c :: rest)) at 1.
  by apply (trim_end_slashes_app (slash :: c :: rest) 0).
Qed.

Lemma normalise_ends p rest :
  head rest <> Some slash -> last rest <> Some slash ->
  (exists m, normalise p = m ++ slash :: rest)
  <-> exists mount k, slash :: p = mount ++ slash :: rest ++ slashes k /\ (rest = [] -> mount = []).
Proof.
  intros Hh Hl. destruct (trim_end_slashes_split p) as (k & Hp & Hq). unfold normalise.
  set (q := trim_end_slashes p) in *. destruct (decide (rest = [])) as [->|Hr].
  - split.
    + intros [m Hm]. exists [], k. split; [|done]. simpl. f_equal. rewrite Hp.
      assert (q = []) as ->; [|done]. apply dec_stable. intros Hne.
      assert (last (m ++ [slash]) = last q) as He.
      { destruct q as [|c q']; [done|]. rewrite <- Hm. destruct (is_slash c); [done|].
        by rewrite last_cons_cons. }
      by rewrite last_snoc in He.
    + intros (mount & k' & He & Hm). rewrite (Hm eq_refl) in He. injection He as He.
      assert (q = []) as ->; [|by exists []].
      unfold q. rewrite He. by apply (trim_end_slashes_app [] k').
  - split.
    + intros [m Hm]. assert (q <> []) as Hne.
      { intros E. rewrite E in Hm. apply (f_equal length) in Hm. rewrite length_app in Hm.
        destruct rest; [done|]. simpl in Hm. lia. }
      destruct q as [|c q'] eqn:Eq; [done|]. destruct (is_slash c) eqn:Hc.
      * exists (slash :: m), k. split; [|done]. simpl. f_equal. rewrite Hp, Hm.
        by rewrite <- (assoc_L (++)).
      * exists m, k. split; [|done]. rewrite Hp, app_comm_cons, Hm. by rewrite <- (assoc_L (++)).
    + intros (mount & k' & He & _). destruct mount as [|c mount]; simpl in He;
        [injection He as He1|injection He as He1 He2].
      * assert (q = rest) as ->. { unfold q. rewrite He1. by apply trim_end_slashes_app. }
        destruct rest as [|c rest]; [done|]. rewrite (proj2 (is_slash_false c)) by (simpl in Hh; congruence).
        by exists [].
      * assert (q = mount ++ slash :: rest) as ->.
        { unfold q. rewrite He2. rewrite app_comm_cons, (assoc_L (++)). apply trim_end_slashes_app.
          rewrite last_app_cons. destruct rest; [done|]. by rewrite last_cons_cons. }
        destruct (mount ++ slash :: rest) as [|d t] eqn:Ed; [by destruct mount|].
        destruct (is_slash d); [by exists mount|by exists (slash :: mount); rewrite <- Ed].
Qed.

(** ** Properties *)

Section Properties.
Context {jv : Type} `{J : Json jv} {PA : ProtocolApi jv} {W : Type}.

(** C14. A tool call consults its plugins in the documented order and no one
    after the plugin that stops it: the gates, the transforms on the
    arguments, the transforms on the result, the gates again. Its result
    names the stage that stopped it, a gate stopping only with a decision
    that is not an allow and before the call with the caller's own
    arguments; that plugin alone did not let the call go on, and a complete
    call consulted the whole order and was let through by all of it. The
    metadata of every result is empty, whatever the decisions that allowed the
    call carried, though the doc of the field promises to collect it. Recording
    the visits changes nothing. *)
Theorem tool_call_chain (g : MockGateway jv W) name args meta w :
  exists w' r k bad, call_tool_with_meta g name args meta w = (w', r)
    /\ call_tool_with_meta (recorded g) name args meta (w, ([], []))
       = ((w', (take k (order g), bad)), r)
    /\ verdict g args k bad r.
Proof. apply chain_phases. Qed.

(** At most one of the three assertions passes on the result of a call; none on
    one a gate left pending or a transform failed. *)
Lemma assertions_exclusive (g : MockGateway jv W) name args meta w :
  let r := (call_tool_with_meta g name args meta w).2 in
  (assert_allowed r = Some tt -> assert_denied r = None /\ assert_challenged r = None)
  /\ (assert_denied r = Some tt -> assert_challenged r = None).
Proof.
  destruct (chain_phases g name args meta w) as (w' & r & k & bad & -> & _ & Hv). simpl.
  unfold assert_allowed, assert_denied, assert_challenged, assert_that, is_allowed, is_denied, is_challenged.
  split.
  - unfold verdict in Hv. destruct (phase r); try done. destruct Hv as (_ & _ & _ & -> & _). done.
  - destruct (gate_is <$> gate_decision r) as [[]|]; done.
Qed.

(** C28. A gateway that was built never holds a binding its plugin does not
    advertise, a lookup gives the latest binding of its key and nothing that
    was never bound, and a transport name, a policy engine name and the
    cluster coordinator are bound at most once. *)
Theorem built_tables (calls : list (builder_call (jv := jv) (W := W))) g :
  build calls new_gateway = Some g -> tables_ok g /\ tables_are calls g /\ bound_once calls.
Proof. apply build_facts. Qed.
End Properties.

(** Which paths a route matches: the method agrees, or the route takes any,
    and the path is the route's under some mount prefix, trailing slashes
    aside, the prefix ending on a segment boundary; the root route alone
    matches no mounted path. *)
Theorem route_matches_iff method im rest p :
  head rest <> Some slash -> last rest <> Some slash ->
  spec_matches method (unchars (slash :: rest)) im (unchars p) = true
  <-> (method = "*"%string \/ eq_ignore_ascii_case method im = true)
      /\ exists mount k, slash :: p = mount ++ slash :: rest ++ slashes k /\ (rest = [] -> mount = []).
Proof.
  intros Hh Hl. unfold spec_matches. rewrite !chars_unchars, normalise_route by done.
  rewrite <- normalise_ends by done.
  assert (trim_start_slashes (slash :: rest) = rest) as -> by (simpl; by apply trim_start_slashes_id).
  rewrite <- (String.eqb_eq method "*"), <- orb_true_iff.
  destruct (String.eqb method "*" || eq_ignore_ascii_case method im); simpl; [|naive_solver].
  rewrite orb_true_iff, bool_decide_eq_true, ends_with_true. split.
  - intros [->|H]; split; eauto. by exists [].
  - intros [_ H]. by right.
Qed.

(** ** Witnesses *)

Import Tree.

Module GatewayExample.
Definition api : ProtocolApi jtree := {|
  GateDecision := gate_view jtree; gate_is d := d;
  TransformResult := transform_view jtree; transform_is t := t;
  IdentityResolution := identity_view; identity_is r := r; identity_none := VNone;
  RequestMetadata := unit; metadata_default := tt; Attribute := string;
  RouteSpec := string * string; spec_method := fst; spec_path := snd;
  HttpRouteRequest := string * string; req_method := fst; req_full_path := snd;
  HttpRouteResponse := Z; response_status s := s;
  AuditEvent := unit; AuditOutcome := unit; TelemetryItem := unit; LogItem := unit;
  StoreRole := string; Store := list string; supported_roles l := l;
  Cache := list string; supported_namespaces l := l; serves_any_namespace _ := false;
  SecretProvider := list string; secret_schemes l := l;
  ConfigProvider := list string; config_schemes l := l;
  Transport := string; transport_name s := s; PolicyEngine := string; policy_name s := s;
  ClusterBackendRef := unit;
|}.

Definition calls : list (builder_call (jv := jtree) (PA := api) (W := unit)) :=
  [WithStore (PA := api) "session" ["session"; "audit"]; WithTransport (PA := api) "http-v1";
   WithStore (PA := api) "session" ["session"]; WithClusterBackend (PA := api) tt]%string.

Definition built : MockGateway jtree unit :=
  default new_gateway (build (PA := api) calls new_gateway).

(** A name already taken, and a role the store does not advertise. *)
Example transport_twice :
  build (PA := api) (WithTransport (PA := api) "http-v1"%string :: calls) new_gateway = None.
Proof. reflexivity. Qed.
Example role_refused :
  build (PA := api) [WithStore (PA := api) "session"%string []] (new_gateway (W := unit)) = None.
Proof. reflexivity. Qed.
End GatewayExample.

Lemma built_tables_witness :
  build (PA := GatewayExample.api) GatewayExample.calls new_gateway = Some GatewayExample.built
  /\ store_for_role (PA := GatewayExample.api) GatewayExample.built "session"%string
     = Some ["session"%string]
  /\ tables_ok (PA := GatewayExample.api) GatewayExample.built.
Proof.
  assert (E : build (PA := GatewayExample.api) GatewayExample.calls new_gateway
              = Some GatewayExample.built) by (vm_compute; reflexivity).
  destruct (built_tables (PA := GatewayExample.api) _ _ E) as (Hok & (Hs & _) & _).
  split; [exact E|]. split; [rewrite Hs; reflexivity|exact Hok].
Defined.

Lemma route_matches_iff_witness :
  spec_matches "get" "/webhook" "GET" "/plugins/p/e/webhook/" = true
  /\ spec_matches "*" "/" "GET" "/plugins/p/e/" = false.
Proof.
  assert (Hmount : spec_matches "get" (unchars (slash :: chars "webhook")) "GET"
                     (unchars (chars "/plugins/p/e/webhook/")) = true).
  { apply route_matches_iff; [done|done|]. split; [by right|].
    exists (slash :: chars "/plugins/p/e"), 1%nat. split; [reflexivity|done]. }
  split; [exact Hmount|reflexivity].
Defined.
