(* ===== verification/PluginLog.v ===== *)
(** * Log forwarding and instance lifetimes (src/src/plugin_log.rs, and the
      boxing of an instance in src/src/ffi.rs)

    A plugin's events go to the host through the handle of a live instance.
    The registry of handles is shared by every instance of the cdylib and
    guarded by a lock; the step relation interleaves the makes and drops of
    the instances, split where another thread can run, with the forwards. A
    host handle is named by its bridge, which the host frees after
    [drop_instance] returns. *)

From Stdlib Require Import Ascii String.
From S2P Require Import Prelude Json.

(** ** Records *)

(** [tracing::Level] and the level filter. *)
Inductive Level := ERROR | WARN | INFO | DEBUG | TRACE.
Definition verbosity (l : Level) : nat :=
  match l with ERROR => 1 | WARN => 2 | INFO => 3 | DEBUG => 4 | TRACE => 5 end.
Definition MAX_LEVEL : Level := INFO.

(** [Forwarder::enabled]. *)
Definition enabled (is_event : bool) (l : Level) : bool :=
  is_event && (verbosity l <=? verbosity MAX_LEVEL)%nat.

Section Records.
Context {jv : Type} `{J : Json jv}.
(** [Value::from] on an [i64], [Number::from_f64] on the bits of an [f64]. *)
Variable of_i64 : Z -> jv.
Variable of_f64 : Z -> option jv.

Record Fields := { message : string; rest : gmap string jv }.
Definition no_fields : Fields := {| message := ""; rest := ∅ |}.

Definition put (name : string) (value : jv) (f : Fields) : Fields :=
  if String.eqb name "message" then
    {| message := match j_as_str value with Some s => s | None => j_print value end;
       rest := rest f |}
  else {| message := message f; rest := <[name := value]> (rest f) |}.

(** A field as [tracing] visits it. *)
Inductive field_value :=
| AsDebug (text : string)
| AsStr (text : string)
| AsI64 (n : Z)
| AsU64 (n : Z)
| AsBool (b : bool)
| AsF64 (bits : Z)
| AsError (text : string).

Definition visit_value (v : field_value) : jv :=
  match v with
  | AsDebug t | AsStr t | AsError t => j_str t
  | AsI64 n => of_i64 n
  | AsU64 n => j_u64 n
  | AsBool b => j_bool b
  | AsF64 bits => match of_f64 bits with Some v => v | None => j_null end
  end.

Definition record_fields (l : list (string * field_value)) : Fields :=
  foldl (fun f nv => put nv.1 (visit_value nv.2) f) no_fields l.

(** [record_of]: the fields a record takes from the event; the others are
    [None]. *)
Record LogRecord := {
  timestamp_ns : Z;
  level : Level;
  target : string;
  lr_message : string;
  lr_fields : gmap string jv;
}.
(** [now] is the nanoseconds since the epoch, none before it. *)
Definition record_of (now : option Z) (lv : Level) (tgt : string)
    (l : list (string * field_value)) : LogRecord :=
  let f := record_fields l in
  {| timestamp_ns := match now with Some d => as_u64 d | None => 0 end; level := lv;
     target := tgt; lr_message := message f; lr_fields := rest f |}.
End Records.

(** ** The registry *)

Definition registry : Type := list (Z * Z).

Definition attach (plugin host : Z) (live : registry) : registry := live ++ [(plugin, host)].
Definition detach (plugin : Z) (live : registry) : registry :=
  List.filter (fun e => negb (e.1 =? plugin)) live.
(** [Forwarder::event]: the handle the serialised record is sent through. *)
Definition forward_to {R} (to_string : R -> result string string) (r : R) (live : registry)
    : option (Z * string) :=
  match to_string r with
  | Ok attrs => match last live with Some (_, host) => Some (host, attrs) | None => None end
  | Err _ => None
  end.

(** ** Instances

    Where an instance is: in its factory; boxed and registered; in
    [boxed_drop], its value being dropped; its box freed, its [Detach] still
    to run; out of [boxed_drop]. [ffi]: its host handle came over the ABI. *)
Inductive instance :=
| Making (ffi : bool)
| Attached (p : Z) (ffi : bool)
| Dropping (p : Z) (ffi : bool)
| Freed (p : Z) (ffi : bool)
| Dropped.

Record log_state := {
  live : registry;
  insts : gmap Z instance;
  readers : list Z;
}.

Definition log_initial : log_state := {| live := []; insts := ∅; readers := [] |}.

(** The pointer an instance's registration has. *)
Definition registered (i : instance) : option Z :=
  match i with
  | Attached p true | Dropping p true | Freed p true => Some p
  | _ => None
  end.
(** The box an instance has allocated, and the address it will detach. *)
Definition box_of (i : instance) : option Z :=
  match i with Attached p _ | Dropping p _ => Some p | _ => None end.
Definition pointer_of (i : instance) : option Z :=
  match i with Attached p _ | Dropping p _ | Freed p _ => Some p | _ => None end.

Section Steps.
(** Whether the plugin's type is zero-sized, its boxes then sharing one
    dangling address; and whether an address is reused only once the drop
    that freed it has returned. *)
Variable zero_sized : bool.
Variable late_reuse : bool.

Definition may_box (p : Z) (s : log_state) : Prop :=
  zero_sized = true \/ forall h i, insts s !! h = Some i ->
    (if late_reuse then pointer_of i else box_of i) <> Some p.

Definition set_inst (h : Z) (i : instance) (s : log_state) : log_state :=
  {| live := live s; insts := <[h := i]> (insts s); readers := readers s |}.

Inductive log_step : log_state -> log_state -> Prop :=
(** The host makes a bridge and calls [make]; the factory runs. *)
| l_make s h ffi : insts s !! h = None -> log_step s (set_inst h (Making ffi) s)
(** [boxed_make_with_host] after the factory: box, and attach under the
    write lock. *)
| l_attach s h p ffi : insts s !! h = Some (Making ffi) -> may_box p s -> readers s = [] ->
    log_step s {| live := if ffi then attach p h (live s) else live s;
                  insts := <[h := Attached p ffi]> (insts s); readers := [] |}
(** The factory panicked: nothing was boxed. *)
| l_make_failed s h ffi : insts s !! h = Some (Making ffi) -> log_step s (set_inst h Dropped s)
(** [boxed_drop]: the value is dropped, its box freed, then [Detach]. *)
| l_drop s h p ffi : insts s !! h = Some (Attached p ffi) ->
    log_step s (set_inst h (Dropping p ffi) s)
| l_free_box s h p ffi : insts s !! h = Some (Dropping p ffi) ->
    log_step s (set_inst h (Freed p ffi) s)
| l_detach s h p ffi : insts s !! h = Some (Freed p ffi) -> readers s = [] ->
    log_step s {| live := detach p (live s); insts := <[h := Dropped]> (insts s); readers := [] |}
(** The host frees the bridge. *)
| l_free_bridge s h : insts s !! h = Some Dropped ->
    log_step s {| live := live s; insts := delete h (insts s); readers := readers s |}
(** A forward takes the read lock and picks the newest handle; it holds the
    lock until the host call returns. *)
| l_forward s p h : last (live s) = Some (p, h) ->
    log_step s {| live := live s; insts := insts s; readers := h :: readers s |}
| l_forwarded s rs1 h rs2 : readers s = rs1 ++ h :: rs2 ->
    log_step s {| live := live s; insts := insts s; readers := rs1 ++ rs2 |}.

Inductive log_reachable : log_state -> Prop :=
| log_start : log_reachable log_initial
| log_next s s' : log_reachable s -> log_step s s' -> log_reachable s'.

(** ** Invariants *)

Definition holds_registration (s : log_state) (p h : Z) : Prop :=
  exists i, insts s !! h = Some i /\ registered i = Some p.

Record log_wf (s : log_state) : Prop := {
  live_registered : forall p h, (p, h) ∈ live s -> holds_registration s p h;
  readers_registered : forall h, h ∈ readers s -> exists p, holds_registration s p h;
}.

Lemma detach_elem p q h l : (q, h) ∈ detach p l <-> (q, h) ∈ l /\ q <> p.
Proof.
  unfold detach. rewrite !list_elem_of_In, filter_In, negb_true_iff, Z.eqb_neq. done.
Qed.

(** Registrations survive a change of one instance that keeps its own. *)
Lemma holds_insert s h i p h' lv rs :
  (h = h' -> registered i = Some p) ->
  holds_registration s p h' ->
  holds_registration {| live := lv; insts := <[h := i]> (insts s); readers := rs |} p h'.
Proof.
  intros Hi (i' & Hl & Hr). destruct (decide (h = h')) as [<-|Hne].
  - exists i. simpl. rewrite lookup_insert_eq. auto.
  - exists i'. simpl. rewrite lookup_insert_ne by done. auto.
Qed.

(** A step that keeps the registrations and the registry keeps [log_wf]. *)
Lemma wf_set_inst s h i j :
  insts s !! h = j -> (forall i' p, j = Some i' -> registered i' = Some p -> registered i = Some p) ->
  log_wf s -> log_wf (set_inst h i s).
Proof.
  intros Hj Hi [H1 H2]. split.
  - intros p h' Hin. apply holds_insert; [|auto]. intros <-.
    destruct (H1 p h Hin) as (i' & Hl & Hr). eapply Hi; [|exact Hr]. congruence.
  - intros h' Hin. destruct (H2 h' Hin) as (p & Hp). exists p. apply holds_insert; [|done].
    intros <-. destruct Hp as (i' & Hl & Hr). eapply Hi; [|exact Hr]. congruence.
Qed.

Lemma log_wf_step s s' : log_step s s' -> log_wf s -> log_wf s'.
Proof.
  intros Hs Hw. pose proof Hw as [H1 H2]. destruct Hs.
  - eapply wf_set_inst; [done| |done]. by intros.
  - split; [|by intros h' ?%elem_of_nil]. simpl. intros q h' Hin.
    assert (Hold : (q, h') ∈ live s -> holds_registration
      {| live := if ffi then attach p h (live s) else live s;
         insts := <[h:=Attached p ffi]> (insts s); readers := [] |} q h').
    { intros Hin'. apply holds_insert; [|auto]. intros <-.
      destruct (H1 q h Hin') as (i & Hl & Hr). simplify_eq/=. }
    destruct ffi; [|auto]. unfold attach in Hin.
    apply elem_of_app in Hin as [Hin|Hin%list_elem_of_singleton]; [auto|]. simplify_eq.
    exists (Attached p true). simpl. by rewrite lookup_insert_eq.
  - eapply wf_set_inst; [done| |done]. by intros i p [= <-].
  - eapply wf_set_inst; [done| |done]. intros i q [= <-]. by destruct ffi.
  - eapply wf_set_inst; [done| |done]. intros i q [= <-]. by destruct ffi.
  - split; [|by intros h' ?%elem_of_nil]. simpl. intros q h' [Hin Hne]%detach_elem.
    apply holds_insert; [|auto]. intros <-. destruct (H1 q h Hin) as (i & Hl & Hr).
    simplify_eq. by destruct ffi; simplify_eq/=.
  - assert (Hd : forall q h', holds_registration s q h' ->
      holds_registration {| live := live s; insts := delete h (insts s); readers := readers s |} q h').
    { intros q h' (i & Hl & Hr). exists i. simpl. rewrite lookup_delete_ne; [done|].
      intros <-. simplify_eq. }
    split; simpl; [by eauto|]. intros h' Hin. destruct (H2 h' Hin) as (q & Hq). eauto.
  - split; [exact H1|]. simpl. intros h' [->|Hin]%elem_of_cons; [|exact (H2 h' Hin)].
    exists p. apply H1. apply last_Some in H as [l ->]. apply elem_of_app. right. by left.
  - split; [exact H1|]. simpl. intros h' Hin. apply (H2 h'). rewrite H. set_solver.
Qed.

Lemma log_wf_reachable s : log_reachable s -> log_wf s.
Proof.
  induction 1 as [|s s' _ IH Hs]; [|by eapply log_wf_step].
  split; simpl; intros; by set_solver.
Qed.

(** The converse, when addresses tell instances apart. *)
Record log_full (s : log_state) : Prop := {
  registered_live : forall p h, holds_registration s p h -> (p, h) ∈ live s;
  pointers_distinct : forall p h h' i i', insts s !! h = Some i -> insts s !! h' = Some i' ->
    pointer_of i = Some p -> pointer_of i' = Some p -> h = h';
}.

Lemma full_set_inst s h i :
  (forall p, pointer_of i = Some p -> exists i', insts s !! h = Some i' /\ pointer_of i' = Some p) ->
  (forall p, registered i = Some p -> exists i', insts s !! h = Some i' /\ registered i' = Some p) ->
  log_full s -> log_full (set_inst h i s).
Proof.
  intros Hp Hr [F1 F2].
  assert (Hold : forall h' i', <[h:=i]> (insts s) !! h' = Some i' ->
    (forall p, pointer_of i' = Some p -> exists i0, insts s !! h' = Some i0 /\ pointer_of i0 = Some p)
    /\ (forall p, registered i' = Some p -> exists i0, insts s !! h' = Some i0 /\ registered i0 = Some p)).
  { intros h' i' Hl. apply lookup_insert_Some in Hl as [[<- <-]|[_ Hl]]; [done|]. split; eauto. }
  split; simpl.
  - intros p h' (i' & Hl & Hi). apply F1. destruct (Hold h' i' Hl) as [_ Ho]. exact (Ho p Hi).
  - intros p h1 h2 i1 i2 Hl1 Hl2 Hp1 Hp2.
    destruct (Hold h1 i1 Hl1) as [Ho1 _], (Hold h2 i2 Hl2) as [Ho2 _].
    destruct (Ho1 p Hp1) as (j1 & ? & ?), (Ho2 p Hp2) as (j2 & ? & ?). by eapply F2.
Qed.

Lemma full_attach s h p (ffi : bool) :
  (forall h' (i : instance), insts s !! h' = Some i -> pointer_of i <> Some p) -> log_full s ->
  log_full {| live := if ffi then attach p h (live s) else live s;
              insts := <[h := Attached p ffi]> (insts s); readers := [] |}.
Proof.
  intros Hm [F1 F2]. split; simpl.
  - intros q h' (i & Hl & Hi). simpl in Hl.
    apply lookup_insert_Some in Hl as [[<- <-]|[Hne Hl]].
    + destruct ffi; simplify_eq/=. apply elem_of_app. right. by left.
    + assert ((q, h') ∈ live s) by (apply F1; by exists i).
      destruct ffi; [|done]. apply elem_of_app. by left.
  - intros q h1 h2 i1 i2 Hl1 Hl2 Hp1 Hp2.
    apply lookup_insert_Some in Hl1 as [[<- <-]|[Hne1 Hl1]];
      apply lookup_insert_Some in Hl2 as [[<- <-]|[Hne2 Hl2]]; simplify_eq/=; try done.
    + by destruct (Hm h2 i2 Hl2).
    + by destruct (Hm h1 i1 Hl1).
    + by eapply F2.
Qed.

Lemma full_detach s h p ffi :
  insts s !! h = Some (Freed p ffi) -> log_full s ->
  log_full {| live := detach p (live s); insts := <[h := Dropped]> (insts s); readers := [] |}.
Proof.
  intros Hf [F1 F2]. split; simpl.
  - intros q h' (i & Hl & Hi). simpl in Hl.
    apply lookup_insert_Some in Hl as [[<- <-]|[Hne Hl]]; [done|].
    apply detach_elem. split; [apply F1; by exists i|]. intros ->. destruct Hne.
    eapply (F2 p h h'); [done..|]. by destruct i as [| ? []| ? []| ? []|].
  - intros q h1 h2 i1 i2 Hl1 Hl2 Hp1 Hp2.
    apply lookup_insert_Some in Hl1 as [[<- <-]|[Hne1 Hl1]]; [done|].
    apply lookup_insert_Some in Hl2 as [[<- <-]|[Hne2 Hl2]]; [done|]. by eapply F2.
Qed.

Lemma log_full_step s s' :
  zero_sized = false -> late_reuse = true -> log_step s s' -> log_full s -> log_full s'.
Proof.
  intros Hz Hl Hs Hf. destruct Hs as [s h ffi H|s h p ffi H Hm _|s h ffi H|s h p ffi H|s h p ffi H
    |s h p ffi H _|s h H|s p h _|s rs1 h rs2 _].
  - by apply full_set_inst.
  - apply full_attach; [|done]. destruct Hm as [Hm|Hm]; [congruence|]. by rewrite Hl in Hm.
  - by apply full_set_inst.
  - apply full_set_inst; [| |done]; intros q Hq; exists (Attached p ffi); by destruct ffi.
  - apply full_set_inst; [| |done]; intros q Hq; exists (Dropping p ffi); by destruct ffi.
  - by apply (full_detach s h p ffi).
  - destruct Hf as [F1 F2]. split; simpl.
    + intros q h' (i & Hi & Hr). simpl in Hi. apply lookup_delete_Some in Hi as [_ Hi].
      apply F1. by exists i.
    + intros q h1 h2 i1 i2 [_ ?]%lookup_delete_Some [_ ?]%lookup_delete_Some ??. by eapply F2.
  - destruct Hf as [F1 F2]. by split.
  - destruct Hf as [F1 F2]. by split.
Qed.

Lemma log_full_reachable s :
  zero_sized = false -> late_reuse = true -> log_reachable s -> log_full s.
Proof.
  intros Hz Hl. induction 1 as [|s s' _ IH Hs]; [|by eapply log_full_step].
  split; simpl; [intros p h (i & Hi & _)|intros p h h' i i' Hi]; simpl in Hi; by rewrite lookup_empty in Hi.
Qed.
End Steps.

(** ** Properties *)

(** C12. A log never reaches a freed host handle: in every run, whatever the
    interleaving of makes, drops, panics and forwards, with addresses reused
    or shared, a forward under way holds the handle of an instance whose drop
    has not returned, so its bridge is still there. *)
Theorem forward_never_dangles zero_sized late_reuse s h :
  log_reachable zero_sized late_reuse s -> h ∈ readers s ->
  exists i, insts s !! h = Some i /\ is_Some (registered i).
Proof.
  intros Hr Hin. apply log_wf_reachable in Hr as [_ H].
  destruct (H h Hin) as (p & i & Hi & Hp). eauto.
Qed.

(** A plugin that is sized and whose addresses are not reused under a drop
    in progress keeps exactly its registered instances: an event is forwarded
    as long as one instance is registered, to a registered one, and to nobody
    otherwise. *)
Theorem forward_while_registered {R} (to_string : R -> result string string) s r text :
  log_reachable false true s -> to_string r = Ok text ->
  match forward_to to_string r (live s) with
  | Some (h, attrs) => attrs = text /\ exists p, holds_registration s p h
  | None => forall p h, ~ holds_registration s p h
  end.
Proof.
  intros Hr Ht. unfold forward_to. rewrite Ht.
  pose proof (log_wf_reachable _ _ _ Hr) as [Hw _].
  destruct (log_full_reachable _ _ s eq_refl eq_refl Hr) as [Hf _].
  destruct (last (live s)) as [[p h]|] eqn:Hl.
  - split; [done|]. exists p. apply Hw. apply last_Some in Hl as [l ->]. apply elem_of_app. right. by left.
  - apply last_None in Hl. intros p h Hh. apply Hf in Hh. rewrite Hl in Hh. by apply elem_of_nil in Hh.
Qed.

(** ** Witnesses and a run that forgets an instance *)

Module LogExample.
(** An instance boxed at 16, its handle 1; a second one, handle 2, boxed at
    the same address between the first one's dealloc and its [Detach]. *)
Definition at_attach (h : Z) (s : log_state) : log_state :=
  {| live := attach 16 h (live s); insts := <[h := Attached 16 true]> (insts s); readers := [] |}.
Definition one : log_state := at_attach 1 (set_inst 1 (Making true) log_initial).
Definition forwarding : log_state :=
  {| live := live one; insts := insts one; readers := [1] |}.

Lemma one_reachable zs lr : log_reachable zs lr one.
Proof.
  eapply log_next; [eapply log_next; [apply log_start|]|].
  - by apply (l_make _ _ _ 1 true).
  - apply (l_attach _ _ _ 1 16 true); [done| |done]. right. intros h i H. simpl in H.
    apply lookup_insert_Some in H as [[<- <-]|[_ H]]; [|simpl in H; by rewrite lookup_empty in H].
    by destruct lr.
Qed.

Definition freed : log_state := set_inst 1 (Freed 16 true) (set_inst 1 (Dropping 16 true) one).
Definition two : log_state := at_attach 2 (set_inst 2 (Making true) freed).
Definition forgotten : log_state :=
  {| live := detach 16 (live two); insts := <[1 := Dropped]> (insts two); readers := [] |}.

(** The first one's [Detach] takes the second one out too. *)
Lemma reused_address_forgets :
  log_reachable false false forgotten
  /\ insts forgotten !! 2 = Some (Attached 16 true) /\ live forgotten = [].
Proof.
  split; [|split; reflexivity].
  eapply log_next; [eapply log_next; [eapply log_next; [eapply log_next;
    [eapply log_next; [apply one_reachable|]|]|]|]|].
  - by apply (l_drop _ _ _ 1 16 true).
  - by apply (l_free_box _ _ _ 1 16 true).
  - by apply (l_make _ _ _ 2 true).
  - apply (l_attach _ _ _ 2 16 true); [done| |done]. right. intros h i H. simpl in H.
    repeat (apply lookup_insert_Some in H as [[<- <-]|[? H]]; [done|]).
    by apply lookup_empty_Some in H.
  - by apply (l_detach _ _ _ 1 16 true).
Qed.
End LogExample.

Lemma forward_never_dangles_witness :
  1 ∈ readers LogExample.forwarding
  /\ exists i, insts LogExample.forwarding !! 1 = Some i /\ is_Some (registered i).
Proof.
  split; [by left|]. apply (forward_never_dangles false true); [|by left].
  eapply log_next; [apply LogExample.one_reachable|]. by apply (l_forward _ _ LogExample.one 16 1).
Defined.

Lemma forward_while_registered_witness :
  log_reachable false true LogExample.one
  /\ forward_to (fun t => Ok t) "{}"%string (live LogExample.one) = Some (1, "{}"%string)
  /\ exists p, holds_registration LogExample.one p 1.
Proof.
  split; [apply LogExample.one_reachable|]. split; [reflexivity|].
  exact (proj2 (forward_while_registered (fun t => Ok t) LogExample.one "{}"%string "{}"%string
                  (LogExample.one_reachable _ _) eq_refl)).
Defined.
