(* ===== verification/Gates.v ===== *)
(** * Tool gates, transforms and identity providers

    For each kind: the sync trait a plugin implements (src/src/ffi.rs), the
    [extern "C"] slots its entity macro emits (src/src/macros.rs) and the
    adapter of the in-process build (src/src/adapters.rs). The two builds
    agree call for call; a panic answers the kind's refusal. *)

From Stdlib Require Import Ascii String.
From S2P Require Import Prelude Json Ffi.

(** ** What every kind uses of mcpg_plugin_protocol *)

Class PluginApi (jv : Type) := {
  PluginManifest : Type;
  #[global] manifest_serialize :: Serialize jv PluginManifest;
  PluginContext : Type;
  #[global] context_serialize :: Serialize jv PluginContext;
  #[global] context_deserialize :: Deserialize jv PluginContext;
  PluginIdentity : Type;
  #[global] identity_serialize :: Serialize jv PluginIdentity;
  #[global] identity_deserialize :: Deserialize jv PluginIdentity;
  (** The context as it crosses the ABI, and its conversion. *)
  RPluginContext : Type;
  ctx_into : RPluginContext -> PluginContext;
}.

(** [make]: the factory under [catch_panic_to_null_handle]; [None] is the null
    handle. [build_static] runs the same factory in process. *)
Section Make.
Context {Host P : Type}.
Variable factory : string -> Host -> outcome P.

Definition make_slot (host : Host) (config_json _inner_name : string) : option P :=
  match factory config_json host with Returned p => Some p | Panicked => None end.

Definition build_static {A} (adapter : P -> A) (config_json : string) (host : Host) : outcome A :=
  match factory config_json host with Returned p => Returned (adapter p) | Panicked => Panicked end.

(** Both builds hold the instance the factory made, on the same configuration;
    the name the loader passes is not used. *)
Lemma make_and_build {A} (adapter : P -> A) host config_json inner_name :
  build_static adapter config_json host
  = match make_slot host config_json inner_name with Some p => Returned (adapter p) | None => Panicked end.
Proof. unfold build_static, make_slot. by destruct (factory _ _). Qed.
End Make.

(** The default [shutdown] of every trait. *)
Definition no_shutdown {P} : comp P unit := ret tt.

(** ** tool_gate *)

Class GateApi (jv : Type) := {
  GateDecision : Type;
  RGateDecision : Type;
  gate_into : GateDecision -> RGateDecision;
  (** What [catch_panic_to_deny] answers. *)
  panic_deny : RGateDecision;
}.

Section ToolGate.
Context {jv : Type} `{J : Json jv} `{E : Envelope jv} `{PA : PluginApi jv} `{GA : GateApi jv}.
Context {P Host : Type}.

Record SyncToolGate := {
  tg_manifest : comp P PluginManifest;
  tg_evaluate_pre : PluginContext -> jv -> option jv -> jv -> comp P GateDecision;
  tg_evaluate_post : PluginContext -> jv -> jv -> Z -> jv -> comp P GateDecision;
  tg_shutdown : comp P unit;
}.

(** The async trait of the protocol, with the same methods. *)
Record ToolGatePlugin := {
  gate_manifest : comp P PluginManifest;
  evaluate_pre_dispatch : PluginContext -> jv -> option jv -> jv -> comp P GateDecision;
  evaluate_post_dispatch : PluginContext -> jv -> jv -> Z -> jv -> comp P GateDecision;
  gate_shutdown : comp P unit;
}.

Definition SyncToolGateAdapter (inner : SyncToolGate) : ToolGatePlugin := {|
  gate_manifest := tg_manifest inner;
  evaluate_pre_dispatch ctx arguments meta config := tg_evaluate_pre inner ctx arguments meta config;
  evaluate_post_dispatch ctx arguments result execution_duration_ms config :=
    tg_evaluate_post inner ctx arguments result execution_duration_ms config;
  gate_shutdown := tg_shutdown inner;
|}.

Variable plugin : SyncToolGate.

(** A text read as a value, and the defaults the slots fall back to. *)
Definition value_or_null (s : string) : jv := from_str_or Some j_null s.
Definition value_or_empty (s : string) : jv := from_str_or Some (j_obj ∅) s.
Definition value_if_any (s : option string) : option jv := s ≫= fun s => result_ok (from_str Some s).

Definition __mcpg_plugin_make : (string -> Host -> outcome P) -> Host -> string -> string -> option P :=
  make_slot.
Definition __mcpg_plugin_manifest_json : P -> P * string := bare_slot (tg_manifest plugin).

Definition __mcpg_plugin_evaluate_pre (ctx : RPluginContext) (args : string) (meta : option string)
    (cfg : string) : P -> P * RGateDecision :=
  catch_or panic_deny
    (decision <-- tg_evaluate_pre plugin (ctx_into ctx) (value_or_null args) (value_if_any meta)
                    (value_or_empty cfg);
     ret (gate_into decision)).

Definition __mcpg_plugin_evaluate_post (ctx : RPluginContext) (args result : string) (duration_ms : Z)
    (cfg : string) : P -> P * RGateDecision :=
  catch_or panic_deny
    (decision <-- tg_evaluate_post plugin (ctx_into ctx) (value_or_null args) (value_or_null result)
                    duration_ms (value_or_empty cfg);
     ret (gate_into decision)).

Definition __mcpg_plugin_shutdown : P -> P := catch_silent (tg_shutdown plugin).

(** The vtable the host calls, over the instance behind the handle. *)
Record ToolGateVTable := {
  tg_v_make : Host -> string -> string -> option P;
  tg_v_manifest_json : P -> P * string;
  tg_v_evaluate_pre_dispatch : RPluginContext -> string -> option string -> string -> P -> P * RGateDecision;
  tg_v_evaluate_post_dispatch : RPluginContext -> string -> string -> Z -> string -> P -> P * RGateDecision;
  tg_v_shutdown : P -> P;
}.

Definition tool_gate_make_vtable (factory : string -> Host -> outcome P) : ToolGateVTable := {|
  tg_v_make := __mcpg_plugin_make factory;
  tg_v_manifest_json := __mcpg_plugin_manifest_json;
  tg_v_evaluate_pre_dispatch := __mcpg_plugin_evaluate_pre;
  tg_v_evaluate_post_dispatch := __mcpg_plugin_evaluate_post;
  tg_v_shutdown := __mcpg_plugin_shutdown;
|}.

Definition tool_gate_build_static (factory : string -> Host -> outcome P)
    : string -> Host -> outcome (ToolGatePlugin * P) :=
  build_static factory (fun inner => (SyncToolGateAdapter plugin, inner)).
End ToolGate.
Arguments SyncToolGate jv {PA GA} P.
Arguments ToolGatePlugin jv {PA GA} P.

(** ** transform *)

Class TransformApi (jv : Type) := {
  TransformResult : Type;
  RTransformResult : Type;
  transform_into : TransformResult -> RTransformResult;
  (** What [catch_panic_to_transform_error] answers. *)
  panic_transform_error : RTransformResult;
}.

Section Transform.
Context {jv : Type} `{J : Json jv} `{E : Envelope jv} `{PA : PluginApi jv} `{TA : TransformApi jv}.
Context {P Host : Type}.

Record SyncTransform := {
  tr_manifest : comp P PluginManifest;
  tr_arguments : PluginContext -> jv -> jv -> comp P TransformResult;
  tr_result : PluginContext -> jv -> jv -> comp P TransformResult;
  tr_shutdown : comp P unit;
}.

Record TransformPlugin := {
  transform_manifest : comp P PluginManifest;
  transform_arguments : PluginContext -> jv -> jv -> comp P TransformResult;
  transform_result : PluginContext -> jv -> jv -> comp P TransformResult;
  transform_shutdown : comp P unit;
}.

Definition SyncTransformAdapter (inner : SyncTransform) : TransformPlugin := {|
  transform_manifest := tr_manifest inner;
  transform_arguments ctx arguments config := tr_arguments inner ctx arguments config;
  transform_result ctx result config := tr_result inner ctx result config;
  transform_shutdown := tr_shutdown inner;
|}.

Variable plugin : SyncTransform.

Definition __mcpg_transform_make : (string -> Host -> outcome P) -> Host -> string -> string -> option P :=
  make_slot.
Definition __mcpg_transform_manifest_json : P -> P * string := bare_slot (tr_manifest plugin).

Definition __mcpg_transform_arguments (ctx : RPluginContext) (args_json cfg_json : string)
    : P -> P * RTransformResult :=
  catch_or panic_transform_error
    (result <-- tr_arguments plugin (ctx_into ctx) (value_or_null args_json) (value_or_empty cfg_json);
     ret (transform_into result)).

Definition __mcpg_transform_result (ctx : RPluginContext) (result_json cfg_json : string)
    : P -> P * RTransformResult :=
  catch_or panic_transform_error
    (result <-- tr_result plugin (ctx_into ctx) (value_or_null result_json) (value_or_empty cfg_json);
     ret (transform_into result)).

Definition __mcpg_transform_shutdown : P -> P := catch_silent (tr_shutdown plugin).

Record TransformVTable := {
  tr_v_make : Host -> string -> string -> option P;
  tr_v_manifest_json : P -> P * string;
  tr_v_transform_arguments : RPluginContext -> string -> string -> P -> P * RTransformResult;
  tr_v_transform_result : RPluginContext -> string -> string -> P -> P * RTransformResult;
  tr_v_shutdown : P -> P;
}.

Definition transform_make_vtable (factory : string -> Host -> outcome P) : TransformVTable := {|
  tr_v_make := __mcpg_transform_make factory;
  tr_v_manifest_json := __mcpg_transform_manifest_json;
  tr_v_transform_arguments := __mcpg_transform_arguments;
  tr_v_transform_result := __mcpg_transform_result;
  tr_v_shutdown := __mcpg_transform_shutdown;
|}.

Definition transform_build_static (factory : string -> Host -> outcome P)
    : string -> Host -> outcome (TransformPlugin * P) :=
  build_static factory (fun inner => (SyncTransformAdapter plugin, inner)).
End Transform.
Arguments SyncTransform jv {PA TA} P.
Arguments TransformPlugin jv {PA TA} P.

(** ** identity *)

Class IdentityApi (jv : Type) := {
  IdentityResolution : Type;
  RIdentityResolution : Type;
  identity_into : IdentityResolution -> RIdentityResolution;
  (** What [catch_panic_to_identity_invalid] answers. *)
  panic_identity_invalid : RIdentityResolution;
  RequestMetadata : Type;
  metadata_default : RequestMetadata;
  #[global] metadata_serialize :: Serialize jv RequestMetadata;
  #[global] metadata_deserialize :: Deserialize jv RequestMetadata;
}.

Section Identity.
Context {jv : Type} `{J : Json jv} `{E : Envelope jv} `{PA : PluginApi jv} `{IA : IdentityApi jv}.
Context {P Host : Type}.

Record SyncIdentityResolver := {
  id_manifest : comp P PluginManifest;
  id_resolve : list (string * string) -> RequestMetadata -> jv -> comp P IdentityResolution;
  id_shutdown : comp P unit;
}.

(** The async trait has no [shutdown]. *)
Record IdentityProviderPlugin := {
  identity_manifest : comp P PluginManifest;
  resolve_identity : list (string * string) -> RequestMetadata -> jv -> comp P IdentityResolution;
}.

Definition SyncIdentityAdapter (inner : SyncIdentityResolver) : IdentityProviderPlugin := {|
  identity_manifest := id_manifest inner;
  resolve_identity headers metadata config := id_resolve inner headers metadata config;
|}.

Variable plugin : SyncIdentityResolver.

(** One entry of the header array: its first two elements, when strings. *)
Definition header_of (entry : jv) : option (string * string) :=
  match j_as_arr entry with
  | Some (k :: v :: _) =>
      match j_as_str k, j_as_str v with Some k, Some v => Some (k, v) | _, _ => None end
  | _ => None
  end.

Definition headers_of (headers_json : string) : list (string * string) :=
  match j_as_arr (from_str_or Some (j_arr []) headers_json) with
  | Some l => omap header_of l
  | None => []
  end.

Definition metadata_of (metadata_json : string) : RequestMetadata :=
  if String.eqb metadata_json "" then metadata_default
  else from_str_or from_value metadata_default metadata_json.

Definition __mcpg_identity_make : (string -> Host -> outcome P) -> Host -> string -> string -> option P :=
  make_slot.
Definition __mcpg_identity_shutdown : P -> P := catch_silent (id_shutdown plugin).
Definition __mcpg_identity_manifest_json : P -> P * string := bare_slot (id_manifest plugin).

Definition __mcpg_identity_resolve (headers_json metadata_json config_json : string)
    : P -> P * RIdentityResolution :=
  catch_or panic_identity_invalid
    (resolution <-- id_resolve plugin (headers_of headers_json) (metadata_of metadata_json)
                      (value_or_empty config_json);
     ret (identity_into resolution)).

Record IdentityProviderVTable := {
  id_v_make : Host -> string -> string -> option P;
  id_v_manifest_json : P -> P * string;
  id_v_resolve_identity : string -> string -> string -> P -> P * RIdentityResolution;
  id_v_shutdown : P -> P;
}.

Definition identity_make_vtable (factory : string -> Host -> outcome P) : IdentityProviderVTable := {|
  id_v_make := __mcpg_identity_make factory;
  id_v_manifest_json := __mcpg_identity_manifest_json;
  id_v_resolve_identity := __mcpg_identity_resolve;
  id_v_shutdown := __mcpg_identity_shutdown;
|}.

Definition identity_build_static (factory : string -> Host -> outcome P)
    : string -> Host -> outcome (IdentityProviderPlugin * P) :=
  build_static factory (fun inner => (SyncIdentityAdapter plugin, inner)).
End Identity.
Arguments SyncIdentityResolver jv {PA IA} P.
Arguments IdentityProviderPlugin jv {PA IA} P.
Arguments ToolGateVTable jv {PA GA} P Host.
Arguments TransformVTable jv {PA TA} P Host.
Arguments IdentityProviderVTable jv {IA} P Host.

(** ** Lemmas *)

Section Reading.
Context {jv : Type} `{JL : JsonLaws jv} `{E : Envelope jv} `{PA : PluginApi jv} `{IA : IdentityApi jv}.

Lemma value_or_null_print v : value_or_null (j_print v) = v.
Proof. by apply from_str_or_print. Qed.
Lemma value_or_empty_print v : value_or_empty (j_print v) = v.
Proof. by apply from_str_or_print. Qed.
Lemma value_if_any_print o : value_if_any (j_print <$> o) = o.
Proof.
  destruct o as [v|]; [|done]. unfold value_if_any. simpl. by rewrite (from_str_print _ _ v).
Qed.

(** A header as the host prints it. *)
Definition header_value (h : string * string) : jv := j_arr [j_str h.1; j_str h.2].

Lemma header_of_value h : header_of (header_value h) = Some h.
Proof.
  unfold header_of, header_value. rewrite j_as_arr_arr, !j_as_str_str. by destruct h.
Qed.

(** Whatever stands between the headers, the pairs of strings are read, in
    their order. *)
Lemma headers_of_print l : headers_of (j_print (j_arr l)) = omap header_of l.
Proof. unfold headers_of. rewrite (from_str_or_print _ _ _ (j_arr l)) by done. by rewrite j_as_arr_arr. Qed.

Lemma omap_header_values (hs : list (string * string)) : omap header_of (header_value <$> hs) = hs.
Proof. induction hs as [|h hs IH]; [done|]. cbn. rewrite header_of_value. f_equal. exact IH. Qed.

Lemma metadata_of_print `{!SerdeRoundtrip jv RequestMetadata} m :
  metadata_of (to_string m) = m.
Proof.
  unfold metadata_of, to_string. rewrite (proj2 (String.eqb_neq _ _)) by apply j_print_nonempty.
  apply from_str_or_print, from_to_value.
Qed.
End Reading.
#[export] Hint Rewrite @value_or_null_print @value_or_empty_print @value_if_any_print
  @headers_of_print @omap_header_values : json.

(** ** The two builds of a gate, a transform, an identity provider *)

Section Builds.
Context {jv : Type} `{JL : JsonLaws jv} `{E : Envelope jv} `{PA : PluginApi jv}.
Context `{GA : GateApi jv} `{TA : TransformApi jv} `{IA : IdentityApi jv} {P Host : Type}.

Inductive gate_call :=
| CallPre (ctx : RPluginContext) (args : jv) (meta : option jv) (cfg : jv)
| CallPost (ctx : RPluginContext) (args result : jv) (duration_ms : Z) (cfg : jv).

(** In process, and over the vtable. *)
Definition gate_direct (g : ToolGatePlugin jv P) (c : gate_call) : P -> P * outcome GateDecision :=
  match c with
  | CallPre ctx args meta cfg => evaluate_pre_dispatch g (ctx_into ctx) args meta cfg
  | CallPost ctx args result d cfg => evaluate_post_dispatch g (ctx_into ctx) args result d cfg
  end.
Definition gate_wire (v : ToolGateVTable jv P Host) (c : gate_call) : P -> P * RGateDecision :=
  match c with
  | CallPre ctx args meta cfg =>
      tg_v_evaluate_pre_dispatch v ctx (j_print args) (j_print <$> meta) (j_print cfg)
  | CallPost ctx args result d cfg =>
      tg_v_evaluate_post_dispatch v ctx (j_print args) (j_print result) d (j_print cfg)
  end.

(** A decision, or the refusal that stands for a panic. *)
Definition gate_verdict (o : outcome GateDecision) : RGateDecision :=
  match o with Returned d => gate_into d | Panicked => panic_deny end.

Lemma gate_wire_direct plugin factory c p :
  gate_wire (tool_gate_make_vtable plugin factory) c p =
    ((gate_direct (SyncToolGateAdapter plugin) c p).1,
     gate_verdict (gate_direct (SyncToolGateAdapter plugin) c p).2).
Proof.
  destruct c; simpl; unfold __mcpg_plugin_evaluate_pre, __mcpg_plugin_evaluate_post;
    rewrite catch_or_answered; unfold answered; read_json; by run_method.
Qed.

Inductive transform_call :=
| CallArguments (ctx : RPluginContext) (args cfg : jv)
| CallResult (ctx : RPluginContext) (result cfg : jv).

Definition transform_direct (g : TransformPlugin jv P) (c : transform_call) : P -> P * outcome TransformResult :=
  match c with
  | CallArguments ctx args cfg => transform_arguments g (ctx_into ctx) args cfg
  | CallResult ctx result cfg => transform_result g (ctx_into ctx) result cfg
  end.
Definition transform_wire (v : TransformVTable jv P Host) (c : transform_call) : P -> P * RTransformResult :=
  match c with
  | CallArguments ctx args cfg => tr_v_transform_arguments v ctx (j_print args) (j_print cfg)
  | CallResult ctx result cfg => tr_v_transform_result v ctx (j_print result) (j_print cfg)
  end.
Definition transform_verdict (o : outcome TransformResult) : RTransformResult :=
  match o with Returned r => transform_into r | Panicked => panic_transform_error end.

Lemma transform_wire_direct plugin factory c p :
  transform_wire (transform_make_vtable plugin factory) c p =
    ((transform_direct (SyncTransformAdapter plugin) c p).1,
     transform_verdict (transform_direct (SyncTransformAdapter plugin) c p).2).
Proof.
  destruct c; simpl; unfold __mcpg_transform_arguments, __mcpg_transform_result;
    rewrite catch_or_answered; unfold answered; read_json; by run_method.
Qed.

(** A request to resolve: the header array as the host may send it, entries
    that are no pairs of strings included. *)
Record identity_call := { ic_headers : list jv; ic_metadata : RequestMetadata; ic_config : jv }.

Definition identity_direct (g : IdentityProviderPlugin jv P) (c : identity_call)
    : P -> P * outcome IdentityResolution :=
  resolve_identity g (omap header_of (ic_headers c)) (ic_metadata c) (ic_config c).
Definition identity_wire (v : IdentityProviderVTable jv P Host) (c : identity_call)
    : P -> P * RIdentityResolution :=
  id_v_resolve_identity v (j_print (j_arr (ic_headers c))) (to_string (ic_metadata c)) (j_print (ic_config c)).
Definition identity_verdict (o : outcome IdentityResolution) : RIdentityResolution :=
  match o with Returned r => identity_into r | Panicked => panic_identity_invalid end.

Lemma identity_wire_direct `{!SerdeRoundtrip jv RequestMetadata} plugin factory c p :
  identity_wire (identity_make_vtable plugin factory) c p =
    ((identity_direct (SyncIdentityAdapter plugin) c p).1,
     identity_verdict (identity_direct (SyncIdentityAdapter plugin) c p).2).
Proof.
  unfold identity_wire, identity_direct. simpl. unfold __mcpg_identity_resolve.
  rewrite catch_or_answered. unfold answered. rewrite metadata_of_print. read_json.
  by run_method.
Qed.

(** For every sequence of calls, the dynamically loaded gate, transform or
    identity provider answers what the in-process build of the same plugin
    does, header arrays with junk between the pairs included, and its state
    stays in step; where the plugin panics the answer is the kind's refusal,
    and the calls after it are served from the state the panic left. *)
Theorem request_builds_agree `{!SerdeRoundtrip jv RequestMetadata} gate transform identity
    fg ft fi gate_calls transform_calls identity_calls (p : P) :
  session (gate_wire (tool_gate_make_vtable gate fg)) gate_calls p =
    ((session (gate_direct (SyncToolGateAdapter gate)) gate_calls p).1,
     gate_verdict <$> (session (gate_direct (SyncToolGateAdapter gate)) gate_calls p).2)
  /\ session (transform_wire (transform_make_vtable transform ft)) transform_calls p =
    ((session (transform_direct (SyncTransformAdapter transform)) transform_calls p).1,
     transform_verdict <$> (session (transform_direct (SyncTransformAdapter transform)) transform_calls p).2)
  /\ session (identity_wire (identity_make_vtable identity fi)) identity_calls p =
    ((session (identity_direct (SyncIdentityAdapter identity)) identity_calls p).1,
     identity_verdict <$> (session (identity_direct (SyncIdentityAdapter identity)) identity_calls p).2).
Proof.
  split_and!; apply session_agree_map; intros;
    [apply gate_wire_direct|apply transform_wire_direct|apply identity_wire_direct].
Qed.
End Builds.

(** ** A concrete protocol, for the witnesses *)

Module Sample.
Import Tree Wire.

#[export] Instance api : PluginApi jtree := {|
  PluginManifest := string; PluginContext := string; PluginIdentity := string;
  RPluginContext := string; ctx_into := id;
|}.
#[export] Instance gate_api : GateApi jtree := {|
  GateDecision := bool; RGateDecision := bool; gate_into := id; panic_deny := false;
|}.
#[export] Instance transform_api : TransformApi jtree := {|
  TransformResult := jtree; RTransformResult := option jtree; transform_into := Some;
  panic_transform_error := None;
|}.
#[export] Instance identity_api : IdentityApi jtree := {|
  IdentityResolution := nat; RIdentityResolution := option nat; identity_into := Some;
  panic_identity_invalid := None; RequestMetadata := string; metadata_default := ""%string;
|}.

(** A gate that counts its calls and panics on the second. *)
Definition counting : SyncToolGate jtree nat := {|
  tg_manifest := ret "gate"%string;
  tg_evaluate_pre _ _ _ _ n := (S n, if (n =? 1)%nat then Panicked else Returned true);
  tg_evaluate_post _ _ _ _ _ := ret false;
  tg_shutdown := no_shutdown;
|}.
Definition echo : SyncTransform jtree nat := {|
  tr_manifest := ret "transform"%string;
  tr_arguments _ v _ := ret v;
  tr_result _ v _ := ret v;
  tr_shutdown := no_shutdown;
|}.
Definition counted_headers : SyncIdentityResolver jtree nat := {|
  id_manifest := ret "identity"%string;
  id_resolve hs _ _ := ret (length hs);
  id_shutdown := no_shutdown;
|}.

Lemma request_builds_agree_witness :
  session (gate_wire (tool_gate_make_vtable counting (fun _ (_ : unit) => Returned 0%nat)))
    [CallPre "c"%string (TNum 1) None (TObj []); CallPre "c"%string (TNum 1) None (TObj []);
     CallPre "c"%string (TNum 1) None (TObj [])] 0%nat = (3%nat, [true; false; true])
  /\ session (identity_wire (identity_make_vtable counted_headers (fun _ (_ : unit) => Returned 0%nat)))
    [{| ic_headers := [header_value ("a", "b")%string; TNull; TArr [TStr "c"]]; ic_metadata := "m"%string;
        ic_config := TObj [] |}] 0%nat = (0%nat, [Some 1%nat]).
Proof.
  pose proof (request_builds_agree counting echo counted_headers (fun _ (_ : unit) => Returned 0%nat)
    (fun _ _ => Returned 0%nat) (fun _ _ => Returned 0%nat)
    [CallPre "c"%string (TNum 1) None (TObj []); CallPre "c"%string (TNum 1) None (TObj []);
     CallPre "c"%string (TNum 1) None (TObj [])] []
    [{| ic_headers := [header_value ("a", "b")%string; TNull; TArr [TStr "c"]]; ic_metadata := "m"%string;
        ic_config := TObj [] |}] 0%nat) as (H1 & _ & H3).
  rewrite H1, H3. split; vm_compute; reflexivity.
Defined.
End Sample.
