(* ===== verification/ClusterManifest.v ===== *)
(** * What a coordinator announces (src/src/macros.rs, [__mcpg_cluster_manifest])

    The manifest of a coordinator plugin and the wire features its table has,
    which the macro adds beside it, and the factory. The other slots are in
    ClusterSlots.v. *)

From Stdlib Require Import Ascii String.
From S2P Require Import Prelude Json ClusterBackend Gates ClusterSlots.

Section Announce.
Context {jv : Type} `{JL : JsonLaws jv} {CA : ClusterApi jv} `{PA : PluginApi jv}.
Context {B Host : Type}.

(** The constants of mcpg_cluster_api. *)
Variables (KV_VALUE_BASE64 KV_INCR_FLOOR : string).

(** The methods of [SyncClusterBackend] that describe the coordinator. *)
Record Announcement := {
  b_manifest : comp B PluginManifest;
  b_declares_kv_incr_floor : comp B bool;
}.

(** The default of [declares_kv_incr_floor]. *)
Definition announce_default (manifest : comp B PluginManifest) : Announcement :=
  {| b_manifest := manifest; b_declares_kv_incr_floor := ret false |}.

Variable p : Announcement.

Definition __mcpg_cluster_make : (string -> Host -> outcome B) -> Host -> string -> string -> option B :=
  make_slot.

Definition wire_features (floor : bool) : list string :=
  [KV_VALUE_BASE64] ++ (if floor then [KV_INCR_FLOOR] else []).

Definition __mcpg_cluster_manifest : B -> B * string :=
  catch_to_empty
    (manifest <-- b_manifest p;
     floor <-- b_declares_kv_incr_floor p;
     ret (match j_as_obj (to_value manifest : jv) with
          | Some m => j_print (j_obj (<["wire_features"%string := j_arr (j_str <$> wire_features floor)]> m))
          | None => ""%string
          end)).

(** ** The announcement, read back *)

Definition read_features (v : jv) : option (list string) :=
  (j_get v "wire_features" ≫= j_as_arr) ≫= mapM j_as_str.

Lemma read_features_insert m l :
  read_features (j_obj (<["wire_features"%string := j_arr (j_str <$> l)]> m)) = Some l.
Proof.
  unfold read_features. rewrite j_get_obj, lookup_insert_eq. simpl. rewrite j_as_arr_arr. simpl.
  apply mapM_Some. induction l as [|s l IH]; constructor; [apply j_as_str_str|done].
Qed.

(** Where the manifest is an object, its text is that object with the features
    of the table beside its members: base64 values always, the floor of a
    counter exactly when the coordinator declares it. Anything else, a panic
    included, is the empty text, which no host takes for a manifest. *)
Lemma manifest_announces b b1 b2 manifest floor m :
  b_manifest p b = (b1, Returned manifest) ->
  b_declares_kv_incr_floor p b1 = (b2, Returned floor) ->
  j_as_obj (to_value manifest : jv) = Some m ->
  exists v, __mcpg_cluster_manifest b = (b2, j_print v)
    /\ read_features v = Some (wire_features floor)
    /\ forall k, k <> "wire_features"%string -> j_get v k = m !! k.
Proof.
  intros Hm Hf Ho. eexists. split_and!.
  - unfold __mcpg_cluster_manifest, catch_to_empty, bind, ret. by rewrite Hm, Hf, Ho.
  - apply read_features_insert.
  - intros k Hk. by rewrite j_get_obj, lookup_insert_ne.
Qed.

Lemma manifest_panics b : (b_manifest p b).2 = Panicked -> (__mcpg_cluster_manifest b).2 = ""%string.
Proof.
  unfold __mcpg_cluster_manifest, catch_to_empty, bind. by destruct (b_manifest p b) as [b' []].
Qed.
End Announce.

(** ** A coordinator without floors *)

Section NoFloor.
Context {jv : Type} `{CL : ClusterApiLaws jv} {B : Type}.
Variable respond_result : result jv jv -> string.
Variable serde_error : string -> string.

(** Where [kv_incr_floor] is the default, as in a coordinator that does not
    declare it, a host that sends a floor all the same is refused: the counter
    is not raised, nor added to. *)
Lemma undeclared_floor_refused (s : SyncClusterBackend jv B) args v a floor b :
  (forall store k d f ttl, kv_incr_floor_in (b_kv s) store k d f ttl
     = kv_incr_floor (B := B) kv_plain_defaults k d f ttl) ->
  j_parse args = Ok v -> incr_args v = Some a -> ia_floor a = Some floor ->
  __mcpg_cluster_kv_incr respond_result serde_error s args b
  = (b, respond_result (Err (ce_to_value kv_unsupported))).
Proof.
  intros Hk Hp Ha Hf. unfold __mcpg_cluster_kv_incr, kv_slot, decode. rewrite Hp, Ha.
  unfold catch_to_empty, bind. by rewrite Hf, Hk.
Qed.
End NoFloor.
