(* ===== verification/Stores.v ===== *)
(** * Stores, caches and content stores

    The sync traits (src/src/ffi.rs), the slots (src/src/macros.rs) and the
    in-process adapters (src/src/adapters.rs) of the three kinds that keep
    data. Every slot takes one JSON object of named arguments. *)

From Stdlib Require Import Ascii String.
From S2P Require Import Prelude Json Ffi Gates.

(** ** store *)

Class StoreApi (jv : Type) := {
  StoreRole : Type;
  #[global] role_serialize :: Serialize jv StoreRole;
  #[global] role_deserialize :: Deserialize jv StoreRole;
  StoreValueWire : Type;
  #[global] wire_serialize :: Serialize jv StoreValueWire;
  #[global] wire_deserialize :: Deserialize jv StoreValueWire;
  StoreValue : Type;
  value_of_wire : StoreValueWire -> StoreValue;
  wire_of_value : StoreValue -> StoreValueWire;
  StorePageWire : Type;
  #[global] page_serialize :: Serialize jv StorePageWire;
  StorePage : Type;
  page_of_wire : StorePageWire -> StorePage;
  AppendResult : Type;
  append_sequence : Z -> AppendResult;
  #[global] append_serialize :: Serialize jv AppendResult;
  StoreError : Type;
  store_backend : string -> StoreError;
  store_unsupported : string -> StoreError;
  #[global] store_error_serialize :: Serialize jv StoreError;
  StoreEventStream : Type;
}.

Class StoreApiLaws (jv : Type) `{JL : JsonLaws jv} {SA : StoreApi jv} := {
  #[global] role_roundtrip :: SerdeRoundtrip jv StoreRole;
  #[global] wire_roundtrip :: SerdeRoundtrip jv StoreValueWire;
  (** A value is serialised as an object. *)
  wire_not_null (w : StoreValueWire) : j_is_null (to_value w : jv) = false;
}.

Section Store.
Context {jv : Type} `{J : Json jv} `{E : Envelope jv} `{PA : PluginApi jv} {SA : StoreApi jv}.
Context {P Host : Type}.

Record SyncStorePlugin := {
  st_manifest : comp P PluginManifest;
  st_supported_roles : comp P (list StoreRole);
  st_get : StoreRole -> string -> comp P (result (option StoreValueWire) StoreError);
  st_put : StoreRole -> string -> StoreValueWire -> comp P (result unit StoreError);
  st_delete : StoreRole -> string -> comp P (result unit StoreError);
  st_list : StoreRole -> string -> option string -> comp P (result StorePageWire StoreError);
  st_compare_and_swap : StoreRole -> string -> option StoreValueWire -> StoreValueWire ->
    comp P (result bool StoreError);
  st_append : StoreRole -> string -> StoreValueWire -> comp P (result AppendResult StoreError);
  (** The events go to the sink of the given context. *)
  st_watch : StoreRole -> string -> Z -> comp P (result Z StoreError);
  st_cancel_watch : Z -> comp P unit;
  st_shutdown : comp P unit;
}.

(** The defaults: an append is a put, a watch is refused. *)
Definition append_default (put : StoreRole -> string -> StoreValueWire -> comp P (result unit StoreError))
    (role : StoreRole) (key : string) (value : StoreValueWire) : comp P (result AppendResult StoreError) :=
  r <-- put role key value;
  ret (match r with Ok _ => Ok (append_sequence 0) | Err e => Err e end).
Definition watch_default (_ : StoreRole) (_ : string) (_ : Z) : comp P (result Z StoreError) :=
  ret (Err (store_unsupported "watch")).

(** The protocol's async trait. *)
Record Store := {
  store_manifest : comp P PluginManifest;
  supported_roles : comp P (list StoreRole);
  store_get : StoreRole -> string -> comp P (result (option StoreValue) StoreError);
  store_put : StoreRole -> string -> StoreValue -> comp P (result unit StoreError);
  store_delete : StoreRole -> string -> comp P (result unit StoreError);
  store_list : StoreRole -> string -> option string -> comp P (result StorePage StoreError);
  compare_and_swap : StoreRole -> string -> option StoreValue -> StoreValue -> comp P (result bool StoreError);
  append : StoreRole -> string -> StoreValue -> comp P (result AppendResult StoreError);
  store_watch : StoreRole -> string -> comp P (result StoreEventStream StoreError);
  store_shutdown : comp P unit;
}.

Definition SyncStorePluginAdapter (inner : SyncStorePlugin) : Store := {|
  store_manifest := st_manifest inner;
  supported_roles := st_supported_roles inner;
  store_get role key := r <-- st_get inner role key; ret (map_ok (option_map value_of_wire) r);
  store_put role key value := st_put inner role key (wire_of_value value);
  store_delete role key := st_delete inner role key;
  store_list role prefix cursor := r <-- st_list inner role prefix cursor; ret (map_ok page_of_wire r);
  compare_and_swap role key expected new :=
    st_compare_and_swap inner role key (option_map wire_of_value expected) (wire_of_value new);
  append role key value := st_append inner role key (wire_of_value value);
  store_watch _ _ := ret (Err (store_unsupported "watch"));
  store_shutdown := st_shutdown inner;
|}.

Variable plugin : SyncStorePlugin.

Definition __mcpg_store_make : (string -> Host -> outcome P) -> Host -> string -> string -> option P :=
  make_slot.
Definition __mcpg_store_manifest_json : P -> P * string := bare_slot (st_manifest plugin).
Definition __mcpg_store_supported_roles : P -> P * string := bare_slot (st_supported_roles plugin).

Definition __mcpg_store_err_to_wire (e : StoreError) : string := respond_error e.
Definition __mcpg_store_ok_to_wire {A} `{!Serialize jv A} (a : A) : string := respond_ok a.

Definition invalid_args (e : string) : StoreError := store_backend ("invalid args: " ++ e).

Definition role_key (v : jv) : option (StoreRole * string) :=
  match struct_fields ["role"; "key"]%string v with
  | Some [r; k] => match field r, field k with Some r, Some k => Some (r, k) | _, _ => None end
  | _ => None
  end.

Definition role_key_value (v : jv) : option (StoreRole * string * StoreValueWire) :=
  match struct_fields ["role"; "key"; "value"]%string v with
  | Some [r; k; w] =>
      match field r, field k, field w with Some r, Some k, Some w => Some (r, k, w) | _, _, _ => None end
  | _ => None
  end.

Definition __mcpg_store_get : string -> P -> P * string :=
  args_slot role_key (fun e => __mcpg_store_err_to_wire (invalid_args e)) (fun '(role, key) =>
    r <-- st_get plugin role key;
    ret (match r with Ok opt => __mcpg_store_ok_to_wire opt | Err e => __mcpg_store_err_to_wire e end)).

Definition __mcpg_store_put : string -> P -> P * string :=
  args_slot role_key_value (fun e => respond_error (invalid_args e)) (fun '(role, key, value) =>
    r <-- st_put plugin role key value; ret (respond_result r)).

Definition __mcpg_store_delete : string -> P -> P * string :=
  args_slot role_key (fun e => respond_error (invalid_args e)) (fun '(role, key) =>
    r <-- st_delete plugin role key; ret (respond_result r)).

Definition store_list_args (v : jv) : option (StoreRole * string * option string) :=
  match struct_fields ["role"; "prefix"; "cursor"]%string v with
  | Some [r; p; c] =>
      match field r, field p, field_opt c with Some r, Some p, Some c => Some (r, p, c) | _, _, _ => None end
  | _ => None
  end.

Definition __mcpg_store_list : string -> P -> P * string :=
  args_slot store_list_args (fun e => __mcpg_store_err_to_wire (invalid_args e)) (fun '(role, prefix, cursor) =>
    r <-- st_list plugin role prefix cursor;
    ret (match r with Ok page => __mcpg_store_ok_to_wire page | Err e => __mcpg_store_err_to_wire e end)).

Definition cas_args (v : jv) : option (StoreRole * string * option StoreValueWire * StoreValueWire) :=
  match struct_fields ["role"; "key"; "expected"; "new"]%string v with
  | Some [r; k; x; n] =>
      match field r, field k, field_opt x, field n with
      | Some r, Some k, Some x, Some n => Some (r, k, x, n)
      | _, _, _, _ => None
      end
  | _ => None
  end.

Definition __mcpg_store_cas : string -> P -> P * string :=
  args_slot cas_args (fun e => __mcpg_store_err_to_wire (invalid_args e)) (fun '(role, key, expected, new) =>
    r <-- st_compare_and_swap plugin role key expected new;
    ret (match r with Ok ok => __mcpg_store_ok_to_wire ok | Err e => __mcpg_store_err_to_wire e end)).

Definition __mcpg_store_append : string -> P -> P * string :=
  args_slot role_key_value (fun e => __mcpg_store_err_to_wire (invalid_args e)) (fun '(role, key, value) =>
    r <-- st_append plugin role key value;
    ret (match r with Ok r => __mcpg_store_ok_to_wire r | Err e => __mcpg_store_err_to_wire e end)).

Definition __mcpg_store_watch (args_json : string) (sink : Z) : P -> P * StreamHandle :=
  catch_or (failed_stream (store_backend "plugin panicked during watch"))
    match from_str role_key args_json with
    | Err e => ret (failed_stream (store_backend ("invalid watch args: " ++ e)))
    | Ok (role, key) => r <-- st_watch plugin role key sink; ret (stream_handle_of r)
    end.

Definition __mcpg_store_cancel_watch (watch_handle : Z) : P -> P :=
  catch_silent (st_cancel_watch plugin watch_handle).
Definition __mcpg_store_shutdown : P -> P := catch_silent (st_shutdown plugin).

Record StoreVTable := {
  st_v_make : Host -> string -> string -> option P;
  st_v_manifest_json : P -> P * string;
  st_v_supported_roles_json : P -> P * string;
  st_v_get : string -> P -> P * string;
  st_v_put : string -> P -> P * string;
  st_v_delete : string -> P -> P * string;
  st_v_list : string -> P -> P * string;
  st_v_compare_and_swap : string -> P -> P * string;
  st_v_append : string -> P -> P * string;
  st_v_watch : string -> Z -> P -> P * StreamHandle;
  st_v_cancel_watch : Z -> P -> P;
  st_v_shutdown : P -> P;
}.

Definition store_make_vtable (factory : string -> Host -> outcome P) : StoreVTable := {|
  st_v_make := __mcpg_store_make factory;
  st_v_manifest_json := __mcpg_store_manifest_json;
  st_v_supported_roles_json := __mcpg_store_supported_roles;
  st_v_get := __mcpg_store_get;
  st_v_put := __mcpg_store_put;
  st_v_delete := __mcpg_store_delete;
  st_v_list := __mcpg_store_list;
  st_v_compare_and_swap := __mcpg_store_cas;
  st_v_append := __mcpg_store_append;
  st_v_watch := __mcpg_store_watch;
  st_v_cancel_watch := __mcpg_store_cancel_watch;
  st_v_shutdown := __mcpg_store_shutdown;
|}.

Definition store_build_static (factory : string -> Host -> outcome P)
    : string -> Host -> outcome (Store * P) :=
  build_static factory (fun inner => (SyncStorePluginAdapter plugin, inner)).
End Store.
Arguments SyncStorePlugin jv {PA SA} P.
Arguments Store jv {PA SA} P.
Arguments StoreVTable P Host : clear implicits.

(** ** cache *)

Class CacheApi (jv : Type) := {
  CacheError : Type;
  cache_backend : string -> CacheError;
  #[global] cache_error_serialize :: Serialize jv CacheError;
}.

Section Cache.
Context {jv : Type} `{J : Json jv} `{E : Envelope jv} `{PA : PluginApi jv} {CA : CacheApi jv}.
Context {P Host : Type}.

(** [Vec<u8>] is a list of byte values; counters are [i64]. *)
Record SyncCachePlugin := {
  ca_manifest : comp P PluginManifest;
  ca_supported_namespaces : comp P (list string);
  ca_serves_any_namespace : comp P bool;
  ca_get : string -> string -> comp P (option (list Z));
  ca_put : string -> string -> list Z -> Z -> comp P (result unit CacheError);
  ca_delete : string -> string -> comp P unit;
  ca_clear : string -> comp P (result unit CacheError);
  ca_incr : string -> string -> Z -> Z -> comp P (result Z CacheError);
  ca_shutdown : comp P unit;
}.

(** The default [serves_any_namespace]. *)
Definition serves_any_default : comp P bool := ret false.

(** The protocol's async trait: durations for the times to live. *)
Record Cache := {
  cache_manifest : comp P PluginManifest;
  supported_namespaces : comp P (list string);
  serves_any_namespace : comp P bool;
  cache_get : string -> string -> comp P (option (list Z));
  cache_put : string -> string -> list Z -> Z -> comp P (result unit CacheError);
  cache_delete : string -> string -> comp P unit;
  cache_clear : string -> comp P (result unit CacheError);
  cache_incr : string -> string -> Z -> Z -> comp P (result Z CacheError);
  cache_shutdown : comp P unit;
}.

Definition SyncCachePluginAdapter (inner : SyncCachePlugin) : Cache := {|
  cache_manifest := ca_manifest inner;
  supported_namespaces := ca_supported_namespaces inner;
  serves_any_namespace := ca_serves_any_namespace inner;
  cache_get ns key := ca_get inner ns key;
  cache_put ns key value ttl := ca_put inner ns key value (as_u64 (as_millis ttl));
  cache_delete ns key := ca_delete inner ns key;
  cache_clear ns := ca_clear inner ns;
  cache_incr ns key by_ ttl := ca_incr inner ns key by_ (as_u64 (as_millis ttl));
  cache_shutdown := ca_shutdown inner;
|}.

Variable plugin : SyncCachePlugin.

Definition __mcpg_cache_make : (string -> Host -> outcome P) -> Host -> string -> string -> option P :=
  make_slot.
Definition __mcpg_cache_manifest_json : P -> P * string := bare_slot (ca_manifest plugin).
Definition __mcpg_cache_supported_namespaces : P -> P * string := bare_slot (ca_supported_namespaces plugin).
Definition __mcpg_cache_serves_any : P -> P * Z :=
  catch_or 0 (b <-- ca_serves_any_namespace plugin; ret (if b then 1 else 0)).

Definition cache_invalid_args (e : string) : string :=
  respond_error (cache_backend ("invalid args: " ++ e)).

Definition ns_key (v : jv) : option (string * string) :=
  match struct_fields ["ns"; "key"]%string v with
  | Some [n; k] => match field n, field k with Some n, Some k => Some (n, k) | _, _ => None end
  | _ => None
  end.

(** A hit as a JSON array of its bytes, a miss as null. *)
Definition bytes_or_null (o : option (list Z)) : jv :=
  match o with Some l => j_bytes l | None => j_null end.

(** Malformed arguments are a miss. *)
Definition __mcpg_cache_get : string -> P -> P * string :=
  args_slot ns_key (fun _ => "null"%string) (fun '(ns, key) =>
    opt <-- ca_get plugin ns key; ret (j_print (bytes_or_null opt))).

Definition cache_put_args (v : jv) : option (string * string * list Z * Z) :=
  match struct_fields ["ns"; "key"; "value"; "ttl_ms"]%string v with
  | Some [n; k; b; t] =>
      match field n, field k, field_bytes b, field_u64 t with
      | Some n, Some k, Some b, Some t => Some (n, k, b, t)
      | _, _, _, _ => None
      end
  | _ => None
  end.

Definition __mcpg_cache_put : string -> P -> P * string :=
  args_slot cache_put_args cache_invalid_args (fun '(ns, key, value, ttl_ms) =>
    r <-- ca_put plugin ns key value ttl_ms; ret (respond_result r)).

(** Malformed arguments delete nothing, silently. *)
Definition __mcpg_cache_delete (args_json : string) : P -> P :=
  catch_silent (match from_str ns_key args_json with
                | Ok (ns, key) => ca_delete plugin ns key
                | Err _ => ret tt
                end).

Definition cache_clear_args (v : jv) : option string :=
  match struct_fields ["ns"]%string v with Some [n] => field n | _ => None end.

Definition __mcpg_cache_clear : string -> P -> P * string :=
  args_slot cache_clear_args cache_invalid_args (fun ns =>
    r <-- ca_clear plugin ns; ret (respond_result r)).

Definition cache_incr_args (v : jv) : option (string * string * Z * Z) :=
  match struct_fields ["ns"; "key"; "by"; "ttl_ms"]%string v with
  | Some [n; k; b; t] =>
      match field n, field k, field_i64 b, field_u64 t with
      | Some n, Some k, Some b, Some t => Some (n, k, b, t)
      | _, _, _, _ => None
      end
  | _ => None
  end.

(** Here the refusal is an object written out by hand. *)
Definition __mcpg_cache_incr : string -> P -> P * string :=
  args_slot cache_incr_args
    (fun e => j_print (j_obj {["err"%string := to_value (cache_backend ("invalid args: " ++ e))]}))
    (fun '(ns, key, by_, ttl_ms) =>
       r <-- ca_incr plugin ns key by_ ttl_ms; ret (respond_result (map_ok j_i64 r))).

Definition __mcpg_cache_shutdown : P -> P := catch_silent (ca_shutdown plugin).

Record CacheVTable := {
  ca_v_make : Host -> string -> string -> option P;
  ca_v_manifest_json : P -> P * string;
  ca_v_supported_namespaces_json : P -> P * string;
  ca_v_serves_any_namespace : P -> P * Z;
  ca_v_get : string -> P -> P * string;
  ca_v_put : string -> P -> P * string;
  ca_v_delete : string -> P -> P;
  ca_v_clear : string -> P -> P * string;
  ca_v_incr : string -> P -> P * string;
  ca_v_shutdown : P -> P;
}.

Definition cache_make_vtable (factory : string -> Host -> outcome P) : CacheVTable := {|
  ca_v_make := __mcpg_cache_make factory;
  ca_v_manifest_json := __mcpg_cache_manifest_json;
  ca_v_supported_namespaces_json := __mcpg_cache_supported_namespaces;
  ca_v_serves_any_namespace := __mcpg_cache_serves_any;
  ca_v_get := __mcpg_cache_get;
  ca_v_put := __mcpg_cache_put;
  ca_v_delete := __mcpg_cache_delete;
  ca_v_clear := __mcpg_cache_clear;
  ca_v_incr := __mcpg_cache_incr;
  ca_v_shutdown := __mcpg_cache_shutdown;
|}.

Definition cache_build_static (factory : string -> Host -> outcome P)
    : string -> Host -> outcome (Cache * P) :=
  build_static factory (fun inner => (SyncCachePluginAdapter plugin, inner)).
End Cache.
Arguments SyncCachePlugin jv {PA CA} P.
Arguments Cache jv {PA CA} P.
Arguments CacheVTable P Host : clear implicits.

(** ** content_store *)

Class ContentApi (jv : Type) := {
  ContentToStore : Type;
  #[global] content_serialize :: Serialize jv ContentToStore;
  #[global] content_deserialize :: Deserialize jv ContentToStore;
  ResourceHandle : Type;
  #[global] handle_serialize :: Serialize jv ResourceHandle;
  ResourceContent : Type;
  #[global] resource_serialize :: Serialize jv ResourceContent;
  ContentStoreStats : Type;
  stats_default : ContentStoreStats;
  #[global] stats_serialize :: Serialize jv ContentStoreStats;
  ContentStoreError : Type;
  content_storage : string -> ContentStoreError;
  signed_url_not_supported : ContentStoreError;
  #[global] content_error_serialize :: Serialize jv ContentStoreError;
}.

Section ContentStores.
Context {jv : Type} `{J : Json jv} `{E : Envelope jv} `{PA : PluginApi jv} {CA : ContentApi jv}.
Context {P Host : Type}.

(** One plugin manages many named profiles. *)
Record SyncContentStore := {
  cs_manifest : comp P PluginManifest;
  cs_kind : comp P string;
  cs_register_profile : string -> jv -> comp P (result unit ContentStoreError);
  cs_put : string -> ContentToStore -> comp P (result ResourceHandle ContentStoreError);
  cs_get : string -> string -> comp P (result (option ResourceContent) ContentStoreError);
  cs_delete : string -> string -> comp P (result unit ContentStoreError);
  cs_signed_url : string -> string -> Z -> comp P (result (option string) ContentStoreError);
  cs_stats : string -> comp P ContentStoreStats;
  cs_sweep_expired : string -> comp P Z;
  cs_shutdown : comp P unit;
}.

(** The defaults: no presigner, nothing swept. *)
Definition signed_url_default (_ _ : string) (_ : Z) : comp P (result (option string) ContentStoreError) :=
  ret (Err signed_url_not_supported).
Definition sweep_default (_ : string) : comp P Z := ret 0.

(** The protocol's two traits: the store of one profile, and the factory that
    builds it. *)
Record ContentStore := {
  content_put : ContentToStore -> comp P (result ResourceHandle ContentStoreError);
  content_get : string -> comp P (result (option ResourceContent) ContentStoreError);
  content_delete : string -> comp P (result unit ContentStoreError);
  content_signed_url : string -> Z -> comp P (result (option string) ContentStoreError);
  content_stats : comp P ContentStoreStats;
  content_sweep_expired : comp P Z;
  content_shutdown : comp P unit;
}.

Record ContentStorePlugin := {
  content_manifest : comp P PluginManifest;
  content_kind : comp P string;
  build_profile : string -> jv -> comp P (result ContentStore ContentStoreError);
}.

(** The handle of one profile: its name goes with every call. *)
Definition SyncContentStoreProfile (inner : SyncContentStore) (profile_name : string) : ContentStore := {|
  content_put content := cs_put inner profile_name content;
  content_get id := cs_get inner profile_name id;
  content_delete id := cs_delete inner profile_name id;
  content_signed_url id ttl := cs_signed_url inner profile_name id ttl;
  content_stats := cs_stats inner profile_name;
  content_sweep_expired := cs_sweep_expired inner profile_name;
  content_shutdown := cs_shutdown inner;
|}.

Definition SyncContentStoreAdapter (inner : SyncContentStore) : ContentStorePlugin := {|
  content_manifest := cs_manifest inner;
  content_kind := cs_kind inner;
  build_profile profile_name spec :=
    r <-- cs_register_profile inner profile_name spec;
    ret (map_ok (fun _ => SyncContentStoreProfile inner profile_name) r);
|}.

Variable plugin : SyncContentStore.

Definition __mcpg_content_store_make : (string -> Host -> outcome P) -> Host -> string -> string -> option P :=
  make_slot.
Definition __mcpg_content_store_manifest_json : P -> P * string := bare_slot (cs_manifest plugin).
Definition __mcpg_content_store_kind : P -> P * string := text_slot (cs_kind plugin).

Definition __mcpg_content_store_bad_args (e : string) : string :=
  respond_error (content_storage ("invalid args: " ++ e)).

Definition profile_spec (v : jv) : option (string * jv) :=
  match struct_fields ["profile_name"; "spec"]%string v with
  | Some [n; s] => match field n, field s with Some n, Some s => Some (n, s) | _, _ => None end
  | _ => None
  end.
Definition profile_content (v : jv) : option (string * ContentToStore) :=
  match struct_fields ["profile_name"; "content"]%string v with
  | Some [n; c] => match field n, field c with Some n, Some c => Some (n, c) | _, _ => None end
  | _ => None
  end.
Definition profile_id (v : jv) : option (string * string) :=
  match struct_fields ["profile_name"; "id"]%string v with
  | Some [n; i] => match field n, field i with Some n, Some i => Some (n, i) | _, _ => None end
  | _ => None
  end.
Definition profile_id_ttl (v : jv) : option (string * string * Z) :=
  match struct_fields ["profile_name"; "id"; "ttl_seconds"]%string v with
  | Some [n; i; t] =>
      match field n, field i, field_u64 t with Some n, Some i, Some t => Some (n, i, t) | _, _, _ => None end
  | _ => None
  end.
Definition profile_only (v : jv) : option string :=
  match struct_fields ["profile_name"]%string v with Some [n] => field n | _ => None end.

Definition __mcpg_content_store_register_profile : string -> P -> P * string :=
  args_slot profile_spec __mcpg_content_store_bad_args (fun '(profile_name, spec) =>
    r <-- cs_register_profile plugin profile_name spec; ret (respond_result r)).

Definition __mcpg_content_store_put : string -> P -> P * string :=
  args_slot profile_content __mcpg_content_store_bad_args (fun '(profile_name, content) =>
    r <-- cs_put plugin profile_name content; ret (respond_result r)).

Definition __mcpg_content_store_get : string -> P -> P * string :=
  args_slot profile_id __mcpg_content_store_bad_args (fun '(profile_name, id) =>
    r <-- cs_get plugin profile_name id; ret (respond_result r)).

Definition __mcpg_content_store_delete : string -> P -> P * string :=
  args_slot profile_id __mcpg_content_store_bad_args (fun '(profile_name, id) =>
    r <-- cs_delete plugin profile_name id; ret (respond_result r)).

(** [Duration::from_secs]. *)
Definition __mcpg_content_store_signed_url : string -> P -> P * string :=
  args_slot profile_id_ttl __mcpg_content_store_bad_args (fun '(profile_name, id, ttl_seconds) =>
    r <-- cs_signed_url plugin profile_name id (secs ttl_seconds); ret (respond_result r)).

(** No envelope: bad arguments read as the empty snapshot, and sweep nothing. *)
Definition __mcpg_content_store_stats (args_json : string) : P -> P * string :=
  catch_to_empty
    (stats <-- match from_str profile_only args_json with
               | Ok profile_name => cs_stats plugin profile_name
               | Err _ => ret stats_default
               end;
     ret (to_string stats)).

Definition __mcpg_content_store_sweep_expired (args_json : string) : P -> P * string :=
  catch_to_empty
    (removed <-- match from_str profile_only args_json with
                 | Ok profile_name => cs_sweep_expired plugin profile_name
                 | Err _ => ret 0
                 end;
     ret (j_print (j_u64 removed))).

Definition __mcpg_content_store_shutdown : P -> P := catch_silent (cs_shutdown plugin).

Record ContentStoreVTable := {
  cs_v_make : Host -> string -> string -> option P;
  cs_v_manifest_json : P -> P * string;
  cs_v_kind : P -> P * string;
  cs_v_register_profile : string -> P -> P * string;
  cs_v_put : string -> P -> P * string;
  cs_v_get : string -> P -> P * string;
  cs_v_delete : string -> P -> P * string;
  cs_v_signed_url : string -> P -> P * string;
  cs_v_stats : string -> P -> P * string;
  cs_v_sweep_expired : string -> P -> P * string;
  cs_v_shutdown : P -> P;
}.

Definition content_store_make_vtable (factory : string -> Host -> outcome P) : ContentStoreVTable := {|
  cs_v_make := __mcpg_content_store_make factory;
  cs_v_manifest_json := __mcpg_content_store_manifest_json;
  cs_v_kind := __mcpg_content_store_kind;
  cs_v_register_profile := __mcpg_content_store_register_profile;
  cs_v_put := __mcpg_content_store_put;
  cs_v_get := __mcpg_content_store_get;
  cs_v_delete := __mcpg_content_store_delete;
  cs_v_signed_url := __mcpg_content_store_signed_url;
  cs_v_stats := __mcpg_content_store_stats;
  cs_v_sweep_expired := __mcpg_content_store_sweep_expired;
  cs_v_shutdown := __mcpg_content_store_shutdown;
|}.

Definition content_store_build_static (factory : string -> Host -> outcome P)
    : string -> Host -> outcome (ContentStorePlugin * P) :=
  build_static factory (fun inner => (SyncContentStoreAdapter plugin, inner)).
End ContentStores.
Arguments SyncContentStore jv {PA CA} P.
Arguments ContentStore jv {CA} P.
Arguments ContentStorePlugin jv {PA CA} P.
Arguments ContentStoreVTable P Host : clear implicits.
