(* ===== verification/StoreFacts.v ===== *)
(** * Stores, caches and content stores: the two builds, malformed requests *)

From Stdlib Require Import Ascii String.
From S2P Require Import Prelude Json Ffi Gates Stores.

(** ** store *)

Section StoreBuilds.
Context {jv : Type} `{SL : StoreApiLaws jv} `{E : Envelope jv} `{PA : PluginApi jv}.
Context {P Host : Type}.

Inductive store_call :=
| SGet (role : StoreRole) (key : string)
| SPut (role : StoreRole) (key : string) (value : StoreValue)
| SDelete (role : StoreRole) (key : string)
| SList (role : StoreRole) (prefix : string) (cursor : option string)
| SCas (role : StoreRole) (key : string) (expected : option StoreValue) (new : StoreValue)
| SAppend (role : StoreRole) (key : string) (value : StoreValue).

(** What the plugin's own method answers. *)
Inductive store_answer :=
| AnsGet (r : result (option StoreValueWire) StoreError)
| AnsUnit (r : result unit StoreError)
| AnsPage (r : result StorePageWire StoreError)
| AnsBool (r : result bool StoreError)
| AnsAppend (r : result AppendResult StoreError).

Definition store_sync (s : SyncStorePlugin jv P) (c : store_call) : comp P store_answer :=
  match c with
  | SGet role key => r <-- st_get s role key; ret (AnsGet r)
  | SPut role key v => r <-- st_put s role key (wire_of_value v); ret (AnsUnit r)
  | SDelete role key => r <-- st_delete s role key; ret (AnsUnit r)
  | SList role prefix cursor => r <-- st_list s role prefix cursor; ret (AnsPage r)
  | SCas role key expected new =>
      r <-- st_compare_and_swap s role key (option_map wire_of_value expected) (wire_of_value new);
      ret (AnsBool r)
  | SAppend role key v => r <-- st_append s role key (wire_of_value v); ret (AnsAppend r)
  end.

(** The same call in process. *)
Inductive store_reply :=
| RepGet (r : result (option StoreValue) StoreError)
| RepUnit (r : result unit StoreError)
| RepPage (r : result StorePage StoreError)
| RepBool (r : result bool StoreError)
| RepAppend (r : result AppendResult StoreError).

Definition store_direct (s : Store jv P) (c : store_call) : comp P store_reply :=
  match c with
  | SGet role key => r <-- store_get s role key; ret (RepGet r)
  | SPut role key v => r <-- store_put s role key v; ret (RepUnit r)
  | SDelete role key => r <-- store_delete s role key; ret (RepUnit r)
  | SList role prefix cursor => r <-- store_list s role prefix cursor; ret (RepPage r)
  | SCas role key expected new => r <-- compare_and_swap s role key expected new; ret (RepBool r)
  | SAppend role key v => r <-- append s role key v; ret (RepAppend r)
  end.

(** The same call over the vtable, its arguments one printed object. *)
Definition store_wire (v : StoreVTable P Host) (c : store_call) : P -> P * string :=
  match c with
  | SGet role key => st_v_get v (j_print (j_obj {["role" := to_value role; "key" := j_str key]}%string))
  | SPut role key x =>
      st_v_put v (j_print (j_obj {["role" := to_value role; "key" := j_str key;
                                   "value" := to_value (wire_of_value x)]}%string))
  | SDelete role key => st_v_delete v (j_print (j_obj {["role" := to_value role; "key" := j_str key]}%string))
  | SList role prefix cursor =>
      st_v_list v (j_print (j_obj {["role" := to_value role; "prefix" := j_str prefix;
                                    "cursor" := j_opt_str cursor]}%string))
  | SCas role key expected new =>
      st_v_compare_and_swap v (j_print (j_obj {["role" := to_value role; "key" := j_str key;
        "expected" := to_value (option_map wire_of_value expected);
        "new" := to_value (wire_of_value new)]}%string))
  | SAppend role key x =>
      st_v_append v (j_print (j_obj {["role" := to_value role; "key" := j_str key;
                                      "value" := to_value (wire_of_value x)]}%string))
  end.

(** How an answer reads on the wire and in process. *)
Definition store_text (o : outcome store_answer) : string :=
  match o with
  | Panicked => ""
  | Returned (AnsGet r) => respond_result r
  | Returned (AnsUnit r) => respond_result r
  | Returned (AnsPage r) => respond_result r
  | Returned (AnsBool r) => respond_result r
  | Returned (AnsAppend r) => respond_result r
  end.
Definition store_seen (a : store_answer) : store_reply :=
  match a with
  | AnsGet r => RepGet (map_ok (option_map value_of_wire) r)
  | AnsUnit r => RepUnit r
  | AnsPage r => RepPage (map_ok page_of_wire r)
  | AnsBool r => RepBool r
  | AnsAppend r => RepAppend r
  end.

Lemma role_key_obj role key :
  role_key (j_obj {["role" := to_value role; "key" := j_str key]}%string) = Some (role, key).
Proof. unfold role_key. read_struct. by rewrite field_roundtrip, field_string. Qed.

Lemma role_key_value_obj role key (w : StoreValueWire) :
  role_key_value (j_obj {["role" := to_value role; "key" := j_str key; "value" := to_value w]}%string)
  = Some (role, key, w).
Proof. unfold role_key_value. read_struct. by rewrite !field_roundtrip, field_string. Qed.

Lemma field_opt_string (o : option string) : field_opt (jv := jv) (Some (j_opt_str o)) = Some o.
Proof. apply field_opt_str_opt. Qed.

Lemma store_list_args_obj role prefix cursor :
  store_list_args (j_obj {["role" := to_value role; "prefix" := j_str prefix;
                           "cursor" := j_opt_str cursor]}%string) = Some (role, prefix, cursor).
Proof. unfold store_list_args. read_struct. by rewrite field_roundtrip, field_string, field_opt_string. Qed.

Lemma field_opt_wire (o : option StoreValueWire) : field_opt (jv := jv) (Some (to_value o)) = Some o.
Proof.
  destruct o as [w|]; unfold field_opt, to_value, option_serialize.
  - by rewrite wire_not_null, from_to_value.
  - by rewrite j_is_null_null.
Qed.

Lemma cas_args_obj role key (expected : option StoreValueWire) (new : StoreValueWire) :
  cas_args (j_obj {["role" := to_value role; "key" := j_str key; "expected" := to_value expected;
                    "new" := to_value new]}%string) = Some (role, key, expected, new).
Proof. unfold cas_args. read_struct. by rewrite !field_roundtrip, field_string, field_opt_wire. Qed.

Lemma store_wire_sync s factory c p :
  store_wire (store_make_vtable s factory) c p =
    ((store_sync s c p).1, store_text (store_sync s c p).2).
Proof.
  destruct c; cbn [store_wire store_sync store_make_vtable st_v_get st_v_put st_v_delete st_v_list
    st_v_compare_and_swap st_v_append];
  unfold __mcpg_store_get, __mcpg_store_put, __mcpg_store_delete, __mcpg_store_list, __mcpg_store_cas,
    __mcpg_store_append;
  (erewrite args_slot_print; [|first [apply role_key_obj|apply role_key_value_obj
    |apply store_list_args_obj|apply cas_args_obj]]);
  unfold bind, ret, catch_to_empty; run_method; try done; by destruct a.
Qed.

Lemma store_direct_sync s c p :
  store_direct (SyncStorePluginAdapter s) c p =
    ((store_sync s c p).1, outcome_map store_seen (store_sync s c p).2).
Proof. destruct c; simpl; unfold bind, ret; run_method; done. Qed.

(** C32. For every sequence of gets, puts, deletes, listings, swaps and appends,
    both builds of a store make the very calls the sync plugin would get, in
    that order and with those arguments: over the wire each answer comes back
    in the result envelope (the empty text for a panic), in process with its
    values converted. *)
Theorem store_builds_agree s factory calls (p : P) :
  session (store_wire (store_make_vtable s factory)) calls p =
    ((session (store_sync s) calls p).1, store_text <$> (session (store_sync s) calls p).2)
  /\ session (store_direct (SyncStorePluginAdapter s)) calls p =
    ((session (store_sync s) calls p).1, outcome_map store_seen <$> (session (store_sync s) calls p).2).
Proof.
  split; apply session_agree_map; intros; [apply store_wire_sync|apply store_direct_sync].
Qed.

(** Watching is where the builds part: over the vtable the plugin's watch is
    started, in process it is refused without asking the plugin. *)
Lemma store_watch_differs (s : SyncStorePlugin jv P) (factory : string -> Host -> outcome P) role key sink p :
  st_v_watch (store_make_vtable s factory)
    (j_print (j_obj {["role" := to_value role; "key" := j_str key]}%string)) sink p
    = answered stream_handle_of (failed_stream (store_backend "plugin panicked during watch"))
        (st_watch s role key sink) p
  /\ store_watch (SyncStorePluginAdapter s) role key p = (p, Returned (Err (store_unsupported "watch"))).
Proof.
  split; [|done]. simpl. unfold __mcpg_store_watch.
  rewrite (from_str_print _ _ (role, key)) by apply role_key_obj. apply catch_or_answered.
Qed.
End StoreBuilds.

(** ** cache *)

Section CacheBuilds.
Context {jv : Type} `{JL : JsonLaws jv} `{E : Envelope jv} `{PA : PluginApi jv} {CA : CacheApi jv}.
Context {P Host : Type}.

Inductive cache_call :=
| CaGet (ns key : string)
| CaPut (ns key : string) (value : list Z) (ttl_ms : Z)
| CaDelete (ns key : string)
| CaClear (ns : string)
| CaIncr (ns key : string) (by_ ttl_ms : Z).

Inductive cache_answer :=
| CansGet (o : option (list Z))
| CansUnit (r : result unit CacheError)
| CansNothing
| CansCount (r : result Z CacheError).

(** Values are bytes, times to live [u64], increments [i64]. *)
Definition cache_call_ok (c : cache_call) : Prop :=
  match c with
  | CaPut _ _ value ttl_ms => Forall (fun n => 0 <= n <= 255) value /\ 0 <= ttl_ms <= u64_max
  | CaIncr _ _ by_ ttl_ms => i64_min <= by_ <= i64_max /\ 0 <= ttl_ms <= u64_max
  | _ => True
  end.

(** In process the time to live is a duration, [Duration::from_millis]. *)
Definition cache_direct (c : Cache jv P) (call : cache_call) : comp P cache_answer :=
  match call with
  | CaGet ns key => o <-- cache_get c ns key; ret (CansGet o)
  | CaPut ns key value ttl_ms => r <-- cache_put c ns key value (ms ttl_ms); ret (CansUnit r)
  | CaDelete ns key => _ <-- cache_delete c ns key; ret CansNothing
  | CaClear ns => r <-- cache_clear c ns; ret (CansUnit r)
  | CaIncr ns key by_ ttl_ms => r <-- cache_incr c ns key by_ (ms ttl_ms); ret (CansCount r)
  end.

Definition cache_wire (v : CacheVTable P Host) (call : cache_call) (p : P) : P * string :=
  match call with
  | CaGet ns key => ca_v_get v (j_print (j_obj {["ns" := j_str ns; "key" := j_str key]}%string)) p
  | CaPut ns key value ttl_ms =>
      ca_v_put v (j_print (j_obj {["ns" := j_str ns; "key" := j_str key; "value" := j_bytes value;
                                   "ttl_ms" := j_u64 ttl_ms]}%string)) p
  | CaDelete ns key =>
      (ca_v_delete v (j_print (j_obj {["ns" := j_str ns; "key" := j_str key]}%string)) p, ""%string)
  | CaClear ns => ca_v_clear v (j_print (j_obj {["ns" := j_str ns]}%string)) p
  | CaIncr ns key by_ ttl_ms =>
      ca_v_incr v (j_print (j_obj {["ns" := j_str ns; "key" := j_str key; "by" := j_i64 by_;
                                    "ttl_ms" := j_u64 ttl_ms]}%string)) p
  end.

Definition cache_text (o : outcome cache_answer) : string :=
  match o with
  | Panicked | Returned CansNothing => ""
  | Returned (CansGet o) => j_print (bytes_or_null o)
  | Returned (CansUnit r) => respond_result r
  | Returned (CansCount r) => respond_result (map_ok j_i64 r)
  end.

Lemma millis_in_range t : 0 <= t <= u64_max -> as_u64 (as_millis (ms t)) = t.
Proof.
  unfold as_u64, as_millis, ms, u64_max. intros H. rewrite Z.div_mul by done. apply Z.mod_small. lia.
Qed.

Lemma ns_key_obj ns key :
  ns_key (j_obj {["ns" := j_str ns; "key" := j_str key]}%string) = Some (ns, key).
Proof. unfold ns_key. read_struct. by rewrite !field_string. Qed.

Lemma cache_put_args_obj ns key value ttl_ms :
  Forall (fun n => 0 <= n <= 255) value -> 0 <= ttl_ms <= u64_max ->
  cache_put_args (j_obj {["ns" := j_str ns; "key" := j_str key; "value" := j_bytes value;
                          "ttl_ms" := j_u64 ttl_ms]}%string) = Some (ns, key, value, ttl_ms).
Proof.
  intros Hv Ht. unfold cache_put_args. read_struct.
  by rewrite !field_string, field_bytes_bytes, field_u64_print by done.
Qed.

Lemma cache_incr_args_obj ns key by_ ttl_ms :
  i64_min <= by_ <= i64_max -> 0 <= ttl_ms <= u64_max ->
  cache_incr_args (j_obj {["ns" := j_str ns; "key" := j_str key; "by" := j_i64 by_;
                           "ttl_ms" := j_u64 ttl_ms]}%string) = Some (ns, key, by_, ttl_ms).
Proof.
  intros Hb Ht. unfold cache_incr_args. read_struct.
  by rewrite !field_string, field_i64_print, field_u64_print by done.
Qed.

Lemma cache_clear_args_obj ns : cache_clear_args (j_obj {["ns" := j_str ns]}%string) = Some ns.
Proof. unfold cache_clear_args. read_struct. by rewrite field_string. Qed.

Lemma cache_wire_direct s factory c p :
  cache_call_ok c ->
  cache_wire (cache_make_vtable s factory) c p =
    ((cache_direct (SyncCachePluginAdapter s) c p).1,
     cache_text (cache_direct (SyncCachePluginAdapter s) c p).2).
Proof.
  intros Hc. destruct c; simpl in Hc; simpl;
  unfold __mcpg_cache_get, __mcpg_cache_put, __mcpg_cache_delete, __mcpg_cache_clear, __mcpg_cache_incr.
  3: { rewrite (from_str_print _ _ (ns, key)) by apply ns_key_obj. unfold catch_silent, bind, ret.
       by run_method. }
  all: erewrite args_slot_print;
    [|first [apply ns_key_obj|apply cache_clear_args_obj
            |apply cache_put_args_obj; apply Hc|apply cache_incr_args_obj; apply Hc]];
    rewrite ?millis_in_range by apply Hc; unfold bind, ret, catch_to_empty; by run_method.
Qed.

(** For every sequence of gets, puts, deletes, clears and increments within
    the machine ranges, the two builds of a cache make the same calls and give
    the same answers; a value, a counter and a time to live in milliseconds
    cross the boundary unchanged. *)
Theorem cache_builds_agree s factory calls (p : P) :
  Forall cache_call_ok calls ->
  session (cache_wire (cache_make_vtable s factory)) calls p =
    ((session (cache_direct (SyncCachePluginAdapter s)) calls p).1,
     zip_with (fun _ => cache_text) calls (session (cache_direct (SyncCachePluginAdapter s)) calls p).2).
Proof.
  intros H. apply session_agree. eapply Forall_impl; [exact H|]. intros c Hc p'. by apply cache_wire_direct.
Qed.

(** Beyond [u64] milliseconds a time to live wraps in process: 2^64 ms is no
    time at all. *)
Lemma cache_ttl_wraps (s : SyncCachePlugin jv P) ns key value p :
  cache_put (SyncCachePluginAdapter s) ns key value (ms (2 ^ 64)) p = ca_put s ns key value 0 p.
Proof. done. Qed.
End CacheBuilds.

(** ** content_store *)

Section ContentBuilds.
Context {jv : Type} `{JL : JsonLaws jv} `{E : Envelope jv} `{PA : PluginApi jv} {CA : ContentApi jv}.
Context `{!SerdeRoundtrip jv ContentToStore} {P Host : Type}.

Inductive content_call :=
| CoPut (content : ContentToStore)
| CoGet (id : string)
| CoDelete (id : string)
| CoSignedUrl (id : string) (ttl_seconds : Z)
| CoStats
| CoSweep.

Inductive content_answer :=
| CoansHandle (r : result ResourceHandle ContentStoreError)
| CoansContent (r : result (option ResourceContent) ContentStoreError)
| CoansUnit (r : result unit ContentStoreError)
| CoansUrl (r : result (option string) ContentStoreError)
| CoansStats (s : ContentStoreStats)
| CoansSwept (n : Z).

Definition content_call_ok (c : content_call) : Prop :=
  match c with CoSignedUrl _ ttl_seconds => 0 <= ttl_seconds <= u64_max | _ => True end.

Definition content_direct (h : ContentStore jv P) (c : content_call) : comp P content_answer :=
  match c with
  | CoPut content => r <-- content_put h content; ret (CoansHandle r)
  | CoGet id => r <-- content_get h id; ret (CoansContent r)
  | CoDelete id => r <-- content_delete h id; ret (CoansUnit r)
  | CoSignedUrl id ttl => r <-- content_signed_url h id (secs ttl); ret (CoansUrl r)
  | CoStats => s <-- content_stats h; ret (CoansStats s)
  | CoSweep => n <-- content_sweep_expired h; ret (CoansSwept n)
  end.

Definition content_wire (v : ContentStoreVTable P Host) (name : string) (c : content_call) : P -> P * string :=
  match c with
  | CoPut content =>
      cs_v_put v (j_print (j_obj {["profile_name" := j_str name; "content" := to_value content]}%string))
  | CoGet id => cs_v_get v (j_print (j_obj {["profile_name" := j_str name; "id" := j_str id]}%string))
  | CoDelete id => cs_v_delete v (j_print (j_obj {["profile_name" := j_str name; "id" := j_str id]}%string))
  | CoSignedUrl id ttl =>
      cs_v_signed_url v (j_print (j_obj {["profile_name" := j_str name; "id" := j_str id;
                                          "ttl_seconds" := j_u64 ttl]}%string))
  | CoStats => cs_v_stats v (j_print (j_obj {["profile_name" := j_str name]}%string))
  | CoSweep => cs_v_sweep_expired v (j_print (j_obj {["profile_name" := j_str name]}%string))
  end.

Definition content_text (o : outcome content_answer) : string :=
  match o with
  | Panicked => ""
  | Returned (CoansHandle r) => respond_result r
  | Returned (CoansContent r) => respond_result r
  | Returned (CoansUnit r) => respond_result r
  | Returned (CoansUrl r) => respond_result r
  | Returned (CoansStats s) => to_string s
  | Returned (CoansSwept n) => j_print (j_u64 n)
  end.

Lemma profile_content_obj name (c : ContentToStore) :
  profile_content (j_obj {["profile_name" := j_str name; "content" := to_value c]}%string) = Some (name, c).
Proof. unfold profile_content. read_struct. by rewrite field_string, field_roundtrip. Qed.
Lemma profile_id_obj name id :
  profile_id (j_obj {["profile_name" := j_str name; "id" := j_str id]}%string) = Some (name, id).
Proof. unfold profile_id. read_struct. by rewrite !field_string. Qed.
Lemma profile_id_ttl_obj name id t :
  0 <= t <= u64_max ->
  profile_id_ttl (j_obj {["profile_name" := j_str name; "id" := j_str id; "ttl_seconds" := j_u64 t]}%string)
  = Some (name, id, t).
Proof. intros Ht. unfold profile_id_ttl. read_struct. by rewrite !field_string, field_u64_print by done. Qed.
Lemma profile_only_obj name : profile_only (j_obj {["profile_name" := j_str name]}%string) = Some name.
Proof. unfold profile_only. read_struct. by rewrite field_string. Qed.
Lemma profile_spec_obj name (spec : jv) :
  profile_spec (j_obj {["profile_name" := j_str name; "spec" := spec]}%string) = Some (name, spec).
Proof. unfold profile_spec. read_struct. by rewrite field_string. Qed.

Lemma content_wire_direct s factory name c p :
  content_call_ok c ->
  content_wire (content_store_make_vtable s factory) name c p =
    ((content_direct (SyncContentStoreProfile s name) c p).1,
     content_text (content_direct (SyncContentStoreProfile s name) c p).2).
Proof.
  intros Hc. destruct c; simpl in Hc; simpl;
  unfold __mcpg_content_store_put, __mcpg_content_store_get, __mcpg_content_store_delete,
    __mcpg_content_store_signed_url, __mcpg_content_store_stats, __mcpg_content_store_sweep_expired.
  5,6: rewrite (from_str_print _ _ name) by apply profile_only_obj;
    unfold bind, ret, catch_to_empty; by run_method.
  all: erewrite args_slot_print;
    [|first [apply profile_content_obj|apply profile_id_obj|by apply profile_id_ttl_obj]];
    unfold bind, ret, catch_to_empty; by run_method.
Qed.

(** A handle the factory built for a profile name. *)
Definition built_for (s : SyncContentStore jv P) (name : string) (h : ContentStore jv P) : Prop :=
  exists spec p p', build_profile (SyncContentStoreAdapter s) name spec p = (p', Returned (Ok h)).

Lemma built_for_profile s name h : built_for s name h -> h = SyncContentStoreProfile s name.
Proof.
  intros (spec & p & p' & H). simpl in H. unfold bind, ret in H.
  destruct (cs_register_profile s name spec p) as [? [[[]|]|]]; by simplify_eq/=.
Qed.

(** Registering a profile over the wire does what building it in process
    does; and however the calls on several profiles interleave, the handles the
    in-process factory built and the vtable with the profile names in the
    arguments reach the one manager with the same calls and answers. *)
Theorem content_builds_agree s factory (handle : string -> ContentStore jv P) calls (p : P) :
  (forall name, built_for s name (handle name) \/ name ∉ calls.*1) ->
  Forall (fun c => content_call_ok c.2) calls ->
  (forall name spec p,
     cs_v_register_profile (content_store_make_vtable s factory)
       (j_print (j_obj {["profile_name" := j_str name; "spec" := spec]}%string)) p
     = answered (fun r => respond_result (map_ok (fun _ => tt) r)) ""%string
         (build_profile (SyncContentStoreAdapter s) name spec) p)
  /\ session (fun c => content_wire (content_store_make_vtable s factory) c.1 c.2) calls p =
    ((session (fun c => content_direct (handle c.1) c.2) calls p).1,
     zip_with (fun _ => content_text) calls (session (fun c => content_direct (handle c.1) c.2) calls p).2).
Proof.
  intros Hh Hc. split.
  - intros name spec q. simpl. unfold __mcpg_content_store_register_profile.
    erewrite args_slot_print by apply profile_spec_obj.
    unfold answered, bind, ret, catch_to_empty.
    by destruct (cs_register_profile s name spec q) as [? [[[]|]|]].
  - apply session_agree. apply Forall_forall. intros [name c] Hin q. simpl.
    assert (handle name = SyncContentStoreProfile s name) as ->.
    { destruct (Hh name) as [H|H]; [by apply built_for_profile|].
      contradict H. apply list_elem_of_fmap. by exists (name, c). }
    apply content_wire_direct. rewrite Forall_forall in Hc. apply (Hc _ Hin).
Qed.
End ContentBuilds.

(** ** Malformed requests *)

Section Malformed.
Context {jv : Type} `{JL : JsonLaws jv} `{E : Envelope jv} `{PA : PluginApi jv}.
Context {SA : StoreApi jv} {CA : CacheApi jv} {CO : ContentApi jv} {P Host : Type}.

Lemma from_str_malformed {A} (of_value : jv -> option A) s m :
  j_parse s = Err m -> from_str of_value s = Err (serde_message s).
Proof. intros H. unfold from_str. by rewrite H. Qed.

(** A request that is not JSON never reaches the plugin, whichever slot of
    a store, a cache or a content store it is sent to: the state is untouched;
    the typed slots answer the kind's error in the envelope, a cache read is a
    miss, a cache delete and a sweep do nothing, statistics are the empty
    snapshot, and a watch does not start. *)
Theorem malformed_never_reaches_plugin (st : SyncStorePlugin jv P) (ca : SyncCachePlugin jv P)
    (cs : SyncContentStore jv P) (f : string -> Host -> outcome P) s m sink p :
  j_parse s = Err m ->
  let sv := store_make_vtable st f in
  let cv := cache_make_vtable ca f in
  let ov := content_store_make_vtable cs f in
  Forall (fun slot => slot s p = (p, respond_error (store_backend ("invalid args: " ++ serde_message s))))
    [st_v_get sv; st_v_put sv; st_v_delete sv; st_v_list sv; st_v_compare_and_swap sv; st_v_append sv]
  /\ st_v_watch sv s sink p =
      (p, failed_stream (store_backend ("invalid watch args: " ++ serde_message s)))
  /\ Forall (fun slot => slot s p = (p, respond_error (cache_backend ("invalid args: " ++ serde_message s))))
    [ca_v_put cv; ca_v_clear cv]
  /\ ca_v_get cv s p = (p, "null"%string) /\ ca_v_delete cv s p = p
  /\ Forall (fun slot => slot s p = (p, respond_error (content_storage ("invalid args: " ++ serde_message s))))
    [cs_v_register_profile ov; cs_v_put ov; cs_v_get ov; cs_v_delete ov; cs_v_signed_url ov]
  /\ cs_v_stats ov s p = (p, to_string stats_default)
  /\ cs_v_sweep_expired ov s p = (p, j_print (j_u64 0)).
Proof.
  intros H sv cv ov.
  pose proof (fun A (of_value : jv -> option A) => from_str_malformed of_value s m H) as Hm.
  subst sv cv ov. cbn. rewrite !Forall_cons.
  unfold __mcpg_store_get, __mcpg_store_put, __mcpg_store_delete, __mcpg_store_list, __mcpg_store_cas,
    __mcpg_store_append, __mcpg_store_watch, __mcpg_cache_put, __mcpg_cache_clear, __mcpg_cache_get,
    __mcpg_cache_delete, __mcpg_content_store_register_profile, __mcpg_content_store_put,
    __mcpg_content_store_get, __mcpg_content_store_delete, __mcpg_content_store_signed_url,
    __mcpg_content_store_stats, __mcpg_content_store_sweep_expired, args_slot.
  rewrite !Hm. by split_and!.
Qed.
End Malformed.

(** ** Witnesses *)

Module Sample.
Import Tree Wire Gates.Sample.

#[export] Instance store_api : StoreApi jtree := {|
  StoreRole := string; StoreValueWire := string; StoreValue := string;
  value_of_wire := id; wire_of_value := id; StorePageWire := list string; StorePage := list string;
  page_of_wire := id; AppendResult := string; append_sequence _ := "0"%string;
  StoreError := string; store_backend := id; store_unsupported := id; StoreEventStream := unit;
|}.
#[export] Instance store_laws : StoreApiLaws jtree.
Proof. split; [apply _|apply _|done]. Qed.
#[export] Instance cache_api : CacheApi jtree := {| CacheError := string; cache_backend := id |}.
#[export] Instance content_api : ContentApi jtree := {|
  ContentToStore := string; ResourceHandle := string; ResourceContent := string;
  ContentStoreStats := string; stats_default := ""%string; ContentStoreError := string;
  content_storage := id; signed_url_not_supported := ""%string;
|}.

(** A store of one cell, a cache of one cell, a content store of named cells. *)
Definition cell : SyncStorePlugin jtree (option string) := {|
  st_manifest := ret "cell"%string;
  st_supported_roles := ret ["state"%string];
  st_get _ _ p := (p, Returned (Ok p));
  st_put _ _ v _ := (Some v, Returned (Ok tt));
  st_delete _ _ _ := (None, Returned (Ok tt));
  st_list _ _ _ := panic;
  st_compare_and_swap _ _ x n p := if decide (x = p) then (Some n, Returned (Ok true)) else (p, Returned (Ok false));
  st_append := append_default (fun _ _ v _ => (Some v, Returned (Ok tt)));
  st_watch := watch_default;
  st_cancel_watch _ := ret tt;
  st_shutdown := no_shutdown;
|}.
Definition cache_cell : SyncCachePlugin jtree (option string) := {|
  ca_manifest := ret "cell"%string;
  ca_supported_namespaces := ret ["n"%string];
  ca_serves_any_namespace := serves_any_default;
  ca_get _ _ := ret (Some [1; 2]);
  ca_put _ _ _ _ := ret (Ok tt);
  ca_delete _ _ _ := (None, Returned tt);
  ca_clear _ := panic;
  ca_incr _ _ n ttl := ret (Ok (n + ttl));
  ca_shutdown := no_shutdown;
|}.
Definition content_cell : SyncContentStore jtree (option string) := {|
  cs_manifest := ret "cell"%string;
  cs_kind := ret "cell"%string;
  cs_register_profile _ _ := ret (Ok tt);
  cs_put name c _ := (Some (name ++ c)%string, Returned (Ok c));
  cs_get _ _ p := (p, Returned (Ok p));
  cs_delete _ _ _ := (None, Returned (Ok tt));
  cs_signed_url := signed_url_default;
  cs_stats := fun name => ret name;
  cs_sweep_expired := sweep_default;
  cs_shutdown := no_shutdown;
|}.
Definition make : string -> unit -> outcome (option string) := fun _ _ => Returned None.

Lemma store_builds_agree_witness :
  session (store_direct (SyncStorePluginAdapter cell))
    [SPut "r"%string "k" "v"%string; SGet "r"%string "k"; SList "r"%string "" None;
     SCas "r"%string "k" (Some "v"%string) "w"%string] None
  = (Some "w"%string, [Returned (RepUnit (Ok tt)); Returned (RepGet (Ok (Some "v"%string))); Panicked;
                       Returned (RepBool (Ok true))]).
Proof.
  pose proof (store_builds_agree cell make
    [SPut "r"%string "k" "v"%string; SGet "r"%string "k"; SList "r"%string "" None;
     SCas "r"%string "k" (Some "v"%string) "w"%string] None) as [_ ->].
  vm_compute. reflexivity.
Defined.

Lemma cache_builds_agree_witness :
  (session (cache_wire (cache_make_vtable cache_cell make))
    [CaPut "n" "k" [7; 255] 5; CaClear "n"; CaIncr "n" "k" (-3) 10] None).2
  = [respond_result (A := unit) (R := string) (Ok tt); ""%string;
     respond_result (A := jtree) (R := string) (Ok (j_i64 7))].
Proof.
  rewrite (cache_builds_agree cache_cell make [CaPut "n" "k" [7; 255] 5; CaClear "n"; CaIncr "n" "k" (-3) 10] None).
  - vm_compute. reflexivity.
  - repeat constructor; try (vm_compute; discriminate).
Defined.

Lemma content_builds_agree_witness :
  (session (fun c => content_wire (content_store_make_vtable content_cell make) c.1 c.2)
    [("a"%string, CoPut (CA := content_api) "x"%string); ("b"%string, CoPut (CA := content_api) "y"%string); ("a"%string, CoGet "i")] None).1
  = Some "by"%string.
Proof.
  destruct (content_builds_agree content_cell make (SyncContentStoreProfile content_cell)
    [("a"%string, CoPut (CA := content_api) "x"%string); ("b"%string, CoPut (CA := content_api) "y"%string); ("a"%string, CoGet "i")] None) as [_ ->].
  - intros name. left. exists TNull, None, None. reflexivity.
  - repeat constructor.
  - vm_compute. reflexivity.
Defined.

Lemma malformed_never_reaches_plugin_witness :
  j_parse (jv := jtree) "" = Err "not a value"%string
  /\ ca_v_get (cache_make_vtable cache_cell make) "" (Some "kept"%string) = (Some "kept"%string, "null"%string).
Proof.
  split; [reflexivity|].
  pose proof (malformed_never_reaches_plugin cell cache_cell content_cell make "" "not a value" 0
    (Some "kept"%string) eq_refl) as (_ & _ & _ & H & _). exact H.
Defined.
End Sample.
