(* ===== verification/Providers.v ===== *)
(** * Secret, config, policy, approval, credential and catalog providers

    The sync traits (src/src/ffi.rs), the slots (src/src/macros.rs) and the
    in-process adapters (src/src/adapters.rs). *)

From Stdlib Require Import Ascii String.
From S2P Require Import Prelude Json Ffi Gates.

(** ** secret_provider and config_provider: URI-addressed resources *)

Class SecretApi (jv : Type) := {
  SecretValueWire : Type;
  #[global] secret_serialize :: Serialize jv SecretValueWire;
  SecretValue : Type;
  secret_of_wire : SecretValueWire -> SecretValue;
  SecretError : Type;
  secret_backend : string -> SecretError;
  secret_unsupported_scheme : string -> SecretError;
  #[global] secret_error_serialize :: Serialize jv SecretError;
}.

Section Secret.
Context {jv : Type} `{J : Json jv} `{E : Envelope jv} `{PA : PluginApi jv} {SA : SecretApi jv}.
Context {P Host : Type}.

Record SyncSecretProvider := {
  se_manifest : comp P PluginManifest;
  se_supported_schemes : comp P (list string);
  se_get : string -> comp P (result SecretValueWire SecretError);
  se_watch : string -> Z -> comp P (result Z SecretError);
  se_cancel_watch : Z -> comp P unit;
  se_shutdown : comp P unit;
}.

Definition secret_watch_default (_ : string) (_ : Z) : comp P (result Z SecretError) :=
  ret (Err (secret_unsupported_scheme "watch")).

(** The async trait; its default [watch] is the protocol's. *)
Record SecretProvider := {
  secret_manifest : comp P PluginManifest;
  secret_schemes : comp P (list string);
  secret_get : string -> comp P (result SecretValue SecretError);
  secret_shutdown : comp P unit;
}.

Definition SyncSecretProviderAdapter (inner : SyncSecretProvider) : SecretProvider := {|
  secret_manifest := se_manifest inner;
  secret_schemes := se_supported_schemes inner;
  secret_get secret_ref := r <-- se_get inner secret_ref; ret (map_ok secret_of_wire r);
  secret_shutdown := se_shutdown inner;
|}.

Variable plugin : SyncSecretProvider.

Definition __mcpg_secret_make : (string -> Host -> outcome P) -> Host -> string -> string -> option P :=
  make_slot.
Definition __mcpg_secret_manifest : P -> P * string := bare_slot (se_manifest plugin).
Definition __mcpg_secret_supported : P -> P * string := bare_slot (se_supported_schemes plugin).
Definition __mcpg_secret_get (reference : string) : P -> P * string := envelope_slot (se_get plugin reference).
Definition __mcpg_secret_watch (reference : string) (sink : Z) : P -> P * StreamHandle :=
  catch_or (failed_stream (secret_backend "plugin panicked during watch"))
    (r <-- se_watch plugin reference sink; ret (stream_handle_of r)).
Definition __mcpg_secret_cancel_watch (watch_handle : Z) : P -> P :=
  catch_silent (se_cancel_watch plugin watch_handle).
Definition __mcpg_secret_shutdown : P -> P := catch_silent (se_shutdown plugin).

Record SecretProviderVTable := {
  se_v_make : Host -> string -> string -> option P;
  se_v_manifest_json : P -> P * string;
  se_v_supported_schemes_json : P -> P * string;
  se_v_get : string -> P -> P * string;
  se_v_watch : string -> Z -> P -> P * StreamHandle;
  se_v_cancel_watch : Z -> P -> P;
  se_v_shutdown : P -> P;
}.

Definition secret_make_vtable (factory : string -> Host -> outcome P) : SecretProviderVTable := {|
  se_v_make := __mcpg_secret_make factory;
  se_v_manifest_json := __mcpg_secret_manifest;
  se_v_supported_schemes_json := __mcpg_secret_supported;
  se_v_get := __mcpg_secret_get;
  se_v_watch := __mcpg_secret_watch;
  se_v_cancel_watch := __mcpg_secret_cancel_watch;
  se_v_shutdown := __mcpg_secret_shutdown;
|}.

Definition secret_build_static (factory : string -> Host -> outcome P)
    : string -> Host -> outcome (SecretProvider * P) :=
  build_static factory (fun inner => (SyncSecretProviderAdapter plugin, inner)).
End Secret.
Arguments SyncSecretProvider jv {PA SA} P.
Arguments SecretProvider jv {PA SA} P.
Arguments SecretProviderVTable P Host : clear implicits.

Class ConfigApi (jv : Type) := {
  ConfigSnapshot : Type;
  #[global] snapshot_serialize :: Serialize jv ConfigSnapshot;
  ConfigError : Type;
  config_backend : string -> ConfigError;
  config_unsupported_scheme : string -> ConfigError;
  #[global] config_error_serialize :: Serialize jv ConfigError;
}.

Section Config.
Context {jv : Type} `{J : Json jv} `{E : Envelope jv} `{PA : PluginApi jv} {CA : ConfigApi jv}.
Context {P Host : Type}.

Record SyncConfigProvider := {
  co_manifest : comp P PluginManifest;
  co_supported_schemes : comp P (list string);
  co_snapshot : string -> comp P (result ConfigSnapshot ConfigError);
  co_watch : string -> Z -> comp P (result Z ConfigError);
  co_cancel_watch : Z -> comp P unit;
  co_shutdown : comp P unit;
}.

Definition config_watch_default (_ : string) (_ : Z) : comp P (result Z ConfigError) :=
  ret (Err (config_unsupported_scheme "watch")).

Record ConfigProvider := {
  config_manifest : comp P PluginManifest;
  config_schemes : comp P (list string);
  config_snapshot : string -> comp P (result ConfigSnapshot ConfigError);
  config_shutdown : comp P unit;
}.

Definition SyncConfigProviderAdapter (inner : SyncConfigProvider) : ConfigProvider := {|
  config_manifest := co_manifest inner;
  config_schemes := co_supported_schemes inner;
  config_snapshot reference := co_snapshot inner reference;
  config_shutdown := co_shutdown inner;
|}.

Variable plugin : SyncConfigProvider.

Definition __mcpg_config_make : (string -> Host -> outcome P) -> Host -> string -> string -> option P :=
  make_slot.
Definition __mcpg_config_manifest : P -> P * string := bare_slot (co_manifest plugin).
Definition __mcpg_config_supported : P -> P * string := bare_slot (co_supported_schemes plugin).
Definition __mcpg_config_snapshot (reference : string) : P -> P * string :=
  envelope_slot (co_snapshot plugin reference).
Definition __mcpg_config_watch (reference : string) (sink : Z) : P -> P * StreamHandle :=
  catch_or (failed_stream (config_backend "plugin panicked during watch"))
    (r <-- co_watch plugin reference sink; ret (stream_handle_of r)).
Definition __mcpg_config_cancel_watch (watch_handle : Z) : P -> P :=
  catch_silent (co_cancel_watch plugin watch_handle).
Definition __mcpg_config_shutdown : P -> P := catch_silent (co_shutdown plugin).

Record ConfigProviderVTable := {
  co_v_make : Host -> string -> string -> option P;
  co_v_manifest_json : P -> P * string;
  co_v_supported_schemes_json : P -> P * string;
  co_v_snapshot : string -> P -> P * string;
  co_v_watch : string -> Z -> P -> P * StreamHandle;
  co_v_cancel_watch : Z -> P -> P;
  co_v_shutdown : P -> P;
}.

Definition config_make_vtable (factory : string -> Host -> outcome P) : ConfigProviderVTable := {|
  co_v_make := __mcpg_config_make factory;
  co_v_manifest_json := __mcpg_config_manifest;
  co_v_supported_schemes_json := __mcpg_config_supported;
  co_v_snapshot := __mcpg_config_snapshot;
  co_v_watch := __mcpg_config_watch;
  co_v_cancel_watch := __mcpg_config_cancel_watch;
  co_v_shutdown := __mcpg_config_shutdown;
|}.

Definition config_build_static (factory : string -> Host -> outcome P)
    : string -> Host -> outcome (ConfigProvider * P) :=
  build_static factory (fun inner => (SyncConfigProviderAdapter plugin, inner)).
End Config.
Arguments SyncConfigProvider jv {PA CA} P.
Arguments ConfigProvider jv {PA CA} P.
Arguments ConfigProviderVTable P Host : clear implicits.

(** ** policy_engine *)

Class PolicyApi (jv : Type) := {
  PolicyDecision : Type;
  policy_deny : string -> string -> PolicyDecision;
  #[global] decision_serialize :: Serialize jv PolicyDecision;
  PolicyVersion : Type;
  #[global] version_serialize :: Serialize jv PolicyVersion;
}.

Section Policy.
Context {jv : Type} `{J : Json jv} `{E : Envelope jv} `{PA : PluginApi jv} {PO : PolicyApi jv}.
Context {P Host : Type}.

Record SyncPolicyEngine := {
  po_manifest : comp P PluginManifest;
  po_name : comp P string;
  po_evaluate : string -> jv -> PluginContext -> comp P PolicyDecision;
  po_policy_version : comp P PolicyVersion;
  po_shutdown : comp P unit;
}.

Record PolicyEngine := {
  policy_manifest : comp P PluginManifest;
  policy_name : comp P string;
  policy_evaluate : string -> jv -> PluginContext -> comp P PolicyDecision;
  policy_version : comp P PolicyVersion;
  policy_shutdown : comp P unit;
}.

Definition SyncPolicyEngineAdapter (inner : SyncPolicyEngine) : PolicyEngine := {|
  policy_manifest := po_manifest inner;
  policy_name := po_name inner;
  policy_evaluate decision_point input context := po_evaluate inner decision_point input context;
  policy_version := po_policy_version inner;
  policy_shutdown := po_shutdown inner;
|}.

Variable plugin : SyncPolicyEngine.

Definition __mcpg_policy_make : (string -> Host -> outcome P) -> Host -> string -> string -> option P :=
  make_slot.
Definition __mcpg_policy_manifest : P -> P * string := bare_slot (po_manifest plugin).
Definition __mcpg_policy_name : P -> P * string := text_slot (po_name plugin).

Definition policy_args (v : jv) : option (string * jv * PluginContext) :=
  match struct_fields ["decision_point"; "input"; "context"]%string v with
  | Some [d; i; c] =>
      match field d, field i, field c with Some d, Some i, Some c => Some (d, i, c) | _, _, _ => None end
  | _ => None
  end.

(** Malformed input surfaces as a denial. *)
Definition __mcpg_policy_evaluate : string -> P -> P * string :=
  args_slot policy_args (fun _ => to_string (policy_deny "malformed policy input" ""))
    (fun '(decision_point, input, context) =>
       decision <-- po_evaluate plugin decision_point input context; ret (to_string decision)).

Definition __mcpg_policy_version : P -> P * string := bare_slot (po_policy_version plugin).
Definition __mcpg_policy_shutdown : P -> P := catch_silent (po_shutdown plugin).

Record PolicyEngineVTable := {
  po_v_make : Host -> string -> string -> option P;
  po_v_manifest_json : P -> P * string;
  po_v_name : P -> P * string;
  po_v_evaluate : string -> P -> P * string;
  po_v_policy_version : P -> P * string;
  po_v_shutdown : P -> P;
}.

Definition policy_make_vtable (factory : string -> Host -> outcome P) : PolicyEngineVTable := {|
  po_v_make := __mcpg_policy_make factory;
  po_v_manifest_json := __mcpg_policy_manifest;
  po_v_name := __mcpg_policy_name;
  po_v_evaluate := __mcpg_policy_evaluate;
  po_v_policy_version := __mcpg_policy_version;
  po_v_shutdown := __mcpg_policy_shutdown;
|}.

Definition policy_build_static (factory : string -> Host -> outcome P)
    : string -> Host -> outcome (PolicyEngine * P) :=
  build_static factory (fun inner => (SyncPolicyEngineAdapter plugin, inner)).
End Policy.
Arguments SyncPolicyEngine jv {PA PO} P.
Arguments PolicyEngine jv {PA PO} P.
Arguments PolicyEngineVTable P Host : clear implicits.

(** ** approval_notifier *)

Class ApprovalApi (jv : Type) := {
  NotificationRequest : Type;
  #[global] request_serialize :: Serialize jv NotificationRequest;
  #[global] request_deserialize :: Deserialize jv NotificationRequest;
  NotificationResult : Type;
  #[global] notification_serialize :: Serialize jv NotificationResult;
  NotificationError : Type;
  notification_internal : string -> NotificationError;
  #[global] notification_error_serialize :: Serialize jv NotificationError;
}.

Section Approval.
Context {jv : Type} `{J : Json jv} `{E : Envelope jv} `{PA : PluginApi jv} {AA : ApprovalApi jv}.
Context {P Host : Type}.

Record SyncApprovalNotifier := {
  ap_manifest : comp P PluginManifest;
  ap_notify : NotificationRequest -> comp P (result NotificationResult NotificationError);
  ap_shutdown : comp P unit;
}.

Record ApprovalNotifier := {
  approval_manifest : comp P PluginManifest;
  notify : NotificationRequest -> comp P (result NotificationResult NotificationError);
  approval_shutdown : comp P unit;
}.

Definition SyncApprovalNotifierAdapter (inner : SyncApprovalNotifier) : ApprovalNotifier := {|
  approval_manifest := ap_manifest inner;
  notify request := ap_notify inner request;
  approval_shutdown := ap_shutdown inner;
|}.

Variable plugin : SyncApprovalNotifier.

Definition __mcpg_appr_make : (string -> Host -> outcome P) -> Host -> string -> string -> option P :=
  make_slot.
Definition __mcpg_appr_manifest : P -> P * string := bare_slot (ap_manifest plugin).

(** The answer is serde's [Result], not the envelope. *)
Definition __mcpg_appr_notify : string -> P -> P * string :=
  args_slot from_value
    (fun _ => result_text (A := NotificationResult)
                (Err (notification_internal "malformed notification request json")))
    (fun req => result <-- ap_notify plugin req; ret (result_text result)).

Definition __mcpg_appr_shutdown : P -> P := catch_silent (ap_shutdown plugin).

Record ApprovalNotifierVTable := {
  ap_v_make : Host -> string -> string -> option P;
  ap_v_manifest_json : P -> P * string;
  ap_v_notify : string -> P -> P * string;
  ap_v_shutdown : P -> P;
}.

Definition approval_make_vtable (factory : string -> Host -> outcome P) : ApprovalNotifierVTable := {|
  ap_v_make := __mcpg_appr_make factory;
  ap_v_manifest_json := __mcpg_appr_manifest;
  ap_v_notify := __mcpg_appr_notify;
  ap_v_shutdown := __mcpg_appr_shutdown;
|}.

Definition approval_build_static (factory : string -> Host -> outcome P)
    : string -> Host -> outcome (ApprovalNotifier * P) :=
  build_static factory (fun inner => (SyncApprovalNotifierAdapter plugin, inner)).
End Approval.
Arguments SyncApprovalNotifier jv {PA AA} P.
Arguments ApprovalNotifier jv {PA AA} P.
Arguments ApprovalNotifierVTable P Host : clear implicits.

(** ** credential_issuer *)

Class CredentialApi (jv : Type) := {
  IssuedCredential : Type;
  #[global] credential_serialize :: Serialize jv IssuedCredential;
  CredentialError : Type;
  credential_backend : string -> CredentialError;
  #[global] credential_error_serialize :: Serialize jv CredentialError;
}.

Section Credential.
Context {jv : Type} `{J : Json jv} `{E : Envelope jv} `{PA : PluginApi jv} {CR : CredentialApi jv}.
Context {P Host : Type}.

Record SyncCredentialIssuer := {
  cr_manifest : comp P PluginManifest;
  cr_issue : PluginIdentity -> string -> jv -> comp P (result IssuedCredential CredentialError);
  cr_revoke : string -> comp P (result unit CredentialError);
  cr_shutdown : comp P unit;
}.

Definition revoke_default (_lease_id : string) : comp P (result unit CredentialError) := ret (Ok tt).

Record CredentialIssuer := {
  credential_manifest : comp P PluginManifest;
  issue : PluginIdentity -> string -> jv -> comp P (result IssuedCredential CredentialError);
  revoke : string -> comp P (result unit CredentialError);
  credential_shutdown : comp P unit;
}.

Definition SyncCredentialIssuerAdapter (inner : SyncCredentialIssuer) : CredentialIssuer := {|
  credential_manifest := cr_manifest inner;
  issue identity target config := cr_issue inner identity target config;
  revoke lease_id := cr_revoke inner lease_id;
  credential_shutdown := cr_shutdown inner;
|}.

Variable plugin : SyncCredentialIssuer.

Definition __mcpg_credential_make : (string -> Host -> outcome P) -> Host -> string -> string -> option P :=
  make_slot.
Definition __mcpg_credential_manifest : P -> P * string := bare_slot (cr_manifest plugin).

Definition credential_args (v : jv) : option (PluginIdentity * string * jv) :=
  match struct_fields ["identity"; "target"; "config"]%string v with
  | Some [i; t; c] =>
      match field i, field t, field c with Some i, Some t, Some c => Some (i, t, c) | _, _, _ => None end
  | _ => None
  end.

(** The answer is serde's [Result]; that of [revoke] is the envelope. *)
Definition __mcpg_credential_issue : string -> P -> P * string :=
  args_slot credential_args
    (fun _ => result_text (A := IssuedCredential) (Err (credential_backend "malformed args json")))
    (fun '(identity, target, config) =>
       result <-- cr_issue plugin identity target config; ret (result_text result)).

Definition __mcpg_credential_revoke (lease_id : string) : P -> P * string :=
  envelope_slot (cr_revoke plugin lease_id).
Definition __mcpg_credential_shutdown : P -> P := catch_silent (cr_shutdown plugin).

Record CredentialIssuerVTable := {
  cr_v_make : Host -> string -> string -> option P;
  cr_v_manifest_json : P -> P * string;
  cr_v_issue : string -> P -> P * string;
  cr_v_revoke : string -> P -> P * string;
  cr_v_shutdown : P -> P;
}.

Definition credential_make_vtable (factory : string -> Host -> outcome P) : CredentialIssuerVTable := {|
  cr_v_make := __mcpg_credential_make factory;
  cr_v_manifest_json := __mcpg_credential_manifest;
  cr_v_issue := __mcpg_credential_issue;
  cr_v_revoke := __mcpg_credential_revoke;
  cr_v_shutdown := __mcpg_credential_shutdown;
|}.

Definition credential_build_static (factory : string -> Host -> outcome P)
    : string -> Host -> outcome (CredentialIssuer * P) :=
  build_static factory (fun inner => (SyncCredentialIssuerAdapter plugin, inner)).
End Credential.
Arguments SyncCredentialIssuer jv {PA CR} P.
Arguments CredentialIssuer jv {PA CR} P.
Arguments CredentialIssuerVTable P Host : clear implicits.

(** ** catalog_provider *)

Class CatalogApi (jv : Type) := {
  EnrichedToolDescriptor : Type;
  #[global] descriptor_serialize :: Serialize jv EnrichedToolDescriptor;
  #[global] descriptor_deserialize :: Deserialize jv EnrichedToolDescriptor;
  CatalogEntry : Type;
  #[global] entry_serialize :: Serialize jv CatalogEntry;
}.

Section Catalog.
Context {jv : Type} `{J : Json jv} `{E : Envelope jv} `{PA : PluginApi jv} {CT : CatalogApi jv}.
Context {P Host : Type}.

Record SyncCatalogProvider := {
  ct_manifest : comp P PluginManifest;
  ct_filter_and_enrich : PluginContext -> list EnrichedToolDescriptor -> comp P (list EnrichedToolDescriptor);
  ct_describe : string -> comp P (option CatalogEntry);
  ct_list_catalog : comp P (list CatalogEntry);
  ct_shutdown : comp P unit;
}.

Record CatalogProvider := {
  catalog_manifest : comp P PluginManifest;
  filter_and_enrich : PluginContext -> list EnrichedToolDescriptor -> comp P (list EnrichedToolDescriptor);
  describe : string -> comp P (option CatalogEntry);
  list_catalog : comp P (list CatalogEntry);
  catalog_shutdown : comp P unit;
}.

Definition SyncCatalogProviderAdapter (inner : SyncCatalogProvider) : CatalogProvider := {|
  catalog_manifest := ct_manifest inner;
  filter_and_enrich ctx in_progress := ct_filter_and_enrich inner ctx in_progress;
  describe tool_id := ct_describe inner tool_id;
  list_catalog := ct_list_catalog inner;
  catalog_shutdown := ct_shutdown inner;
|}.

Variable plugin : SyncCatalogProvider.

Definition __mcpg_catalog_make : (string -> Host -> outcome P) -> Host -> string -> string -> option P :=
  make_slot.
Definition __mcpg_catalog_manifest : P -> P * string := bare_slot (ct_manifest plugin).

Definition catalog_args (v : jv) : option (PluginContext * list EnrichedToolDescriptor) :=
  match struct_fields ["ctx"; "in_progress"]%string v with
  | Some [c; l] => match field c, field l with Some c, Some l => Some (c, l) | _, _ => None end
  | _ => None
  end.

(** Malformed input hides every tool. *)
Definition __mcpg_catalog_filter_and_enrich : string -> P -> P * string :=
  args_slot catalog_args (fun _ => "[]"%string) (fun '(ctx, in_progress) =>
    refined <-- ct_filter_and_enrich plugin ctx in_progress; ret (to_string refined)).

Definition __mcpg_catalog_describe (tool_id : string) : P -> P * string :=
  bare_slot (ct_describe plugin tool_id).
Definition __mcpg_catalog_list_catalog : P -> P * string := bare_slot (ct_list_catalog plugin).
Definition __mcpg_catalog_shutdown : P -> P := catch_silent (ct_shutdown plugin).

Record CatalogProviderVTable := {
  ct_v_make : Host -> string -> string -> option P;
  ct_v_manifest_json : P -> P * string;
  ct_v_filter_and_enrich : string -> P -> P * string;
  ct_v_describe : string -> P -> P * string;
  ct_v_list_catalog : P -> P * string;
  ct_v_shutdown : P -> P;
}.

Definition catalog_make_vtable (factory : string -> Host -> outcome P) : CatalogProviderVTable := {|
  ct_v_make := __mcpg_catalog_make factory;
  ct_v_manifest_json := __mcpg_catalog_manifest;
  ct_v_filter_and_enrich := __mcpg_catalog_filter_and_enrich;
  ct_v_describe := __mcpg_catalog_describe;
  ct_v_list_catalog := __mcpg_catalog_list_catalog;
  ct_v_shutdown := __mcpg_catalog_shutdown;
|}.

Definition catalog_build_static (factory : string -> Host -> outcome P)
    : string -> Host -> outcome (CatalogProvider * P) :=
  build_static factory (fun inner => (SyncCatalogProviderAdapter plugin, inner)).
End Catalog.
Arguments SyncCatalogProvider jv {PA CT} P.
Arguments CatalogProvider jv {PA CT} P.
Arguments CatalogProviderVTable P Host : clear implicits.
