(* ===== verification/ProviderFacts.v ===== *)
(** * Providers: the two builds, and what a failure may not grant *)

From Stdlib Require Import Ascii String.
From S2P Require Import Prelude Json Ffi Gates Providers.

Section Facts.
Context {jv : Type} `{JL : JsonLaws jv} `{E : Envelope jv} `{PA : PluginApi jv}.
Context {SA : SecretApi jv} {CF : ConfigApi jv} {PO : PolicyApi jv} {AA : ApprovalApi jv}.
Context {CR : CredentialApi jv} {CT : CatalogApi jv} {P Host : Type}.

(** ** Reading the arguments *)

Section Arguments.
Context `{!SerdeRoundtrip jv PluginContext} `{!SerdeRoundtrip jv PluginIdentity}.

Lemma policy_args_obj dp (input : jv) (ctx : PluginContext) :
  policy_args (j_obj {["decision_point" := j_str dp; "input" := input; "context" := to_value ctx]}%string)
  = Some (dp, input, ctx).
Proof. unfold policy_args. read_struct. by rewrite field_string, field_roundtrip. Qed.

Lemma credential_args_obj (identity : PluginIdentity) target (config : jv) :
  credential_args (j_obj {["identity" := to_value identity; "target" := j_str target;
                           "config" := config]}%string) = Some (identity, target, config).
Proof. unfold credential_args. read_struct. by rewrite field_string, field_roundtrip. Qed.

Lemma catalog_args_obj `{!SerdeRoundtrip jv EnrichedToolDescriptor} (ctx : PluginContext)
    (l : list EnrichedToolDescriptor) :
  catalog_args (j_obj {["ctx" := to_value ctx; "in_progress" := to_value l]}%string) = Some (ctx, l).
Proof.
  unfold catalog_args. read_struct. rewrite field_roundtrip. unfold field. simpl.
  by rewrite list_roundtrip.
Qed.
End Arguments.

Lemma envelope_slot_answered {A R} `{!Serialize jv A} `{!Serialize jv R} (m : comp P (result A R)) p :
  envelope_slot m p = answered respond_result ""%string m p.
Proof. apply catch_to_empty_answered. Qed.

Lemma bare_slot_answered {A} `{!Serialize jv A} (m : comp P A) p :
  bare_slot m p = answered to_string ""%string m p.
Proof. apply catch_to_empty_answered. Qed.

(** Each provider call over the vtable is the in-process call on the same
    arguments: a secret, a snapshot or a revocation answered in the result
    envelope, a policy decision, a version or a catalog printed bare, a
    notification or a credential in serde's own [Result]; a panic is the empty
    text. *)
Theorem provider_slots_agree `{!SerdeRoundtrip jv PluginContext} `{!SerdeRoundtrip jv PluginIdentity}
    `{!SerdeRoundtrip jv NotificationRequest} `{!SerdeRoundtrip jv EnrichedToolDescriptor}
    (se : SyncSecretProvider jv P) (co : SyncConfigProvider jv P) (po : SyncPolicyEngine jv P)
    (ap : SyncApprovalNotifier jv P) (cr : SyncCredentialIssuer jv P) (ct : SyncCatalogProvider jv P)
    (f : string -> Host -> outcome P) p :
  (forall reference,
     secret_get (SyncSecretProviderAdapter se) reference p
       = ((se_get se reference p).1, outcome_map (map_ok secret_of_wire) (se_get se reference p).2)
     /\ se_v_get (secret_make_vtable se f) reference p
        = answered respond_result ""%string (se_get se reference) p)
  /\ (forall reference, co_v_snapshot (config_make_vtable co f) reference p
        = answered respond_result ""%string (config_snapshot (SyncConfigProviderAdapter co) reference) p)
  /\ (forall dp input (ctx : PluginContext), po_v_evaluate (policy_make_vtable po f)
          (j_print (j_obj {["decision_point" := j_str dp; "input" := input; "context" := to_value ctx]}%string)) p
        = answered to_string ""%string (policy_evaluate (SyncPolicyEngineAdapter po) dp input ctx) p)
  /\ po_v_policy_version (policy_make_vtable po f) p
        = answered to_string ""%string (policy_version (SyncPolicyEngineAdapter po)) p
  /\ (forall req : NotificationRequest, ap_v_notify (approval_make_vtable ap f) (to_string req) p
        = answered result_text ""%string (notify (SyncApprovalNotifierAdapter ap) req) p)
  /\ (forall (identity : PluginIdentity) target config, cr_v_issue (credential_make_vtable cr f)
          (j_print (j_obj {["identity" := to_value identity; "target" := j_str target;
                            "config" := config]}%string)) p
        = answered result_text ""%string (issue (SyncCredentialIssuerAdapter cr) identity target config) p)
  /\ (forall lease_id, cr_v_revoke (credential_make_vtable cr f) lease_id p
        = answered respond_result ""%string (revoke (SyncCredentialIssuerAdapter cr) lease_id) p)
  /\ (forall (ctx : PluginContext) (l : list EnrichedToolDescriptor),
        ct_v_filter_and_enrich (catalog_make_vtable ct f)
          (j_print (j_obj {["ctx" := to_value ctx; "in_progress" := to_value l]}%string)) p
        = answered to_string ""%string (filter_and_enrich (SyncCatalogProviderAdapter ct) ctx l) p)
  /\ (forall tool_id, ct_v_describe (catalog_make_vtable ct f) tool_id p
        = answered to_string ""%string (describe (SyncCatalogProviderAdapter ct) tool_id) p)
  /\ ct_v_list_catalog (catalog_make_vtable ct f) p
        = answered to_string ""%string (list_catalog (SyncCatalogProviderAdapter ct)) p.
Proof.
  split_and!; intros.
  - split; [|apply envelope_slot_answered]. simpl. unfold bind, ret.
    by destruct (se_get se reference p) as [? []].
  - apply envelope_slot_answered.
  - simpl. unfold __mcpg_policy_evaluate. erewrite args_slot_print by apply policy_args_obj.
    apply catch_to_empty_answered.
  - apply bare_slot_answered.
  - simpl. unfold __mcpg_appr_notify, to_string. erewrite args_slot_print by apply from_to_value.
    apply catch_to_empty_answered.
  - simpl. unfold __mcpg_credential_issue. erewrite args_slot_print by apply credential_args_obj.
    apply catch_to_empty_answered.
  - apply envelope_slot_answered.
  - simpl. unfold __mcpg_catalog_filter_and_enrich. erewrite args_slot_print by apply catalog_args_obj.
    apply catch_to_empty_answered.
  - apply bare_slot_answered.
  - apply bare_slot_answered.
Qed.

(** ** Failures grant nothing *)

Lemma not_empty_parse v : j_parse (jv := jv) "" <> Ok v.
Proof. pose proof (j_parse_empty (J := J)) as H. intros E'. by rewrite E' in H. Qed.

Lemma result_text_ok_inv {A R} `{!Serialize jv A} `{!Serialize jv R} (r : result A R) c :
  j_parse (result_text r) = Ok (j_obj {["Ok"%string := c]}) -> exists a, r = Ok a /\ c = to_value a.
Proof.
  unfold result_text. rewrite j_parse_print. intros [= H]. destruct r as [a|e]; apply j_obj_inj in H.
  - exists a. split; [done|]. apply (f_equal (lookup "Ok"%string)) in H.
    rewrite !lookup_singleton_eq in H. by simplify_eq.
  - apply (f_equal (lookup "Ok"%string)) in H.
    by rewrite lookup_singleton_eq, lookup_singleton_ne in H.
Qed.

(** C31. Whatever text a host sends and wherever the plugin panics, a policy slot
    answers a readable decision only if it is the engine's own on the decoded
    input, or the denial, the engine not asked; a credential or a notification
    is confirmed only if the plugin granted it for the decoded request; and a
    catalog read from the answer is the one the provider returned for the
    decoded request, or the empty one. *)
Theorem nothing_granted_unasked (po : SyncPolicyEngine jv P) (cr : SyncCredentialIssuer jv P)
    (ap : SyncApprovalNotifier jv P) (ct : SyncCatalogProvider jv P) s p :
  (forall v, j_parse (__mcpg_policy_evaluate po s p).2 = Ok v ->
     (v = to_value (policy_deny "malformed policy input" "") /\ (__mcpg_policy_evaluate po s p).1 = p)
     \/ exists dp input ctx d, from_str policy_args s = Ok (dp, input, ctx)
          /\ (po_evaluate po dp input ctx p).2 = Returned d /\ v = to_value d)
  /\ (forall c, j_parse (__mcpg_credential_issue cr s p).2 = Ok (j_obj {["Ok"%string := c]}) ->
     exists identity target config cred, from_str credential_args s = Ok (identity, target, config)
       /\ (cr_issue cr identity target config p).2 = Returned (Ok cred) /\ c = to_value cred)
  /\ (forall c, j_parse (__mcpg_appr_notify ap s p).2 = Ok (j_obj {["Ok"%string := c]}) ->
     exists req sent, from_str from_value s = Ok req
       /\ (ap_notify ap req p).2 = Returned (Ok sent) /\ c = to_value sent)
  /\ (forall v, j_parse (__mcpg_catalog_filter_and_enrich ct s p).2 = Ok v ->
     (__mcpg_catalog_filter_and_enrich ct s p).2 = "[]"%string
     \/ exists ctx l tools, from_str catalog_args s = Ok (ctx, l)
          /\ (ct_filter_and_enrich ct ctx l p).2 = Returned tools /\ v = to_value tools).
Proof.
  split_and!; intros x Hx.
  - unfold __mcpg_policy_evaluate in *.
    slot_cases Hx
      as [([[dp input] ctx] & t & Ha & Ht & Hs)|[(e & He & Hs)|Hs]]; rewrite Hs in *; simpl in *.
    + right. unfold bind, ret in Ht. destruct (po_evaluate po dp input ctx p) as [q [d|]] eqn:Hd; simplify_eq/=.
      unfold to_string in Hx. rewrite j_parse_print in Hx. exists dp, input, ctx, d. rewrite Hd.
      by simplify_eq.
    + left. unfold to_string in Hx. rewrite j_parse_print in Hx. by simplify_eq.
    + by apply not_empty_parse in Hx.
  - unfold __mcpg_credential_issue in *.
    slot_cases Hx
      as [([[i tg] cf] & t & Ha & Ht & Hs)|[(e & He & Hs)|Hs]]; rewrite Hs in Hx; simpl in *.
    + unfold bind, ret in Ht. destruct (cr_issue cr i tg cf p) as [q [r|]] eqn:Hd; simplify_eq/=.
      apply result_text_ok_inv in Hx as (cred & -> & ->). exists i, tg, cf, cred. by rewrite Hd.
    + by apply result_text_ok_inv in Hx as (a & [=] & _).
    + by apply not_empty_parse in Hx.
  - unfold __mcpg_appr_notify in *.
    slot_cases Hx
      as [(req & t & Ha & Ht & Hs)|[(e & He & Hs)|Hs]]; rewrite Hs in Hx; simpl in *.
    + unfold bind, ret in Ht. destruct (ap_notify ap req p) as [q [r|]] eqn:Hd; simplify_eq/=.
      apply result_text_ok_inv in Hx as (sent & -> & ->). exists req, sent. by rewrite Hd.
    + by apply result_text_ok_inv in Hx as (a & [=] & _).
    + by apply not_empty_parse in Hx.
  - unfold __mcpg_catalog_filter_and_enrich in *.
    slot_cases Hx
      as [([ctx l] & t & Ha & Ht & Hs)|[(e & He & Hs)|Hs]]; rewrite Hs in *; simpl in *.
    + right. unfold bind, ret in Ht. destruct (ct_filter_and_enrich ct ctx l p) as [q [d|]] eqn:Hd; simplify_eq/=.
      unfold to_string in Hx. rewrite j_parse_print in Hx. exists ctx, l, d. rewrite Hd. by simplify_eq.
    + by left.
    + by apply not_empty_parse in Hx.
Qed.

(** A panic while issuing leaves the empty text, not a [CredentialError]. *)
Lemma issue_panic_empty (cr : SyncCredentialIssuer jv P) s p identity target config :
  from_str credential_args s = Ok (identity, target, config) ->
  (cr_issue cr identity target config p).2 = Panicked ->
  (__mcpg_credential_issue cr s p).2 = ""%string.
Proof.
  intros Hs Hp. unfold __mcpg_credential_issue, args_slot, catch_to_empty, bind. rewrite Hs.
  by destruct (cr_issue cr identity target config p) as [q []].
Qed.
End Facts.

(** ** Witnesses *)

Module Sample.
Import Tree Wire Gates.Sample.

#[export] Instance secret_api : SecretApi jtree := {|
  SecretValueWire := string; SecretValue := nat; secret_of_wire := String.length; SecretError := string;
  secret_backend := id; secret_unsupported_scheme := id; |}.
#[export] Instance config_api : ConfigApi jtree := {|
  ConfigSnapshot := string; ConfigError := string; config_backend := id; config_unsupported_scheme := id; |}.
#[export] Instance policy_api : PolicyApi jtree := {|
  PolicyDecision := bool; policy_deny _ _ := false; PolicyVersion := string; |}.
#[export] Instance approval_api : ApprovalApi jtree := {|
  NotificationRequest := string; NotificationResult := string; NotificationError := string;
  notification_internal := id; |}.
#[export] Instance credential_api : CredentialApi jtree := {|
  IssuedCredential := string; CredentialError := string; credential_backend := id; |}.
#[export] Instance catalog_api : CatalogApi jtree := {|
  EnrichedToolDescriptor := string; CatalogEntry := string; |}.

Definition secrets : SyncSecretProvider jtree nat := {|
  se_manifest := ret "secrets"%string; se_supported_schemes := ret ["vault"%string];
  se_get r := ret (Ok r); se_watch := secret_watch_default; se_cancel_watch _ := ret tt;
  se_shutdown := no_shutdown; |}.
Definition configs : SyncConfigProvider jtree nat := {|
  co_manifest := ret "configs"%string; co_supported_schemes := ret ["file"%string];
  co_snapshot _ := panic; co_watch := config_watch_default; co_cancel_watch _ := ret tt;
  co_shutdown := no_shutdown; |}.
Definition allow_once : SyncPolicyEngine jtree nat := {|
  po_manifest := ret "policy"%string; po_name := ret "once"%string;
  po_evaluate _ _ _ n := (S n, Returned (n =? 0)%nat);
  po_policy_version := ret "1"%string; po_shutdown := no_shutdown; |}.
Definition notifier : SyncApprovalNotifier jtree nat := {|
  ap_manifest := ret "notifier"%string; ap_notify r := ret (Ok r); ap_shutdown := no_shutdown; |}.
Definition issuer : SyncCredentialIssuer jtree nat := {|
  cr_manifest := ret "issuer"%string; cr_issue _ target _ := ret (Ok target);
  cr_revoke := revoke_default; cr_shutdown := no_shutdown; |}.
Definition catalog : SyncCatalogProvider jtree nat := {|
  ct_manifest := ret "catalog"%string; ct_filter_and_enrich _ l := ret (take 1 l);
  ct_describe _ := ret None; ct_list_catalog := ret []; ct_shutdown := no_shutdown; |}.

Lemma provider_slots_agree_witness :
  ct_v_filter_and_enrich (catalog_make_vtable catalog (fun _ (_ : unit) => Returned 0%nat))
    (j_print (j_obj {["ctx" := to_value "me"; "in_progress" := to_value ["t"; "u"]]}%string)) 0%nat
  = (0%nat, to_string ["t"%string]).
Proof.
  pose proof (provider_slots_agree secrets configs allow_once notifier issuer catalog
    (fun _ (_ : unit) => Returned 0%nat) 0%nat) as (_ & _ & _ & _ & _ & _ & _ & H & _).
  exact (H "me"%string ["t"; "u"]%string).
Defined.

Lemma nothing_granted_unasked_witness :
  j_parse (__mcpg_policy_evaluate allow_once "" 0%nat).2 = Ok (TBool false)
  /\ (__mcpg_policy_evaluate allow_once "" 0%nat).1 = 0%nat.
Proof.
  assert (Hx : j_parse (__mcpg_policy_evaluate allow_once "" 0%nat).2 = Ok (TBool false))
    by (vm_compute; reflexivity).
  split; [exact Hx|].
  destruct (nothing_granted_unasked allow_once issuer notifier catalog "" 0%nat) as [H _].
  destruct (H _ Hx) as [[_ H']|(dp & i & c & d & Hf & _)]; [exact H'|].
  vm_compute in Hf. discriminate Hf.
Defined.
End Sample.
