(* ===== verification/Sinks.v ===== *)
(** * Audit, log, metrics and telemetry sinks

    The sync traits (src/src/ffi.rs), the slots (src/src/macros.rs) and the
    in-process adapters (src/src/adapters.rs). An audit sink acknowledges every
    event; the other sinks are best effort: what does not decode is dropped. *)

From Stdlib Require Import Ascii String.
From S2P Require Import Prelude Json Ffi Gates.

Class SinkApi (jv : Type) := {
  AuditEvent : Type;
  #[global] audit_event_serialize :: Serialize jv AuditEvent;
  #[global] audit_event_deserialize :: Deserialize jv AuditEvent;
  AuditReceipt : Type;
  #[global] receipt_serialize :: Serialize jv AuditReceipt;
  AuditError : Type;
  audit_write_failed : string -> AuditError;
  #[global] audit_error_serialize :: Serialize jv AuditError;
  SinkLogRecord : Type;
  #[global] record_serialize :: Serialize jv SinkLogRecord;
  #[global] record_deserialize :: Deserialize jv SinkLogRecord;
  LogError : Type;
  #[global] log_error_serialize :: Serialize jv LogError;
  (** [telemetry::MetricPoint], and [metrics::MetricPoint]: the metrics slot decodes
      the one and hands it to [SyncMetricsSink::emit], which takes the other. *)
  SinkMetric : Type;
  #[global] metric_serialize :: Serialize jv SinkMetric;
  #[global] metric_deserialize :: Deserialize jv SinkMetric;
  MetricsError : Type;
  #[global] metrics_error_serialize :: Serialize jv MetricsError;
  SpanStart : Type;
  #[global] span_start_deserialize :: Deserialize jv SpanStart;
  SpanEnd : Type;
  #[global] span_end_deserialize :: Deserialize jv SpanEnd;
  TelemetryError : Type;
  #[global] telemetry_error_serialize :: Serialize jv TelemetryError;
}.

Section Sinks.
Context {jv : Type} `{J : Json jv} `{E : Envelope jv} `{PA : PluginApi jv} {SA : SinkApi jv}.
Context {P Host : Type}.

(** ** audit_sink *)

Record SyncAuditSink := {
  au_manifest : comp P PluginManifest;
  au_emit : AuditEvent -> comp P (result AuditReceipt AuditError);
  au_flush : Z -> comp P (result unit AuditError);
  au_shutdown : comp P unit;
}.

(** The default flush of the four traits. *)
Definition flush_default {R} (_timeout_ms : Z) : comp P (result unit R) := ret (Ok tt).

Record AuditSink := {
  audit_manifest : comp P PluginManifest;
  audit_emit : AuditEvent -> comp P (result AuditReceipt AuditError);
  audit_flush : Z -> comp P (result unit AuditError);
  audit_shutdown : comp P unit;
}.

Definition SyncAuditSinkAdapter (inner : SyncAuditSink) : AuditSink := {|
  audit_manifest := au_manifest inner;
  audit_emit event := au_emit inner event;
  audit_flush timeout_ms := au_flush inner timeout_ms;
  audit_shutdown := au_shutdown inner;
|}.

Definition __mcpg_audit_sink_make : (string -> Host -> outcome P) -> Host -> string -> string -> option P :=
  make_slot.
Definition __mcpg_audit_sink_manifest_json (plugin : SyncAuditSink) : P -> P * string :=
  bare_slot (au_manifest plugin).
Definition __mcpg_audit_sink_emit (plugin : SyncAuditSink) : string -> P -> P * string :=
  args_slot from_value (fun e => respond_error (audit_write_failed ("invalid event JSON: " ++ e)))
    (fun event => r <-- au_emit plugin event; ret (respond_result r)).
Definition __mcpg_audit_sink_flush (plugin : SyncAuditSink) (timeout_ms : Z) : P -> P * string :=
  envelope_slot (au_flush plugin timeout_ms).
Definition __mcpg_audit_sink_shutdown (plugin : SyncAuditSink) : P -> P := catch_silent (au_shutdown plugin).

Record AuditSinkVTable := {
  au_v_make : Host -> string -> string -> option P;
  au_v_manifest_json : P -> P * string;
  au_v_emit : string -> P -> P * string;
  au_v_flush : Z -> P -> P * string;
  au_v_shutdown : P -> P;
}.

Definition audit_sink_make_vtable (plugin : SyncAuditSink) (factory : string -> Host -> outcome P)
    : AuditSinkVTable := {|
  au_v_make := __mcpg_audit_sink_make factory;
  au_v_manifest_json := __mcpg_audit_sink_manifest_json plugin;
  au_v_emit := __mcpg_audit_sink_emit plugin;
  au_v_flush := __mcpg_audit_sink_flush plugin;
  au_v_shutdown := __mcpg_audit_sink_shutdown plugin;
|}.

Definition audit_sink_build_static (plugin : SyncAuditSink) (factory : string -> Host -> outcome P)
    : string -> Host -> outcome (AuditSink * P) :=
  build_static factory (fun inner => (SyncAuditSinkAdapter plugin, inner)).

(** ** log_sink *)

Record SyncLogSink := {
  ls_manifest : comp P PluginManifest;
  ls_emit : SinkLogRecord -> comp P unit;
  ls_flush : Z -> comp P (result unit LogError);
  ls_shutdown : comp P unit;
}.

(** The async traits of these kinds flush with a duration. *)
Record LogSink := {
  log_manifest : comp P PluginManifest;
  log_emit : SinkLogRecord -> comp P unit;
  log_flush : Z -> comp P (result unit LogError);
  log_shutdown : comp P unit;
}.

Definition SyncLogSinkAdapter (inner : SyncLogSink) : LogSink := {|
  log_manifest := ls_manifest inner;
  log_emit record := ls_emit inner record;
  log_flush timeout := ls_flush inner (as_u64 (as_millis timeout));
  log_shutdown := ls_shutdown inner;
|}.

(** A best-effort slot: a text that does not decode is dropped. *)
Definition drop_malformed {A} (of_value : jv -> option A) (emit : A -> comp P unit) (text : string) : P -> P :=
  catch_silent (match from_str of_value text with Ok a => emit a | Err _ => ret tt end).

Definition __mcpg_log_sink_make : (string -> Host -> outcome P) -> Host -> string -> string -> option P :=
  make_slot.
Definition __mcpg_log_sink_manifest_json (plugin : SyncLogSink) : P -> P * string :=
  bare_slot (ls_manifest plugin).
Definition __mcpg_log_sink_emit (plugin : SyncLogSink) : string -> P -> P :=
  drop_malformed from_value (ls_emit plugin).
Definition __mcpg_log_sink_flush (plugin : SyncLogSink) (timeout_ms : Z) : P -> P * string :=
  envelope_slot (ls_flush plugin timeout_ms).
Definition __mcpg_log_sink_shutdown (plugin : SyncLogSink) : P -> P := catch_silent (ls_shutdown plugin).

Record LogSinkVTable := {
  ls_v_make : Host -> string -> string -> option P;
  ls_v_manifest_json : P -> P * string;
  ls_v_emit : string -> P -> P;
  ls_v_flush : Z -> P -> P * string;
  ls_v_shutdown : P -> P;
}.

Definition log_sink_make_vtable (plugin : SyncLogSink) (factory : string -> Host -> outcome P)
    : LogSinkVTable := {|
  ls_v_make := __mcpg_log_sink_make factory;
  ls_v_manifest_json := __mcpg_log_sink_manifest_json plugin;
  ls_v_emit := __mcpg_log_sink_emit plugin;
  ls_v_flush := __mcpg_log_sink_flush plugin;
  ls_v_shutdown := __mcpg_log_sink_shutdown plugin;
|}.

Definition log_sink_build_static (plugin : SyncLogSink) (factory : string -> Host -> outcome P)
    : string -> Host -> outcome (LogSink * P) :=
  build_static factory (fun inner => (SyncLogSinkAdapter plugin, inner)).

(** ** metrics_sink *)

Record SyncMetricsSink := {
  me_manifest : comp P PluginManifest;
  me_emit : SinkMetric -> comp P unit;
  me_flush : Z -> comp P (result unit MetricsError);
  me_render_text_exposition : comp P (option string);
  me_shutdown : comp P unit;
}.

Definition render_default : comp P (option string) := ret None.

Record MetricsSink := {
  metrics_manifest : comp P PluginManifest;
  metrics_emit : SinkMetric -> comp P unit;
  metrics_flush : Z -> comp P (result unit MetricsError);
  render_text_exposition : comp P (option string);
  metrics_shutdown : comp P unit;
}.

Definition SyncMetricsSinkAdapter (inner : SyncMetricsSink) : MetricsSink := {|
  metrics_manifest := me_manifest inner;
  metrics_emit metric := me_emit inner metric;
  metrics_flush timeout := me_flush inner (as_u64 (as_millis timeout));
  render_text_exposition := me_render_text_exposition inner;
  metrics_shutdown := me_shutdown inner;
|}.

Definition __mcpg_metrics_sink_make : (string -> Host -> outcome P) -> Host -> string -> string -> option P :=
  make_slot.
Definition __mcpg_metrics_sink_manifest_json (plugin : SyncMetricsSink) : P -> P * string :=
  bare_slot (me_manifest plugin).
Definition __mcpg_metrics_sink_emit (plugin : SyncMetricsSink) : string -> P -> P :=
  drop_malformed from_value (me_emit plugin).
Definition __mcpg_metrics_sink_flush (plugin : SyncMetricsSink) (timeout_ms : Z) : P -> P * string :=
  envelope_slot (me_flush plugin timeout_ms).
(** No exposition is the empty text. *)
Definition __mcpg_metrics_sink_render_text_exposition (plugin : SyncMetricsSink) : P -> P * string :=
  catch_to_empty (o <-- me_render_text_exposition plugin;
                  ret (match o with Some s => s | None => ""%string end)).
Definition __mcpg_metrics_sink_shutdown (plugin : SyncMetricsSink) : P -> P := catch_silent (me_shutdown plugin).

Record MetricsSinkVTable := {
  me_v_make : Host -> string -> string -> option P;
  me_v_manifest_json : P -> P * string;
  me_v_emit : string -> P -> P;
  me_v_flush : Z -> P -> P * string;
  me_v_render_text_exposition : P -> P * string;
  me_v_shutdown : P -> P;
}.

Definition metrics_sink_make_vtable (plugin : SyncMetricsSink) (factory : string -> Host -> outcome P)
    : MetricsSinkVTable := {|
  me_v_make := __mcpg_metrics_sink_make factory;
  me_v_manifest_json := __mcpg_metrics_sink_manifest_json plugin;
  me_v_emit := __mcpg_metrics_sink_emit plugin;
  me_v_flush := __mcpg_metrics_sink_flush plugin;
  me_v_render_text_exposition := __mcpg_metrics_sink_render_text_exposition plugin;
  me_v_shutdown := __mcpg_metrics_sink_shutdown plugin;
|}.

Definition metrics_sink_build_static (plugin : SyncMetricsSink) (factory : string -> Host -> outcome P)
    : string -> Host -> outcome (MetricsSink * P) :=
  build_static factory (fun inner => (SyncMetricsSinkAdapter plugin, inner)).

(** ** telemetry_sink *)

Record SyncTelemetrySink := {
  te_manifest : comp P PluginManifest;
  te_span_started : SpanStart -> comp P unit;
  te_span_ended : SpanEnd -> comp P unit;
  te_metric_recorded : SinkMetric -> comp P unit;
  te_log_recorded : SinkLogRecord -> comp P unit;
  te_flush : Z -> comp P (result unit TelemetryError);
  te_shutdown : comp P unit;
}.

Definition log_recorded_default (_ : SinkLogRecord) : comp P unit := ret tt.

Record TelemetrySink := {
  telemetry_manifest : comp P PluginManifest;
  span_started : SpanStart -> comp P unit;
  span_ended : SpanEnd -> comp P unit;
  metric_recorded : SinkMetric -> comp P unit;
  log_recorded : SinkLogRecord -> comp P unit;
  telemetry_flush : Z -> comp P (result unit TelemetryError);
  telemetry_shutdown : comp P unit;
}.

Definition SyncTelemetrySinkAdapter (inner : SyncTelemetrySink) : TelemetrySink := {|
  telemetry_manifest := te_manifest inner;
  span_started span := te_span_started inner span;
  span_ended span := te_span_ended inner span;
  metric_recorded metric := te_metric_recorded inner metric;
  log_recorded record := te_log_recorded inner record;
  telemetry_flush timeout := te_flush inner (as_u64 (as_millis timeout));
  telemetry_shutdown := te_shutdown inner;
|}.

Definition __mcpg_telemetry_sink_make : (string -> Host -> outcome P) -> Host -> string -> string -> option P :=
  make_slot.
Definition __mcpg_telemetry_sink_manifest_json (plugin : SyncTelemetrySink) : P -> P * string :=
  bare_slot (te_manifest plugin).
Definition __mcpg_telemetry_sink_span_started (plugin : SyncTelemetrySink) : string -> P -> P :=
  drop_malformed from_value (te_span_started plugin).
Definition __mcpg_telemetry_sink_span_ended (plugin : SyncTelemetrySink) : string -> P -> P :=
  drop_malformed from_value (te_span_ended plugin).
Definition __mcpg_telemetry_sink_metric_recorded (plugin : SyncTelemetrySink) : string -> P -> P :=
  drop_malformed from_value (te_metric_recorded plugin).
Definition __mcpg_telemetry_sink_log_recorded (plugin : SyncTelemetrySink) : string -> P -> P :=
  drop_malformed from_value (te_log_recorded plugin).
Definition __mcpg_telemetry_sink_flush (plugin : SyncTelemetrySink) (timeout_ms : Z) : P -> P * string :=
  envelope_slot (te_flush plugin timeout_ms).
Definition __mcpg_telemetry_sink_shutdown (plugin : SyncTelemetrySink) : P -> P :=
  catch_silent (te_shutdown plugin).

Record TelemetrySinkVTable := {
  te_v_make : Host -> string -> string -> option P;
  te_v_manifest_json : P -> P * string;
  te_v_span_started : string -> P -> P;
  te_v_span_ended : string -> P -> P;
  te_v_metric_recorded : string -> P -> P;
  te_v_log_recorded : string -> P -> P;
  te_v_flush : Z -> P -> P * string;
  te_v_shutdown : P -> P;
}.

Definition telemetry_sink_make_vtable (plugin : SyncTelemetrySink) (factory : string -> Host -> outcome P)
    : TelemetrySinkVTable := {|
  te_v_make := __mcpg_telemetry_sink_make factory;
  te_v_manifest_json := __mcpg_telemetry_sink_manifest_json plugin;
  te_v_span_started := __mcpg_telemetry_sink_span_started plugin;
  te_v_span_ended := __mcpg_telemetry_sink_span_ended plugin;
  te_v_metric_recorded := __mcpg_telemetry_sink_metric_recorded plugin;
  te_v_log_recorded := __mcpg_telemetry_sink_log_recorded plugin;
  te_v_flush := __mcpg_telemetry_sink_flush plugin;
  te_v_shutdown := __mcpg_telemetry_sink_shutdown plugin;
|}.

Definition telemetry_sink_build_static (plugin : SyncTelemetrySink) (factory : string -> Host -> outcome P)
    : string -> Host -> outcome (TelemetrySink * P) :=
  build_static factory (fun inner => (SyncTelemetrySinkAdapter plugin, inner)).
End Sinks.
Arguments SyncAuditSink jv {PA SA} P.
Arguments SyncLogSink jv {PA SA} P.
Arguments SyncMetricsSink jv {PA SA} P.
Arguments SyncTelemetrySink jv {PA SA} P.
Arguments AuditSink jv {PA SA} P.
Arguments AuditSinkVTable P Host : clear implicits.
Arguments LogSink jv {PA SA} P.
Arguments MetricsSink jv {PA SA} P.
Arguments TelemetrySink jv {PA SA} P.
Arguments LogSinkVTable P Host : clear implicits.
Arguments MetricsSinkVTable P Host : clear implicits.
Arguments TelemetrySinkVTable P Host : clear implicits.

(** ** What a sink is given

    A host sends a sink a sequence of texts, each to one of its emit slots. *)

Section Streams.
Context {jv : Type} `{JL : JsonLaws jv} `{E : Envelope jv} `{PA : PluginApi jv} {SA : SinkApi jv}.
Context {P Host : Type}.

(** A text that decodes. *)
Definition decoded {A} (of_value : jv -> option A) (s : string) : option A := result_ok (from_str of_value s).

Lemma drop_malformed_spec {A} (of_value : jv -> option A) (emit : A -> comp P unit) s p :
  drop_malformed of_value emit s p =
    match decoded of_value s with Some a => (emit a p).1 | None => p end.
Proof. unfold drop_malformed, decoded. by destruct (from_str of_value s). Qed.

Lemma drop_malformed_stream {A} (of_value : jv -> option A) (emit : A -> comp P unit) texts p :
  fold_left (fun p s => drop_malformed of_value emit s p) texts p
  = fold_left (fun p a => (emit a p).1) (omap (decoded of_value) texts) p.
Proof.
  revert p. induction texts as [|s texts IH]; intros p; [done|]. cbn [fold_left omap list_omap].
  rewrite IH, drop_malformed_spec. by destruct (decoded of_value s).
Qed.

(** An item the host printed is taken. *)
Lemma drop_malformed_printed {A} `{!Serialize jv A, !Deserialize jv A, !SerdeRoundtrip jv A}
    (emit : A -> comp P unit) (a : A) p :
  drop_malformed from_value emit (to_string a) p = (emit a p).1.
Proof.
  rewrite drop_malformed_spec. unfold decoded, to_string. by rewrite (from_str_print _ _ a) by apply from_to_value.
Qed.

(** The emit slots of a telemetry sink, and what each decodes to. *)
Inductive telemetry_text := TxStarted (s : string) | TxEnded (s : string) | TxMetric (s : string) | TxLog (s : string).
Inductive telemetry_item :=
| ItStarted (span : SpanStart) | ItEnded (span : SpanEnd)
| ItMetric (metric : SinkMetric) | ItLog (record : SinkLogRecord).

Definition item_of (t : telemetry_text) : option telemetry_item :=
  match t with
  | TxStarted s => ItStarted <$> decoded from_value s
  | TxEnded s => ItEnded <$> decoded from_value s
  | TxMetric s => ItMetric <$> decoded from_value s
  | TxLog s => ItLog <$> decoded from_value s
  end.

Definition telemetry_send (v : TelemetrySinkVTable P Host) (p : P) (t : telemetry_text) : P :=
  match t with
  | TxStarted s => te_v_span_started v s p
  | TxEnded s => te_v_span_ended v s p
  | TxMetric s => te_v_metric_recorded v s p
  | TxLog s => te_v_log_recorded v s p
  end.
Definition telemetry_take (t : TelemetrySink jv P) (p : P) (i : telemetry_item) : P :=
  match i with
  | ItStarted span => (span_started t span p).1
  | ItEnded span => (span_ended t span p).1
  | ItMetric metric => (metric_recorded t metric p).1
  | ItLog record => (log_recorded t record p).1
  end.

Lemma telemetry_send_take plugin factory p t :
  telemetry_send (telemetry_sink_make_vtable plugin factory) p t =
    match item_of t with Some i => telemetry_take (SyncTelemetrySinkAdapter plugin) p i | None => p end.
Proof.
  destruct t as [s|s|s|s]; simpl;
    unfold __mcpg_telemetry_sink_span_started, __mcpg_telemetry_sink_span_ended,
      __mcpg_telemetry_sink_metric_recorded, __mcpg_telemetry_sink_log_recorded;
    rewrite drop_malformed_spec; by destruct (decoded _ s).
Qed.

(** An audit sink is not best effort: a malformed event is an error, a printed
    one the sink's own answer. *)
Lemma audit_emit_agree `{!SerdeRoundtrip jv AuditEvent} (s : SyncAuditSink jv P)
    (f : string -> Host -> outcome P) (event : AuditEvent) p :
  au_v_emit (audit_sink_make_vtable s f) (to_string event) p
    = answered respond_result ""%string (audit_emit (SyncAuditSinkAdapter s) event) p.
Proof.
  simpl. unfold __mcpg_audit_sink_emit, to_string. erewrite args_slot_print by apply from_to_value.
  apply catch_to_empty_answered.
Qed.

Lemma receipt_genuine `{!EnvelopeLaws jv} (s : SyncAuditSink jv P) (f : string -> Host -> outcome P) text p v :
  decode_envelope (au_v_emit (audit_sink_make_vtable s f) text p).2 = Ok (Ok v) ->
  exists event receipt, from_str from_value text = Ok event
    /\ (audit_emit (SyncAuditSinkAdapter s) event p).2 = Returned (Ok receipt) /\ v = to_value receipt.
Proof.
  simpl. unfold __mcpg_audit_sink_emit. intros Hx.
  slot_cases Hx as [(event & t & Ha & Ht & Hs)|[(e & He & Hs)|Hs]]; rewrite Hs in Hx; simpl in *.
  - unfold bind, ret in Ht. destruct (au_emit s event p) as [q [r|]] eqn:Hd; simplify_eq/=.
    unfold respond_result in Hx. rewrite decode_respond in Hx.
    destruct r as [receipt|]; simplify_eq/=. exists event, receipt. by rewrite Hd.
  - unfold respond_error in Hx. by rewrite decode_respond in Hx.
  - by apply decode_empty in Hx.
Qed.

(** C36. A best-effort sink takes exactly the items of the texts that decode, in
    the order they were sent, as in process: malformed texts change nothing, and
    a panic on one item loses that item only. An audit sink is different: the
    answer to a text is a receipt only if the sink gave that receipt for the
    event in the text. *)
Theorem sinks_take_what_decodes `{!EnvelopeLaws jv} (logs : SyncLogSink jv P)
    (metrics : SyncMetricsSink jv P) (telemetry : SyncTelemetrySink jv P) (audit : SyncAuditSink jv P)
    (f : string -> Host -> outcome P) texts tagged p :
  fold_left (fun p s => ls_v_emit (log_sink_make_vtable logs f) s p) texts p
    = fold_left (fun p r => (log_emit (SyncLogSinkAdapter logs) r p).1) (omap (decoded from_value) texts) p
  /\ fold_left (fun p s => me_v_emit (metrics_sink_make_vtable metrics f) s p) texts p
    = fold_left (fun p m => (metrics_emit (SyncMetricsSinkAdapter metrics) m p).1)
        (omap (decoded from_value) texts) p
  /\ fold_left (telemetry_send (telemetry_sink_make_vtable telemetry f)) tagged p
    = fold_left (telemetry_take (SyncTelemetrySinkAdapter telemetry)) (omap item_of tagged) p
  /\ (forall text v, decode_envelope (au_v_emit (audit_sink_make_vtable audit f) text p).2 = Ok (Ok v) ->
       exists event receipt, from_str from_value text = Ok event
         /\ (audit_emit (SyncAuditSinkAdapter audit) event p).2 = Returned (Ok receipt)
         /\ v = to_value receipt).
Proof.
  split_and!.
  - apply drop_malformed_stream.
  - apply drop_malformed_stream.
  - revert p. induction tagged as [|t tagged IH]; intros p; [done|]. cbn [fold_left omap list_omap].
    rewrite IH, telemetry_send_take. by destruct (item_of t).
  - intros text v. apply receipt_genuine.
Qed.
End Streams.

(** ** Witness *)

Module Sample.
Import Tree Wire Gates.Sample.

#[export] Instance sink_api : SinkApi jtree := {|
  AuditEvent := string; AuditReceipt := nat; receipt_serialize := fun n => TNum (Z.of_nat n);
  AuditError := string; audit_write_failed := id;
  SinkLogRecord := string; LogError := string; SinkMetric := string; MetricsError := string;
  SpanStart := string; SpanEnd := string; TelemetryError := string;
|}.

(** Sinks that keep what they take; the log sink panics on one record. *)
Definition logs : SyncLogSink jtree (list string) := {|
  ls_manifest := ret "logs"%string;
  ls_emit r p := if String.eqb r "bad" then (p, Panicked) else (p ++ [r], Returned tt);
  ls_flush := flush_default; ls_shutdown := no_shutdown; |}.
Definition metrics : SyncMetricsSink jtree (list string) := {|
  me_manifest := ret "metrics"%string; me_emit m p := (p ++ [m], Returned tt);
  me_flush := flush_default; me_render_text_exposition := render_default; me_shutdown := no_shutdown; |}.
Definition telemetry : SyncTelemetrySink jtree (list string) := {|
  te_manifest := ret "telemetry"%string; te_span_started s p := (p ++ [s], Returned tt);
  te_span_ended _ := ret tt; te_metric_recorded _ := ret tt; te_log_recorded := log_recorded_default;
  te_flush := flush_default; te_shutdown := no_shutdown; |}.
Definition audit : SyncAuditSink jtree (list string) := {|
  au_manifest := ret "audit"%string; au_emit e p := (p ++ [e], Returned (Ok (length p)));
  au_flush := flush_default; au_shutdown := no_shutdown; |}.

Lemma sinks_take_what_decodes_witness :
  fold_left (fun p s => ls_v_emit (log_sink_make_vtable logs (fun _ (_ : unit) => Returned [])) s p)
    [to_string "a"%string; ""%string; to_string "bad"%string; to_string "b"%string] []
  = ["a"; "b"]%string.
Proof.
  destruct (sinks_take_what_decodes logs metrics telemetry audit (fun _ (_ : unit) => Returned [])
    [to_string "a"%string; ""%string; to_string "bad"%string; to_string "b"%string] [] []) as (-> & _).
  vm_compute. reflexivity.
Defined.
End Sample.
