(* ===== verification/Backends.v ===== *)
(** * Backends and watch strategies

    The sync traits (src/src/ffi.rs), the slots (src/src/macros.rs) and the
    in-process adapters (src/src/adapters.rs) of the kinds that stream events
    to a sink of the host. The world [P] is the plugin's state
    together with what its callbacks reach, so a callback is a function on it. *)

From Stdlib Require Import Ascii String.
From S2P Require Import Prelude Json Ffi Gates.

(** ** backend *)

Class BackendApi (jv : Type) := {
  BackendRequest : Type;
  #[global] backend_request_serialize :: Serialize jv BackendRequest;
  #[global] backend_request_deserialize :: Deserialize jv BackendRequest;
  BackendResponse : Type;
  #[global] backend_response_serialize :: Serialize jv BackendResponse;
  BackendChunk : Type;
  chunk_done : BackendResponse -> BackendChunk;
  #[global] chunk_serialize :: Serialize jv BackendChunk;
  ResourcePage : Type;
  page_empty : ResourcePage;
  #[global] resource_page_serialize :: Serialize jv ResourcePage;
  CapabilitySet : Type;
  capabilities_none : CapabilitySet;
  #[global] capabilities_serialize :: Serialize jv CapabilitySet;
  BackendError : Type;
  backend_transport : string -> BackendError;
  #[global] backend_error_serialize :: Serialize jv BackendError;
  (** What [catch_panic_to_stream_failure] answers. *)
  stream_failure : StreamHandle;
}.

Section Backend.
Context {jv : Type} `{J : Json jv} `{E : Envelope jv} `{PA : PluginApi jv} {BA : BackendApi jv}.
Context {P Host : Type}.

Abbreviation Emitter := (result BackendChunk BackendError -> P -> P).
Abbreviation answer A := (comp P (result A BackendError)).

Record SyncBackendPlugin := {
  bk_manifest : comp P PluginManifest;
  bk_kind : comp P string;
  bk_register_profile : string -> jv -> answer unit;
  bk_execute : string -> BackendRequest -> answer BackendResponse;
  bk_execute_streaming : string -> BackendRequest -> Emitter -> answer Z;
  bk_cancel_stream : Z -> comp P unit;
  bk_execute_transaction : string -> jv -> answer jv;
  bk_audit_metadata : string -> comp P (gmap string jv);
  bk_input_schema : string -> comp P (option jv);
  bk_output_schema : string -> comp P (option jv);
  bk_list_resources : string -> option string -> answer ResourcePage;
  bk_expand_capabilities : answer CapabilitySet;
  bk_complete_template_variable : string -> string -> string -> jv -> gmap string string -> answer (list string);
  bk_shutdown : comp P unit;
}.

(** The default stream: the buffered answer as one [Done] chunk, nothing to
    cancel. *)
Definition execute_streaming_default (execute : string -> BackendRequest -> answer BackendResponse)
    (profile_name : string) (request : BackendRequest) (emit : Emitter) : answer Z :=
  r <-- execute profile_name request;
  match r with
  | Err e => ret (Err e)
  | Ok resp => fun p => (emit (Ok (chunk_done resp)) p, Returned (Ok 0))
  end.

Definition backend_defaults (manifest : comp P PluginManifest) (kind : comp P string)
    (register_profile : string -> jv -> answer unit)
    (execute : string -> BackendRequest -> answer BackendResponse) : SyncBackendPlugin := {|
  bk_manifest := manifest;
  bk_kind := kind;
  bk_register_profile := register_profile;
  bk_execute := execute;
  bk_execute_streaming := execute_streaming_default execute;
  bk_cancel_stream _ := ret tt;
  bk_execute_transaction _ _ :=
    ret (Err (backend_transport "execute_transaction is not supported by this backend"));
  bk_audit_metadata _ := ret ∅;
  bk_input_schema _ := ret None;
  bk_output_schema _ := ret None;
  bk_list_resources _ _ := ret (Ok page_empty);
  bk_expand_capabilities := ret (Ok capabilities_none);
  bk_complete_template_variable _ _ _ _ _ := ret (Ok []);
  bk_shutdown := ret tt;
|}.

(** The async trait's methods the adapter overrides; the host argument of
    [register_profile] is dropped. *)
Record BackendPlugin := {
  backend_manifest : comp P PluginManifest;
  backend_kind : comp P string;
  register_profile : string -> jv -> answer unit;
  execute : string -> BackendRequest -> answer BackendResponse;
  input_schema : string -> comp P (option jv);
  output_schema : string -> comp P (option jv);
  list_resources : string -> option string -> answer ResourcePage;
  complete_template_variable : string -> string -> string -> jv -> gmap string string -> answer (list string);
  backend_shutdown : comp P unit;
}.

Definition SyncBackendPluginAdapter (inner : SyncBackendPlugin) : BackendPlugin := {|
  backend_manifest := bk_manifest inner;
  backend_kind := bk_kind inner;
  register_profile profile_name spec := bk_register_profile inner profile_name spec;
  execute profile_name request := bk_execute inner profile_name request;
  input_schema profile_name := bk_input_schema inner profile_name;
  output_schema profile_name := bk_output_schema inner profile_name;
  list_resources profile_name cursor := bk_list_resources inner profile_name cursor;
  complete_template_variable profile_name variable_name prefix config context :=
    bk_complete_template_variable inner profile_name variable_name prefix config context;
  backend_shutdown := bk_shutdown inner;
|}.

(** "The stream started, and there is nothing to cancel". *)
Definition STREAM_NO_CANCEL_SENTINEL : Z := usize_max.

Variable plugin : SyncBackendPlugin.

Definition __mcpg_binding_make : (string -> Host -> outcome P) -> Host -> string -> string -> option P :=
  make_slot.
Definition __mcpg_binding_manifest_json : P -> P * string := bare_slot (bk_manifest plugin).
Definition __mcpg_binding_kind : P -> P * string := text_slot (bk_kind plugin).

Definition __mcpg_binding_register_profile (backend_name spec_json : string) : P -> P * string :=
  envelope_slot (bk_register_profile plugin backend_name (from_str_or Some j_null spec_json)).

Definition invalid_request (e : string) : BackendError := backend_transport ("invalid request JSON: " ++ e).

Definition __mcpg_binding_execute (backend_name request_json : string) : P -> P * string :=
  args_slot from_value (fun e => respond_error (invalid_request e))
    (fun request => r <-- bk_execute plugin backend_name request; ret (respond_result r)) request_json.

(** [callback] is the host's event sink; each chunk crosses as an envelope. *)
Definition __mcpg_binding_execute_streaming (backend_name request_json : string) (callback : string -> P -> P)
    : P -> P * StreamHandle :=
  catch_or stream_failure
    match from_str from_value request_json with
    | Err e => ret (failed_stream (invalid_request e))
    | Ok request =>
        r <-- bk_execute_streaming plugin backend_name request
                (fun chunk => callback (respond_result chunk));
        ret (match r with
             | Ok token => started (if token =? 0 then STREAM_NO_CANCEL_SENTINEL else token)
             | Err e => failed_stream e
             end)
    end.

Definition __mcpg_binding_cancel_stream (stream_token : Z) : P -> P :=
  catch_silent (bk_cancel_stream plugin
    (if stream_token =? STREAM_NO_CANCEL_SENTINEL then 0 else stream_token)).

Definition __mcpg_binding_execute_transaction (backend_name tx_group_json : string) : P -> P * string :=
  envelope_slot (bk_execute_transaction plugin backend_name (from_str_or Some j_null tx_group_json)).

(** A panic while deriving a schema is no schema. *)
Definition schema_slot (m : comp P (option jv)) : P -> P * option string :=
  catch_or None (v <-- m; ret (to_string <$> v)).
Definition __mcpg_binding_input_schema_json (backend_name : string) : P -> P * option string :=
  schema_slot (bk_input_schema plugin backend_name).
Definition __mcpg_binding_output_schema_json (backend_name : string) : P -> P * option string :=
  schema_slot (bk_output_schema plugin backend_name).

Definition __mcpg_binding_list_resources (backend_name : string) (cursor : option string) : P -> P * string :=
  envelope_slot (bk_list_resources plugin backend_name cursor).
Definition __mcpg_binding_shutdown : P -> P := catch_silent (bk_shutdown plugin).
Definition __mcpg_binding_audit_metadata (backend_name : string) : P -> P * string :=
  catch_to_empty (map <-- bk_audit_metadata plugin backend_name; ret (j_print (j_obj map))).
Definition __mcpg_binding_expand_capabilities : P -> P * string :=
  envelope_slot (bk_expand_capabilities plugin).

(** [args.get(k).and_then(as_str).unwrap_or(d)] of an object's field, and the
    string entries of its context. *)
Definition str_or_empty (args : jv) (k : string) : string := default ""%string (j_get args k ≫= j_as_str).
Definition context_of (args : jv) : gmap string string :=
  match j_get args "context" ≫= j_as_obj with
  | Some m => omap j_as_str m
  | None => ∅
  end.

Definition __mcpg_binding_complete_template_variable (args_json : string) : P -> P * string :=
  let args := from_str_or Some j_null args_json in
  envelope_slot (bk_complete_template_variable plugin (str_or_empty args "profile_name")
    (str_or_empty args "variable_name") (str_or_empty args "prefix")
    (default j_null (j_get args "config")) (context_of args)).

Record BackendVTable := {
  bk_v_make : Host -> string -> string -> option P;
  bk_v_manifest_json : P -> P * string;
  bk_v_kind : P -> P * string;
  bk_v_register_profile : string -> string -> P -> P * string;
  bk_v_execute : string -> string -> P -> P * string;
  bk_v_execute_streaming : string -> string -> (string -> P -> P) -> P -> P * StreamHandle;
  bk_v_cancel_stream : Z -> P -> P;
  bk_v_execute_transaction : string -> string -> P -> P * string;
  bk_v_input_schema_json : string -> P -> P * option string;
  bk_v_output_schema_json : string -> P -> P * option string;
  bk_v_complete_template_variable : string -> P -> P * string;
  bk_v_list_resources : string -> option string -> P -> P * string;
  bk_v_audit_metadata : string -> P -> P * string;
  bk_v_expand_capabilities : P -> P * string;
  bk_v_shutdown : P -> P;
}.

Definition backend_make_vtable (factory : string -> Host -> outcome P) : BackendVTable := {|
  bk_v_make := __mcpg_binding_make factory;
  bk_v_manifest_json := __mcpg_binding_manifest_json;
  bk_v_kind := __mcpg_binding_kind;
  bk_v_register_profile := __mcpg_binding_register_profile;
  bk_v_execute := __mcpg_binding_execute;
  bk_v_execute_streaming := __mcpg_binding_execute_streaming;
  bk_v_cancel_stream := __mcpg_binding_cancel_stream;
  bk_v_execute_transaction := __mcpg_binding_execute_transaction;
  bk_v_input_schema_json := __mcpg_binding_input_schema_json;
  bk_v_output_schema_json := __mcpg_binding_output_schema_json;
  bk_v_complete_template_variable := __mcpg_binding_complete_template_variable;
  bk_v_list_resources := __mcpg_binding_list_resources;
  bk_v_audit_metadata := __mcpg_binding_audit_metadata;
  bk_v_expand_capabilities := __mcpg_binding_expand_capabilities;
  bk_v_shutdown := __mcpg_binding_shutdown;
|}.

Definition backend_build_static (factory : string -> Host -> outcome P)
    : string -> Host -> outcome (BackendPlugin * P) :=
  build_static factory (fun inner => (SyncBackendPluginAdapter plugin, inner)).
End Backend.
Arguments SyncBackendPlugin jv {PA BA} P.
Arguments BackendPlugin jv {PA BA} P.
Arguments BackendVTable P Host : clear implicits.

(** ** watch_strategy *)

Class WatchApi (jv : Type) := {
  WatchError : Type;
  watch_subscribe : string -> WatchError;
  #[global] watch_error_serialize :: Serialize jv WatchError;
  watch_stream_failure : StreamHandle;
}.

Section WatchStrategy.
Context {jv : Type} `{J : Json jv} `{E : Envelope jv} `{PA : PluginApi jv} {WA : WatchApi jv}.
Context {P Host : Type}.

Record SyncWatchStrategyPlugin := {
  ws_manifest : comp P PluginManifest;
  ws_kind : comp P string;
  ws_watch : string -> jv -> (string -> P -> P) -> comp P (result Z WatchError);
  ws_cancel : Z -> comp P unit;
  ws_acknowledge : Z -> jv -> comp P unit;
  ws_shutdown : comp P unit;
}.

(** The default: acknowledgements are ignored. *)
Definition acknowledge_default (_ : Z) (_ : jv) : comp P unit := ret tt.

Record WatchStrategyPlugin := {
  strategy_manifest : comp P PluginManifest;
  strategy_kind : comp P string;
  strategy_watch : string -> jv -> comp P (result Z WatchError);
  strategy_shutdown : comp P unit;
}.

Definition SyncWatchStrategyAdapter (inner : SyncWatchStrategyPlugin) : WatchStrategyPlugin := {|
  strategy_manifest := ws_manifest inner;
  strategy_kind := ws_kind inner;
  strategy_watch _ _ := ret (Err (watch_subscribe
    ("SyncWatchStrategyAdapter does not bridge `watch` across the sync push-callback / async "
     ++ "typed-sink gap; impl the async trait directly")));
  strategy_shutdown := ws_shutdown inner;
|}.

Variable plugin : SyncWatchStrategyPlugin.

Definition __mcpg_watch_make : (string -> Host -> outcome P) -> Host -> string -> string -> option P :=
  make_slot.
Definition __mcpg_watch_manifest_json : P -> P * string := bare_slot (ws_manifest plugin).
Definition __mcpg_watch_kind : P -> P * string := text_slot (ws_kind plugin).

Definition __mcpg_watch_watch (uri spec_json : string) (callback : string -> P -> P) : P -> P * StreamHandle :=
  catch_or watch_stream_failure
    (r <-- ws_watch plugin uri (from_str_or Some j_null spec_json) callback; ret (stream_handle_of r)).

Definition __mcpg_watch_cancel (cancel_token : Z) : P -> P := catch_silent (ws_cancel plugin cancel_token).

(** A position that does not parse acknowledges nothing. *)
Definition __mcpg_watch_acknowledge (cancel_token : Z) (position_json : string) : P -> P :=
  catch_silent match from_str Some position_json with
               | Ok position => ws_acknowledge plugin cancel_token position
               | Err _ => ret tt
               end.
Definition __mcpg_watch_shutdown : P -> P := catch_silent (ws_shutdown plugin).

Record WatchStrategyVTable := {
  ws_v_make : Host -> string -> string -> option P;
  ws_v_manifest_json : P -> P * string;
  ws_v_kind : P -> P * string;
  ws_v_watch : string -> string -> (string -> P -> P) -> P -> P * StreamHandle;
  ws_v_cancel : Z -> P -> P;
  ws_v_acknowledge : Z -> string -> P -> P;
  ws_v_shutdown : P -> P;
}.

Definition watch_strategy_make_vtable (factory : string -> Host -> outcome P) : WatchStrategyVTable := {|
  ws_v_make := __mcpg_watch_make factory;
  ws_v_manifest_json := __mcpg_watch_manifest_json;
  ws_v_kind := __mcpg_watch_kind;
  ws_v_watch := __mcpg_watch_watch;
  ws_v_cancel := __mcpg_watch_cancel;
  ws_v_acknowledge := __mcpg_watch_acknowledge;
  ws_v_shutdown := __mcpg_watch_shutdown;
|}.

Definition watch_strategy_build_static (factory : string -> Host -> outcome P)
    : string -> Host -> outcome (WatchStrategyPlugin * P) :=
  build_static factory (fun inner => (SyncWatchStrategyAdapter plugin, inner)).
End WatchStrategy.
Arguments SyncWatchStrategyPlugin jv {PA WA} P.
Arguments WatchStrategyPlugin jv {PA WA} P.
Arguments WatchStrategyVTable P Host : clear implicits.
