(* ===== verification/BackendFacts.v ===== *)
(** * Backends: the two builds, and what a stream handle means *)

From Stdlib Require Import Ascii String.
From S2P Require Import Prelude Json Ffi Gates Backends.

Section BackendBuilds.
Context {jv : Type} `{JL : JsonLaws jv} `{E : Envelope jv} `{PA : PluginApi jv} {BA : BackendApi jv}.
Context `{!SerdeRoundtrip jv BackendRequest} {P Host : Type}.

Inductive backend_call :=
| BRegister (profile : string) (spec : jv)
| BExecute (profile : string) (request : BackendRequest)
| BInputSchema (profile : string)
| BOutputSchema (profile : string)
| BResources (profile : string) (cursor : option string)
| BComplete (profile variable prefix : string) (config : jv) (context : gmap string string).

Inductive backend_answer :=
| BansUnit (r : result unit BackendError)
| BansResponse (r : result BackendResponse BackendError)
| BansSchema (o : option jv)
| BansPage (r : result ResourcePage BackendError)
| BansNames (r : result (list string) BackendError).

(** A call in process. *)
Definition backend_direct (b : BackendPlugin jv P) (c : backend_call) (p : P) : P * outcome backend_answer :=
  match c with
  | BRegister profile spec => (r <-- register_profile b profile spec; ret (BansUnit r)) p
  | BExecute profile request => (r <-- execute b profile request; ret (BansResponse r)) p
  | BInputSchema profile => (o <-- input_schema b profile; ret (BansSchema o)) p
  | BOutputSchema profile => (o <-- output_schema b profile; ret (BansSchema o)) p
  | BResources profile cursor => (r <-- list_resources b profile cursor; ret (BansPage r)) p
  | BComplete profile variable prefix config context =>
      (r <-- complete_template_variable b profile variable prefix config context; ret (BansNames r)) p
  end.

(** A completion request as the host prints it. *)
Definition complete_json (profile variable prefix : string) (config : jv) (context : gmap string string)
    : string :=
  j_print (j_obj {["profile_name" := j_str profile; "variable_name" := j_str variable;
                   "prefix" := j_str prefix; "config" := config; "context" := j_strmap context]}%string).

(** The same call over the vtable; a schema may be absent. *)
Definition backend_wire (v : BackendVTable P Host) (c : backend_call) (p : P) : P * option string :=
  let text (r : P * string) := (r.1, Some r.2) in
  match c with
  | BRegister profile spec => text (bk_v_register_profile v profile (j_print spec) p)
  | BExecute profile request => text (bk_v_execute v profile (to_string request) p)
  | BInputSchema profile => bk_v_input_schema_json v profile p
  | BOutputSchema profile => bk_v_output_schema_json v profile p
  | BResources profile cursor => text (bk_v_list_resources v profile cursor p)
  | BComplete profile variable prefix config context =>
      text (bk_v_complete_template_variable v (complete_json profile variable prefix config context) p)
  end.

(** A panic is the empty text, or no schema. *)
Definition backend_text (c : backend_call) (o : outcome backend_answer) : option string :=
  match o with
  | Returned (BansUnit r) => Some (respond_result r)
  | Returned (BansResponse r) => Some (respond_result r)
  | Returned (BansSchema o) => to_string <$> o
  | Returned (BansPage r) => Some (respond_result r)
  | Returned (BansNames r) => Some (respond_result r)
  | Panicked => match c with BInputSchema _ | BOutputSchema _ => None | _ => Some ""%string end
  end.

Lemma context_of_print (args : gmap string jv) (context : gmap string string) :
  args !! "context"%string = Some (j_strmap context) -> context_of (j_obj args) = context.
Proof.
  intros H. unfold context_of. rewrite j_get_obj, H. simpl. unfold j_strmap. rewrite j_as_obj_obj.
  apply map_eq. intros k. rewrite lookup_omap, lookup_fmap.
  destruct (context !! k); simpl; [apply j_as_str_str|done].
Qed.

Lemma str_or_empty_obj (args : gmap string jv) k s :
  args !! k = Some (j_str s) -> str_or_empty (j_obj args) k = s.
Proof. intros H. unfold str_or_empty. rewrite j_get_obj, H. simpl. by rewrite j_as_str_str. Qed.

(** What the completion slot passes on. *)
Lemma complete_slot plugin profile variable prefix config context (p : P) :
  __mcpg_binding_complete_template_variable plugin (complete_json profile variable prefix config context) p
  = envelope_slot (bk_complete_template_variable plugin profile variable prefix config context) p.
Proof.
  unfold __mcpg_binding_complete_template_variable, complete_json.
  rewrite (from_str_or_print _ _ _ _ eq_refl). erewrite !str_or_empty_obj by reflexivity.
  erewrite context_of_print by reflexivity. rewrite j_get_obj. reflexivity.
Qed.

Lemma backend_wire_direct plugin (factory : string -> Host -> outcome P) c p :
  backend_wire (backend_make_vtable plugin factory) c p =
    ((backend_direct (SyncBackendPluginAdapter plugin) c p).1,
     backend_text c (backend_direct (SyncBackendPluginAdapter plugin) c p).2).
Proof.
  destruct c; simpl.
  - unfold __mcpg_binding_register_profile. rewrite (from_str_or_print _ _ _ _ eq_refl).
    unfold envelope_slot, catch_to_empty, bind, ret. by run_method.
  - unfold __mcpg_binding_execute, to_string. erewrite args_slot_print by apply from_to_value.
    unfold catch_to_empty, bind, ret. by run_method.
  - unfold __mcpg_binding_input_schema_json, schema_slot, catch_or, bind, ret. by run_method.
  - unfold __mcpg_binding_output_schema_json, schema_slot, catch_or, bind, ret. by run_method.
  - unfold __mcpg_binding_list_resources, envelope_slot, catch_to_empty, bind, ret. by run_method.
  - rewrite complete_slot. unfold envelope_slot, catch_to_empty, bind, ret. by run_method.
Qed.

(** For every sequence of profile registrations, executions, schema
    queries, resource listings and completions, the vtable makes the calls the
    in-process adapter makes, with the same arguments, completion contexts
    included, and answers what the adapter answers, in the result envelope or
    as an optional schema; a panic is the empty text, or no schema. *)
Theorem backend_builds_agree plugin (factory : string -> Host -> outcome P) calls p :
  session (backend_wire (backend_make_vtable plugin factory)) calls p =
    ((session (backend_direct (SyncBackendPluginAdapter plugin)) calls p).1,
     zip_with backend_text calls (session (backend_direct (SyncBackendPluginAdapter plugin)) calls p).2).
Proof. apply session_agree, Forall_true. intros c q. apply backend_wire_direct. Qed.

(** ** Streams *)

(** What the plugin's streaming method does when the host's sink gets each
    chunk as an envelope. *)
Definition streamed plugin profile (request : BackendRequest) (callback : string -> P -> P) : P -> P * outcome (result Z BackendError) :=
  bk_execute_streaming plugin profile request (fun chunk => callback (respond_result chunk)).

Lemma execute_streaming_slot plugin (factory : string -> Host -> outcome P) profile request callback p :
  bk_v_execute_streaming (backend_make_vtable plugin factory) profile (to_string request) callback p
  = answered (fun r => match r with
                       | Ok token => started (if token =? 0 then STREAM_NO_CANCEL_SENTINEL else token)
                       | Err e => failed_stream e
                       end) stream_failure (streamed plugin profile request callback) p.
Proof.
  simpl. unfold __mcpg_binding_execute_streaming, to_string.
  erewrite from_str_print by apply from_to_value. apply catch_or_answered.
Qed.

(** C39. The handle a streaming execution answers is not 0 exactly when the plugin
    started the stream, and cancelling that handle gives the plugin back the
    token it returned: 0 for a stream that cannot be cancelled, any other below
    [usize::MAX] as it is. *)
Theorem stream_tokens plugin (factory : string -> Host -> outcome P) profile request callback p :
  sh_handle stream_failure = 0 ->
  let sh := (bk_v_execute_streaming (backend_make_vtable plugin factory) profile
               (to_string request) callback p).2 in
  (sh_handle sh <> 0 <->
     exists token, (streamed plugin profile request callback p).2 = Returned (Ok token))
  /\ forall token, (streamed plugin profile request callback p).2 = Returned (Ok token) ->
       token <> usize_max ->
       forall q, bk_v_cancel_stream (backend_make_vtable plugin factory) (sh_handle sh) q
                 = catch_silent (bk_cancel_stream plugin token) q.
Proof.
  intros Hf. cbn zeta. rewrite execute_streaming_slot. unfold answered.
  destruct (streamed plugin profile request callback p) as [p' [[token|e]|]]; simpl.
  - split.
    + split; [by eauto|]. intros _. case_match; [done|lia].
    + intros ? [= <-] Hmax q. unfold __mcpg_binding_cancel_stream.
      destruct (Z.eqb_spec token 0) as [->|Hz]; [done|].
      by rewrite (proj2 (Z.eqb_neq token STREAM_NO_CANCEL_SENTINEL)).
  - split; [|done]. split; [done|by intros [? ?]].
  - split; [|done]. split; [done|by intros [? ?]].
Qed.

(** The token the sentinel shadows: a plugin that answers [usize::MAX] is asked
    to cancel 0. *)
Lemma sentinel_token_lost plugin q :
  __mcpg_binding_cancel_stream plugin usize_max q = catch_silent (B := P) (bk_cancel_stream plugin 0) q.
Proof. done. Qed.

(** A plugin that leaves streaming to the trait sends exactly one event, its
    buffered answer, and no event when it failed. *)
Lemma default_stream_one_event manifest kind reg (exec : string -> BackendRequest -> comp P (result BackendResponse BackendError))
    profile request callback p :
  streamed (backend_defaults manifest kind reg exec) profile request callback p
  = match exec profile request p with
    | (p, Returned (Ok resp)) => (callback (respond_result (R := BackendError) (Ok (chunk_done resp))) p, Returned (Ok 0))
    | (p, Returned (Err e)) => (p, Returned (Err e))
    | (p, Panicked) => (p, Panicked)
    end.
Proof.
  unfold streamed. simpl. unfold execute_streaming_default, bind, ret.
  by destruct (exec profile request p) as [? [[]|]].
Qed.
End BackendBuilds.

(** ** Watch strategies *)

Section WatchBuilds.
Context {jv : Type} `{JL : JsonLaws jv} `{E : Envelope jv} `{PA : PluginApi jv} {WA : WatchApi jv}.
Context {P Host : Type}.

(** Over the vtable the plugin's watch starts and a printed position reaches
    [acknowledge]; the in-process adapter refuses to watch. *)
Lemma watch_strategy_differs (s : SyncWatchStrategyPlugin jv P) (f : string -> Host -> outcome P) uri spec sink p :
  ws_v_watch (watch_strategy_make_vtable s f) uri (j_print spec) sink p
    = answered stream_handle_of watch_stream_failure (ws_watch s uri spec sink) p
  /\ (exists e, strategy_watch (SyncWatchStrategyAdapter s) uri spec p = (p, Returned (Err e))).
Proof.
  split; [|by eexists]. simpl. unfold __mcpg_watch_watch.
  rewrite (from_str_or_print _ _ _ _ eq_refl). apply catch_or_answered.
Qed.

Lemma acknowledge_parsed (s : SyncWatchStrategyPlugin jv P) (f : string -> Host -> outcome P) token text p :
  ws_v_acknowledge (watch_strategy_make_vtable s f) token text p
  = match j_parse text with Ok v => (ws_acknowledge s token v p).1 | Err _ => p end.
Proof. simpl. unfold __mcpg_watch_acknowledge, catch_silent, from_str, ret. by destruct (j_parse text). Qed.
End WatchBuilds.

(** ** Witness *)

Module Sample.
Import Tree Wire Gates.Sample.

#[export] Instance backend_api : BackendApi jtree := {|
  BackendRequest := string; BackendResponse := string; BackendChunk := string; chunk_done := id;
  ResourcePage := unit; page_empty := tt; CapabilitySet := unit; capabilities_none := tt;
  BackendError := string; backend_transport := id;
  stream_failure := {| sh_handle := 0; sh_error_json := "panic"; sh_metadata_json := "" |};
|}.

(** A backend that logs its calls; it streams two chunks under token 7. *)
Definition backend : SyncBackendPlugin jtree (list string) := {|
  bk_manifest := ret "sample"%string; bk_kind := ret "sample"%string;
  bk_register_profile name _ p := (p ++ ["register " ++ name]%string, Returned (Ok tt));
  bk_execute name request p := (p ++ [request], if String.eqb request "boom" then Panicked else Returned (Ok name));
  bk_execute_streaming _ request emit p :=
    (emit (Ok "second"%string) (emit (Ok request) p), Returned (Ok 7));
  bk_cancel_stream token p := (p ++ ["cancel " ++ pretty token]%string, Returned tt);
  bk_execute_transaction _ v := ret (Ok v); bk_audit_metadata _ := ret ∅;
  bk_input_schema _ := panic; bk_output_schema _ := ret (Some j_null);
  bk_list_resources _ _ := ret (Ok tt); bk_expand_capabilities := ret (Ok tt);
  bk_complete_template_variable _ _ prefix _ context := ret (Ok [prefix; default ""%string (context !! "k"%string)]);
  bk_shutdown := no_shutdown |}.

Definition calls : list (backend_call (jv := jtree)) :=
  [BRegister "a" j_null; BExecute "a" "q"%string; BExecute "a" "boom"%string; BInputSchema "a"; BOutputSchema "a";
   BComplete "a" "v" "pre" j_null {["k" := "ctx"]}%string].

Lemma backend_builds_agree_witness :
  (session (backend_wire (backend_make_vtable backend (fun _ (_ : unit) => Returned []))) calls []).1
    = ["register a"; "q"; "boom"]%string.
Proof. rewrite backend_builds_agree. vm_compute. reflexivity. Defined.

Lemma stream_tokens_witness :
  sh_handle stream_failure = 0 /\
  (let sh := (bk_v_execute_streaming (backend_make_vtable backend (fun _ (_ : unit) => Returned [])) "a"
                (to_string "q"%string) (fun e p => p ++ [e]) []).2 in
   bk_v_cancel_stream (backend_make_vtable backend (fun _ (_ : unit) => Returned [])) (sh_handle sh) []
   = ["cancel 7"]%string).
Proof.
  split; [reflexivity|].
  destruct (stream_tokens backend (fun _ (_ : unit) => Returned []) "a" "q"%string (fun e p => p ++ [e]) [])
    as [_ H]; [reflexivity|].
  cbv zeta in H |- *. rewrite (H 7) by (vm_compute; first [reflexivity | discriminate]). reflexivity.
Defined.
End Sample.
