(* ===== verification/Routes.v ===== *)
(** * HTTP routes and transports

    The sync traits, the dispatcher and the byte sink (src/src/ffi.rs), the
    slots (src/src/macros.rs) and the adapters (src/src/adapters.rs) of the
    kinds that face a client. The world [P] is the plugin's state together with
    what its callbacks reach. The drain task of a streamed body is in
    Streams.v. *)

From Stdlib Require Import Ascii String.
From S2P Require Import Prelude Json Ffi Gates.

(** ** http_route *)

(** The bytes of a text. *)
Definition text_bytes (s : string) : list Z := (fun c => Z.of_nat (nat_of_ascii c)) <$> chars s.

Inductive HttpBody (S : Type) := Bytes (b : list Z) | Stream (s : S).
Arguments Bytes {S} b.
Arguments Stream {S} s.

Record HttpRouteResponse (S : Type) :=
  { status : Z; headers : list (string * string); body : HttpBody S }.
Arguments status {S}.
Arguments headers {S}.
Arguments body {S}.

(** The response as it crosses the ABI, and the head of a streamed one. *)
Record HttpRouteResponseWire :=
  { wire_status : Z; wire_headers : list (string * string); wire_body : list Z }.
Record HttpStreamHead := { head_status : Z; head_headers : list (string * string) }.
Record HttpHandleResult := { result_handle : Z; head_json : string }.

Class HttpApi (jv : Type) := {
  RouteSpec : Type;
  #[global] route_spec_serialize :: Serialize jv RouteSpec;
  HttpRouteRequest : Type;
  HttpRouteRequestWire : Type;
  #[global] request_wire_deserialize :: Deserialize jv HttpRouteRequestWire;
  request_of_wire : HttpRouteRequestWire -> HttpRouteRequest;
  #[global] response_wire_serialize :: Serialize jv HttpRouteResponseWire;
  #[global] stream_head_serialize :: Serialize jv HttpStreamHead;
  (** A boxed stream of chunks. *)
  HttpStream : Type;
  (** [TryFrom<HttpRouteResponse> for HttpRouteResponseWire]. *)
  response_try_wire : HttpRouteResponse HttpStream -> option HttpRouteResponseWire;
}.

(** The conversion's contract: only a streamed body is refused. *)
Class HttpLaws (jv : Type) `{HttpApi jv} := {
  try_wire_bytes st hs b :
    response_try_wire {| status := st; headers := hs; body := Bytes b |}
    = Some {| wire_status := st; wire_headers := hs; wire_body := b |};
  try_wire_stream st hs s :
    response_try_wire {| status := st; headers := hs; body := Stream s |} = None;
}.

Section HttpRoute.
Context {jv : Type} `{J : Json jv} `{E : Envelope jv} `{PA : PluginApi jv} {HA : HttpApi jv}.
Context {P Host : Type}.

Abbreviation Response := (HttpRouteResponse HttpStream).

Record SyncHttpRoute := {
  hr_manifest : comp P PluginManifest;
  hr_routes : comp P (list RouteSpec);
  hr_handle : HttpRouteRequest -> comp P Response;
  hr_shutdown : comp P unit;
}.

Record HttpRoute := {
  route_manifest : comp P PluginManifest;
  route_routes : comp P (list RouteSpec);
  route_handle : HttpRouteRequest -> comp P Response;
  route_shutdown : comp P unit;
}.

Definition SyncHttpRouteAdapter (inner : SyncHttpRoute) : HttpRoute := {|
  route_manifest := hr_manifest inner;
  route_routes := hr_routes inner;
  route_handle req := hr_handle inner req;
  route_shutdown := hr_shutdown inner;
|}.

(** An error response: a status and a JSON body. *)
Definition error_response (st : Z) (reason : string) : HttpRouteResponseWire := {|
  wire_status := st;
  wire_headers := [("Content-Type", "application/json")]%string;
  wire_body := text_bytes (j_print (j_obj {["error"%string := j_str reason]}));
|}.

(** [fallback_error], and the same result for a wire response. *)
Definition complete (w : HttpRouteResponseWire) : HttpHandleResult :=
  {| result_handle := 0; head_json := to_string w |}.
Definition fallback_error (reason : string) : HttpHandleResult := complete (error_response 500 reason).

(** What a streamed body finds: the SDK built without the [streaming] feature,
    no tokio runtime, or a runtime whose [spawn] gives the task's state an
    address. *)
Inductive streaming := NoFeature | NoRuntime | Runtime (spawn : HttpStream -> P -> P * Z).

Definition spawn_http_stream_drain (rt : streaming) (resp : Response) : comp P HttpHandleResult :=
  match rt with
  | NoFeature => ret (fallback_error "streaming responses require mcpg-plugin-sdk/streaming feature")
  | _ =>
      match body resp with
      | Bytes _ => ret (fallback_error "spawn_http_stream_drain called on Bytes body — caller bug")
      | Stream s =>
          match rt with
          | Runtime spawn => fun p =>
              let '(p, address) := spawn s p in
              (p, Returned {| result_handle := address;
                              head_json := to_string {| head_status := status resp;
                                                        head_headers := headers resp |} |})
          | _ => ret (fallback_error "streaming requires the plugin to run in a tokio runtime")
          end
      end
  end.

Variable plugin : SyncHttpRoute.

Definition __mcpg_http_route_make : (string -> Host -> outcome P) -> Host -> string -> string -> option P :=
  make_slot.
Definition __mcpg_http_route_manifest_json : P -> P * string := bare_slot (hr_manifest plugin).
Definition __mcpg_http_route_routes_json : P -> P * string := bare_slot (hr_routes plugin).

Definition invalid_http_request (e : string) : HttpRouteResponseWire :=
  error_response 400 ("invalid request JSON: " ++ e).

Definition __mcpg_http_route_handle (request_json : string) : P -> P * string :=
  args_slot from_value (fun e => to_string (invalid_http_request e))
    (fun wire =>
       resp <-- hr_handle plugin (request_of_wire wire);
       ret (to_string (match response_try_wire resp with
                       | Some w => w
                       | None => error_response 500
                           "streaming response bodies are not supported across the FFI boundary"
                       end)))
    request_json.

(** The sink is where a drain task sends the chunks; the byte sink is unused. *)
Definition __mcpg_http_route_handle_streaming (rt : streaming) (request_json : string)
    : P -> P * HttpHandleResult :=
  catch_or (complete (error_response 500 "plugin panicked during handle_streaming"))
    match from_str from_value request_json with
    | Err e => ret (complete (invalid_http_request e))
    | Ok wire =>
        resp <-- hr_handle plugin (request_of_wire wire);
        match body resp with
        | Bytes b => ret (complete {| wire_status := status resp; wire_headers := headers resp; wire_body := b |})
        | Stream _ => spawn_http_stream_drain rt resp
        end
    end.

(** [cancel] stands for [cancel_http_stream], which Streams.v models. *)
Definition __mcpg_http_route_cancel_stream (cancel : Z -> comp P unit) (stream_handle : Z) : P -> P :=
  catch_silent (cancel stream_handle).
Definition __mcpg_http_route_shutdown : P -> P := catch_silent (hr_shutdown plugin).

Record HttpRouteVTable := {
  hr_v_make : Host -> string -> string -> option P;
  hr_v_manifest_json : P -> P * string;
  hr_v_routes_json : P -> P * string;
  hr_v_handle : string -> P -> P * string;
  hr_v_handle_streaming : streaming -> string -> P -> P * HttpHandleResult;
  hr_v_cancel_stream : (Z -> comp P unit) -> Z -> P -> P;
  hr_v_shutdown : P -> P;
}.

Definition http_route_make_vtable (factory : string -> Host -> outcome P) : HttpRouteVTable := {|
  hr_v_make := __mcpg_http_route_make factory;
  hr_v_manifest_json := __mcpg_http_route_manifest_json;
  hr_v_routes_json := __mcpg_http_route_routes_json;
  hr_v_handle := __mcpg_http_route_handle;
  hr_v_handle_streaming := __mcpg_http_route_handle_streaming;
  hr_v_cancel_stream := __mcpg_http_route_cancel_stream;
  hr_v_shutdown := __mcpg_http_route_shutdown;
|}.

Definition http_route_build_static (factory : string -> Host -> outcome P)
    : string -> Host -> outcome (HttpRoute * P) :=
  build_static factory (fun inner => (SyncHttpRouteAdapter plugin, inner)).
End HttpRoute.
Arguments SyncHttpRoute jv {PA HA} P.
Arguments HttpRoute jv {PA HA} P.
Arguments HttpRouteVTable {jv HA} P Host.
Arguments streaming jv {HA} P.

(** ** The byte sink *)

Section BytesSink.
Context {P : Type}.

Definition BytesSinkHandle : Type := list Z -> P -> P.
Definition emit (sink : BytesSinkHandle) (bytes : list Z) : P -> P :=
  match bytes with [] => id | _ => sink bytes end.
Definition end_ (sink : BytesSinkHandle) : P -> P := sink [].
End BytesSink.

(** ** transport *)

Class TransportApi (jv : Type) := {
  TransportError : Type;
  invalid_config : string -> TransportError;
  transport_io : string -> TransportError;
  #[global] transport_error_serialize :: Serialize jv TransportError;
  DispatcherError : Type;
  internal : string -> DispatcherError;
  #[global] dispatcher_error_serialize :: Serialize jv DispatcherError;
  #[global] dispatcher_error_deserialize :: Deserialize jv DispatcherError;
  DispatchResponse : Type;
  unary : list Z -> DispatchResponse;
}.

Section Transport.
Context {jv : Type} `{J : Json jv} `{E : Envelope jv} `{PA : PluginApi jv} {TA : TransportApi jv}.
Context {P Host : Type}.

(** [SyncMessageDispatcher]. *)
Definition dispatcher : Type := string -> list Z -> comp P (result (list Z) DispatcherError).
(** The host's callback: session and message in, reply out. *)
Definition DispatcherCallback : Type := string -> string -> P -> P * string.

(** The two reply shapes, tried in order: an object's ["ok"] holding a struct
    of bytes, then its ["err"]. A value has each key once; a text that repeats one
    inside is the last one here, and refused by the derived struct. *)
Definition reply_bytes (v : jv) : option (list Z) :=
  match struct_fields ["bytes"%string] v with
  | Some [b] => field_bytes b
  | _ => None
  end.
Definition reply_wire (v : jv) : option (result (list Z) DispatcherError) :=
  match j_get v "ok" ≫= reply_bytes with
  | Some b => Some (Ok b)
  | None => Err <$> (j_get v "err" ≫= from_value)
  end.

Definition message_json (message : list Z) : string := j_print (j_obj {["bytes"%string := j_bytes message]}).

(** [FfiDispatcher::dispatch]; printing the message does not fail. *)
Definition dispatcher_from_cb (cb : DispatcherCallback) : dispatcher :=
  fun session_id message p =>
    let '(p, raw) := cb session_id (message_json message) p in
    (p, Returned match from_str reply_wire raw with
                 | Ok r => r
                 | Err e => Err (internal ("dispatcher reply decode failed: " ++ e))
                 end).

Definition SyncMessageDispatcherAdapter (inner : dispatcher) (session_id : string) (message : list Z)
    : comp P (result DispatchResponse DispatcherError) :=
  r <-- inner session_id message; ret (map_ok unary r).

Record SyncTransportHandle := { th_handle : Z; listen_address : option string }.

Record SyncTransport := {
  tr_manifest : comp P PluginManifest;
  tr_name : comp P string;
  tr_start : jv -> dispatcher -> comp P (result SyncTransportHandle TransportError);
  tr_close : Z -> comp P unit;
  tr_drop : Z -> comp P unit;
  tr_listen_address : Z -> comp P (option string);
  tr_shutdown : comp P unit;
}.

(** The default: no meaningful address. *)
Definition listen_address_default (_ : Z) : comp P (option string) := ret None.

Variable plugin : SyncTransport.

Definition __mcpg_transport_make : (string -> Host -> outcome P) -> Host -> string -> string -> option P :=
  make_slot.
Definition __mcpg_transport_manifest_json : P -> P * string := bare_slot (tr_manifest plugin).
Definition __mcpg_transport_name : P -> P * string := text_slot (tr_name plugin).

Definition __mcpg_transport_start_err (err : TransportError) : StreamHandle := failed_stream err.

Definition address_json (address : option string) : string :=
  match address with
  | Some addr => if String.eqb addr "" then "" else j_print (j_obj {["listen_address"%string := j_str addr]})
  | None => ""
  end.

Definition __mcpg_transport_start (listener_config_json : string) (cb : DispatcherCallback)
    : P -> P * StreamHandle :=
  catch_or (__mcpg_transport_start_err (transport_io "plugin panicked during start"))
    match from_str Some listener_config_json with
    | Err e => ret (__mcpg_transport_start_err (invalid_config ("listener_config not JSON: " ++ e)))
    | Ok listener_config =>
        r <-- tr_start plugin listener_config (dispatcher_from_cb cb);
        ret (match r with
             | Ok h => {| sh_handle := th_handle h; sh_error_json := "";
                          sh_metadata_json := address_json (listen_address h) |}
             | Err e => __mcpg_transport_start_err e
             end)
    end.

Definition __mcpg_transport_handle_close (transport_handle : Z) : P -> P :=
  catch_silent (tr_close plugin transport_handle).
Definition __mcpg_transport_handle_drop (transport_handle : Z) : P -> P :=
  catch_silent (tr_drop plugin transport_handle).
Definition __mcpg_transport_handle_listen_address (transport_handle : Z) : P -> P * string :=
  catch_to_empty (addr <-- tr_listen_address plugin transport_handle; ret (default ""%string addr)).
Definition __mcpg_transport_shutdown : P -> P := catch_silent (tr_shutdown plugin).

Record TransportVTable := {
  tr_v_make : Host -> string -> string -> option P;
  tr_v_manifest_json : P -> P * string;
  tr_v_name : P -> P * string;
  tr_v_start : string -> DispatcherCallback -> P -> P * StreamHandle;
  tr_v_handle_close : Z -> P -> P;
  tr_v_handle_drop : Z -> P -> P;
  tr_v_handle_listen_address : Z -> P -> P * string;
  tr_v_shutdown : P -> P;
}.

Definition transport_make_vtable (factory : string -> Host -> outcome P) : TransportVTable := {|
  tr_v_make := __mcpg_transport_make factory;
  tr_v_manifest_json := __mcpg_transport_manifest_json;
  tr_v_name := __mcpg_transport_name;
  tr_v_start := __mcpg_transport_start;
  tr_v_handle_close := __mcpg_transport_handle_close;
  tr_v_handle_drop := __mcpg_transport_handle_drop;
  tr_v_handle_listen_address := __mcpg_transport_handle_listen_address;
  tr_v_shutdown := __mcpg_transport_shutdown;
|}.
End Transport.
Arguments SyncTransport jv {PA TA} P.
Arguments TransportVTable P Host : clear implicits.
