(* ===== verification/RouteFacts.v ===== *)
(** * HTTP routes and transports: one exchange, one dispatch, one listener *)

From Stdlib Require Import Ascii String.
From S2P Require Import Prelude Json Ffi Gates Routes.

(** ** http_route *)

Section HttpFacts.
Context {jv : Type} `{JL : JsonLaws jv} `{E : Envelope jv} `{PA : PluginApi jv} `{HL : HttpLaws jv}.
Context {P Host : Type}.

(** What comes of a request text, whichever slot it arrives at: it does not
    decode, or the in-process route answers it or panics. *)
Inductive exchange :=
| Malformed (e : string)
| Answer (resp : HttpRouteResponse HttpStream)
| Died.

Definition serve (route : HttpRoute jv P) (text : string) (p : P) : P * exchange :=
  match from_str from_value text with
  | Err e => (p, Malformed e)
  | Ok wire =>
      match route_handle route (request_of_wire wire) p with
      | (p, Returned resp) => (p, Answer resp)
      | (p, Panicked) => (p, Died)
      end
  end.

Definition wire_of (resp : HttpRouteResponse HttpStream) (b : list Z) : HttpRouteResponseWire :=
  {| wire_status := status resp; wire_headers := headers resp; wire_body := b |}.

(** How the buffered slot shows an exchange. *)
Definition buffered (x : exchange) : string :=
  match x with
  | Malformed e => to_string (invalid_http_request e)
  | Answer resp =>
      to_string match body resp with
                | Bytes b => wire_of resp b
                | Stream _ => error_response 500
                    "streaming response bodies are not supported across the FFI boundary"
                end
  | Died => ""
  end.

(** How the streaming slot does. A streamed body needs a runtime. *)
Definition head_of (resp : HttpRouteResponse HttpStream) : HttpStreamHead :=
  {| head_status := status resp; head_headers := headers resp |}.
Definition unbuffered (rt : streaming jv P) (x : exchange) (p : P) : P * HttpHandleResult :=
  match x with
  | Malformed e => (p, complete (invalid_http_request e))
  | Answer resp =>
      match body resp, rt with
      | Bytes b, _ => (p, complete (wire_of resp b))
      | Stream s, Runtime spawn =>
          ((spawn s p).1, {| result_handle := (spawn s p).2; head_json := to_string (head_of resp) |})
      | Stream _, NoRuntime =>
          (p, fallback_error "streaming requires the plugin to run in a tokio runtime")
      | Stream _, NoFeature =>
          (p, fallback_error "streaming responses require mcpg-plugin-sdk/streaming feature")
      end
  | Died => (p, complete (error_response 500 "plugin panicked during handle_streaming"))
  end.

Lemma try_wire_body resp :
  response_try_wire resp = match body resp with Bytes b => Some (wire_of resp b) | Stream _ => None end.
Proof. destruct resp as [st hs [b|s]]; [apply try_wire_bytes|apply try_wire_stream]. Qed.

Lemma handle_serve (plugin : SyncHttpRoute jv P) text p :
  __mcpg_http_route_handle plugin text p =
    ((serve (SyncHttpRouteAdapter plugin) text p).1, buffered (serve (SyncHttpRouteAdapter plugin) text p).2).
Proof.
  unfold __mcpg_http_route_handle, args_slot, serve. destruct (from_str from_value text) as [wire|e]; [|done].
  simpl. unfold catch_to_empty, bind, ret.
  destruct (hr_handle plugin (request_of_wire wire) p) as [q [resp|]]; [|done]. simpl.
  rewrite try_wire_body. by destruct (body resp).
Qed.

Lemma handle_streaming_serve (plugin : SyncHttpRoute jv P) rt text p :
  __mcpg_http_route_handle_streaming plugin rt text p =
    unbuffered rt (serve (SyncHttpRouteAdapter plugin) text p).2 (serve (SyncHttpRouteAdapter plugin) text p).1.
Proof.
  unfold __mcpg_http_route_handle_streaming, serve. destruct (from_str from_value text) as [wire|e]; [|done].
  simpl. unfold catch_or, bind, ret.
  destruct (hr_handle plugin (request_of_wire wire) p) as [q [resp|]]; [|done]. simpl.
  destruct (body resp) as [b|s] eqn:Hb; [done|]. unfold spawn_http_stream_drain. rewrite Hb.
  destruct rt as [| |spawn]; [done..|]. by destruct (spawn s q).
Qed.

(** C38. Both slots of an HTTP route run one exchange, the in-process route's on the
    decoded request, at most once: a buffered body reaches the client with the
    route's status, headers and bytes through either slot, a streamed one only
    through the streaming slot in a runtime; everything else is a JSON error
    response, 400 for a text that is no request, the route not called, 500 for
    a panic or an unsupported stream, but for a panic in the buffered slot,
    which is the empty text. *)
Theorem http_slots_serve (plugin : SyncHttpRoute jv P) (f : string -> Host -> outcome P) rt text p :
  let '(q, x) := serve (SyncHttpRouteAdapter plugin) text p in
  hr_v_handle (http_route_make_vtable plugin f) text p = (q, buffered x)
  /\ hr_v_handle_streaming (http_route_make_vtable plugin f) rt text p = unbuffered rt x q
  /\ ((exists e, x = Malformed e) -> q = p).
Proof.
  destruct (serve _ text p) as [q x] eqn:Hs. split_and!.
  - simpl. by rewrite handle_serve, Hs.
  - simpl. by rewrite handle_streaming_serve, Hs.
  - intros [e ->]. unfold serve in Hs. destruct (from_str from_value text); [|by simplify_eq].
    by destruct (route_handle _ _ p) as [? []].
Qed.
End HttpFacts.

(** ** The dispatcher *)

Section DispatchFacts.
Context {jv : Type} `{JL : JsonLaws jv} `{E : Envelope jv} `{PA : PluginApi jv} {TA : TransportApi jv}.
Context `{!SerdeRoundtrip jv DispatcherError} {P Host : Type}.

Definition are_bytes (l : list Z) : Prop := Forall (fun n => 0 <= n <= 255) l.

(** A host's end of the wire, around a handler [h] of the gateway: it reads the
    message, and prints the reply's bytes under ["ok"] or the error under
    ["err"]. *)
Definition read_message (v : jv) : option (list Z) := field_bytes (j_get v "bytes").
Definition reply_json (r : result (list Z) DispatcherError) : string :=
  j_print (j_obj match r with
                 | Ok b => {["ok"%string := j_obj {["bytes"%string := j_bytes b]}]}
                 | Err e => {["err"%string := to_value e]}
                 end).
Definition host_callback (h : string -> list Z -> P -> P * result (list Z) DispatcherError)
    : DispatcherCallback (P := P) :=
  fun session_id text p =>
    match from_str read_message text with
    | Ok message => let '(p, r) := h session_id message p in (p, reply_json r)
    | Err e => (p, reply_json (Err (internal e)))
    end.

Lemma reply_bytes_print b : are_bytes b -> reply_bytes (jv := jv) (j_obj {["bytes"%string := j_bytes b]}) = Some b.
Proof. intros H. unfold reply_bytes. read_struct. by apply field_bytes_bytes. Qed.

Lemma reply_wire_print r :
  (forall b, r = Ok b -> are_bytes b) -> from_str (jv := jv) reply_wire (reply_json r) = Ok r.
Proof.
  intros Hb. apply from_str_print. unfold reply_wire. rewrite !j_get_obj. destruct r as [b|e].
  - rewrite lookup_singleton_eq. simpl. by rewrite reply_bytes_print by auto.
  - rewrite lookup_singleton_ne, lookup_singleton_eq by done. simpl. by rewrite from_to_value.
Qed.

Lemma read_message_print message : are_bytes message ->
  from_str (jv := jv) read_message (message_json message) = Ok message.
Proof.
  intros H. apply from_str_print. unfold read_message. rewrite j_get_obj, lookup_singleton_eq.
  by apply field_bytes_bytes.
Qed.

Lemma reply_wire_ok_inv raw b :
  from_str (jv := jv) reply_wire raw = Ok (Ok b) ->
  exists v, j_parse raw = Ok v /\ j_get v "ok" ≫= reply_bytes = Some b.
Proof.
  unfold from_str. destruct (j_parse raw) as [v|]; [|done].
  destruct (reply_wire v) as [r|] eqn:Hr; [|done]. intros [= ->]. exists v. split; [done|].
  unfold reply_wire in Hr. destruct (j_get v "ok" ≫= reply_bytes); [by simplify_eq|].
  by destruct (j_get v "err" ≫= from_value).
Qed.

(** C34. A transport's dispatch is transparent: around a host that reads messages
    and prints replies as the wire format says, it is the host's own handler,
    on the same bytes and errors. Around any other host it never panics, and it
    answers bytes only when the reply holds them under "ok". *)
Theorem dispatch_transparent session_id message (p : P) :
  are_bytes message ->
  (forall h, (forall b, (h session_id message p).2 = Ok b -> are_bytes b) ->
     dispatcher_from_cb (host_callback h) session_id message p
       = ((h session_id message p).1, Returned (h session_id message p).2))
  /\ (forall (cb : DispatcherCallback) o,
        (dispatcher_from_cb cb session_id message p).2 = o ->
        o <> Panicked /\
        forall b, o = Returned (Ok b) ->
          exists v, j_parse (cb session_id (message_json message) p).2 = Ok v
                    /\ j_get v "ok" ≫= reply_bytes = Some b).
Proof.
  intros Hm. split.
  - intros h Hh. unfold dispatcher_from_cb, host_callback. rewrite read_message_print by done.
    destruct (h session_id message p) as [q r]. simpl in *. by rewrite reply_wire_print.
  - intros cb o <-. unfold dispatcher_from_cb.
    destruct (cb session_id (message_json message) p) as [q raw]. simpl. split; [done|].
    intros b [= Hb]. destruct (from_str reply_wire raw) as [r|e] eqn:Hr; [|done]. subst r.
    by apply reply_wire_ok_inv.
Qed.

Lemma adapter_unary (d : dispatcher) session_id message (p : P) :
  SyncMessageDispatcherAdapter d session_id message p =
    ((d session_id message p).1, outcome_map (map_ok unary) (d session_id message p).2).
Proof. unfold SyncMessageDispatcherAdapter, bind, ret. by destruct (d session_id message p) as [? []]. Qed.

(** ** transport *)

(** What the host reads of a start: the error's text, or the handle and the
    address. *)
Definition read_address (text : string) : option string :=
  match j_parse (jv := jv) text with
  | Ok v => j_get v "listen_address" ≫= j_as_str
  | Err _ => None
  end.

Lemma read_address_json address :
  read_address (address_json address) = match address with
                                        | Some a => if String.eqb a "" then None else Some a
                                        | None => None
                                        end.
Proof.
  assert (read_address "" = None) as He.
  { unfold read_address. pose proof (j_parse_empty (J := J)) as He. by destruct (j_parse ""). }
  destruct address as [a|]; [|done]. simpl. destruct (String.eqb a ""); [done|].
  unfold read_address. rewrite j_parse_print, j_get_obj, lookup_singleton_eq. simpl. apply j_as_str_str.
Qed.

(** Starting a transport: the handle's error text is empty exactly when the
    plugin started on the printed configuration with the dispatcher over the
    host's callback, and then the handle is the plugin's cookie, 0 included,
    and the host reads the listen address unless it is empty; a configuration
    that is not JSON never reaches the plugin. *)
Theorem transport_start_reports (plugin : SyncTransport jv P) (f : string -> Host -> outcome P) cb text p :
  (forall e : TransportError, to_string e <> ""%string) ->
  let r := tr_v_start (transport_make_vtable plugin f) text cb p in
  (sh_error_json r.2 = ""%string <->
     exists config h, j_parse text = Ok config
       /\ (tr_start plugin config (dispatcher_from_cb cb) p).2 = Returned (Ok h)
       /\ sh_handle r.2 = th_handle h
       /\ read_address (sh_metadata_json r.2) = match listen_address h with
                                               | Some a => if String.eqb a "" then None else Some a
                                               | None => None
                                               end)
  /\ (is_ok (j_parse text) = false -> r.1 = p).
Proof.
  intros He. cbn zeta. simpl. unfold __mcpg_transport_start, catch_or, from_str.
  destruct (j_parse text) as [config|bad]; simpl.
  - unfold bind, ret. destruct (tr_start plugin config (dispatcher_from_cb cb) p) as [q o] eqn:Hs.
    split; [|done]. destruct o as [[h|e]|]; simpl.
    + split; [|done]. intros _. exists config, h. rewrite Hs. split_and!; [done..|]. apply read_address_json.
    + split; [by intros ?%He|]. intros (c & h & [= <-] & H & _). by rewrite Hs in H.
    + split; [by intros ?%He|]. intros (c & h & [= <-] & H & _). by rewrite Hs in H.
  - split; [|done]. split; [by intros ?%He|by intros (? & ? & [=] & _)].
Qed.
End DispatchFacts.

(** ** Witnesses *)

Module Sample.
Import Tree Wire Gates.Sample.

#[export] Instance http_api : HttpApi jtree := {|
  RouteSpec := string; HttpRouteRequest := string; HttpRouteRequestWire := string; request_of_wire := id;
  response_wire_serialize w := j_obj {["status" := j_u64 (wire_status w); "body" := j_bytes (wire_body w)]}%string;
  stream_head_serialize h := j_obj {["status"%string := j_u64 (head_status h)]};
  HttpStream := list string;
  response_try_wire r := match body r with
                         | Bytes b => Some {| wire_status := status r; wire_headers := headers r; wire_body := b |}
                         | Stream _ => None
                         end;
|}.
#[export] Instance http_laws : HttpLaws jtree.
Proof. done. Qed.

Definition route : SyncHttpRoute jtree (list string) := {|
  hr_manifest := ret "sample"%string; hr_routes := ret [];
  hr_handle req p :=
    (p ++ [req], if String.eqb req "boom" then Panicked
                 else Returned {| status := 200; headers := [];
                                  body := if String.eqb req "s" then Stream ["a"; "b"]%string
                                          else Bytes [104; 105] |});
  hr_shutdown := no_shutdown |}.
Definition rt : streaming jtree (list string) := Runtime (fun s p => (p ++ s, 4096)).

Lemma http_slots_serve_witness :
  result_handle (hr_v_handle_streaming (http_route_make_vtable route (fun _ (_ : unit) => Returned [])) rt
                   (to_string "s"%string) []).2 = 4096.
Proof.
  pose proof (http_slots_serve route (fun _ (_ : unit) => Returned []) rt (to_string "s"%string) [])
    as (_ & -> & _).
  vm_compute. reflexivity.
Defined.

#[export] Instance transport_api : TransportApi jtree := {|
  TransportError := string; invalid_config := id; transport_io := id;
  DispatcherError := string; internal := id; DispatchResponse := list Z; unary := id;
|}.

(** A gateway that answers every message reversed, and refuses an empty one. *)
Definition gateway (_ : string) (message : list Z) (p : nat) : nat * result (list Z) string :=
  (S p, match message with [] => Err "empty"%string | _ => Ok (rev message) end).

Lemma dispatch_transparent_witness :
  Forall (fun n => 0 <= n <= 255) [1; 2] /\
  dispatcher_from_cb (host_callback gateway) "s" [1; 2] 0%nat = (1%nat, Returned (Ok [2; 1])).
Proof.
  split; [repeat constructor; lia|].
  destruct (dispatch_transparent (TA := transport_api) "s" [1; 2] 0%nat) as [H _]; [repeat constructor; lia|].
  apply (H gateway). intros b [= <-]. repeat constructor; lia.
Defined.

Definition listener : SyncTransport jtree nat := {|
  tr_manifest := ret "sample"%string; tr_name := ret "sample-v1"%string;
  tr_start _ _ n := (S n, Returned (Ok {| th_handle := 0; listen_address := Some ":80"%string |}));
  tr_close _ := ret tt; tr_drop _ := ret tt; tr_listen_address := listen_address_default; tr_shutdown := no_shutdown;
|}.

Lemma transport_start_reports_witness :
  (forall e : string, to_string (jv := jtree) e <> ""%string) /\
  sh_handle (tr_v_start (transport_make_vtable listener (fun _ (_ : unit) => Returned 0%nat)) (j_print j_null)
               (fun _ _ p => (p, ""%string)) 0%nat).2 = 0.
Proof.
  assert (forall e : string, to_string (jv := jtree) e <> ""%string) as He by (intros e; apply j_print_nonempty).
  split; [done|].
  destruct (transport_start_reports listener (fun _ (_ : unit) => Returned 0%nat) (fun _ _ p => (p, ""%string))
    (j_print j_null) 0%nat He) as [[H _] _].
  destruct H as (c & h & _ & Hh & -> & _); [vm_compute; reflexivity|]. simpl in Hh. by simplify_eq.
Defined.
End Sample.
