(* ===== verification/Streams.v ===== *)
(** * Stream forwarders and their cancellation

    The drain task of a streamed HTTP body ([__streaming], src/src/ffi.rs) and
    the forwarder of a cluster subscription ([cluster_forward], same file): a
    tokio task that hands a stream's items to a callback of the host, and a
    [cancel] that aborts it and waits until it is gone, at most five seconds.
    Both are one machine, up to how an item is printed and whether the end is
    announced. A run is a list of events: what the stream answers each poll,
    when the task is woken or dropped, when a callback returns, what the
    cancelling thread sees. *)

From Stdlib Require Import Ascii String.
From S2P Require Import Prelude Json Ffi.

Section Forwarder.
Context {Item : Type}.
(** The text of an item, [None] for one that does not serialise; the text of
    the end, [None] where the end is not announced. *)
Variable wire : Item -> option string.
Variable end_text : option string.

(** What [poll_next] answers. *)
Inductive poll := Ready (item : Item) | Finished | Pending | PollPanics.

(** Where the task is: waiting at the [await], inside a poll, in the host's
    callback (for an item or for the end), or dropped. *)
Inductive phase := Suspended | Running | InCall | InEndCall | Dropped.

(** The cancelling thread: not called, blocked in [recv_timeout], returned
    having seen the signal or having given up. *)
Inductive canceller := NotCancelled | Waiting | Quiesced | GaveUp.

#[export] Instance canceller_eq : EqDecision canceller.
Proof. solve_decision. Defined.

Record task := {
  at_ : phase;
  (** [abort] was called; it takes effect where the task is suspended. *)
  aborted : bool;
  (** The done guard's message is in the channel. *)
  done : bool;
  cancel : canceller;
  (** What the stream yielded, and the callbacks made, oldest first. *)
  yielded : list Item;
  finished : bool;
  calls : list string;
}.

Definition spawned : task := {|
  at_ := Suspended; aborted := false; done := false; cancel := NotCancelled;
  yielded := []; finished := false; calls := [];
|}.

Inductive event :=
| Wake
| Polled (r : poll)
| CallReturns
| DropFuture
| CancelCalled
| Signalled
| TimedOut (waited_ms : Z).

Definition QUIESCE_MS : Z := 5000.

Definition with_phase (t : task) (p : phase) : task := {|
  at_ := p; aborted := aborted t; done := done t; cancel := cancel t;
  yielded := yielded t; finished := finished t; calls := calls t;
|}.
(** Dropping the future drops its guard, which signals. *)
Definition drop_future (t : task) : task := {|
  at_ := Dropped; aborted := aborted t; done := true; cancel := cancel t;
  yielded := yielded t; finished := finished t; calls := calls t;
|}.

(** One turn of the loop, once the stream has answered. *)
Definition take_item (t : task) (item : Item) : task := {|
  at_ := match wire item with Some _ => InCall | None => Running end;
  aborted := aborted t; done := done t; cancel := cancel t;
  yielded := yielded t ++ [item]; finished := finished t;
  calls := calls t ++ match wire item with Some s => [s] | None => [] end;
|}.
Definition take_end (t : task) : task :=
  let t := {| at_ := at_ t; aborted := aborted t; done := done t; cancel := cancel t;
              yielded := yielded t; finished := true; calls := calls t |} in
  match end_text with
  | Some s => {| at_ := InEndCall; aborted := aborted t; done := done t; cancel := cancel t;
                 yielded := yielded t; finished := true; calls := calls t ++ [s] |}
  | None => drop_future t
  end.

(** The end of the stream drops the future once the callback is back; so does
    a panic. A suspended task is dropped when it was aborted, or its runtime
    stops. *)
Definition when (b : bool) (t : task) : option task := if b then Some t else None.

Definition polled (t : task) (r : poll) : task :=
  match r with
  | Ready item => take_item t item
  | Finished => take_end t
  | Pending => with_phase t Suspended
  | PollPanics => drop_future t
  end.

Definition with_cancel (t : task) (ab d : bool) (c : canceller) : task := {|
  at_ := at_ t; aborted := ab; done := d; cancel := c;
  yielded := yielded t; finished := finished t; calls := calls t;
|}.

Definition step (t : task) (e : event) : option task :=
  match e with
  | Wake => match at_ t with Suspended => when (negb (aborted t)) (with_phase t Running) | _ => None end
  | Polled r => match at_ t with Running => Some (polled t r) | _ => None end
  | CallReturns =>
      match at_ t with
      | InCall => Some (with_phase t Running)
      | InEndCall => Some (drop_future t)
      | _ => None
      end
  | DropFuture => match at_ t with Suspended => Some (drop_future t) | _ => None end
  | CancelCalled =>
      match cancel t with NotCancelled => Some (with_cancel t true (done t) Waiting) | _ => None end
  | Signalled =>
      match cancel t with Waiting => when (done t) (with_cancel t (aborted t) false Quiesced) | _ => None end
  | TimedOut waited_ms =>
      match cancel t with
      | Waiting => when (negb (done t) && (QUIESCE_MS <=? waited_ms)) (with_cancel t (aborted t) false GaveUp)
      | _ => None
      end
  end.

Fixpoint run (t : task) (es : list event) : option task :=
  match es with
  | [] => Some t
  | e :: es => match step t e with Some t => run t es | None => None end
  end.

(** ** What holds in every run *)

(** The calls made so far are those of the items yielded, and of the end. *)
Definition expected (t : task) : list string :=
  omap wire (yielded t) ++ (if finished t then option_list end_text else []).

Record task_ok (t : task) : Prop := {
  ok_calls : calls t = expected t;
  (** A dropped task has signalled; a signal was sent by a dropped task. *)
  ok_dropped : at_ t = Dropped -> done t = true \/ cancel t = Quiesced \/ cancel t = GaveUp;
  ok_signal : done t = true \/ cancel t = Quiesced -> at_ t = Dropped;
  ok_finished : finished t = true -> at_ t = InEndCall \/ at_ t = Dropped;
}.

Lemma expected_item t item :
  finished t = false ->
  omap wire (yielded t ++ [item]) ++ (if finished t then option_list end_text else [])
  = expected t ++ match wire item with Some s => [s] | None => [] end.
Proof.
  intros Hf. unfold expected. rewrite Hf, !app_nil_r, omap_app. simpl. by destruct (wire item).
Qed.

Lemma spawned_ok : task_ok spawned.
Proof. by split; [..|intros [|]|]. Qed.

(** A task that runs has yielded an unfinished stream and signalled nothing. *)
Lemma running_open t : task_ok t -> at_ t = Running -> finished t = false.
Proof. intros [_ _ _ Hf] H. destruct (finished t); [|done]. destruct Hf; congruence. Qed.

Ltac task_cases := intuition (try congruence).

Lemma polled_ok t r : task_ok t -> at_ t = Running -> task_ok (polled t r).
Proof.
  intros Hok Hr. pose proof (running_open t Hok Hr) as Hf. destruct Hok as [Hc Hd Hs Hfin].
  destruct r as [item| | |]; simpl.
  - split; simpl; [unfold expected; simpl; by rewrite expected_item, Hc|..]; destruct (wire item); task_cases.
  - unfold take_end. destruct end_text as [s|] eqn:He; split; simpl; task_cases;
      unfold expected in *; simpl; rewrite Hc, Hf, He; simpl; by rewrite ?app_nil_r.
  - split; simpl; [done|task_cases..].
  - split; simpl; [done|task_cases..].
Qed.

Lemma step_ok t e t' : task_ok t -> step t e = Some t' -> task_ok t'.
Proof.
  intros Hok Hs. destruct e; simpl in Hs; unfold when in Hs;
    repeat case_match; simplify_eq; try (by apply polled_ok);
    destruct Hok as [Hc Hd Hsig Hfin]; split; simpl; try exact Hc; task_cases.
Qed.

Lemma run_ok t es t' : task_ok t -> run t es = Some t' -> task_ok t'.
Proof.
  revert t. induction es as [|e es IH]; intros t Hok Hr; simpl in Hr; [by simplify_eq|].
  destruct (step t e) as [u|] eqn:Hu; [|done]. eauto using step_ok.
Qed.

(** A dropped task calls nobody again. *)
Lemma dropped_step t e t' : at_ t = Dropped -> step t e = Some t' -> at_ t' = Dropped /\ calls t' = calls t.
Proof.
  intros Hd Hs. destruct e; simpl in Hs; unfold when in Hs; rewrite ?Hd in Hs;
    repeat case_match; by simplify_eq.
Qed.

Lemma dropped_run t es t' : at_ t = Dropped -> run t es = Some t' -> at_ t' = Dropped /\ calls t' = calls t.
Proof.
  revert t. induction es as [|e es IH]; intros t Hd Hr; simpl in Hr; [by simplify_eq|].
  destruct (step t e) as [u|] eqn:Hu; [|done]. destruct (dropped_step t e u Hd Hu) as [Hd' Hc].
  destruct (IH u Hd' Hr) as [? ?]. split; congruence.
Qed.

(** Giving up takes an event that waited the whole bound. *)
Lemma gave_up_step t e t' : step t e = Some t' -> cancel t' = GaveUp ->
  cancel t = GaveUp \/ exists w, e = TimedOut w /\ QUIESCE_MS <= w.
Proof.
  intros Hs Hc. destruct e as [|r| | | | |w]; simpl in Hs; unfold when in Hs.
  2: { destruct (at_ t); simplify_eq. left. destruct r; simpl in Hc; try done.
       unfold take_end in Hc. by destruct end_text. }
  all: repeat case_match; simplify_eq/=; try by left.
  right. exists w. split; [done|]. apply Z.leb_le. by destruct (negb (done t)).
Qed.

Lemma gave_up_run es t t' : run t es = Some t' -> cancel t' = GaveUp -> cancel t <> GaveUp ->
  exists w, TimedOut w ∈ es /\ QUIESCE_MS <= w.
Proof.
  revert t. induction es as [|e es IH]; intros t Hr Hc Hn; simpl in Hr; [by simplify_eq|].
  destruct (step t e) as [u|] eqn:Hu; [|done]. destruct (decide (cancel u = GaveUp)) as [Hg|Hg].
  - destruct (gave_up_step t e u Hu Hg) as [|(w & -> & Hw)]; [done|]. exists w. set_solver.
  - destruct (IH u Hr Hc Hg) as (w & Hin & Hw). exists w. set_solver.
Qed.

(** In every run the callbacks made are exactly the texts of the items the
    stream yielded, in their order, each once, and the end after them, once, if
    the stream ended; what does not serialise is left out. *)
Lemma forwarded_in_order es t :
  run spawned es = Some t ->
  calls t = omap wire (yielded t) ++ (if finished t then option_list end_text else []).
Proof. intros Hr. apply (ok_calls t), (run_ok _ _ _ spawned_ok Hr). Qed.

(** A cancel always returns: from any point of its wait, five seconds are
    enough, and four more events at most, a callback coming back, the stream
    having nothing ready, the future dropped and the signal, bring it back
    without giving up. *)
Lemma cancel_returns es t :
  run spawned es = Some t -> cancel t = Waiting ->
  (exists es' t', (length es' <= 4)%nat /\ run t es' = Some t' /\ cancel t' = Quiesced)
  /\ exists e t', (e = Signalled \/ e = TimedOut QUIESCE_MS) /\ step t e = Some t' /\ cancel t' <> Waiting.
Proof.
  intros Hr Hw. pose proof (run_ok _ _ _ spawned_ok Hr) as Hok. split.
  - destruct (at_ t) eqn:Hp.
    + exists [DropFuture; Signalled]. eexists. simpl. rewrite Hp. simpl. rewrite Hw. simpl. split; [lia|done].
    + exists [Polled Pending; DropFuture; Signalled]. eexists. simpl. rewrite Hp. simpl. rewrite Hw.
      simpl. split; [lia|done].
    + exists [CallReturns; Polled Pending; DropFuture; Signalled]. eexists. simpl. rewrite Hp. simpl.
      rewrite Hw. simpl. split; [lia|done].
    + exists [CallReturns; Signalled]. eexists. simpl. rewrite Hp. simpl. rewrite Hw. simpl. split; [lia|done].
    + assert (done t = true) as Hd by (destruct (ok_dropped t Hok Hp) as [|[|]]; congruence).
      exists [Signalled]. eexists. simpl. rewrite Hw, Hd. simpl. split; [lia|done].
  - destruct (done t) eqn:Hd.
    + exists Signalled. eexists. simpl. rewrite Hw, Hd. simpl. split; [by left|]. by split.
    + exists (TimedOut QUIESCE_MS). eexists. simpl. rewrite Hw, Hd. simpl. split; [by right|]. by split.
Qed.
(** C29. Once a cancel returned, no callback is under way and none is ever made,
    however the task, its runtime and the stream go on, unless the cancel gave
    up: then it had waited at least five seconds for the signal. And it always
    returns: five seconds are enough, and so are four more events, a callback
    coming back, the stream having nothing ready, the future dropped and the
    signal, without giving up. *)
Theorem cancel_quiesces es t :
  run spawned es = Some t ->
  (cancel t = Quiesced ->
     at_ t = Dropped /\ forall es' t', run t es' = Some t' -> at_ t' = Dropped /\ calls t' = calls t)
  /\ (cancel t = GaveUp -> exists w, TimedOut w ∈ es /\ QUIESCE_MS <= w)
  /\ (cancel t = Waiting ->
       (exists es' t', (length es' <= 4)%nat /\ run t es' = Some t' /\ cancel t' = Quiesced)
       /\ exists e t', (e = Signalled \/ e = TimedOut QUIESCE_MS) /\ step t e = Some t' /\ cancel t' <> Waiting).
Proof.
  intros Hr. pose proof (run_ok _ _ _ spawned_ok Hr) as Hok. split_and!.
  - intros Hq. assert (at_ t = Dropped) as Hd by (apply (ok_signal t Hok); by right).
    split; [done|]. intros es' t'. by apply dropped_run.
  - intros Hg. by apply (gave_up_run es spawned t).
  - by apply cancel_returns with (es := es).
Qed.

End Forwarder.
Arguments poll Item : clear implicits.
Arguments event Item : clear implicits.
Arguments task Item : clear implicits.

(** ** The HTTP drain *)

Class ChunkApi (jv : Type) := {
  HttpChunk : Type;
  HttpChunkWire : Type;
  #[global] chunk_wire_serialize :: Serialize jv HttpChunkWire;
  #[global] chunk_wire_deserialize :: Deserialize jv HttpChunkWire;
  chunk_wire : HttpChunk -> HttpChunkWire;
  End_ : HttpChunkWire;
}.

Section HttpDrain.
Context {jv : Type} `{JL : JsonLaws jv} `{E : Envelope jv} {CA : ChunkApi jv}.
Context `{!SerdeRoundtrip jv HttpChunkWire}.

Definition drain_wire (chunk : HttpChunk) : option string := Some (to_string (chunk_wire chunk)).
Definition drain_end : option string := Some (to_string End_).

(** What the host's [cancel_stream] does to the task behind the handle: nothing
    for the null handle, or the start of the wait. *)
Definition cancel_http_stream (stream_handle : Z) (t : task HttpChunk) : option (task HttpChunk) :=
  if stream_handle =? 0 then Some t else step drain_wire drain_end t CancelCalled.

(** The forwarder of a cluster subscription prints items as they are and does
    not announce the end; [encode] is its [to_string], which may fail. *)
Definition forward_cluster_stream {Item} (encode : Item -> option string) : task Item -> event Item -> option (task Item) :=
  step encode None.
Definition cancel_cluster_stream {Item} (encode : Item -> option string) (handle : Z) (t : task Item)
    : option (task Item) :=
  if handle =? 0 then Some t else forward_cluster_stream encode t CancelCalled.

(** C40. Whatever happens to a drained HTTP stream, the texts its host was called
    with decode to the chunks the plugin's stream yielded, in order, none
    missing up to that point, with the end marker last exactly when the stream
    had ended. *)
Theorem drained_chunks_read_back es t :
  run drain_wire drain_end spawned es = Some t ->
  from_str from_value <$> calls t
  = Ok <$> (chunk_wire <$> yielded t) ++ (if finished t then [End_] else []).
Proof.
  intros Hr. pose proof (ok_calls _ _ t (run_ok _ _ _ _ _ (spawned_ok _ _) Hr)) as Hc. rewrite Hc. unfold expected.
  assert (forall l : list HttpChunk, omap drain_wire l = (fun c => to_string (chunk_wire c)) <$> l) as Ho.
  { induction l as [|c l IH]; [done|]. cbn. by rewrite <- IH. }
  rewrite Ho, !fmap_app. f_equal.
  - rewrite <- !list_fmap_compose. apply list_fmap_ext. intros i c _. simpl.
    apply from_str_print, from_to_value.
  - destruct (finished t); [|done]. simpl. f_equal. apply from_str_print, from_to_value.
Qed.
End HttpDrain.

(** ** Witnesses: a stream cancelled while its first callback runs *)

Module Sample.
Import Tree Wire.

#[export] Instance chunk_api : ChunkApi jtree := {|
  HttpChunk := string; HttpChunkWire := string; chunk_wire := id; End_ := "end"%string;
|}.

Definition cancelled : list (event string) :=
  [Wake; Polled (Ready "a"%string); CancelCalled; CallReturns; Polled (Ready "b"%string); CallReturns;
   Polled Pending; DropFuture; Signalled].
Definition wedged : list (event string) := [Wake; Polled (Ready "a"%string); CancelCalled; TimedOut 5000].

Lemma cancel_quiesces_witness : exists t,
  run Some None spawned cancelled = Some t /\ cancel t = Quiesced /\ at_ t = Dropped
  /\ exists w, TimedOut w ∈ wedged /\ QUIESCE_MS <= w.
Proof.
  eexists. split; [reflexivity|]. split; [reflexivity|]. split.
  - by apply (cancel_quiesces Some None cancelled).
  - edestruct (cancel_quiesces Some None wedged) as (_ & H & _); [reflexivity|]. by apply H.
Defined.

Definition drained : list (event HttpChunk) :=
  [Wake; Polled (Ready ("a"%string : HttpChunk)); CallReturns; Polled Finished].

Lemma drained_chunks_read_back_witness : exists t,
  run drain_wire drain_end spawned drained = Some t
  /\ from_str from_value <$> calls t = Ok <$> ["a"; "end"]%string.
Proof.
  eexists. split; [reflexivity|].
  rewrite (drained_chunks_read_back drained) by reflexivity.
  reflexivity.
Defined.
End Sample.
