(* ===== verification/Subscribed.v ===== *)
(** * Subscriptions end to end: the client's boxes over forwarding streams

    A coordinator whose streams are forwarded by [cluster_forward]
    (src/src/ffi.rs) under the client that owns the callbacks
    (src/src/cluster.rs). Cluster.v takes it that a stream told to stop is
    silent; here the forwarder of Streams.v is in its place, each task with its
    own thread, and the drop of a subscription is split where the dropping
    thread waits. A run is a list of events over any number of subscriptions. *)

From Stdlib Require Import Ascii String.
From S2P Require Import Prelude Json ClusterBackend ClusterSlots Cluster ClusterFacts Streams.

Section Subscribed.
Context {jv : Type} `{J : Json jv} {CA : ClusterApi jv} {Item E U : Type}.
(** The coordinator's [to_string] on an item, the client's [from_str] after
    parsing. *)
Variable encode : Item -> option string.
Variable event_of : jv -> option E.

Abbreviation cworld := (cluster_world unit U E).

(** A subscription: its forwarder, the client's handle, its callback, and
    whether the box was reclaimed. *)
Record link := {
  l_task : task Item;
  l_sub : Subscription;
  l_callback : CallbackBox U E;
  l_freed : bool;
}.

(** The subscriptions by number; the callbacks made so far, oldest first. *)
Record system := { s_world : cworld; links : gmap nat link; heard : list (nat * E) }.

Inductive config := Up (s : system) | Corrupted.

Inductive sys_event :=
| Subscribed (n : nat) (handle ptr : Z) (cb : CallbackBox U E)
| Forward (n : nat) (e : event Item)
| Reclaimed (n : nat).

(** What the client reads of an item. *)
Definition received (item : Item) : option E :=
  match encode item with
  | Some text => if String.eqb text "" then None else result_ok (j_parse text) ≫= event_of
  | None => None
  end.

(** The text the forwarder hands to [emit_event] in this event. *)
Definition emitted (e : event Item) : option string :=
  match e with Polled (Ready item) => encode item | _ => None end.
Definition noted (n : nat) (e : event Item) : list (nat * E) :=
  match e with
  | Polled (Ready item) => match received item with Some x => [(n, x)] | None => [] end
  | _ => []
  end.

Definition set_task (t : task Item) (l : link) : link :=
  {| l_task := t; l_sub := l_sub l; l_callback := l_callback l; l_freed := l_freed l |}.
Definition set_freed (l : link) : link :=
  {| l_task := l_task l; l_sub := l_sub l; l_callback := l_callback l; l_freed := true |}.

(** The second half of a subscription's [Drop]. *)
Definition reclaim (s : Subscription) (w : cworld) : cworld :=
  {| coordinator := coordinator w;
     boxes := if callback_ptr s =? 0 then boxes w else delete (callback_ptr s) (boxes w);
     user := user w |}.

Definition cancel_returned (c : canceller) : bool :=
  match c with Quiesced | GaveUp => true | _ => false end.
Definition borrowing (p : phase) : bool := match p with InCall | InEndCall => true | _ => false end.

(** One event. The callback borrows its box until it returns, so reclaiming the
    box before, or calling into a reclaimed one, is a use after free. *)
Definition sys_step (s : system) (e : sys_event) : option config :=
  match e with
  | Subscribed n handle ptr cb =>
      match links s !! n, boxes (s_world s) !! ptr with
      | None, None =>
          if (handle =? 0) || (ptr =? 0) then None
          else
            match subscribe_with (fun _ c => (c, started handle)) "subscribe" ptr cb (s_world s) with
            | (w, Ok sub) =>
                Some (Up {| s_world := w;
                            links := <[n := {| l_task := spawned; l_sub := sub; l_callback := cb;
                                               l_freed := false |}]> (links s);
                            heard := heard s |})
            | (w, Err _) => Some (Up {| s_world := w; links := links s; heard := heard s |})
            end
      | _, _ => None
      end
  | Forward n ev =>
      match links s !! n with
      | None => None
      | Some l =>
          match forward_cluster_stream encode (l_task l) ev with
          | None => None
          | Some t =>
              let up w := Up {| s_world := w; links := <[n := set_task t l]> (links s);
                                heard := heard s ++ noted n ev |} in
              match emitted ev with
              | None => Some (up (s_world s))
              | Some text =>
                  match trampoline event_of (callback_ptr (l_sub l)) text (s_world s) with
                  | Some w => Some (up w)
                  | None => Some Corrupted
                  end
              end
          end
      end
  | Reclaimed n =>
      match links s !! n with
      | None => None
      | Some l =>
          if l_freed l || negb (cancel_returned (cancel (l_task l))) then None
          else if borrowing (at_ (l_task l)) then Some Corrupted
          else Some (Up {| s_world := reclaim (l_sub l) (s_world s);
                           links := <[n := set_freed l]> (links s); heard := heard s |})
      end
  end.

Fixpoint sys_run (s : system) (es : list sys_event) : option config :=
  match es with
  | [] => Some (Up s)
  | e :: es =>
      match sys_step s e with
      | Some (Up s) => sys_run s es
      | Some Corrupted => Some Corrupted
      | None => None
      end
  end.

(** A client without subscriptions. *)
Definition idle (u : U) : system :=
  {| s_world := {| coordinator := tt; boxes := ∅; user := u |}; links := ∅; heard := [] |}.

(** The drop of Cluster.v is a cancel and then this. *)
Lemma drop_is_cancel_and_reclaim vtable sub (w : cworld) :
  drop_subscription vtable sub w
  = reclaim sub {| coordinator := v_cancel_stream vtable (stream_handle sub) (coordinator w);
                   boxes := boxes w; user := user w |}.
Proof. done. Qed.

(** ** What a run keeps *)

(** Every callback made, in order, on the user's state. *)
Definition play (ls : gmap nat (link)) (u0 : U) (l : list (nat * E)) : U :=
  foldl (fun u nx => match ls !! nx.1 with Some k => (l_callback k nx.2 u).1 | None => u end) u0 l.

Definition heard_by (n : nat) (l : list (nat * E)) : list E :=
  snd <$> filter (fun nx => nx.1 = n) l.

Record link_ok (l : link) : Prop := {
  lo_task : task_ok encode None (l_task l);
  lo_patient : cancel (l_task l) <> GaveUp;
  lo_ptr : callback_ptr (l_sub l) <> 0;
  lo_freed : l_freed l = true -> cancel (l_task l) = Quiesced;
}.

Record sys_ok (u0 : U) (s : system) : Prop := {
  so_links : map_Forall (fun _ => link_ok) (links s);
  so_boxes : forall p cb, boxes (s_world s) !! p = Some cb <->
    exists n l, links s !! n = Some l /\ l_freed l = false /\ callback_ptr (l_sub l) = p /\ l_callback l = cb;
  so_own : forall n m l k, links s !! n = Some l -> links s !! m = Some k ->
    l_freed l = false -> l_freed k = false -> callback_ptr (l_sub l) = callback_ptr (l_sub k) -> n = m;
  so_heard : forall n, heard_by n (heard s)
    = match links s !! n with Some l => omap received (yielded (l_task l)) | None => [] end;
  so_user : user (s_world s) = play (links s) u0 (heard s);
}.

(** The wait of a drop is not cut short: no callback outlasts it. *)
Definition patient (e : sys_event) : Prop :=
  match e with Forward _ (TimedOut _) => False | _ => True end.

Lemma yielded_step t e t' : step encode None t e = Some t' ->
  yielded t' = yielded t ++ match e with Polled (Ready item) => [item] | _ => [] end.
Proof.
  intros Hs. destruct e as [|r| | | | |w]; simpl in Hs; unfold when in Hs;
    repeat case_match; simplify_eq/=; by rewrite ?app_nil_r.
Qed.

Lemma quiesced_step t e t' : step encode None t e = Some t' -> cancel t = Quiesced -> cancel t' = Quiesced.
Proof.
  intros Hs Hq. destruct e as [|r| | | | |w]; simpl in Hs; unfold when in Hs; rewrite ?Hq in Hs;
    repeat case_match; simplify_eq/=; try done; by destruct r.
Qed.

(** A task in the middle of a poll is not quiet. *)
Lemma running_unfreed l ev t text : link_ok l -> forward_cluster_stream encode (l_task l) ev = Some t ->
  emitted ev = Some text -> l_freed l = false.
Proof.
  intros [Hok _ _ Hf] Hs He. destruct (l_freed l); [|done].
  pose proof (ok_signal encode None _ Hok (or_intror (Hf eq_refl))) as Hd.
  destruct ev as [|[]| | | | |]; simpl in He; try done. simpl in Hs. by rewrite Hd in Hs.
Qed.

Lemma play_insert ls n l k u0 h : ls !! n = Some l -> l_callback k = l_callback l ->
  play (<[n := k]> ls) u0 h = play ls u0 h.
Proof.
  intros Hl Hk. unfold play. revert u0. induction h as [|[m x] h IH]; intros u0; simpl; [done|].
  rewrite IH. f_equal. destruct (decide (n = m)) as [<-|].
  - by rewrite lookup_insert_eq, Hl, Hk.
  - by rewrite lookup_insert_ne by done.
Qed.

Lemma play_fresh ls n k u0 h : ls !! n = None -> heard_by n h = [] ->
  play (<[n := k]> ls) u0 h = play ls u0 h.
Proof.
  intros Hl. unfold play, heard_by. revert u0. induction h as [|[m x] h IH]; intros u0; simpl; [done|].
  rewrite filter_cons. simpl. destruct (decide (m = n)) as [->|]; [done|].
  intros Hh. rewrite lookup_insert_ne by done. by apply IH.
Qed.

Lemma heard_by_app n h1 h2 : heard_by n (h1 ++ h2) = heard_by n h1 ++ heard_by n h2.
Proof. unfold heard_by. by rewrite filter_app, fmap_app. Qed.

Lemma heard_by_noted n m ev :
  heard_by n (noted m ev)
  = if decide (m = n) then match ev with Polled (Ready item) => omap received [item] | _ => [] end else [].
Proof.
  destruct ev as [|[item| | |]| | | | |]; simpl; try (by destruct (decide (m = n))).
  unfold heard_by. destruct (received item) as [x|]; simpl.
  - rewrite filter_cons, filter_nil. simpl. by destruct (decide (m = n)).
  - by destruct (decide (m = n)).
Qed.

(** ** Each event keeps it *)

Lemma idle_ok u0 : sys_ok u0 (idle u0).
Proof.
  split; simpl; [apply map_Forall_empty| | |done|done].
  - intros p cb. rewrite lookup_empty. split; [done|]. by intros (n & l & H & _).
  - intros n m l k H. by rewrite lookup_empty in H.
Qed.

Lemma linked_ok u0 s n handle ptr cb c : sys_ok u0 s ->
  sys_step s (Subscribed n handle ptr cb) = Some c -> exists s', c = Up s' /\ sys_ok u0 s'.
Proof.
  intros [Hl Hb Ho Hh Hu] Hs. simpl in Hs.
  destruct (links s !! n) eqn:Hn; [done|]. destruct (boxes (s_world s) !! ptr) eqn:Hp; [done|].
  destruct (Z.eqb_spec handle 0) as [|Hh0]; [done|]. destruct (Z.eqb_spec ptr 0) as [|Hp0]; [done|].
  unfold subscribe_with in Hs. simpl in Hs. rewrite (proj2 (Z.eqb_neq handle 0) Hh0) in Hs.
  simplify_eq/=. eexists. split; [done|].
  assert (Hfree : forall m k, links s !! m = Some k -> l_freed k = false -> callback_ptr (l_sub k) <> ptr).
  { intros m k Hm Hk Hpk. assert (boxes (s_world s) !! ptr = Some (l_callback k)) by (apply Hb; by exists m, k). congruence. }
  split; simpl.
  - apply map_Forall_insert_2; [|done]. split; simpl; [apply spawned_ok|done..].
  - intros q f. rewrite lookup_insert_Some. split.
    + intros [[<- <-]|[Hne Hq]].
      * exists n. rewrite lookup_insert_eq. by eexists.
      * apply Hb in Hq as (m & k & Hm & ?). exists m, k. rewrite lookup_insert_ne by congruence. done.
    + intros (m & k & Hm & Hk & <- & <-). apply lookup_insert_Some in Hm as [[<- <-]|[Hne Hm]]; [by left|right].
      split; [intros Hpk; by destruct (Hfree m k Hm Hk)|]. apply Hb. by exists m, k.
  - intros m1 m2 k1 k2 H1 H2 F1 F2 Hpp.
    apply lookup_insert_Some in H1 as [[<- <-]|[? H1]], H2 as [[<- <-]|[? H2]]; simpl in *; try done.
    + by destruct (Hfree _ _ H2 F2).
    + by destruct (Hfree _ _ H1 F1).
    + by eapply Ho.
  - intros m. rewrite Hh. destruct (decide (n = m)) as [<-|]; [by rewrite lookup_insert_eq, Hn|].
    by rewrite lookup_insert_ne.
  - rewrite play_fresh; [done|done|]. by rewrite Hh, Hn.
Qed.

(** What the trampoline does with a live box. *)
Lemma trampoline_heard s l item text :
  callback_ptr (l_sub l) <> 0 -> boxes (s_world s) !! callback_ptr (l_sub l) = Some (l_callback l) ->
  encode item = Some text ->
  trampoline event_of (callback_ptr (l_sub l)) text (s_world s)
  = Some {| coordinator := coordinator (s_world s); boxes := boxes (s_world s);
            user := match received item with Some x => (l_callback l x (user (s_world s))).1
                    | None => user (s_world s) end |}.
Proof.
  intros Hz Hb He. unfold trampoline, received. rewrite (proj2 (Z.eqb_neq _ _) Hz), He.
  unfold CallbackBox in *. rewrite Hb. destruct (s_world s) as [c bs u]. simpl. destruct (String.eqb text ""); [done|].
  by destruct (result_ok (j_parse text) ≫= event_of).
Qed.

Lemma forward_ok u0 s n ev c : sys_ok u0 s -> patient (Forward n ev) ->
  sys_step s (Forward n ev) = Some c -> exists s', c = Up s' /\ sys_ok u0 s'.
Proof.
  intros Hok Hpat Hs. simpl in Hs. destruct (links s !! n) as [l|] eqn:Hn; [|done].
  destruct (forward_cluster_stream encode (l_task l) ev) as [t|] eqn:Ht; [|done].
  assert (Hl : link_ok l) by (by eapply (so_links u0 s Hok)).
  assert (Hw : exists w, c = Up {| s_world := w; links := <[n := set_task t l]> (links s);
                                   heard := heard s ++ noted n ev |}
    /\ boxes w = boxes (s_world s)
    /\ user w = foldl (fun u nx => (l_callback l nx.2 u).1) (user (s_world s)) (noted n ev)).
  { destruct (emitted ev) as [text|] eqn:He; simplify_eq/=.
    - pose proof (running_unfreed _ _ _ _ Hl Ht He) as Hf.
      destruct ev as [|[item| | |]| | | | |]; simpl in He; try done.
      rewrite (trampoline_heard s l item text) in Hs.
      + simplify_eq. eexists. split; [done|]. simpl. by destruct (received item).
      + apply Hl.
      + apply (so_boxes u0 s Hok). by exists n, l.
      + done.
    - eexists. split; [done|]. split; [done|].
      destruct ev as [|[item| | |]| | | | |]; simpl in *; try done. unfold received. by rewrite He. }
  destruct Hw as (w & -> & Hbx & Hus). eexists. split; [done|].
  destruct Hok as [Hls Hb Ho Hh Hu]. destruct Hl as [L1 L2 L3 L4].
  assert (Hown : forall m k, <[n := set_task t l]> (links s) !! m = Some k ->
            exists k0, links s !! m = Some k0 /\ l_freed k0 = l_freed k /\ l_sub k0 = l_sub k
                       /\ l_callback k0 = l_callback k).
  { intros m k Hm. apply lookup_insert_Some in Hm as [[<- <-]|[_ Hm]]; [by exists l|by exists k]. }
  split; simpl.
  - apply map_Forall_insert_2; [|done]. split; simpl; [by eapply step_ok| |done|].
    + intros Hg. destruct (gave_up_step _ _ _ _ _ Ht Hg) as [|(x & -> & _)]; [done|by apply Hpat].
    + intros Hf. eapply quiesced_step; [exact Ht|auto].
  - intros q f. rewrite Hbx, Hb. split.
    + intros (m & k & Hm & Hk & Hp & Hc). destruct (decide (m = n)) as [->|].
      * simplify_eq. exists n. rewrite lookup_insert_eq. by eexists.
      * exists m, k. by rewrite lookup_insert_ne.
    + intros (m & k & (k0 & Hm & F & S & C)%Hown & Hk & Hp & Hc). exists m, k0. split_and!; congruence.
  - intros m1 m2 k1 k2 (j1 & ? & ? & ? & _)%Hown (j2 & ? & ? & ? & _)%Hown ???.
    eapply (Ho m1 m2 j1 j2); congruence.
  - intros m. rewrite heard_by_app, heard_by_noted, Hh. destruct (decide (n = m)) as [->|].
    + rewrite lookup_insert_eq, Hn. simpl. rewrite (yielded_step _ _ _ Ht), omap_app.
      by destruct ev as [|[]| | | | |].
    + rewrite lookup_insert_ne by done. by rewrite app_nil_r.
  - rewrite Hus, Hu, (play_insert _ _ l) by done. unfold play. rewrite foldl_app.
    destruct ev as [|[item| | |]| | | | |]; simpl; try done.
    destruct (received item); simpl; [by rewrite Hn|done].
Qed.

Lemma reclaimed_ok u0 s n c : sys_ok u0 s ->
  sys_step s (Reclaimed n) = Some c -> exists s', c = Up s' /\ sys_ok u0 s'.
Proof.
  intros [Hls Hb Ho Hh Hu] Hs. simpl in Hs. destruct (links s !! n) as [l|] eqn:Hn; [|done].
  destruct (l_freed l) eqn:Hf; [done|]. simpl in Hs.
  assert (Hl : link_ok l) by (by eapply Hls). destruct Hl as [L1 L2 L3 L4].
  destruct (cancel (l_task l)) eqn:Hc; simpl in Hs; try done.
  assert (Hd : at_ (l_task l) = Dropped) by (apply (ok_signal encode None _ L1); by right).
  rewrite Hd in Hs. simplify_eq/=. eexists. split; [done|]. split; simpl.
  - apply map_Forall_insert_2; [|done]. by split; simpl; [|rewrite Hc|..].
  - intros q f. rewrite (proj2 (Z.eqb_neq _ _) L3), lookup_delete_Some, Hb. split.
    + intros [Hq (m & k & Hm & Hk & Hp & ?)]. exists m, k. rewrite lookup_insert_ne; [done|].
      intros <-. simplify_eq.
    + intros (m & k & Hm & Hk & Hp & ?). apply lookup_insert_Some in Hm as [[<- <-]|[Hne Hm]]; [done|].
      split; [|by exists m, k]. intros Heq. apply Hne. eapply Ho; [exact Hn|exact Hm|done..|congruence].
  - intros m1 m2 k1 k2 H1 H2 F1 F2 Hpp.
    apply lookup_insert_Some in H1 as [[<- <-]|[? H1]], H2 as [[<- <-]|[? H2]]; simpl in *; try done.
    by eapply Ho.
  - intros m. rewrite Hh. destruct (decide (n = m)) as [<-|]; [by rewrite lookup_insert_eq, Hn|].
    by rewrite lookup_insert_ne.
  - by rewrite (play_insert _ _ l).
Qed.

Lemma sys_run_ok es u0 s c : sys_ok u0 s -> Forall patient es -> sys_run s es = Some c ->
  exists s', c = Up s' /\ sys_ok u0 s'.
Proof.
  revert s. induction es as [|e es IH]; intros s Hok Hp Hr; simpl in Hr; [simplify_eq; by exists s|].
  apply Forall_cons in Hp as [Hpe Hp]. destruct (sys_step s e) as [c'|] eqn:Hs; [|done].
  assert (exists s', c' = Up s' /\ sys_ok u0 s') as (s' & -> & Hok').
  { destruct e; [by eapply linked_ok|by eapply forward_ok|by eapply reclaimed_ok]. }
  by eapply IH.
Qed.

(** ** Subscriptions are safe, unless a callback outlasts the drop *)

(** C13. Over forwarded streams the client's subscriptions are safe and exact: while no
    callback outlasts the five seconds a drop waits, no interleaving of
    subscribing, forwarding, cancelling and dropping reaches a reclaimed box;
    each callback gets exactly the items its stream yielded that decode, in
    order, and acts on the user's state in the order of the calls; once a box is
    reclaimed its task is gone, and once all are no box is left. *)
Theorem subscriptions_exact es u0 c :
  Forall patient es -> sys_run (idle u0) es = Some c ->
  exists s, c = Up s
    /\ user (s_world s) = play (links s) u0 (heard s)
    /\ (forall n l, links s !! n = Some l ->
          heard_by n (heard s) = omap received (yielded (l_task l))
          /\ if l_freed l then at_ (l_task l) = Dropped
             else boxes (s_world s) !! callback_ptr (l_sub l) = Some (l_callback l))
    /\ (map_Forall (fun _ l => l_freed l = true) (links s) -> boxes (s_world s) = ∅).
Proof.
  intros Hp Hr. destruct (sys_run_ok es u0 (idle u0) c (idle_ok u0) Hp Hr) as (s & -> & [Hl Hb Ho Hh Hu]).
  exists s. split_and!; [done|done| |].
  - intros n l Hn. split; [by rewrite Hh, Hn|]. destruct (l_freed l) eqn:Hf.
    + destruct (Hl n l Hn) as [L1 _ _ L4]. apply (ok_signal encode None _ L1). right. auto.
    + apply Hb. by exists n, l.
  - intros Hall. apply map_empty. intros q. destruct (boxes (s_world s) !! q) as [f|] eqn:Hq; [|done].
    apply Hb in Hq as (n & l & Hn & Hf & _). specialize (Hall n l Hn). simpl in Hall. congruence.
Qed.

(** The tasks are the forwarder's, in impatient runs too. *)
Lemma tasks_step s e s' : sys_step s e = Some (Up s') ->
  map_Forall (fun _ l => task_ok encode None (l_task l)) (links s) ->
  map_Forall (fun _ l => task_ok encode None (l_task l)) (links s').
Proof.
  intros Hs Hok. destruct e as [n handle ptr cb|n ev|n]; simpl in Hs.
  - repeat case_match; simplify_eq/=; try done; apply map_Forall_insert_2; try done. apply spawned_ok.
  - destruct (links s !! n) as [l|] eqn:Hn; [|done].
    destruct (forward_cluster_stream encode (l_task l) ev) as [t|] eqn:Ht; [|done].
    repeat case_match; simplify_eq/=; apply map_Forall_insert_2; try done;
      (eapply step_ok; [by apply (Hok n l)|exact Ht]).
  - destruct (links s !! n) as [l|] eqn:Hn; [|done].
    repeat case_match; simplify_eq/=; apply map_Forall_insert_2; try done. by apply (Hok n l).
Qed.

Lemma tasks_run es s s' : sys_run s es = Some (Up s') ->
  map_Forall (fun _ l => task_ok encode None (l_task l)) (links s) ->
  map_Forall (fun _ l => task_ok encode None (l_task l)) (links s').
Proof.
  revert s. induction es as [|e es IH]; intros s Hr Hok; simpl in Hr; [by simplify_eq|].
  destruct (sys_step s e) as [[u|]|] eqn:Hs; [|done|done]. eauto using tasks_step.
Qed.

(** A callback under way stays under way until it returns, and its drop does not
    see the end of the task. *)
Definition in_callback (n : nat) (s : system) : Prop :=
  exists l, links s !! n = Some l /\ at_ (l_task l) = InCall /\ done (l_task l) = false
            /\ cancel (l_task l) <> Quiesced.

Lemma in_callback_step n s e s' : in_callback n s -> e <> Forward n CallReturns ->
  sys_step s e = Some (Up s') -> in_callback n s'.
Proof.
  intros (l & Hn & Ha & Hd & Hq) He Hs. destruct e as [m handle ptr cb|m ev|m]; simpl in Hs.
  - destruct (links s !! m) eqn:Hm; [done|]. assert (m <> n) by congruence.
    repeat case_match; simplify_eq/=; exists l; simpl; by rewrite ?lookup_insert_ne.
  - destruct (links s !! m) as [k|] eqn:Hm; [|done].
    destruct (forward_cluster_stream encode (l_task k) ev) as [t|] eqn:Ht; [|done].
    assert (exists w h, s' = {| s_world := w; links := <[m := set_task t k]> (links s); heard := h |})
      as (w & h & ->) by (repeat case_match; simplify_eq/=; by do 2 eexists).
    unfold in_callback. simpl. destruct (decide (m = n)) as [->|]; [|by exists l; rewrite lookup_insert_ne].
    assert (k = l) as -> by congruence. exists (set_task t l). rewrite lookup_insert_eq. simpl.
    destruct ev; simpl in Ht; unfold when in Ht; rewrite ?Ha, ?Hd in Ht;
      repeat case_match; simplify_eq/=; try done; split_and!; try done; congruence.
  - destruct (links s !! m) as [k|] eqn:Hm; [|done]. unfold in_callback.
    repeat case_match; simplify_eq/=. destruct (decide (m = n)) as [->|]; [|by exists l; rewrite lookup_insert_ne].
    assert (k = l) as -> by congruence. exists (set_freed l). by rewrite lookup_insert_eq.
Qed.

Lemma in_callback_run n es s s' : in_callback n s -> Forward n CallReturns ∉ es ->
  sys_run s es = Some (Up s') -> in_callback n s'.
Proof.
  revert s. induction es as [|e es IH]; intros s Hi Hn Hr; simpl in Hr; [by simplify_eq|].
  apply not_elem_of_cons in Hn as [He Hn]. destruct (sys_step s e) as [[u|]|] eqn:Hs; [|done|done].
  eapply IH; [|done..]. by eapply in_callback_step.
Qed.

(** C23. A subscription dropped inside its own callback corrupts memory: whatever
    happens until the callback returns, the drop it waits on never sees the task
    end, so it can only give up after five seconds, and then it reclaims the box
    its own callback is running from. *)
Theorem self_drop_corrupts es u0 s n l :
  sys_run (idle u0) es = Some (Up s) -> links s !! n = Some l -> at_ (l_task l) = InCall ->
  (cancel (l_task l) = NotCancelled -> l_freed l = false ->
     sys_run s [Forward n CancelCalled; Forward n (TimedOut QUIESCE_MS); Reclaimed n] = Some Corrupted)
  /\ forall es' s' l', Forward n CallReturns ∉ es' -> sys_run s es' = Some (Up s') ->
       links s' !! n = Some l' -> cancel (l_task l') <> Quiesced
       /\ forall c, sys_step s' (Reclaimed n) = Some c -> c = Corrupted.
Proof.
  intros Hr Hn Ha.
  assert (Hok : task_ok encode None (l_task l)).
  { eapply (tasks_run _ _ _ Hr); [|exact Hn]. apply map_Forall_empty. }
  assert (Hd : done (l_task l) = false).
  { destruct (done (l_task l)) eqn:Hd; [|done]. pose proof (ok_signal _ _ _ Hok (or_introl Hd)). congruence. }
  assert (Hi : in_callback n s).
  { exists l. split_and!; [done..|]. intros Hq. pose proof (ok_signal _ _ _ Hok (or_intror Hq)). congruence. }
  split.
  - intros Hc Hf. simpl. rewrite Hn. unfold forward_cluster_stream. simpl. rewrite Hc. simpl.
    rewrite lookup_insert_eq. simpl. rewrite Hd. simpl. rewrite lookup_insert_eq. simpl.
    by rewrite Hf, Ha.
  - intros es' s' l' Hne Hr' Hn'. destruct (in_callback_run n es' s s' Hi Hne Hr') as (k & Hk & Hka & _ & Hkq).
    assert (k = l') as -> by congruence. split; [done|]. intros c Hc. simpl in Hc. rewrite Hn', Hka in Hc.
    destruct (l_freed l' || _); simpl in Hc; by simplify_eq.
Qed.
End Subscribed.
Arguments link : clear implicits.
Arguments system : clear implicits.
Arguments config : clear implicits.
Arguments sys_event : clear implicits.

(** ** Witnesses: two subscriptions, and one dropped by its own callback *)

Module Sample.
Import Tree Wire Example1.

Definition text_of (v : jtree) : option string := Some (j_print v).
(** A callback that counts what it hears under a name. *)
Definition noting (name : string) : CallbackBox (list string) string :=
  fun x u => (u ++ [(name ++ x)%string], Returned tt).

Definition first : list (sys_event jtree string (list string)) :=
  [Subscribed 0 4096 64 (noting "a:"); Subscribed 1 8192 128 (noting "b:");
   Forward 0 Wake; Forward 1 Wake;
   Forward 0 (Polled (Ready (j_str "x"))); Forward 1 (Polled (Ready (j_str "y")));
   Forward 1 CallReturns; Forward 0 CallReturns;
   Forward 0 (Polled (Ready j_null)); Forward 0 CancelCalled; Forward 0 CallReturns;
   Forward 0 (Polled Pending); Forward 0 DropFuture; Forward 0 Signalled; Reclaimed 0;
   Subscribed 2 4096 64 (noting "c:")].

Lemma up_inj (s1 s2 : system jtree string (list string)) : Up s1 = Up s2 -> s1 = s2.
Proof. by intros [= ->]. Qed.

(** Where a run leads that is not corrupted. *)
Definition after (es : list (sys_event jtree string (list string))) : system jtree string (list string) :=
  match sys_run text_of j_as_str (idle []) es with Some (Up s) => s | _ => idle [] end.

Lemma subscriptions_exact_witness :
  sys_run text_of j_as_str (idle []) first = Some (Up (after first))
  /\ user (s_world (after first)) = ["a:x"; "b:y"]%string
  /\ boxes (s_world (after first)) !! 64 <> None.
Proof.
  assert (Hr : sys_run text_of j_as_str (idle []) first = Some (Up (after first))) by (vm_compute; reflexivity).
  split; [exact Hr|].
  destruct (subscriptions_exact text_of j_as_str first [] (Up (after first)) ltac:(repeat constructor) Hr)
    as (s & Hs & Hu & Hl & _).
  apply up_inj in Hs. subst s. split; [rewrite Hu; vm_compute; reflexivity|].
  destruct (Hl 2%nat {| l_task := spawned; l_sub := {| stream_handle := 4096; callback_ptr := 64 |};
                        l_callback := noting "c:"; l_freed := false |}) as [_ Hb]; [vm_compute; reflexivity|].
  simpl in Hb. by rewrite Hb.
Defined.

Definition speaking : list (sys_event jtree string (list string)) :=
  [Subscribed 0 4096 64 (noting "a:"); Forward 0 Wake; Forward 0 (Polled (Ready (j_str "x")))].

Lemma self_drop_corrupts_witness :
  sys_run text_of j_as_str (idle []) speaking = Some (Up (after speaking))
  /\ sys_run text_of j_as_str (after speaking)
       [Forward 0 CancelCalled; Forward 0 (TimedOut QUIESCE_MS); Reclaimed 0] = Some Corrupted.
Proof.
  assert (Hr : sys_run text_of j_as_str (idle []) speaking = Some (Up (after speaking))) by (vm_compute; reflexivity).
  split; [exact Hr|].
  set (l := {| l_task := {| at_ := InCall; aborted := false; Streams.done := false; cancel := NotCancelled;
                            yielded := [j_str "x"%string]; finished := false;
                            calls := [j_print (j_str "x" : jtree)] |};
               l_sub := {| stream_handle := 4096; callback_ptr := 64 |};
               l_callback := noting "a:"; l_freed := false |}).
  assert (Hl : links (after speaking) !! 0%nat = Some l) by (vm_compute; reflexivity).
  exact (proj1 (self_drop_corrupts text_of j_as_str speaking [] _ 0 l Hr Hl eq_refl) eq_refl eq_refl).
Defined.
End Sample.
