(* ===== verification/HostHandle.v ===== *)
(** * The host handle (src/src/host_handle.rs)

    What a plugin calls back into the host with: one surface over two backends,
    the vtable of the ABI, where every argument and answer is a text, and the
    host's services in process. The world [W] is the host's state. *)

From Stdlib Require Import Ascii String.
From S2P Require Import Prelude Json Ffi Gates Providers Sinks.

(** ** What the handle uses of the protocol and of base64 *)

Class HostApi (jv : Type) `{PA : PluginApi jv} {SA : SecretApi jv} {CF : ConfigApi jv}
    {CR : CredentialApi jv} {SK : SinkApi jv} := {
  #[global] secret_wire_deserialize :: Deserialize jv SecretValueWire;
  #[global] secret_error_deserialize :: Deserialize jv SecretError;
  #[global] snapshot_deserialize :: Deserialize jv ConfigSnapshot;
  #[global] config_error_deserialize :: Deserialize jv ConfigError;
  #[global] credential_deserialize :: Deserialize jv IssuedCredential;
  #[global] credential_error_deserialize :: Deserialize jv CredentialError;
  credential_misconfigured : string -> CredentialError;
  #[global] receipt_deserialize :: Deserialize jv AuditReceipt;
  #[global] audit_error_deserialize :: Deserialize jv AuditError;
  BackendHostError : Type;
  #[global] host_error_deserialize :: Deserialize jv BackendHostError;
  (** [Backend { tool_name: "", cause: Transport { message } }]. *)
  host_transport : string -> BackendHostError;
  host_not_implemented : BackendHostError;
  BackendResource : Type;
  #[global] resource_deserialize :: Deserialize jv BackendResource;
  BackendInvocationContext : Type;
  #[global] invocation_serialize :: Serialize jv BackendInvocationContext;
  initiating_backend : BackendInvocationContext -> string;
  invocation_identity : BackendInvocationContext -> option PluginIdentity;
  ClusterClientRef : Type;
  (** A double as JSON; the host's own metric points. *)
  f64 : Type;
  #[global] f64_serialize :: Serialize jv f64;
  #[global] f64_deserialize :: Deserialize jv f64;
  HostMetric : Type;
  host_counter : string -> Z -> list (string * string) -> HostMetric;
  host_gauge : string -> f64 -> list (string * string) -> HostMetric;
  host_histogram : string -> f64 -> list (string * string) -> HostMetric;
  base64_encode : list Z -> string;
  base64_decode : string -> result (list Z) string;
}.

Section HostHandle.
Context {jv : Type} `{J : Json jv} `{E : Envelope jv} `{HA : HostApi jv} {W : Type}.

#[export] Instance option_deserialize {A} `{!Deserialize jv A} : Deserialize jv (option A) :=
  fun v => if j_is_null v then Some None else Some <$> from_value v.
#[export] Instance null_deserialize : Deserialize jv unit :=
  fun v => if j_is_null v then Some tt else None.

(** The protocol's [decode_result_envelope], by the envelope interface, with the
    types inside. *)
Definition decode_result_envelope {A R} `{!Deserialize jv A} `{!Deserialize jv R} (s : string)
    : result (result A R) string :=
  match decode_envelope s with
  | Ok (Ok v) => match from_value v with Some a => Ok (Ok a) | None => Err (serde_message s) end
  | Ok (Err v) => match from_value v with Some e => Ok (Err e) | None => Err (serde_message s) end
  | Err e => Err e
  end.

(** [.map_err(f)?] after it. *)
Definition decoded_or {A R} `{!Deserialize jv A} `{!Deserialize jv R} (f : string -> R) (s : string)
    : result A R :=
  match decode_result_envelope s with Ok r => r | Err e => Err (f e) end.

(** ** Metric points *)

Inductive MetricPoint :=
| Counter (name : string) (value : Z) (labels : list (string * string))
| Gauge (name : string) (value : f64) (labels : list (string * string))
| Histogram (name : string) (value : f64) (labels : list (string * string)).

Definition j_labels (l : list (string * string)) : jv :=
  j_arr ((fun kv => j_arr [j_str kv.1; j_str kv.2]) <$> l).
Definition as_label (v : jv) : option (string * string) :=
  match j_as_arr v with
  | Some [k; x] => match j_as_str k, j_as_str x with Some k, Some x => Some (k, x) | _, _ => None end
  | _ => None
  end.
Definition as_labels (o : option jv) : option (list (string * string)) :=
  match o with
  | None => Some []
  | Some v => match j_as_arr v with Some l => mapM as_label l | None => None end
  end.

(** The derives: the variant's name under ["kind"]. *)
#[export] Instance metric_point_serialize : Serialize jv MetricPoint := fun p =>
  match p with
  | Counter name value labels =>
      j_obj {["kind" := j_str "counter"; "name" := j_str name; "value" := j_u64 value;
              "labels" := j_labels labels]}%string
  | Gauge name value labels =>
      j_obj {["kind" := j_str "gauge"; "name" := j_str name; "value" := to_value value;
              "labels" := j_labels labels]}%string
  | Histogram name value labels =>
      j_obj {["kind" := j_str "histogram"; "name" := j_str name; "value" := to_value value;
              "labels" := j_labels labels]}%string
  end.

(** An internally tagged variant: an object with the tag among its fields, or
    an array that starts with it. *)
Definition tagged_fields (v : jv) : option (string * list (option jv)) :=
  let fields := struct_fields ["name"; "value"; "labels"]%string in
  match j_as_obj v with
  | Some m =>
      match field_str (m !! "kind"%string), fields v with
      | Some kind, Some l => Some (kind, l)
      | _, _ => None
      end
  | None =>
      match j_as_arr v with
      | Some (kind :: l) =>
          match j_as_str kind, fields (j_arr l) with
          | Some kind, Some l => Some (kind, l)
          | _, _ => None
          end
      | _ => None
      end
  end.

Definition metric_fields {A} (value_of : option jv -> option A)
    (make : string -> A -> list (string * string) -> MetricPoint) (l : list (option jv)) : option MetricPoint :=
  match l with
  | [name; value; labels] =>
      match field_str name, value_of value, as_labels labels with
      | Some name, Some value, Some labels => Some (make name value labels)
      | _, _, _ => None
      end
  | _ => None
  end.

#[export] Instance metric_point_deserialize : Deserialize jv MetricPoint := fun v =>
  match tagged_fields v with
  | Some (kind, l) =>
      if String.eqb kind "counter" then metric_fields field_u64 Counter l
      else if String.eqb kind "gauge" then metric_fields field Gauge l
      else if String.eqb kind "histogram" then metric_fields field Histogram l
      else None
  | None => None
  end.

Definition into_host (p : MetricPoint) : HostMetric :=
  match p with
  | Counter name value labels => host_counter name value labels
  | Gauge name value labels => host_gauge name value labels
  | Histogram name value labels => host_histogram name value labels
  end.

(** ** The two backends *)

(** The slots of the ABI's host vtable, the bridge behind [ctx] in [W]. *)
Record HostVTable := {
  hv_alias : W -> string;
  hv_cluster : W -> option ClusterClientRef;
  hv_resolve_secret : string -> W -> W * string;
  hv_resolve_credentials : string -> string -> W -> W * string;
  hv_cache_get : string -> string -> W -> W * string;
  hv_cache_put : string -> string -> W -> W * string;
  hv_fetch_content : string -> W -> W * string;
  hv_store_content : string -> W -> W * string;
  hv_invoke_tool : string -> string -> string -> W -> W * string;
  hv_issue_credential : string -> string -> W -> W * string;
  hv_config_snapshot : string -> W -> W * string;
  hv_audit_event : string -> W -> W * string;
  hv_metric_emit : string -> W -> W;
  hv_span_start : string -> string -> W -> W * Z;
  hv_span_event : Z -> string -> string -> W -> W;
  hv_span_end : Z -> W -> W;
}.

(** The [HostServices] trait; durations are nanoseconds. *)
Record HostServices := {
  sv_resolve_secret : string -> string -> W -> W * result SecretValue SecretError;
  sv_resolve_credentials : string -> jv -> option PluginIdentity -> W -> W * (jv * result Z BackendHostError);
  sv_cache_get : string -> string -> string -> W -> W * result (option (list Z)) BackendHostError;
  sv_cache_put : string -> string -> string -> list Z -> Z -> W -> W * result unit BackendHostError;
  sv_fetch_content : string -> string -> W -> W * result (option (list Z)) BackendHostError;
  sv_store_content : string -> list Z -> string -> option Z -> W -> W * result BackendResource BackendHostError;
  sv_invoke_tool : BackendInvocationContext -> string -> jv -> W -> W * result jv BackendHostError;
  sv_issue_credential : string -> string -> PluginIdentity -> W -> W * result IssuedCredential CredentialError;
  sv_config_snapshot : string -> string -> W -> W * result ConfigSnapshot ConfigError;
  sv_audit_event : string -> AuditEvent -> W -> W * result AuditReceipt AuditError;
  sv_metric_emit : string -> HostMetric -> W -> W;
  sv_span_start : string -> string -> jv -> W -> W * Z;
  sv_span_event : Z -> string -> jv -> W -> W;
  sv_span_end : Z -> W -> W;
}.

(** [Backend]; of the captured runtime only whether there is one matters. *)
Inductive HostHandle :=
| HostFfi (vtable : HostVTable)
| HostInProcess (alias_ : string) (services : HostServices) (cluster_ : option ClusterClientRef)
    (runtime : bool).

Definition from_ffi (vtable : HostVTable) : HostHandle := HostFfi vtable.
Definition from_services (services : HostServices) (alias_ : string) (cluster_ : option ClusterClientRef)
    (on_runtime : bool) : HostHandle :=
  HostInProcess alias_ services cluster_ on_runtime.
Definition ffi_ref (h : HostHandle) : option HostVTable :=
  match h with HostFfi v => Some v | HostInProcess _ _ _ _ => None end.

Definition alias (h : HostHandle) (w : W) : string :=
  match h with HostFfi v => hv_alias v w | HostInProcess a _ _ _ => a end.
Definition cluster (h : HostHandle) (w : W) : option ClusterClientRef :=
  match h with HostFfi v => hv_cluster v w | HostInProcess _ _ c _ => c end.

(** [block_on_or_err]. *)
Definition block_on_or_err {A R} (runtime : bool) (fut : W -> W * result A R) (on_no_runtime : R) (w : W)
    : W * result A R :=
  if runtime then fut w else (w, Err on_no_runtime).

Definition no_runtime : string := "host handle: no tokio runtime captured".

(** [envelope_err]. *)
Definition envelope_err (e : string) : BackendHostError :=
  host_transport ("host service: bad result envelope: " ++ e).

(** A slot's answer, read. *)
Definition reading {A} (f : string -> A) (r : W * string) : W * A := (r.1, f r.2).

Definition decode_secret_envelope (s : string) : result SecretValue SecretError :=
  map_ok secret_of_wire
    (decoded_or (fun e => secret_backend ("undecodable secret envelope: " ++ e)) s).

Definition resolve_secret (h : HostHandle) (uri : string) (w : W) : W * result SecretValue SecretError :=
  match h with
  | HostFfi v => reading decode_secret_envelope (hv_resolve_secret v uri w)
  | HostInProcess a s _ rt =>
      block_on_or_err rt (sv_resolve_secret s a uri) (secret_backend no_runtime) w
  end.

(** [ResolveCredsWire]. *)
Definition resolve_creds_wire (v : jv) : option (jv * Z) :=
  match struct_fields ["value"; "count"]%string v with
  | Some [value; count] =>
      match value, field_u64 count with Some value, Some count => Some (value, count) | _, _ => None end
  | _ => None
  end.
#[export] Instance resolve_creds_deserialize : Deserialize jv (jv * Z) := resolve_creds_wire.

(** The value is replaced in place; the result carries it. *)
Definition resolve_credentials (h : HostHandle) (value : jv) (identity : option PluginIdentity) (w : W)
    : W * (jv * result Z BackendHostError) :=
  match h with
  | HostFfi v =>
      reading (fun out =>
                 match decoded_or envelope_err out with
                 | Ok (value', count) => (value', Ok count)
                 | Err e => (value, Err e)
                 end)
        (hv_resolve_credentials v (j_print value) (to_string identity) w)
  | HostInProcess a s _ rt =>
      if rt then sv_resolve_credentials s a value identity w
      else (w, (value, Err host_not_implemented))
  end.

(** Bytes answered in base64, or nothing. *)
Definition decode_content (what : string) (out : string) : result (option (list Z)) BackendHostError :=
  match decoded_or envelope_err out with
  | Ok (Some s) =>
      match base64_decode s with
      | Ok bytes => Ok (Some bytes)
      | Err e => Err (host_transport (what ++ ": bad base64: " ++ e))
      end
  | Ok None => Ok None
  | Err e => Err e
  end.

Definition cache_get (h : HostHandle) (binding key : string) (w : W)
    : W * result (option (list Z)) BackendHostError :=
  match h with
  | HostFfi v => reading (decode_content "cache_get") (hv_cache_get v binding key w)
  | HostInProcess a s _ rt => block_on_or_err rt (sv_cache_get s a binding key) host_not_implemented w
  end.

(** The time to live in milliseconds, at most [u64::MAX]. *)
Definition cache_put_request (key : string) (value : list Z) (ttl : Z) : jv :=
  j_obj {["key" := j_str key; "value" := j_str (base64_encode value);
          "ttl_ms" := j_u64 (Z.min (as_millis ttl) u64_max)]}%string.

Definition cache_put (h : HostHandle) (binding key : string) (value : list Z) (ttl : Z) (w : W)
    : W * result unit BackendHostError :=
  match h with
  | HostFfi v =>
      reading (decoded_or envelope_err) (hv_cache_put v binding (j_print (cache_put_request key value ttl)) w)
  | HostInProcess a s _ rt => block_on_or_err rt (sv_cache_put s a binding key value ttl) host_not_implemented w
  end.

Definition fetch_content (h : HostHandle) (uri : string) (w : W)
    : W * result (option (list Z)) BackendHostError :=
  match h with
  | HostFfi v => reading (decode_content "fetch_content") (hv_fetch_content v uri w)
  | HostInProcess a s _ rt => block_on_or_err rt (sv_fetch_content s a uri) host_not_implemented w
  end.

(** Here the milliseconds are cast, [as_millis() as u64]. *)
Definition store_content_request (bytes : list Z) (mime_type : string) (ttl : option Z) : jv :=
  j_obj {["bytes" := j_str (base64_encode bytes); "mime_type" := j_str mime_type;
          "ttl_ms" := match ttl with Some d => j_u64 (as_u64 (as_millis d)) | None => j_null end]}%string.

Definition store_content (h : HostHandle) (bytes : list Z) (mime_type : string) (ttl : option Z) (w : W)
    : W * result BackendResource BackendHostError :=
  match h with
  | HostFfi v =>
      reading (decoded_or envelope_err) (hv_store_content v (j_print (store_content_request bytes mime_type ttl)) w)
  | HostInProcess a s _ rt => block_on_or_err rt (sv_store_content s a bytes mime_type ttl) host_not_implemented w
  end.

Definition invoke_tool (h : HostHandle) (ctx : BackendInvocationContext) (tool_name : string) (args : jv) (w : W)
    : W * result jv BackendHostError :=
  match h with
  | HostFfi v =>
      reading (decoded_or envelope_err) (hv_invoke_tool v (to_string ctx) tool_name (j_print args) w)
  | HostInProcess _ s _ rt => block_on_or_err rt (sv_invoke_tool s ctx tool_name args) host_not_implemented w
  end.

Definition issue_credential (h : HostHandle) (uri : string) (identity : PluginIdentity) (w : W)
    : W * result IssuedCredential CredentialError :=
  match h with
  | HostFfi v =>
      reading (decoded_or (fun e => credential_misconfigured ("undecodable credential envelope: " ++ e)))
        (hv_issue_credential v uri (to_string identity) w)
  | HostInProcess a s _ rt =>
      block_on_or_err rt (sv_issue_credential s a uri identity) (credential_backend no_runtime) w
  end.

Definition config_snapshot (h : HostHandle) (uri : string) (w : W) : W * result ConfigSnapshot ConfigError :=
  match h with
  | HostFfi v =>
      reading (decoded_or (fun e => config_backend ("undecodable config envelope: " ++ e)))
        (hv_config_snapshot v uri w)
  | HostInProcess a s _ rt => block_on_or_err rt (sv_config_snapshot s a uri) (config_backend no_runtime) w
  end.

Definition audit_event (h : HostHandle) (event : AuditEvent) (w : W) : W * result AuditReceipt AuditError :=
  match h with
  | HostFfi v =>
      reading (decoded_or (fun e => audit_write_failed ("undecodable audit envelope: " ++ e)))
        (hv_audit_event v (to_string event) w)
  | HostInProcess a s _ rt => block_on_or_err rt (sv_audit_event s a event) (audit_write_failed no_runtime) w
  end.

Definition emit_metric (h : HostHandle) (point : MetricPoint) (w : W) : W :=
  match h with
  | HostFfi v => hv_metric_emit v (to_string point) w
  | HostInProcess a s _ _ => sv_metric_emit s a (into_host point) w
  end.
Definition counter (h : HostHandle) (name : string) (value : Z) (labels : list (string * string)) : W -> W :=
  emit_metric h (Counter name value labels).
Definition gauge (h : HostHandle) (name : string) (value : f64) (labels : list (string * string)) : W -> W :=
  emit_metric h (Gauge name value labels).
Definition histogram (h : HostHandle) (name : string) (value : f64) (labels : list (string * string)) : W -> W :=
  emit_metric h (Histogram name value labels).

(** ** Spans *)

Record SpanGuard := { guard_handle : HostHandle; span_id : Z }.

Definition span (h : HostHandle) (name : string) (attrs : jv) (w : W) : W * SpanGuard :=
  let '(w, id) := match h with
                  | HostFfi v => hv_span_start v name (j_print attrs) w
                  | HostInProcess a s _ _ => sv_span_start s a name attrs w
                  end in
  (w, {| guard_handle := h; span_id := id |}).
Definition span_event (h : HostHandle) (id : Z) (name : string) (attrs : jv) (w : W) : W :=
  match h with
  | HostFfi v => hv_span_event v id name (j_print attrs) w
  | HostInProcess _ s _ _ => sv_span_event s id name attrs w
  end.
Definition span_end_raw (h : HostHandle) (id : Z) (w : W) : W :=
  match h with
  | HostFfi v => hv_span_end v id w
  | HostInProcess _ s _ _ => sv_span_end s id w
  end.

(** [SpanGuard::event] and its [Drop]. *)
Definition guard_event (g : SpanGuard) (name : string) (attrs : jv) : W -> W :=
  span_event (guard_handle g) (span_id g) name attrs.
Definition guard_drop (g : SpanGuard) : W -> W := span_end_raw (guard_handle g) (span_id g).

(** ** [HostHandleBackendHost]: the handle as a backend's host *)

Definition host_invoke_tool := invoke_tool.
Definition host_cache_get (h : HostHandle) (ctx : BackendInvocationContext) (key : string) :=
  cache_get h (initiating_backend ctx) key.
Definition host_cache_put (h : HostHandle) (ctx : BackendInvocationContext) (key : string) (value : list Z) (ttl : Z) :=
  cache_put h (initiating_backend ctx) key value ttl.
Definition host_fetch_content (h : HostHandle) (_ : BackendInvocationContext) (uri : string) := fetch_content h uri.
Definition host_store_content (h : HostHandle) (_ : BackendInvocationContext) (bytes : list Z) (mime_type : string)
    (ttl : option Z) :=
  store_content h bytes mime_type ttl.
Definition host_resolve_credentials (h : HostHandle) (ctx : BackendInvocationContext) (value : jv) :=
  resolve_credentials h value (invocation_identity ctx).
End HostHandle.
Arguments HostHandle jv {PA SA CF CR SK HA} W.
Arguments HostVTable jv {PA SA CF CR SK HA} W.
Arguments HostServices jv {PA SA CF CR SK HA} W.
Arguments SpanGuard jv {PA SA CF CR SK HA} W.

(** ** Subscriptions: the callback box and its guard *)

Section Subscriptions.

(** The boxes alive, the callbacks the host holds by subscription, and the
    calls of a trampoline under way, each with the box it borrows. *)
Record sub_world := { boxes : gset Z; registered : gmap Z Z; running : gmap nat Z }.

Record FfiSubGuard := { sub_id : Z; cb_ctx : Z }.

(** [subscribe_credential_revoked] and [subscribe_secret_rotation]: the callback
    is boxed at [ptr]; the host answers a subscription, 0 when it declines. *)
Definition subscribe_host (ptr id : Z) (w : sub_world) : sub_world * FfiSubGuard :=
  ({| boxes := {[ptr]} ∪ boxes w;
      registered := if id =? 0 then registered w else <[id := ptr]> (registered w);
      running := running w |},
   {| sub_id := id; cb_ctx := ptr |}).

(** The trampoline borrows the box for as long as the callback runs. [None] is a
    borrow of a freed box. *)
Definition tramp_enter (call : nat) (ptr : Z) (w : sub_world) : option sub_world :=
  if decide (ptr ∈ boxes w)
  then Some {| boxes := boxes w; registered := registered w; running := <[call := ptr]> (running w) |}
  else None.

(** The callback returned, or its panic was caught. *)
Definition tramp_return (call : nat) (w : sub_world) : sub_world :=
  {| boxes := boxes w; registered := registered w; running := delete call (running w) |}.

(** Nobody is inside the callback of a box. *)
Definition unborrowed (ptr : Z) (w : sub_world) : Prop := map_Forall (fun _ p => p <> ptr) (running w).
#[export] Instance unborrowed_dec ptr w : Decision (unborrowed ptr w).
Proof. unfold unborrowed. apply _. Defined.

(** [Box::from_raw] and drop; [None] is a second free, or one of a box that a
    running callback borrows. *)
Definition free_box (ptr : Z) (w : sub_world) : option sub_world :=
  if decide (ptr ∈ boxes w /\ unborrowed ptr w)
  then Some {| boxes := boxes w ∖ {[ptr]}; registered := registered w; running := running w |} else None.

Definition unsubscribe (id : Z) (w : sub_world) : sub_world :=
  {| boxes := boxes w; registered := delete id (registered w); running := running w |}.

(** [FfiSubGuard]'s [Drop], its two calls: the host is told to stop, which may
    take it a while, and then the box is freed. *)
Definition sub_guard_unsubscribe (g : FfiSubGuard) (w : sub_world) : sub_world :=
  if sub_id g =? 0 then w else unsubscribe (sub_id g) w.
Definition sub_guard_free (g : FfiSubGuard) (w : sub_world) : option sub_world := free_box (cb_ctx g) w.
Definition sub_guard_drop (g : FfiSubGuard) (w : sub_world) : option sub_world :=
  sub_guard_free g (sub_guard_unsubscribe g w).
End Subscriptions.
