(* ===== verification/HostFacts.v ===== *)
(** * The host handle: the two backends agree, failures, times to live, callbacks

    The callbacks are runs in which each call of a trampoline and each drop of a
    guard begins and ends apart, so that they overlap as threads let them. *)

From Stdlib Require Import Ascii String.
From S2P Require Import Prelude Json Ffi Gates Providers Sinks HostHandle.

Section HostFacts.
Context {jv : Type} `{JL : JsonLaws jv} `{E : Envelope jv} `{HA : HostApi jv} {W : Type}.

(** ** Texts the handle prints, read back *)

Definition put_args (v : jv) : option (string * string * Z) :=
  match struct_fields ["key"; "value"; "ttl_ms"]%string v with
  | Some [key; value; ttl] =>
      match field_str key, field_str value, field_u64 ttl with
      | Some key, Some value, Some ttl => Some (key, value, ttl)
      | _, _, _ => None
      end
  | _ => None
  end.
Definition field_opt_u64 (f : option jv) : option (option Z) :=
  match f with
  | Some v => if j_is_null v then Some None else Some <$> j_as_u64 v
  | None => Some None
  end.
Definition store_args (v : jv) : option (string * string * option Z) :=
  match struct_fields ["bytes"; "mime_type"; "ttl_ms"]%string v with
  | Some [bytes; mime; ttl] =>
      match field_str bytes, field_str mime, field_opt_u64 ttl with
      | Some bytes, Some mime, Some ttl => Some (bytes, mime, ttl)
      | _, _, _ => None
      end
  | _ => None
  end.

Lemma put_args_print key value ttl : 0 <= ttl ->
  from_str put_args (j_print (cache_put_request key value ttl))
  = Ok (key, base64_encode value, Z.min (as_millis ttl) u64_max).
Proof.
  intros Ht. apply from_str_print. unfold put_args, cache_put_request. read_struct.
  unfold field_str, field_u64. simpl. rewrite !j_as_str_str, j_as_u64_u64; [done|].
  assert (0 <= as_millis ttl) by (apply Z.div_pos; lia). unfold u64_max. lia.
Qed.

Lemma store_args_print bytes mime ttl :
  (forall n, j_is_null (j_u64 n) = false) ->
  from_str store_args (j_print (store_content_request bytes mime ttl))
  = Ok (base64_encode bytes, mime, (fun d => as_u64 (as_millis d)) <$> ttl).
Proof.
  intros Hn. apply from_str_print. unfold store_args, store_content_request. read_struct.
  unfold field_str, field_opt_u64. simpl. rewrite !j_as_str_str. destruct ttl as [d|]; simpl.
  - rewrite Hn, j_as_u64_u64; [done|]. unfold as_u64, u64_max.
    pose proof (Z.mod_pos_bound (as_millis d) (2 ^ 64)). lia.
  - by rewrite j_is_null_null.
Qed.

(** The times to live a plugin gives cross the vtable as whole milliseconds.
    For the cache an over-long one is cut to [u64::MAX], never below what it
    was if it fits; for content it is taken modulo 2^64, so one of 2^64
    milliseconds is stored to expire at once. *)
Theorem ttl_across_ffi key value bytes mime ttl :
  (forall n : Z, j_is_null (j_u64 n : jv) = false) -> 0 <= ttl ->
  from_str put_args (j_print (cache_put_request key value ttl))
    = Ok (key, base64_encode value, Z.min (as_millis ttl) u64_max)
  /\ from_str store_args (j_print (store_content_request bytes mime (Some ttl)))
    = Ok (base64_encode bytes, mime, Some (as_millis ttl mod 2 ^ 64))
  /\ from_str store_args (j_print (store_content_request bytes mime (Some (2 ^ 64 * 1000000))))
    = Ok (base64_encode bytes, mime, Some 0).
Proof.
  intros Hn Ht. split; [by apply put_args_print|]. rewrite !store_args_print by done. split; [done|].
  unfold as_u64, as_millis. simpl. by rewrite Z.div_mul, Z.mod_same by done.
Qed.

(** ** Metric points *)

Lemma as_labels_print (l : list (string * string)) : as_labels (Some (j_labels l : jv)) = Some l.
Proof.
  unfold as_labels, j_labels. rewrite j_as_arr_arr. apply mapM_Some.
  induction l as [|[k v] l IH]; simpl; constructor; [|done].
  unfold as_label. simpl. by rewrite j_as_arr_arr, !j_as_str_str.
Qed.

(** Values that survive JSON: counters of 64 bits, doubles that decode. *)
Definition point_ok (p : MetricPoint) : Prop :=
  match p with
  | Counter _ value _ => 0 <= value <= u64_max
  | Gauge _ value _ | Histogram _ value _ => from_value (to_value value : jv) = Some value
  end.

(** A tagged object's fields, and what the variants make of them. *)
Lemma tagged_fields_obj kind name (value : jv) labels :
  tagged_fields (j_obj {["kind" := j_str kind; "name" := j_str name; "value" := value;
                         "labels" := j_labels labels]}%string)
  = Some (kind, [Some (j_str name); Some value; Some (j_labels labels)]).
Proof.
  unfold tagged_fields. rewrite j_as_obj_obj. read_struct. unfold field_str. simpl. by rewrite j_as_str_str.
Qed.

Lemma metric_fields_print {A} (value_of : option jv -> option A)
    (make : string -> A -> list (string * string) -> MetricPoint) name v labels :
  metric_fields value_of make [Some (j_str name); v; Some (j_labels labels)]
  = (fun a => make name a labels) <$> value_of v.
Proof.
  unfold metric_fields, field_str. rewrite as_labels_print. simpl. rewrite j_as_str_str.
  by destruct (value_of v).
Qed.

#[local] Arguments metric_fields : simpl never.

Lemma metric_point_read (p : MetricPoint) : point_ok p -> from_value (to_value p : jv) = Some p.
Proof.
  intros H. unfold from_value, metric_point_deserialize.
  destruct p as [name value labels|name value labels|name value labels]; simpl in H;
    unfold to_value, metric_point_serialize; rewrite tagged_fields_obj; simpl; rewrite metric_fields_print.
  - by rewrite field_u64_print.
  - unfold field. simpl. by rewrite H.
  - unfold field. simpl. by rewrite H.
Qed.

(** A double that prints as null, as serde_json prints NaN and the infinities,
    is lost on the wire: the point does not decode. *)
Lemma metric_point_lost name (value : f64) labels :
  to_value value = (j_null : jv) -> from_value (A := f64) (j_null : jv) = None ->
  from_value (A := MetricPoint) (to_value (Gauge name value labels) : jv) = None.
Proof.
  intros Hv Hn. unfold from_value at 1, metric_point_deserialize, to_value at 1, metric_point_serialize.
  rewrite tagged_fields_obj. simpl. rewrite metric_fields_print. unfold field. simpl. by rewrite Hv, Hn.
Qed.

(** ** Parity of the two backends *)

(** The bridge behind the vtable: it reads the texts it is given, calls the
    service under its alias and answers in the result envelope. What the handle
    prints and reads on its side is what is proved. *)
Definition answers {A A' R} `{!Deserialize jv A} `{!Deserialize jv R} (conv : A' -> A)
    (slot : W * string) (service : W * result A' R) : Prop :=
  slot.1 = service.1 /\ decode_result_envelope slot.2 = Ok (map_ok conv service.2).

Class FaithfulBridge (v : HostVTable jv W) (s : HostServices jv W) (a : string)
    (wire_of_secret : SecretValue -> SecretValueWire) : Prop := {
  fb_wire_of_secret x : secret_of_wire (wire_of_secret x) = x;
  fb_base64 l : Forall (fun n => 0 <= n <= 255) l -> base64_decode (base64_encode l) = Ok l;
  fb_content_bytes binding key uri w l :
    (sv_cache_get s a binding key w).2 = Ok (Some l) \/ (sv_fetch_content s a uri w).2 = Ok (Some l) ->
    Forall (fun n => 0 <= n <= 255) l;
  fb_secret uri w : answers wire_of_secret (hv_resolve_secret v uri w) (sv_resolve_secret s a uri w);
  fb_credentials value text (identity : option PluginIdentity) w :
    from_str from_value text = Ok identity ->
    let svc := sv_resolve_credentials s a value identity w in
    answers (fun n => (svc.2.1, n)) (hv_resolve_credentials v (j_print value) text w) (svc.1, svc.2.2);
  fb_cache_get binding key w :
    answers (option_map base64_encode) (hv_cache_get v binding key w) (sv_cache_get s a binding key w);
  fb_cache_put binding text key b64 ms value w :
    from_str put_args text = Ok (key, b64, ms) -> base64_decode b64 = Ok value ->
    answers id (hv_cache_put v binding text w) (sv_cache_put s a binding key value (ms * 1000000) w);
  fb_fetch uri w : answers (option_map base64_encode) (hv_fetch_content v uri w) (sv_fetch_content s a uri w);
  fb_store text b64 mime ms bytes w :
    from_str store_args text = Ok (b64, mime, ms) -> base64_decode b64 = Ok bytes ->
    answers id (hv_store_content v text w)
      (sv_store_content s a bytes mime ((fun ms => ms * 1000000) <$> ms) w);
  fb_invoke (ctx : BackendInvocationContext) tool args w :
    answers id (hv_invoke_tool v (to_string ctx) tool (j_print args) w) (sv_invoke_tool s ctx tool args w);
  fb_issue uri text (identity : PluginIdentity) w :
    from_str from_value text = Ok identity ->
    answers id (hv_issue_credential v uri text w) (sv_issue_credential s a uri identity w);
  fb_config uri w : answers id (hv_config_snapshot v uri w) (sv_config_snapshot s a uri w);
  fb_audit text (event : AuditEvent) w :
    from_str from_value text = Ok event ->
    answers id (hv_audit_event v text w) (sv_audit_event s a event w);
  fb_metric text (point : MetricPoint) w :
    from_str from_value text = Ok point -> hv_metric_emit v text w = sv_metric_emit s a (into_host point) w;
  fb_span_start name text attrs w :
    from_str Some text = Ok attrs -> hv_span_start v name text w = sv_span_start s a name attrs w;
  fb_span_event id name text attrs w :
    from_str Some text = Ok attrs -> hv_span_event v id name text w = sv_span_event s id name attrs w;
}.

(** The calls that send or read a text. *)
Inductive host_op :=
| HSecret (uri : string)
| HCredentials (value : jv) (identity : option PluginIdentity)
| HCacheGet (binding key : string)
| HCachePut (binding key : string) (value : list Z) (ttl : Z)
| HFetch (uri : string)
| HStore (bytes : list Z) (mime : string) (ttl : option Z)
| HInvoke (ctx : BackendInvocationContext) (tool : string) (args : jv)
| HIssue (uri : string) (identity : PluginIdentity)
| HConfig (uri : string)
| HAudit (event : AuditEvent)
| HMetric (point : MetricPoint)
| HSpan (name : string) (attrs : jv)
| HSpanEvent (id : Z) (name : string) (attrs : jv).

Inductive host_answer :=
| HaSecret (r : result SecretValue SecretError)
| HaCredentials (r : jv * result Z BackendHostError)
| HaContent (r : result (option (list Z)) BackendHostError)
| HaUnit (r : result unit BackendHostError)
| HaResource (r : result BackendResource BackendHostError)
| HaValue (r : result jv BackendHostError)
| HaCredential (r : result IssuedCredential CredentialError)
| HaSnapshot (r : result ConfigSnapshot ConfigError)
| HaReceipt (r : result AuditReceipt AuditError)
| HaSpan (id : Z)
| HaNothing.

(** One call, its answer tagged. *)
Definition tag {A} (f : A -> host_answer) (r : W * A) : W * host_answer := (r.1, f r.2).
Definition host_call (h : HostHandle jv W) (o : host_op) (w : W) : W * host_answer :=
  match o with
  | HSecret uri => tag HaSecret (resolve_secret h uri w)
  | HCredentials value identity => tag HaCredentials (resolve_credentials h value identity w)
  | HCacheGet binding key => tag HaContent (cache_get h binding key w)
  | HCachePut binding key value ttl => tag HaUnit (cache_put h binding key value ttl w)
  | HFetch uri => tag HaContent (fetch_content h uri w)
  | HStore bytes mime ttl => tag HaResource (store_content h bytes mime ttl w)
  | HInvoke ctx tool args => tag HaValue (invoke_tool h ctx tool args w)
  | HIssue uri identity => tag HaCredential (issue_credential h uri identity w)
  | HConfig uri => tag HaSnapshot (config_snapshot h uri w)
  | HAudit event => tag HaReceipt (audit_event h event w)
  | HMetric point => (emit_metric h point w, HaNothing)
  | HSpan name attrs => tag (fun g => HaSpan (span_id g)) (span h name attrs w)
  | HSpanEvent id name attrs => (span_event h id name attrs w, HaNothing)
  end.

(** Whole milliseconds of 64 bits. *)
Definition whole_millis (ttl : Z) : Prop := exists ms, 0 <= ms <= u64_max /\ ttl = ms * 1000000.
Definition are_bytes (l : list Z) : Prop := Forall (fun n => 0 <= n <= 255) l.

Definition op_ok (o : host_op) : Prop :=
  match o with
  | HCachePut _ _ value ttl => are_bytes value /\ whole_millis ttl
  | HStore bytes _ ttl => are_bytes bytes /\ match ttl with Some d => whole_millis d | None => True end
  | HMetric point => point_ok point
  | _ => True
  end.

Lemma whole_millis_back ttl : whole_millis ttl ->
  0 <= ttl /\ as_millis ttl * 1000000 = ttl /\ as_millis ttl <= u64_max /\ as_u64 (as_millis ttl) = as_millis ttl.
Proof.
  intros (ms & Hms & ->). unfold as_millis. rewrite Z.div_mul by done. unfold as_u64, u64_max in *.
  split_and!; [lia|done|lia|]. apply Z.mod_small. lia.
Qed.

Lemma answers_reading {A A' R B} `{!Deserialize jv A} `{!Deserialize jv R} (conv : A' -> A) slot service
    (f : string -> B) (g : result A R -> B) :
  answers conv slot service ->
  (forall s r, decode_result_envelope s = Ok r -> f s = g r) ->
  reading f slot = (service.1, g (map_ok conv service.2)).
Proof. intros [H1 H2] Hf. unfold reading. by rewrite H1, (Hf _ _ H2). Qed.

Lemma decoded_or_ok {A R} `{!Deserialize jv A} `{!Deserialize jv R} (f : string -> R) s (r : result A R) :
  decode_result_envelope s = Ok r -> decoded_or f s = r.
Proof. intros H. unfold decoded_or. by rewrite H. Qed.

Lemma content_answer binding key uri what svc slot (v : HostVTable jv W) (s : HostServices jv W) a wire w
    `{!FaithfulBridge v s a wire} :
  answers (option_map base64_encode) slot svc ->
  svc = sv_cache_get s a binding key w \/ svc = sv_fetch_content s a uri w ->
  reading (decode_content what) slot = svc.
Proof.
  intros Ha Hs. rewrite (answers_reading (option_map base64_encode) slot svc _ (fun r => match r with
      | Ok (Some s) => match base64_decode s with
                       | Ok bytes => Ok (Some bytes)
                       | Err e => Err (host_transport (what ++ ": bad base64: " ++ e)%string)
                       end
      | Ok None => Ok None
      | Err e => Err e
      end)); [|exact Ha|].
  - destruct svc as [w' [[l|]|e]]; simpl; [|done..]. rewrite fb_base64; [done|].
    apply (fb_content_bytes binding key uri w). destruct Hs as [<-| <-]; auto.
  - intros t r Hr. unfold decode_content. by rewrite (decoded_or_ok _ _ _ Hr).
Qed.

(** The value given to [resolve_credentials] as a failed call over the vtable
    leaves it: untouched. In process the services have it in their hands. *)
Definition untouched (o : host_op) (a : host_answer) : host_answer :=
  match o, a with
  | HCredentials value _, HaCredentials (_, Err e) => HaCredentials (value, Err e)
  | _, _ => a
  end.

Section Parity.
Context `{!SerdeRoundtrip jv (option PluginIdentity)} `{!SerdeRoundtrip jv PluginIdentity}.
Context `{!SerdeRoundtrip jv AuditEvent}.
Hypothesis numbers_not_null : forall n, j_is_null (j_u64 n : jv) = false.

Lemma plain_answer {A R} `{!Deserialize jv A} `{!Deserialize jv R} (f : string -> R) slot
    (svc : W * result A R) : answers id slot svc -> reading (decoded_or f) slot = svc.
Proof.
  intros H. rewrite (answers_reading id slot svc _ id H (decoded_or_ok f)).
  by destruct svc as [w' []].
Qed.

Lemma secret_answer wire slot svc : (forall x, secret_of_wire (wire x) = x) ->
  answers wire slot svc -> reading decode_secret_envelope slot = svc.
Proof.
  intros Hw H. rewrite (answers_reading wire slot svc _ (map_ok secret_of_wire) H).
  - destruct svc as [w' []]; simpl; [by rewrite Hw|done].
  - intros t r Hr. unfold decode_secret_envelope. by rewrite (decoded_or_ok _ _ _ Hr).
Qed.

Lemma credentials_answer v s a wire `{!FaithfulBridge v s a wire} value identity w :
  resolve_credentials (HostFfi v) value identity w
  = let svc := sv_resolve_credentials s a value identity w in
    (svc.1, match svc.2 with (_, Err e) => (value, Err e) | r => r end).
Proof.
  simpl.
  rewrite (answers_reading _ _ _ _ (fun r => match r with
      | Ok (value', count) => (value', Ok count)
      | Err e => (value, Err e)
      end) (fb_credentials value (to_string identity) identity w (from_str_print _ _ _ (from_to_value identity)))).
  - simpl. by destruct (sv_resolve_credentials s a value identity w) as [w' [value' [n|e]]].
  - intros t r Hr. by rewrite (decoded_or_ok _ _ _ Hr).
Qed.

Lemma store_answer v s a wire `{!FaithfulBridge v s a wire} bytes mime ttl w :
  are_bytes bytes -> match ttl with Some d => whole_millis d | None => True end ->
  answers id (hv_store_content v (j_print (store_content_request bytes mime ttl)) w)
    (sv_store_content s a bytes mime ttl w).
Proof.
  intros Hb Ht.
  assert (ttl = (fun ms => ms * 1000000) <$> ((fun d => as_u64 (as_millis d)) <$> ttl)) as Hback.
  { destruct ttl as [d|]; [|done]. apply whole_millis_back in Ht as (_ & Hm & _ & Hu). simpl. by rewrite Hu, Hm. }
  rewrite Hback at 2. eapply fb_store; [by apply store_args_print|by apply fb_base64].
Qed.

Lemma parity_step v s a c wire `{!FaithfulBridge v s a wire} o w :
  op_ok o ->
  host_call (HostFfi v) o w
  = ((host_call (HostInProcess a s c true) o w).1, untouched o (host_call (HostInProcess a s c true) o w).2).
Proof.
  intros Ho. destruct o; simpl in Ho; cbn [host_call tag fst snd untouched];
    lazymatch goal with
    | |- tag HaCredentials _ = _ => idtac
    | |- tag (fun _ => HaSpan _) _ = _ => idtac
    | |- tag ?f _ = _ => apply (f_equal (tag f))
    | _ => apply (f_equal (fun w => (w, HaNothing)))
    end.
  - apply (secret_answer wire); [apply fb_wire_of_secret|apply fb_secret].
  - rewrite (credentials_answer v s a wire). unfold tag. simpl.
    by destruct (sv_resolve_credentials s a value identity w) as [w' [value' [n|e]]].
  - apply (content_answer binding key ""%string _ _ _ v s a wire w); [apply fb_cache_get|by left].
  - destruct Ho as [Hb (H0 & Hm & Hmax & _)%whole_millis_back].
    apply plain_answer. simpl. rewrite <- Hm at 2. eapply fb_cache_put; [|by apply fb_base64].
    by rewrite put_args_print, Z.min_l.
  - apply (content_answer ""%string ""%string uri _ _ _ v s a wire w); [apply fb_fetch|by right].
  - destruct Ho as [Hb Ht]. by apply plain_answer, (store_answer v s a wire).
  - apply plain_answer, fb_invoke.
  - apply plain_answer, fb_issue, from_str_print, from_to_value.
  - apply plain_answer, fb_config.
  - apply plain_answer, fb_audit, from_str_print, from_to_value.
  - apply fb_metric, from_str_print. by apply metric_point_read.
  - unfold tag, span. erewrite fb_span_start by (by apply from_str_print).
    by destruct (sv_span_start s a name attrs w).
  - simpl. by erewrite fb_span_event by (by apply from_str_print).
Qed.

(** What a service does to the value before it fails stays with the plugin in
    process and is lost over the vtable. *)
Lemma failed_credentials_differ v s a c wire `{!FaithfulBridge v s a wire} value identity w w' value' e :
  sv_resolve_credentials s a value identity w = (w', (value', Err e)) ->
  resolve_credentials (HostFfi v) value identity w = (w', (value, Err e))
  /\ resolve_credentials (HostInProcess a s c true) value identity w = (w', (value', Err e)).
Proof. intros H. rewrite (credentials_answer v s a wire). simpl. by rewrite H. Qed.

(** C27. The parity of the handle's two backends: over a bridge that reads its
    texts, calls the services and answers in the result envelope, every
    sequence of the calls that send or read a text leaves the host in the state
    that direct dispatch into the services gives, and gives the plugin the same
    answers, but for the value of a failed credential resolution: over the
    vtable it is as it was, in process as the services left it. The bytes
    stored are bytes, their times to live are whole milliseconds in 64 bits,
    and the metric values such that JSON can carry them. *)
Theorem host_parity v s a c wire `{!FaithfulBridge v s a wire} ops w :
  Forall op_ok ops ->
  let direct := session (host_call (HostInProcess a s c true)) ops w in
  session (host_call (HostFfi v)) ops w = (direct.1, zip_with untouched ops direct.2).
Proof.
  intros Ho. apply session_agree. eapply Forall_impl; [exact Ho|]. intros o H p. by eapply parity_step.
Qed.
End Parity.

(** ** Failures *)

(** The slot a fallible call goes through, and its text. *)
Definition slot_text (v : HostVTable jv W) (o : host_op) (w : W) : option (W * string) :=
  match o with
  | HSecret uri => Some (hv_resolve_secret v uri w)
  | HCredentials value identity => Some (hv_resolve_credentials v (j_print value) (to_string identity) w)
  | HCacheGet binding key => Some (hv_cache_get v binding key w)
  | HCachePut binding key value ttl => Some (hv_cache_put v binding (j_print (cache_put_request key value ttl)) w)
  | HFetch uri => Some (hv_fetch_content v uri w)
  | HStore bytes mime ttl => Some (hv_store_content v (j_print (store_content_request bytes mime ttl)) w)
  | HInvoke ctx tool args => Some (hv_invoke_tool v (to_string ctx) tool (j_print args) w)
  | HIssue uri identity => Some (hv_issue_credential v uri (to_string identity) w)
  | HConfig uri => Some (hv_config_snapshot v uri w)
  | HAudit event => Some (hv_audit_event v (to_string event) w)
  | _ => None
  end.

(** An answer that reports a failure; the value given to [resolve_credentials]
    is as it was. *)
Definition failed (o : host_op) (a : host_answer) : Prop :=
  match a with
  | HaSecret (Err _) | HaContent (Err _) | HaUnit (Err _) | HaResource (Err _) | HaValue (Err _)
  | HaCredential (Err _) | HaSnapshot (Err _) | HaReceipt (Err _) => True
  | HaCredentials (value, Err _) => exists identity, o = HCredentials value identity
  | _ => False
  end.

Lemma decoded_or_bad {A R} `{!Deserialize jv A} `{!Deserialize jv R} (f : string -> R) s :
  is_ok (decode_envelope s) = false -> exists e, decoded_or (A := A) f s = Err e.
Proof.
  intros H. unfold decoded_or, decode_result_envelope. destruct (decode_envelope s); [done|]. by eexists.
Qed.

(** C37. A host call that cannot be made or read fails: without a runtime the
    services are not called at all, and an answer that is no result envelope,
    the empty text of a bridge that panicked included, is an error whatever
    was asked; in both cases credentials leave the value as it was. *)
Theorem host_calls_fail_closed (v : HostVTable jv W) (s : HostServices jv W) a c o w q text :
  slot_text v o w = Some (q, text) ->
  ((host_call (HostInProcess a s c false) o w).1 = w /\ failed o (host_call (HostInProcess a s c false) o w).2)
  /\ (is_ok (decode_envelope text) = false ->
     (host_call (HostFfi v) o w).1 = q /\ failed o (host_call (HostFfi v) o w).2).
Proof.
  intros Ht. split.
  - destruct o; simpl in Ht |- *; try done; (split; [done|]). by eexists.
  - intros Hbad. destruct o; simpl in Ht |- *; simplify_eq; unfold reading; rewrite Ht; simpl;
      (split; [done|]); unfold decode_secret_envelope, decode_content;
      match goal with
      | |- context [decoded_or (A := ?A) ?f text] => destruct (decoded_or_bad (A := A) f text Hbad) as [e' ->]
      end; simpl; try done; by eexists.
Qed.
End HostFacts.

(** ** Callbacks *)

(** A plugin has a guard, or is dropping it: the call to the host's unsubscribe
    is under way, begun inside a call of some callback or outside of all. *)
Inductive guard_state := Held | Dropping (inside : option nat).

(** A run of one plugin's subscriptions: the host accepts with a number not in
    use or declines with 0 and calls what it holds, from any thread; the plugin
    drops its guards, in its callbacks too. [None] is a call or a free that
    touched a freed box, or a free of one a callback borrows. *)
Record subs := { world_ : sub_world; guards : gmap nat (FfiSubGuard * guard_state) }.

Inductive sub_event :=
| Subscribed (k : nat) (ptr id : Z)
| CallStarted (call : nat) (id : Z)
| CallReturned (call : nat)
| DropBegun (k : nat) (inside : option nat)
| DropEnded (k : nat).

(** What the allocator, the threads and the host promise of an event: a call is
    not over before a drop begun inside it; and, when the host [waits], its
    unsubscribe does not return while it is inside the callback, as the comments
    on the trampoline and on the guard's drop have it. *)
Definition allowed (waits : bool) (s : subs) (e : sub_event) : Prop :=
  match e with
  | Subscribed k ptr id =>
      guards s !! k = None /\ (ptr ∉ boxes (world_ s)) /\ (id <> 0 -> registered (world_ s) !! id = None)
  | CallStarted call id => running (world_ s) !! call = None /\ is_Some (registered (world_ s) !! id)
  | CallReturned call =>
      is_Some (running (world_ s) !! call) /\ forall k g, guards s !! k <> Some (g, Dropping (Some call))
  | DropBegun k inside =>
      (exists g, guards s !! k = Some (g, Held))
      /\ match inside with Some call => is_Some (running (world_ s) !! call) | None => True end
  | DropEnded k => exists g inside, guards s !! k = Some (g, Dropping inside)
      /\ (waits = true -> sub_id g <> 0 -> unborrowed (cb_ctx g) (world_ s))
  end.

Definition with_world (s : subs) (w : sub_world) : subs := {| world_ := w; guards := guards s |}.

Definition sub_step (s : subs) (e : sub_event) : option subs :=
  match e with
  | Subscribed k ptr id =>
      let '(w, g) := subscribe_host ptr id (world_ s) in
      Some {| world_ := w; guards := <[k := (g, Held)]> (guards s) |}
  | CallStarted call id =>
      match registered (world_ s) !! id with
      | Some ptr => with_world s <$> tramp_enter call ptr (world_ s)
      | None => Some s
      end
  | CallReturned call => Some (with_world s (tramp_return call (world_ s)))
  | DropBegun k inside =>
      match guards s !! k with
      | Some (g, Held) =>
          Some {| world_ := sub_guard_unsubscribe g (world_ s); guards := <[k := (g, Dropping inside)]> (guards s) |}
      | _ => Some s
      end
  | DropEnded k =>
      match guards s !! k with
      | Some (g, Dropping _) =>
          (fun w => {| world_ := w; guards := delete k (guards s) |}) <$> sub_guard_free g (world_ s)
      | _ => Some s
      end
  end.

Inductive sub_run (waits : bool) : subs -> subs -> Prop :=
| sub_done s : sub_run waits s s
| sub_more s e s' s'' : allowed waits s e -> sub_step s e = Some s' -> sub_run waits s' s'' -> sub_run waits s s''.

Definition no_subs : subs := {| world_ := {| boxes := ∅; registered := ∅; running := ∅ |}; guards := ∅ |}.

(** A guard that owns box [ptr]. *)
Definition owner (s : subs) (ptr : Z) (k : nat) (g : FfiSubGuard) (st : guard_state) : Prop :=
  guards s !! k = Some (g, st) /\ cb_ctx g = ptr.

(** Each guard owns its box alone; what the host holds is some guard's that is
    not being dropped; what runs borrows some guard's box; and a call inside
    which a drop has begun is still running. *)
Record subs_ok (s : subs) : Prop := {
  so_owned ptr : ptr ∈ boxes (world_ s) <-> exists k g st, owner s ptr k g st;
  so_alone ptr k1 k2 g1 g2 st1 st2 : owner s ptr k1 g1 st1 -> owner s ptr k2 g2 st2 -> k1 = k2;
  so_held id ptr : registered (world_ s) !! id = Some ptr ->
    id <> 0 /\ exists k, guards s !! k = Some ({| sub_id := id; cb_ctx := ptr |}, Held);
  so_registered k g : guards s !! k = Some (g, Held) -> sub_id g <> 0 ->
    registered (world_ s) !! sub_id g = Some (cb_ctx g);
  so_running call ptr : running (world_ s) !! call = Some ptr ->
    exists k g st, owner s ptr k g st /\ sub_id g <> 0;
  so_inside k g call : guards s !! k = Some (g, Dropping (Some call)) -> is_Some (running (world_ s) !! call);
}.

Lemma no_subs_ok : subs_ok no_subs.
Proof.
  split; simpl; intros; try done.
  - split; [set_solver|by intros (k & g & st & [? _])].
  - by destruct H.
Qed.

(** The steps, one by one. *)
Definition safe_step (waits : bool) (s : subs) (e : sub_event) : Prop :=
  subs_ok s -> allowed waits s e -> exists s', sub_step s e = Some s' /\ subs_ok s'.

Lemma subscribed_ok waits s k ptr id : safe_step waits s (Subscribed k ptr id).
Proof.
  intros [Ho Ha Hh Hr Hn Hi] (Hk & Hptr & Hid). eexists. split; [reflexivity|]. simpl.
  assert (forall k' g st, guards s !! k' = Some (g, st) -> k' <> k /\ cb_ctx g <> ptr) as Hne.
  { intros k' g st Hg. split; [congruence|]. intros Heq. apply Hptr, Ho. by exists k', g, st. }
  split; unfold owner; simpl.
  - intros p. rewrite elem_of_union, elem_of_singleton, Ho. split.
    + intros [->|(k' & g & st & Hg & Hc)].
      * exists k. do 2 eexists. rewrite lookup_insert_eq. by split.
      * exists k', g, st. split; [|done]. rewrite lookup_insert_ne; [done|]. by destruct (Hne _ _ _ Hg).
    + intros (k' & g & st & [[<- [= <- <-]]|[_ Hg]]%lookup_insert_Some & Hc); [by left|]. right. by exists k', g, st.
  - intros p k1 k2 g1 g2 st1 st2 [[[<- [= <- <-]]|[_ H1]]%lookup_insert_Some Hc1]
      [[[<- [= <- <-]]|[_ H2]]%lookup_insert_Some Hc2]; simpl in *; subst; [done|by apply Hne in H2 as []|by apply Hne in H1 as []|].
    by eapply Ha.
  - assert (forall i p, registered (world_ s) !! i = Some p ->
        i <> 0 /\ exists k', <[k := ({| sub_id := id; cb_ctx := ptr |}, Held)]> (guards s) !! k'
                              = Some ({| sub_id := i; cb_ctx := p |}, Held)) as Hold.
    { intros i p (Hz & k' & Hg)%Hh. split; [done|]. exists k'. rewrite lookup_insert_ne; [done|]. by destruct (Hne _ _ _ Hg). }
    intros i p Hp. destruct (Z.eqb_spec id 0); [by apply Hold|].
    apply lookup_insert_Some in Hp as [[<- <-]|[_ Hp]]; [|by apply Hold].
    split; [done|]. exists k. by rewrite lookup_insert_eq.
  - intros k' g [[<- [= <-]]|[_ Hg]]%lookup_insert_Some Hz; simpl in *.
    + rewrite (proj2 (Z.eqb_neq id 0)) by done. by rewrite lookup_insert_eq.
    + destruct (Z.eqb_spec id 0); [by apply (Hr k')|]. rewrite lookup_insert_ne; [by apply (Hr k')|].
      intros ->. rewrite (Hr k' g Hg Hz) in Hid. by discriminate Hid.
  - intros call p (k' & g & st & [Hg Hc] & Hz)%Hn. exists k', g, st. split; [|done]. split; [|done].
    rewrite lookup_insert_ne; [done|]. by destruct (Hne _ _ _ Hg).
  - intros k' g call [[_ [=]]|[_ Hg]]%lookup_insert_Some. by eapply Hi.
Qed.

Lemma call_started_ok waits s call id : safe_step waits s (CallStarted call id).
Proof.
  intros [Ho Ha Hh Hr Hn Hi] (Hc & ptr & Hp). simpl. rewrite Hp.
  destruct (Hh id ptr Hp) as (Hz & k & Hg).
  unfold tramp_enter. rewrite decide_True by (apply Ho; by exists k; do 2 eexists).
  eexists. split; [reflexivity|]. split; try done; simpl.
  - intros c p [[<- <-]|[_ Hr']]%lookup_insert_Some; [|by eapply Hn]. exists k. do 2 eexists. by split.
  - intros k' g' c Hg'. destruct (decide (c = call)) as [->|Hne].
    + rewrite lookup_insert_eq. by eexists.
    + rewrite lookup_insert_ne by done. by eapply Hi.
Qed.

Lemma call_returned_ok waits s call : safe_step waits s (CallReturned call).
Proof.
  intros [Ho Ha Hh Hr Hn Hi] [_ Hno]. eexists. split; [reflexivity|]. split; try done; simpl.
  - intros c p [_ Hp]%lookup_delete_Some. by eapply Hn.
  - intros k g c Hg. rewrite lookup_delete_ne; [by eapply Hi|]. intros ->. by eapply Hno.
Qed.

Lemma drop_begun_ok waits s k inside : safe_step waits s (DropBegun k inside).
Proof.
  intros [Ho Ha Hh Hr Hn Hi] [[g Hg] Hin]. simpl. rewrite Hg.
  set (w := sub_guard_unsubscribe g (world_ s)).
  assert (boxes w = boxes (world_ s) /\ running w = running (world_ s)) as [Hb Hrun]
    by (unfold w, sub_guard_unsubscribe; by destruct (sub_id g =? 0)).
  assert (forall i p, registered w !! i = Some p <-> i <> sub_id g /\ registered (world_ s) !! i = Some p) as Hw.
  { intros i p. unfold w, sub_guard_unsubscribe. destruct (Z.eqb_spec (sub_id g) 0) as [->|Hz].
    - split; [|by intros [_ ?]]. intros Hp. split; [|done]. by apply Hh in Hp as [? _].
    - simpl. rewrite lookup_delete_Some. split; intros [? ?]; split; congruence. }
  eexists. split; [reflexivity|].
  assert (forall p k' g' st', owner {| world_ := w; guards := <[k := (g, Dropping inside)]> (guards s) |} p k' g' st'
            -> exists st, owner s p k' g' st) as Hown.
  { intros p k' g' st' [Hg' Hc]. simpl in Hg'.
    apply lookup_insert_Some in Hg' as [[<- [= <- _]]|[_ Hg']]; [by exists Held|by exists st']. }
  assert (forall p k' g' st', owner s p k' g' st' ->
            exists st, owner {| world_ := w; guards := <[k := (g, Dropping inside)]> (guards s) |} p k' g' st) as Hown'.
  { intros p k' g' st' [Hg' Hc]. unfold owner. simpl. destruct (decide (k' = k)) as [->|Hne].
    - exists (Dropping inside). rewrite lookup_insert_eq. by simplify_eq.
    - exists st'. by rewrite lookup_insert_ne. }
  split; simpl.
  - intros p. rewrite Hb, Ho. split; intros (k' & g' & st' & H).
    + destruct (Hown' _ _ _ _ H) as [st ?]. by exists k', g', st.
    + destruct (Hown _ _ _ _ H) as [st ?]. by exists k', g', st.
  - intros p k1 k2 g1 g2 st1 st2 [t1 H1]%Hown [t2 H2]%Hown. by eapply Ha.
  - intros i p [Hne Hp]%Hw. apply Hh in Hp as (Hz & k' & Hg'). split; [done|]. exists k'.
    rewrite lookup_insert_ne; [done|]. intros ->. by simplify_eq.
  - intros k' g' [[_ [=]]|[Hk Hg']]%lookup_insert_Some Hz. apply Hw. split; [|by apply (Hr k')].
    intros Heq. apply Hk. pose proof (Hr k' g' Hg' Hz) as H1.
    pose proof (Hr k g Hg ltac:(congruence)) as H2. rewrite Heq, H2 in H1.
    apply (Ha (cb_ctx g) k k' g g' Held Held); split; congruence.
  - rewrite Hrun. intros c p (k' & g' & st' & H & Hz)%Hn. destruct (Hown' _ _ _ _ H) as [st ?]. by exists k', g', st.
  - rewrite Hrun. intros k' g' c [[_ [= _ ->]]|[_ Hg']]%lookup_insert_Some; [done|by eapply Hi].
Qed.

Lemma drop_ended_ok s k : safe_step true s (DropEnded k).
Proof.
  intros [Ho Ha Hh Hr Hn Hi] (g & inside & Hg & Hfree). simpl. rewrite Hg.
  assert (unborrowed (cb_ctx g) (world_ s)) as Hb.
  { destruct (decide (sub_id g = 0)) as [Hz|Hz]; [|by apply Hfree].
    intros c p Hp ->. apply Hn in Hp as (k' & g' & st & Hown & Hz').
    assert (k' = k) as -> by (by eapply Ha; [exact Hown|]; split). destruct Hown. by simplify_eq. }
  unfold sub_guard_free, free_box. rewrite decide_True by (split; [apply Ho; by exists k; do 2 eexists|done]).
  eexists. split; [reflexivity|].
  assert (forall p k' g' st, p <> cb_ctx g -> owner s p k' g' st -> delete k (guards s) !! k' = Some (g', st))
    as Hkeep.
  { intros p k' g' st Hne [Hg' Hc]. assert (k' <> k) by congruence. by rewrite lookup_delete_ne. }
  split; unfold owner; simpl.
  - intros p. rewrite elem_of_difference, elem_of_singleton, Ho. split.
    + intros [(k' & g' & st & H) Hne]. exists k', g', st. split; [by apply (Hkeep p)|by destruct H].
    + intros (k' & g' & st & [Hk Hg']%lookup_delete_Some & Hc). split; [by exists k', g', st|].
      intros ->. apply Hk. apply (Ha (cb_ctx g) k k' g g' (Dropping inside) st); by split.
  - intros p k1 k2 g1 g2 st1 st2 [[_ H1]%lookup_delete_Some Hc1] [[_ H2]%lookup_delete_Some Hc2].
    by apply (Ha p k1 k2 g1 g2 st1 st2).
  - intros i p (Hz & k' & Hg')%Hh. split; [done|]. exists k'. rewrite lookup_delete_ne; [done|]. intros ->. by simplify_eq.
  - intros k' g' [_ Hg']%lookup_delete_Some. by apply (Hr k').
  - intros c p Hp. pose proof (Hb c p Hp) as Hne. apply Hn in Hp as (k' & g' & st & H & Hz).
    exists k', g', st. split; [|done]. split; [by apply (Hkeep p)|by destruct H].
  - intros k' g' c [_ Hg']%lookup_delete_Some. by eapply Hi.
Qed.

Lemma sub_step_ok s e : safe_step true s e.
Proof.
  destruct e; [apply subscribed_ok|apply call_started_ok|apply call_returned_ok|apply drop_begun_ok|apply drop_ended_ok].
Qed.

Lemma sub_run_ok s s' : sub_run true s s' -> subs_ok s -> subs_ok s'.
Proof.
  induction 1 as [|s e s1 s2 Hal Hst _ IH]; [done|]. intros Hok. apply IH.
  destruct (sub_step_ok s e Hok Hal) as (s3 & Hst' & Hok'). congruence.
Qed.

(** ** A guard dropped inside its own callback *)

(** The drop of [g] began inside [call], which borrows its box. *)
Definition self_drop (s : subs) (k : nat) (g : FfiSubGuard) (call : nat) : Prop :=
  guards s !! k = Some (g, Dropping (Some call)) /\ running (world_ s) !! call = Some (cb_ctx g) /\ sub_id g <> 0.

Lemma self_drop_stays s k g call e s' :
  self_drop s k g call -> allowed true s e -> sub_step s e = Some s' -> self_drop s' k g call.
Proof.
  intros (Hg & Hc & Hz) Hal Hst. destruct e as [k' ptr id|c id|c|k' inside|k']; simpl in Hal, Hst.
  - injection Hst as <-. destruct Hal as (Hk & _). split_and!; try done. simpl.
    rewrite lookup_insert_ne; [done|]. by intros ->; rewrite Hg in Hk.
  - destruct Hal as [Hn [ptr Hp]]. rewrite Hp in Hst. unfold tramp_enter in Hst.
    destruct (decide _); [|done]. injection Hst as <-. split_and!; try done. simpl.
    rewrite lookup_insert_ne; [done|]. by intros ->; rewrite Hc in Hn.
  - injection Hst as <-. destruct Hal as [_ Hno]. split_and!; try done. simpl.
    rewrite lookup_delete_ne; [done|]. intros ->. by apply (Hno k g).
  - destruct Hal as [[g' Hg'] _]. rewrite Hg' in Hst. injection Hst as <-. split_and!; try done; simpl.
    + rewrite lookup_insert_ne; [done|]. intros ->. by rewrite Hg in Hg'.
    + unfold sub_guard_unsubscribe. by destruct (sub_id g' =? 0).
  - destruct Hal as (g' & inside & Hg' & Hfree). rewrite Hg' in Hst.
    assert (k' <> k) as Hk.
    { intros ->. rewrite Hg in Hg'. injection Hg' as <- <-. by apply (Hfree eq_refl Hz call (cb_ctx g) Hc). }
    unfold sub_guard_free, free_box in Hst. destruct (decide _); [|done]. injection Hst as <-.
    split_and!; try done. simpl. by rewrite lookup_delete_ne.
Qed.

Lemma self_drop_forever s s' k g call : sub_run true s s' -> self_drop s k g call -> self_drop s' k g call.
Proof. induction 1; [done|]. eauto using self_drop_stays. Qed.

(** A host whose unsubscribe does not wait lets the drop go on, and the box is
    freed under the callback that borrows it. *)
Lemma self_drop_frees_under_callback s k g call :
  self_drop s k g call -> allowed false s (DropEnded k) /\ sub_step s (DropEnded k) = None.
Proof.
  intros (Hg & Hc & _). split; [by exists g, (Some call)|]. simpl. rewrite Hg.
  unfold sub_guard_free, free_box. rewrite decide_False; [done|]. intros [_ Hb]. by apply (Hb call (cb_ctx g) Hc).
Qed.

(** C35. However a plugin's host subscriptions, refusals, running callbacks and
    guard drops interleave, each callback and each drop taking its time, the
    next thing allowed never enters or frees a freed callback box nor frees
    one that a callback borrows, provided the host's unsubscribe returns only
    when the callback is not running, as the comments claim. The host calls no
    subscription whose guard is gone or being dropped, a running callback's box
    is alive, and once every guard is dropped no box is left, the host holds
    none and nothing runs. The price is a guard dropped inside its own
    callback: that drop and that call never end. *)
Theorem host_callbacks_safe s :
  sub_run true no_subs s ->
  (forall e, allowed true s e -> is_Some (sub_step s e))
  /\ (forall id ptr, registered (world_ s) !! id = Some ptr ->
        exists k, guards s !! k = Some ({| sub_id := id; cb_ctx := ptr |}, Held))
  /\ (forall call ptr, running (world_ s) !! call = Some ptr -> ptr ∈ boxes (world_ s))
  /\ (guards s = ∅ -> boxes (world_ s) = ∅ /\ registered (world_ s) = ∅ /\ running (world_ s) = ∅)
  /\ forall k g call s', self_drop s k g call -> sub_run true s s' -> self_drop s' k g call.
Proof.
  intros Hr. pose proof (sub_run_ok _ _ Hr no_subs_ok) as Hok. split_and!.
  - intros e He. destruct (sub_step_ok s e Hok He) as (s' & -> & _). by eexists.
  - intros id ptr Hi. apply (so_held s Hok id ptr Hi).
  - intros call ptr (k & g & st & H & _)%(so_running s Hok). apply (so_owned s Hok). by exists k, g, st.
  - intros He. assert (forall k v, guards s !! k <> Some v) as Hno by (intros k v; by rewrite He). split_and!.
    + apply set_eq. intros p. rewrite (so_owned s Hok). split; [|set_solver].
      intros (k & g & st & [Hg _]). by apply Hno in Hg.
    + apply map_empty. intros i. destruct (registered (world_ s) !! i) as [p|] eqn:Hi; [|done].
      apply (so_held s Hok) in Hi as (_ & k & Hk). by apply Hno in Hk.
    + apply map_empty. intros c. destruct (running (world_ s) !! c) as [p|] eqn:Hc; [|done].
      apply (so_running s Hok) in Hc as (k & g & st & [Hg _] & _). by apply Hno in Hg.
  - intros k g call s' Hs Hrun. by eapply self_drop_forever.
Qed.

(** ** Witnesses: a bridge over services that log *)

Module Sample.
Import Tree Wire Gates.Sample.

#[export] Instance secret_api : SecretApi jtree := {|
  SecretValueWire := string; SecretValue := string; secret_of_wire := id; SecretError := string;
  secret_backend := id; secret_unsupported_scheme := id; |}.
#[export] Instance config_api : ConfigApi jtree := {|
  ConfigSnapshot := string; ConfigError := string; config_backend := id; config_unsupported_scheme := id; |}.
#[export] Instance credential_api : CredentialApi jtree := {|
  IssuedCredential := string; CredentialError := string; credential_backend := id; |}.
#[export] Instance sink_api : SinkApi jtree := {|
  AuditEvent := string; AuditReceipt := string; AuditError := string; audit_write_failed := id;
  SinkLogRecord := string; LogError := string; SinkMetric := string; MetricsError := string;
  SpanStart := string; SpanEnd := string; TelemetryError := string; |}.

Definition tree_base64_decode (s : string) : result (list Z) string :=
  match j_parse s with
  | Ok v => match field_bytes (Some v) with Some l => Ok l | None => Err "not bytes"%string end
  | Err e => Err e
  end.

#[export] Instance host_api : HostApi jtree := {|
  credential_misconfigured := id; BackendHostError := string; host_transport := id;
  host_not_implemented := "not implemented"%string; BackendResource := string;
  BackendInvocationContext := string; initiating_backend := id; invocation_identity _ := None;
  ClusterClientRef := unit; f64 := string;
  HostMetric := string; host_counter n _ _ := n; host_gauge n _ _ := n; host_histogram n _ _ := n;
  base64_encode l := j_print (j_bytes l); base64_decode := tree_base64_decode;
|}.

(** Services that keep a log and answer something. *)
Definition services : HostServices jtree (list string) := {|
  sv_resolve_secret a uri w := (w ++ [uri], if String.eqb uri "" then Err "empty"%string else Ok uri);
  sv_resolve_credentials a value _ w :=
    (w ++ ["cred"%string], if j_is_null value then (j_str "half", Err "refused"%string) else (value, Ok 0));
  sv_cache_get _ _ key w := (w ++ [key], Ok (Some [104; 105]));
  sv_cache_put _ _ key value ttl w := (w ++ [key; pretty ttl], Ok tt);
  sv_fetch_content _ _ w := (w, Ok None);
  sv_store_content _ _ mime ttl w := (w ++ [mime; pretty (default 0 ttl)], Ok mime);
  sv_invoke_tool _ tool args w := (w ++ [tool], Ok args);
  sv_issue_credential _ uri identity w := (w, Ok identity);
  sv_config_snapshot _ uri w := (w, Ok uri);
  sv_audit_event _ event w := (w ++ [event], Ok event);
  sv_metric_emit _ m w := w ++ [m];
  sv_span_start _ name _ w := (w ++ [name], 42);
  sv_span_event _ name _ w := w ++ [name];
  sv_span_end id w := w ++ [pretty id];
|}.

(** The slots read their texts and call the services. *)
Definition enveloped {A R} `{!Serialize jtree A} `{!Serialize jtree R} (r : list string * result A R)
    : list string * string := (r.1, respond_result r.2).
Definition on_text {A} (of_value : jtree -> option A) (text : string)
    (f : A -> list string -> list string * string) (w : list string) : list string * string :=
  match from_str of_value text with Ok a => f a w | Err _ => (w, ""%string) end.

Definition bridge : HostVTable jtree (list string) := {|
  hv_alias _ := "me"%string; hv_cluster _ := None;
  hv_resolve_secret uri w := enveloped (sv_resolve_secret services "me" uri w);
  hv_resolve_credentials value identity w :=
    on_text Some value (fun value w =>
      let '(w, (value, r)) := sv_resolve_credentials services "me" value None w in
      enveloped (w, map_ok (fun n => TArr [value; TNum n]) r)) w;
  hv_cache_get b key w := enveloped (w ++ [key], Ok (Some (j_print (j_bytes [104; 105]))) : result (option string) string);
  hv_cache_put b text w :=
    on_text put_args text (fun '(key, b64, ms) w =>
      match base64_decode b64 with
      | Ok value => enveloped (sv_cache_put services "me" b key value (ms * 1000000) w)
      | Err _ => (w, ""%string)
      end) w;
  hv_fetch_content uri w := enveloped (w, Ok None : result (option string) string);
  hv_store_content text w :=
    on_text store_args text (fun '(b64, mime, ms) w =>
      match base64_decode b64 with
      | Ok bytes => enveloped (sv_store_content services "me" bytes mime ((fun ms => ms * 1000000) <$> ms) w)
      | Err _ => (w, ""%string)
      end) w;
  hv_invoke_tool ctx tool text w := on_text Some text (fun args w => enveloped (sv_invoke_tool services ctx tool args w)) w;
  hv_issue_credential uri text w :=
    on_text from_value text (fun i w => enveloped (sv_issue_credential services "me" uri i w)) w;
  hv_config_snapshot uri w := enveloped (sv_config_snapshot services "me" uri w);
  hv_audit_event text w := on_text from_value text (fun e w => enveloped (sv_audit_event services "me" e w)) w;
  hv_metric_emit text w :=
    match from_str from_value text with
    | Ok point => sv_metric_emit services "me" (into_host point) w
    | Err _ => w
    end;
  hv_span_start name text w :=
    match from_str Some text with Ok attrs => sv_span_start services "me" name attrs w | Err _ => (w, 0) end;
  hv_span_event id name text w :=
    match from_str Some text with Ok attrs => sv_span_event services id name attrs w | Err _ => w end;
  hv_span_end id w := sv_span_end services id w;
|}.

Lemma enveloped_answers {A A' R} `{SerdeRoundtrip jtree A} `{SerdeRoundtrip jtree R} (conv : A' -> A) w
    (r : result A' R) : answers conv (enveloped (w, map_ok conv r)) (w, r).
Proof.
  split; [done|]. unfold enveloped, decode_result_envelope, respond_result. cbn [snd].
  rewrite decode_respond. destruct r; simpl; by rewrite from_to_value.
Qed.

Lemma enveloped_plain {A R} `{SerdeRoundtrip jtree A} `{SerdeRoundtrip jtree R}
    (x : list string * result A R) : answers id (enveloped x) x.
Proof. destruct x as [w [a|e]]; [apply (enveloped_answers id w (Ok a))|apply (enveloped_answers id w (Err e))]. Qed.

#[export] Instance option_string_roundtrip : SerdeRoundtrip jtree (option string).
Proof. by intros []. Qed.
#[export] Instance value_roundtrip : SerdeRoundtrip jtree jtree.
Proof. done. Qed.
#[export] Instance null_roundtrip : @SerdeRoundtrip jtree unit unit_serialize null_deserialize.
Proof. by intros []. Qed.

Lemma on_text_ok {A} (of_value : jtree -> option A) text f a w :
  from_str of_value text = Ok a -> on_text of_value text f w = f a w.
Proof. intros H. unfold on_text. by rewrite H. Qed.

Ltac open_slot :=
  cbn [bridge hv_resolve_credentials hv_cache_put hv_store_content hv_invoke_tool hv_issue_credential
       hv_audit_event].

#[export] Instance bridge_faithful : FaithfulBridge bridge services "me" (id : string -> string).
Proof.
  constructor; try done.
  - intros l Hl. change (tree_base64_decode (j_print (j_bytes l)) = Ok l). unfold tree_base64_decode. rewrite j_parse_print. by rewrite field_bytes_bytes.
  - intros b k u w l [[= <-]|[=]]. repeat constructor; lia.
  - intros uri w. apply enveloped_plain.
  - intros value text i w _. open_slot. erewrite on_text_ok by (by apply from_str_print).
    cbn [services sv_resolve_credentials]. destruct (j_is_null value); (split; [done|]);
      unfold decode_result_envelope, enveloped, respond_result; cbn -[decode_envelope respond_value];
      by rewrite decode_respond.
  - intros b text k b64 ms value w Ht Hb. open_slot. erewrite on_text_ok by done. cbn beta iota. rewrite Hb.
    apply enveloped_plain.
  - intros text b64 mime ms bytes w Ht Hb. open_slot. erewrite on_text_ok by done. cbn beta iota. rewrite Hb.
    apply enveloped_plain.
  - intros ctx tool args w. open_slot. erewrite on_text_ok by (by apply from_str_print).
    apply enveloped_plain.
  - intros uri text i w Ht. open_slot. erewrite on_text_ok by done. apply enveloped_plain.
  - intros uri w. apply enveloped_plain.
  - intros text e w Ht. open_slot. erewrite on_text_ok by done. apply enveloped_plain.
  - intros text p w Ht. simpl. by rewrite Ht.
  - intros name text attrs w Ht. simpl. by rewrite Ht.
  - intros id_ name text attrs w Ht. simpl. by rewrite Ht.
Qed.

Definition ops : list (host_op (jv := jtree)) :=
  [HSecret "vault://x"; HCacheGet "b" "k"; HCachePut "b" "k2" [1; 2] 5000000;
   HMetric (Counter "hits" 1 [("route", "/v1")%string]); HSpan "s" j_null; HCredentials j_null None].

(** The value a failed resolution leaves, and why it failed. *)
Definition refusal (a : host_answer (jv := jtree)) : option (jtree * string) :=
  match a with HaCredentials (v, Err e) => Some (v, e) | _ => None end.

Lemma host_parity_witness :
  (session (host_call (HostFfi bridge)) ops []).1
    = ["vault://x"; "k"; "k2"; "5000000"; "hits"; "s"; "cred"]%string
  /\ refusal <$> (session (host_call (HostFfi bridge)) ops []).2
    = [None; None; None; None; None; Some (j_null, "refused"%string)].
Proof.
  assert (forall n, j_is_null (j_u64 n : jtree) = false) as Hn by done.
  rewrite (host_parity Hn bridge services "me" None (id : string -> string) ops []).
  - split; vm_compute; reflexivity.
  - apply Forall_forall. intros o Ho. unfold ops in Ho. set_unfold in Ho.
    destruct_or! Ho; subst o; simpl; try done.
    split; [repeat constructor; lia|]. by exists 5.
Defined.

Definition audit_op : host_op (jv := jtree) := HAudit ("e"%string : string).

Lemma host_calls_fail_closed_witness :
  (host_call (HostInProcess "me" services None false) audit_op []).1 = [].
Proof.
  destruct (host_calls_fail_closed bridge services "me" None audit_op [] ["e"%string] (respond_ok "e"%string))
    as [[H _] _]; [vm_compute; reflexivity|]. exact H.
Defined.

Lemma ttl_across_ffi_witness :
  from_str put_args (j_print (cache_put_request (jv := jtree) "k" [] 2000000)) = Ok ("k"%string, base64_encode [], 2).
Proof.
  destruct (ttl_across_ffi "k" [] [] "m" 2000000) as [-> _]; [by intros n|lia|reflexivity].
Defined.

(** A subscription whose callback drops its own guard, and one declined. *)
Lemma host_callbacks_safe_witness : exists s,
  sub_run true no_subs s /\ is_Some (sub_step s (DropBegun 1 None))
  /\ forall s', sub_run true s s' -> is_Some (running (world_ s') !! 0%nat).
Proof.
  assert (exists s, sub_run true no_subs s /\ allowed true s (DropBegun 1 None)
            /\ self_drop s 0 {| sub_id := 5; cb_ctx := 4096 |} 0) as (s & Hr & Hal & Hs).
  { eexists. split.
    - eapply (sub_more _ _ (Subscribed 0 4096 5)); [done|reflexivity|].
      eapply (sub_more _ _ (Subscribed 1 8192 0)); [split_and!; [done|set_solver|done]|reflexivity|].
      eapply (sub_more _ _ (CallStarted 0 5)); [split; [done|by eexists]|reflexivity|].
      eapply (sub_more _ _ (DropBegun 0 (Some 0%nat))); [split; by eexists|reflexivity|]. apply sub_done.
    - split; [split; [by eexists|done]|by split_and!]. }
  exists s. split; [exact Hr|].
  destruct (host_callbacks_safe s Hr) as (Hstep & _ & _ & _ & Hself). split; [by apply Hstep|].
  intros s' Hr'. destruct (Hself _ _ _ s' Hs Hr') as (_ & -> & _). by eexists.
Defined.
End Sample.
