(* ===== verification/StubHost.v ===== *)
(** * The stub host of macro round-trip tests (src/src/testing.rs, [stub_host_ref])

    A host vtable of fixed answers, for tests that drive a plugin's table
    without a host, and what a plugin sees through it. A literal text is
    written with a tilde for the double quote. *)

From Stdlib Require Import Ascii String.
From S2P Require Import Prelude Json Ffi Gates Providers Sinks HostHandle HostFacts.

Definition quoted (s : string) : string :=
  unchars ((fun c => if Ascii.eqb c "~" then ascii_of_nat 34 else c) <$> chars s).

Section Stub.
Context {jv : Type} `{HA : HostApi jv} {W : Type}.

Definition empty_creds : string := quoted "{~ok~:{~value~:null,~count~:0}}".
Definition ok_null : string := quoted "{~ok~:null}".
Definition not_implemented : string := quoted "{~err~:{~error~:~not_implemented~}}".

Definition stub_host_ref : HostVTable jv W := {|
  hv_alias _ := "";
  hv_cluster _ := None;
  hv_resolve_secret _ w := (w, "");
  hv_resolve_credentials _ _ w := (w, empty_creds);
  hv_cache_get _ _ w := (w, ok_null);
  hv_cache_put _ _ w := (w, ok_null);
  hv_fetch_content _ w := (w, ok_null);
  hv_store_content _ w := (w, not_implemented);
  hv_invoke_tool _ _ _ w := (w, not_implemented);
  hv_issue_credential _ _ w := (w, "");
  hv_config_snapshot _ w := (w, "");
  hv_audit_event _ w := (w, "");
  hv_metric_emit _ w := w;
  hv_span_start _ _ w := (w, 0);
  hv_span_event _ _ _ w := w;
  hv_span_end _ w := w;
|}%string.

(** The stub's subscriptions decline. *)
Definition stub_subscribe (ptr : Z) : sub_world -> sub_world * FfiSubGuard := subscribe_host ptr 0.
End Stub.

(** ** What a plugin sees *)

Section StubFacts.
Context {jv : Type} `{JL : JsonLaws jv} `{E : Envelope jv} {EL : EnvelopeLaws jv} `{HA : HostApi jv} {W : Type}.

Lemma is_ok_map_ok {A A' R} (f : A -> A') (r : result A R) : is_ok (map_ok f r) = is_ok r.
Proof. by destruct r. Qed.

(** Caches and contents are empty and take nothing, tools and content stores are
    not there, and the services that answer the empty text fail; a credential
    walk gives null in place of the value, whatever it was. *)
Lemma stub_host_empty (w : W) :
  decode_envelope ok_null = Ok (Ok j_null : result jv jv) ->
  decode_envelope empty_creds = Ok (Ok (j_obj {["value" := j_null; "count" := j_u64 0]}%string)) ->
  (exists e, decode_envelope not_implemented = Ok (Err e : result jv jv) /\ from_value e = Some host_not_implemented) ->
  let h := from_ffi stub_host_ref in
  (forall b k, cache_get h b k w = (w, Ok None))
  /\ (forall b k v ttl, cache_put h b k v ttl w = (w, Ok tt))
  /\ (forall uri, fetch_content h uri w = (w, Ok None))
  /\ (forall bytes m ttl, store_content h bytes m ttl w = (w, Err host_not_implemented))
  /\ (forall c t a, invoke_tool h c t a w = (w, Err host_not_implemented))
  /\ (forall v i, resolve_credentials h v i w = (w, (j_null, Ok 0)))
  /\ (forall uri, is_ok (resolve_secret h uri w).2 = false)
  /\ (forall uri i, is_ok (issue_credential h uri i w).2 = false)
  /\ (forall uri, is_ok (config_snapshot h uri w).2 = false).
Proof.
  intros Hok Hcreds (e & Herr & He) h.
  assert (Hbad : forall A R (DA : Deserialize jv A) (DR : Deserialize jv R) (f : string -> R),
            is_ok (decoded_or (A := A) f "") = false).
  { intros. destruct (decoded_or_bad (A := A) f "") as [e' ->]; [|done]. apply decode_unparsable, j_parse_empty. }
  assert (Hnull : from_value (A := option string) (j_null : jv) = Some None /\ from_value (A := unit) (j_null : jv) = Some tt).
  { unfold from_value, option_deserialize, null_deserialize. by rewrite j_is_null_null. }
  assert (Hpair : from_value (A := jv * Z) (j_obj {["value" := j_null; "count" := j_u64 0]}%string) = Some (j_null, 0)).
  { unfold from_value, resolve_creds_deserialize, resolve_creds_wire. read_struct.
    unfold field_u64. simpl. by rewrite j_as_u64_u64. }
  destruct Hnull as [Hnone Hunit].
  split_and!; intros; simpl; unfold reading, decode_secret_envelope, decode_content; simpl.
  1-6: unfold decoded_or, decode_result_envelope; rewrite ?Hok, ?Hcreds, ?Herr; simpl;
    by rewrite ?Hnone, ?Hunit, ?Hpair, ?He.
  - rewrite is_ok_map_ok. apply Hbad.
  - apply Hbad.
  - apply Hbad.
Qed.
End StubFacts.

(** A declined subscription's guard frees its box, and nothing else. *)
Lemma stub_subscription ptr w : (ptr ∉ boxes w) -> unborrowed ptr w ->
  let '(w', g) := stub_subscribe ptr w in
  registered w' = registered w /\ sub_guard_drop g w' = Some w.
Proof.
  intros H Hb. unfold stub_subscribe, subscribe_host. simpl. split; [done|].
  unfold sub_guard_drop, sub_guard_free, free_box. simpl. rewrite decide_True by (split; [set_solver|done]).
  destruct w as [bs rs rn]. simpl in *. do 2 f_equal. set_solver.
Qed.
