(* ===== verification/Declare.v ===== *)
(** * The plugin declaration macro (src/src/declare_plugin.rs)

    [declare_plugin!] and the three dispatch macros of src/src/macros.rs: what
    one declaration expands to, the registration the loader reads, and the
    registrations of the in-process build. A kind is the keyword written; an
    expansion that hits [compile_error!] is an error with its text. *)

From Stdlib Require Import Ascii String.
From S2P Require Import Prelude Json Ffi Gates.

(** ** Kinds *)

Inductive kind :=
| tool_gate | transform | identity | backend | watch_strategy | http_route | audit_sink | log_sink
| metrics_sink | telemetry_sink | store | cache | secret_provider | config_provider | policy_engine
| approval_notifier | credential_issuer | catalog_provider | content_store | cluster_backend | transport.

#[export] Instance kind_eq : EqDecision kind.
Proof. solve_decision. Defined.

Definition kinds : list kind :=
  [tool_gate; transform; identity; backend; watch_strategy; http_route; audit_sink; log_sink;
   metrics_sink; telemetry_sink; store; cache; secret_provider; config_provider; policy_engine;
   approval_notifier; credential_issuer; catalog_provider; content_store; cluster_backend; transport].

Definition keyword (k : kind) : string :=
  match k with
  | tool_gate => "tool_gate" | transform => "transform" | identity => "identity" | backend => "backend"
  | watch_strategy => "watch_strategy" | http_route => "http_route" | audit_sink => "audit_sink"
  | log_sink => "log_sink" | metrics_sink => "metrics_sink" | telemetry_sink => "telemetry_sink"
  | store => "store" | cache => "cache" | secret_provider => "secret_provider"
  | config_provider => "config_provider" | policy_engine => "policy_engine"
  | approval_notifier => "approval_notifier" | credential_issuer => "credential_issuer"
  | catalog_provider => "catalog_provider" | content_store => "content_store"
  | cluster_backend => "cluster_backend" | transport => "transport"
  end.

(** The first arm whose keyword is the one written. *)
Definition arm (word : string) : option kind := find (fun k => String.eqb (keyword k) word) kinds.

Definition supported_kinds : string :=
  "tool_gate, transform, identity, backend, watch_strategy, http_route, audit_sink, log_sink, metrics_sink, telemetry_sink, store, cache, secret_provider, config_provider, policy_engine, approval_notifier, credential_issuer, catalog_provider, content_store, cluster_backend, transport.".

(** [__mcpg_dispatch_entity_module!]: the entity macro of the kind. *)
Definition __mcpg_dispatch_entity_module (word : string) : result kind string :=
  match arm word with
  | Some k => Ok k
  | None => Err ("declare_plugin!: unknown entity kind `" ++ word ++ "`. Supported kinds: " ++ supported_kinds)%string
  end.

Section Declaration.
Context {jv : Type} `{J : Json jv} {V Plugin Cap Profile Host W R Error : Type}.
Context `{!Serialize jv Profile}.

(** An entity as declared: its keyword, its name, and what its module holds,
    the vtable and [build_static]. *)
Record entity := {
  word : string;
  inner_name : string;
  make_vtable : V;
  build : string -> Host -> outcome Plugin;
}.

Record EntityRegistration := { variant : string; registered_name : string; vtable : V }.

(** [__mcpg_dispatch_entity_registration!]: the ABI's name of the kind. *)
Definition registration_variant (k : kind) : string :=
  match k with
  | tool_gate => "ToolGate" | transform => "Transform" | identity => "IdentityProvider"
  | backend => "Backend" | watch_strategy => "WatchStrategy" | http_route => "HttpRoute"
  | audit_sink => "AuditSink" | log_sink => "LogSink" | metrics_sink => "MetricsSink"
  | telemetry_sink => "TelemetrySink" | store => "Store" | cache => "Cache"
  | secret_provider => "SecretProvider" | config_provider => "ConfigProvider"
  | policy_engine => "PolicyEngine" | approval_notifier => "ApprovalNotifier"
  | credential_issuer => "CredentialIssuer" | catalog_provider => "CatalogProvider"
  | content_store => "ContentStore" | cluster_backend => "Cluster" | transport => "Transport"
  end.
Definition __mcpg_dispatch_entity_registration (e : entity) : result EntityRegistration string :=
  match arm (word e) with
  | Some k => Ok {| variant := registration_variant k; registered_name := inner_name e; vtable := make_vtable e |}
  | None => Err ("declare_plugin!: unknown entity kind `" ++ word e ++ "` in cdylib registration dispatch.")%string
  end.

(** A whole declaration; capabilities and profile are optional, the entities are
    at least one. *)
Record declaration := {
  plugin_id : string;
  plugin_version : string;
  descriptor_yaml : string;
  capabilities : option (list Cap);
  backend_profile : option Profile;
  entities : list entity;
}.

Record PluginRegistration := {
  abi_version : Z;
  reg_plugin_id : string;
  reg_plugin_version : string;
  module_path_prefix : string;
  reg_entities : list EntityRegistration;
  reg_capabilities : list Cap;
  backend_profile_json : option string;
  reg_descriptor_yaml : string;
}.

(** ** The loader's entry

    [ABI] is the protocol's version, [path] the crate's [module_path!],
    [install] is [plugin_log::install], [panicked] what
    [catch_panic_to_panicked_registration] answers. *)
Variables (ABI : Z) (path : string) (install : comp W unit) (panicked : PluginRegistration).

Definition registration_of (d : declaration) (es : list EntityRegistration) : PluginRegistration := {|
  abi_version := ABI;
  reg_plugin_id := plugin_id d;
  reg_plugin_version := plugin_version d;
  module_path_prefix := path;
  reg_entities := es;
  reg_capabilities := default [] (capabilities d);
  backend_profile_json := to_string <$> backend_profile d;
  reg_descriptor_yaml := descriptor_yaml d;
|}.

(** Every [compile_error!] of an expansion is one: the first is kept. *)
Fixpoint expand {A B} (f : A -> result B string) (l : list A) : result (list B) string :=
  match l with
  | [] => Ok []
  | a :: l =>
      match f a with
      | Err e => Err e
      | Ok b => match expand f l with Ok bs => Ok (b :: bs) | Err e => Err e end
      end
  end.

Definition mcpg_plugin_register (d : declaration) : result (W -> W * PluginRegistration) string :=
  match expand (fun e => __mcpg_dispatch_entity_module (word e)) (entities d) with
  | Err e => Err e
  | Ok _ =>
      match expand __mcpg_dispatch_entity_registration (entities d) with
      | Err e => Err e
      | Ok es => Ok (catch_or panicked (_u <-- install; ret (registration_of d es)))
      end
  end.

(** ** In process *)

(** A call of the registry: the method is the kind's; an HTTP route has an entity
    name, some kinds an empty configuration object, a gate its [true]. *)
Record register_call := {
  rc_kind : kind;
  rc_alias : option string;
  rc_entity_name : option string;
  rc_config : option jv;
  rc_flag : option bool;
}.

Definition static_alias (id inner : string) : option string :=
  if String.eqb inner "" then None else Some (id ++ ":" ++ inner)%string.

(** [__mcpg_dispatch_register_static!]. *)
Definition __mcpg_dispatch_register_static (id : string) (e : entity) : result register_call string :=
  let call k name config flag :=
    {| rc_kind := k; rc_alias := static_alias id (inner_name e); rc_entity_name := name;
       rc_config := config; rc_flag := flag |} in
  match arm (word e) with
  | None => Err ("declare_plugin!: unknown entity kind `" ++ word e ++ "` in static-firstparty registration dispatch.")%string
  | Some cluster_backend =>
      Err "declare_plugin!: `cluster_backend` static-firstparty registration is not supported. FirstPartyRegistrar has no `register_cluster_backend_with_alias` slot today — use the cdylib path (omit static-firstparty feature) for cluster_backend plugins until a static slot is added."%string
  | Some transport =>
      Err "declare_plugin!: `transport` static-firstparty registration is not supported. FirstPartyRegistrar has no `register_transport_with_alias` slot today — use the cdylib path (omit static-firstparty feature) for transport plugins until a static slot is added."%string
  | Some http_route => Ok (call http_route (Some (if String.eqb (inner_name e) "" then id else inner_name e)) None None)
  | Some tool_gate => Ok (call tool_gate None (Some (j_obj ∅)) (Some true))
  | Some ((transform | identity | catalog_provider) as k) => Ok (call k None (Some (j_obj ∅)) None)
  | Some k => Ok (call k None None None)
  end.

(** The registry's methods; [?] stops at the first that fails. A factory runs on
    the empty configuration text. *)
Variable register : register_call -> Plugin -> R -> R * result unit Error.

Fixpoint register_entities (host : Host) (l : list (register_call * entity)) (r : R)
    : R * outcome (result unit Error) :=
  match l with
  | [] => (r, Returned (Ok tt))
  | (c, e) :: l =>
      match build e "" host with
      | Panicked => (r, Panicked)
      | Returned plugin =>
          match register c plugin r with
          | (r, Ok _) => register_entities host l r
          | (r, Err err) => (r, Returned (Err err))
          end
      end
  end.

(** [register_static], under the registrar's [register], which gives the closure
    the registry and the host. *)
Definition register_static (d : declaration) : result (Host -> R -> R * outcome (result unit Error)) string :=
  match expand (fun e => __mcpg_dispatch_entity_module (word e)) (entities d) with
  | Err e => Err e
  | Ok _ =>
      match expand (__mcpg_dispatch_register_static (plugin_id d)) (entities d) with
      | Err e => Err e
      | Ok calls => Ok (fun host => register_entities host (zip calls (entities d)))
      end
  end.

(** ** What an expansion accepts *)

Lemma arm_keyword k : arm (keyword k) = Some k.
Proof. by destruct k. Qed.

Lemma arm_some s k : arm s = Some k -> s = keyword k.
Proof. intros H. apply find_some in H as [_ H]. symmetry. by apply String.eqb_eq. Qed.

Lemma expand_ok {A B} (f : A -> result B string) (g : A -> B) l :
  Forall (fun a => f a = Ok (g a)) l -> expand f l = Ok (g <$> l).
Proof. induction 1 as [|a l Ha _ IH]; [done|]. simpl. by rewrite Ha, IH. Qed.

Lemma expand_inv {A B} (f : A -> result B string) l bs :
  expand f l = Ok bs -> Forall2 (fun a b => f a = Ok b) l bs.
Proof.
  revert bs. induction l as [|a l IH]; intros bs H; simpl in H; [by simplify_eq; constructor|].
  destruct (f a) as [b|] eqn:Hb; [|done]. destruct (expand f l) as [bs'|]; [|done].
  simplify_eq. constructor; auto.
Qed.

(** The kind an entity was declared with, where the keyword is one. *)
Definition declared (e : entity) (k : kind) : Prop := word e = keyword k.

Lemma expand_none {A B} (f : A -> result B string) l : is_ok (expand f l) = false -> exists a, a ∈ l /\ is_ok (f a) = false.
Proof.
  induction l as [|a l IH]; simpl; [done|]. destruct (f a) as [b|] eqn:Hb.
  - destruct (expand f l); [done|]. intros _. destruct IH as (a' & Hin & H); [done|]. exists a'. set_solver.
  - intros _. exists a. rewrite Hb. set_solver.
Qed.

Lemma module_ok l ks : Forall2 declared l ks -> expand (fun e => __mcpg_dispatch_entity_module (word e)) l = Ok ks.
Proof.
  induction 1 as [|e k l ks He _ IH]; [done|]. cbn [expand]. unfold __mcpg_dispatch_entity_module at 1.
  by rewrite He, arm_keyword, IH.
Qed.

Lemma module_inv l ks : expand (fun e => __mcpg_dispatch_entity_module (word e)) l = Ok ks -> Forall2 declared l ks.
Proof.
  intros H. eapply Forall2_impl; [by apply expand_inv|]. intros e k. unfold __mcpg_dispatch_entity_module.
  destruct (arm (word e)) eqn:Ha; [|done]. intros [= <-]. by apply arm_some.
Qed.

Lemma registrations_ok l ks : Forall2 declared l ks ->
  expand __mcpg_dispatch_entity_registration l
  = Ok (zip_with (fun e k => {| variant := registration_variant k; registered_name := inner_name e;
                                vtable := make_vtable e |}) l ks).
Proof.
  induction 1 as [|e k l ks He _ IH]; [done|]. cbn [expand]. unfold __mcpg_dispatch_entity_registration at 1.
  by rewrite He, arm_keyword, IH.
Qed.

(** The loader's entry of a declaration exists exactly when every keyword is
    one of the 21 kinds, and then it installs the log forwarding and returns the
    declaration's identity, capabilities, profile and descriptor with one
    registration per entity, in declaration order, each under its own name, with
    its own vtable and the variant of its kind, which no two kinds share; a
    panic gives the panicked registration. *)
Theorem registration_exact d :
  (is_ok (mcpg_plugin_register d) = true <-> exists ks, Forall2 declared (entities d) ks)
  /\ (forall ks f w, Forall2 declared (entities d) ks -> mcpg_plugin_register d = Ok f ->
        f w = ((install w).1,
               match (install w).2 with
               | Panicked => panicked
               | Returned _ => registration_of d
                   (zip_with (fun e k => {| variant := registration_variant k; registered_name := inner_name e;
                                            vtable := make_vtable e |}) (entities d) ks)
               end))
  /\ (forall k1 k2, registration_variant k1 = registration_variant k2 -> k1 = k2).
Proof.
  unfold mcpg_plugin_register. split_and!.
  - split.
    + destruct (expand _ (entities d)) as [ks|] eqn:H; [|done]. intros _. exists ks. by apply module_inv.
    + intros [ks H]. by rewrite (module_ok _ _ H), (registrations_ok _ _ H).
  - intros ks f w H. rewrite (module_ok _ _ H), (registrations_ok _ _ H). intros [= <-].
    unfold catch_or, bind, ret. by destruct (install w) as [w' []].
  - by intros [] [].
Qed.

(** ** In process *)

Definition static_kind (k : kind) : Prop := k <> cluster_backend /\ k <> transport.

Lemma static_ok id l ks : Forall2 declared l ks ->
  is_ok (expand (__mcpg_dispatch_register_static id) l) = true <-> Forall static_kind ks.
Proof.
  induction 1 as [|e k l ks He _ IH]; [done|]. cbn [expand].
  unfold __mcpg_dispatch_register_static at 1. rewrite He, arm_keyword, Forall_cons, <- IH. unfold static_kind.
  destruct k; simpl; try (destruct (expand _ l); split; [done|by intros [_ ?]|done|by intros [_ ?]]).
  - by split; [|intros [[? _] _]].
  - by split; [|intros [[_ ?] _]].
Qed.

Lemma static_calls id l ks calls : Forall2 declared l ks ->
  expand (__mcpg_dispatch_register_static id) l = Ok calls ->
  rc_kind <$> calls = ks /\ rc_alias <$> calls = (fun e => static_alias id (inner_name e)) <$> l.
Proof.
  intros Hd. revert calls. induction Hd as [|e k l ks He _ IH]; intros calls H; cbn [expand] in H; [by simplify_eq|].
  unfold __mcpg_dispatch_register_static at 1 in H. rewrite He, arm_keyword in H.
  destruct (expand _ l) as [cs|].
  - destruct (IH cs eq_refl) as [<- Ha]. destruct k; simplify_eq; csimpl; by rewrite Ha.
  - by destruct k.
Qed.

(** The registrations of [l], each accepted. *)
Inductive all_registered (host : Host) : list (register_call * entity) -> R -> R -> Prop :=
| none_left r : all_registered host [] r r
| one_more c e p r r' r'' l :
    build e "" host = Returned p -> register c p r = (r', Ok tt) ->
    all_registered host l r' r'' -> all_registered host ((c, e) :: l) r r''.

Lemma register_entities_prefix host l r r' o : register_entities host l r = (r', o) ->
  exists l1 l2 r1, l = l1 ++ l2 /\ all_registered host l1 r r1 /\
    match o with
    | Returned (Ok _) => l2 = [] /\ r' = r1
    | Returned (Err err) => exists c e p, head l2 = Some (c, e) /\ build e "" host = Returned p
        /\ register c p r1 = (r', Err err)
    | Panicked => r' = r1 /\ exists c e, head l2 = Some (c, e) /\ build e "" host = Panicked
    end.
Proof.
  revert r. induction l as [|[c e] l IH]; intros r H; simpl in H.
  - simplify_eq. exists [], [], r'. split_and!; [done|constructor|done|done].
  - destruct (build e "" host) as [p|] eqn:Hb.
    + destruct (register c p r) as [r2 [[]|err]] eqn:Hr.
      * destruct (IH r2 H) as (l1 & l2 & r1 & -> & Ha & Ho). exists ((c, e) :: l1), l2, r1.
        split_and!; [done|by econstructor|done].
      * simplify_eq. exists [], ((c, e) :: l), r. split_and!; [done|constructor|]. by exists c, e, p.
    + simplify_eq. exists [], ((c, e) :: l), r'. split_and!; [done|constructor|done|]. by exists c, e.
Qed.

Lemma alias_inj id a b : static_alias id a = static_alias id b -> a = b.
Proof.
  unfold static_alias. destruct (String.eqb_spec a ""), (String.eqb_spec b ""); try congruence.
  intros [= H]. apply (inj (String.append id)) in H. by apply (inj (String.append ":")) in H.
Qed.

(** In process a declaration registers its entities in the same order, each
    under its kind's method and its own alias, nothing for the empty name and
    "id:name" otherwise, so distinct names never share one; it exists exactly
    when no entity is a cluster backend or a transport, and it stops at the
    first factory that panics or registration that fails, what was registered
    before it staying so. *)
Theorem static_registration_exact d ks :
  Forall2 declared (entities d) ks ->
  (is_ok (register_static d) = true <-> Forall static_kind ks)
  /\ (NoDup (inner_name <$> entities d) ->
        NoDup ((fun e => static_alias (plugin_id d) (inner_name e)) <$> entities d))
  /\ forall f host r r' o, register_static d = Ok f -> f host r = (r', o) ->
       exists calls l1 l2 r1,
         rc_kind <$> calls = ks
         /\ rc_alias <$> calls = (fun e => static_alias (plugin_id d) (inner_name e)) <$> entities d
         /\ zip calls (entities d) = l1 ++ l2 /\ all_registered host l1 r r1
         /\ match o with
            | Returned (Ok _) => l2 = [] /\ r' = r1
            | Returned (Err err) => exists c e p, head l2 = Some (c, e) /\ build e "" host = Returned p
                /\ register c p r1 = (r', Err err)
            | Panicked => r' = r1 /\ exists c e, head l2 = Some (c, e) /\ build e "" host = Panicked
            end.
Proof.
  intros H. unfold register_static. rewrite (module_ok _ _ H). split_and!.
  - rewrite <- (static_ok (plugin_id d) _ _ H). by destruct (expand _ (entities d)).
  - intros Hn. assert ((fun e => static_alias (plugin_id d) (inner_name e)) <$> entities d
      = static_alias (plugin_id d) <$> (inner_name <$> entities d)) as -> by by rewrite <- list_fmap_compose.
    apply NoDup_fmap_2; [|done]. intros a b. apply alias_inj.
  - intros f host r r' o Hf Hr. destruct (expand _ (entities d)) as [calls|] eqn:Hc; [|done].
    simplify_eq. destruct (static_calls _ _ _ _ H Hc) as [Hk Ha].
    apply register_entities_prefix in Hr as (l1 & l2 & r1 & Hz & Hall & Ho). by exists calls, l1, l2, r1.
Qed.
End Declaration.

(** ** Witnesses *)

Module Sample.
Import Tree Wire.

Definition gate (name : string) : entity (V := nat) (Plugin := string) (Host := unit) :=
  {| word := "tool_gate"; inner_name := name; make_vtable := 1%nat; build _ _ := Returned name |}.
Definition route : entity (V := nat) (Plugin := string) (Host := unit) :=
  {| word := "http_route"; inner_name := ""; make_vtable := 2%nat; build cfg _ := Returned cfg |}.
Definition sample : declaration (V := nat) (Plugin := string) (Cap := string) (Profile := string) (Host := unit) :=
  {| plugin_id := "dev.sample"; plugin_version := "1"; descriptor_yaml := "id: dev.sample";
     capabilities := None; backend_profile := None; entities := [gate "a"; gate "b"; route] |}.
Definition none : PluginRegistration (V := nat) (Cap := string) :=
  {| abi_version := 0; reg_plugin_id := ""; reg_plugin_version := ""; module_path_prefix := "";
     reg_entities := []; reg_capabilities := []; backend_profile_json := None; reg_descriptor_yaml := "" |}.

Lemma sample_declared : Forall2 declared (entities sample) [tool_gate; tool_gate; http_route].
Proof. repeat constructor. Qed.

Lemma registration_exact_witness : exists f,
  mcpg_plugin_register (W := nat) 33 "sample" (ret tt) none sample = Ok f
  /\ (variant <$> reg_entities (f 0%nat).2) = ["ToolGate"; "ToolGate"; "HttpRoute"]%string.
Proof.
  eexists. split; [vm_compute; reflexivity|].
  destruct (registration_exact (W := nat) 33 "sample" (ret tt) none sample) as (_ & H & _).
  exact (f_equal (fun r => variant <$> reg_entities r.2) (H _ _ 0%nat sample_declared eq_refl)).
Defined.

(** A registry that keeps the aliases it is given and refuses none. *)
Definition accept (c : register_call (jv := jtree)) (_ : string) (r : list (option string))
    : list (option string) * result unit string := (r ++ [rc_alias c], Ok tt).

Lemma static_registration_exact_witness :
  is_ok (register_static accept sample) = true
  /\ NoDup ((fun e => static_alias (plugin_id sample) (inner_name e)) <$> entities sample).
Proof.
  destruct (static_registration_exact accept sample _ sample_declared) as ([_ H] & Hn & _).
  split; [apply H; repeat constructor; discriminate|apply Hn; apply (bool_decide_unpack _); vm_compute; reflexivity].
Defined.
End Sample.
