(* ===== verification/Serving.v ===== *)
(** * One declaration, two builds, one behaviour

    A plugin declares its entities once (src/src/declare_plugin.rs). Loaded as
    a library, the host reads the registration, makes an instance of each
    entity through its table and calls the slots (src/src/macros.rs); built in,
    the registrar gets an adapter over each instance (src/src/adapters.rs).
    [BuildsAgree] is what a kind promises to the declaration: its factory makes
    the same instance either way, and its slots answer what its adapter
    answers. The kinds discharge it from their own lemmas; [builds_serve_alike]
    needs nothing else of them. *)

From Stdlib Require Import Ascii String.
From S2P Require Import Prelude Json Ffi Gates Declare Stores StoreFacts Backends BackendFacts.

(** ** Instances *)

Section Serving.
Context {Call Answer P Host : Type}.

(** A table as the host uses it: the factory slot, and a request served on the
    instance behind the handle, [None] when the kind has no such request. *)
Record wired := {
  w_make : Host -> string -> string -> option P;
  w_serve : Call -> P -> P * option Answer;
}.

(** What [build_static] hands to the registrar: an adapter over an instance. *)
Record built := { b_serve : Call -> P -> P * option Answer; b_instance : P }.

(** The interface between the kinds and the declaration. *)
Class BuildsAgree (k : kind) (e : entity (V := wired) (Plugin := built) (Host := Host)) : Prop := {
  agree_declared : declared e k;
  agree_static : static_kind k;
  agree_panics cfg host : build e cfg host = Panicked ->
    w_make (make_vtable e) host cfg (inner_name e) = None;
  agree_makes cfg host pl : build e cfg host = Returned pl ->
    w_make (make_vtable e) host cfg (inner_name e) = Some (b_instance pl);
  agree_serves cfg host pl c p : build e cfg host = Returned pl ->
    w_serve (make_vtable e) c p = b_serve pl c p;
}.

(** ** The host's side *)

(** An instance of a registration; [None] is the null handle. *)
Definition load (host : Host) (cfg : string) (r : EntityRegistration (V := wired))
    : option (wired * P) :=
  match w_make (vtable r) host cfg (registered_name r) with
  | Some p => Some (vtable r, p)
  | None => None
  end.

(** A request to entity [k]: the slot runs on its instance, which alone may
    change. *)
Definition serve_loaded (o : nat * Call) (t : list (option (wired * P)))
    : list (option (wired * P)) * option Answer :=
  match t !! o.1 with
  | Some (Some (v, p)) =>
      let '(q, a) := w_serve v o.2 p in (<[o.1 := Some (v, q)]> t, a)
  | _ => (t, None)
  end.
Definition serve_built (o : nat * Call) (t : list built) : list built * option Answer :=
  match t !! o.1 with
  | Some pl =>
      let '(q, a) := b_serve pl o.2 (b_instance pl) in
      (<[o.1 := {| b_serve := b_serve pl; b_instance := q |}]> t, a)
  | None => (t, None)
  end.

(** A registrar that refuses nothing. *)
Definition keep {jv Error : Type} (_ : register_call (jv := jv)) (pl : built) (t : list built)
    : list built * result unit Error := (t ++ [pl], Ok tt).

(** ** The tables agree *)

Definition alike (o : option (wired * P)) (pl : built) : Prop :=
  match o with
  | Some (v, p) => p = b_instance pl /\ forall c q, w_serve v c q = b_serve pl c q
  | None => False
  end.

Definition tables (loaded : list (option (wired * P))) (t : list built) : Prop :=
  forall k pl, t !! k = Some pl -> exists o, loaded !! k = Some o /\ alike o pl.

Lemma tables_serve o loaded t :
  tables loaded t -> (o.1 < length t)%nat ->
  (serve_loaded o loaded).2 = (serve_built o t).2
  /\ tables (serve_loaded o loaded).1 (serve_built o t).1
  /\ length (serve_built o t).1 = length t.
Proof.
  intros Ht [pl Hpl]%lookup_lt_is_Some_2. destruct (Ht _ _ Hpl) as ([[v p]|] & Hl & Ha); [|done].
  destruct Ha as [-> Hs]. unfold serve_loaded, serve_built. rewrite Hl, Hpl, Hs.
  destruct (b_serve pl o.2 (b_instance pl)) as [q a]. simpl. split; [done|].
  split; [|apply length_insert]. intros k pl'. pose proof (lookup_lt_Some _ _ _ Hl) as Hlt.
  rewrite list_lookup_insert_Some. intros [(<- & <- & _)|[Hne Hk]].
  - eexists. by rewrite list_lookup_insert_eq.
  - rewrite list_lookup_insert_ne by done. by apply Ht.
Qed.

Lemma tables_session ops loaded t :
  tables loaded t -> Forall (fun o => (o.1 < length t)%nat) ops ->
  (session serve_loaded ops loaded).2 = (session serve_built ops t).2
  /\ tables (session serve_loaded ops loaded).1 (session serve_built ops t).1.
Proof.
  revert loaded t. induction ops as [|o ops IH]; intros loaded t Ht Ho; [done|].
  apply Forall_cons in Ho as [Ho Hos]. cbn [session].
  destruct (tables_serve o loaded t Ht Ho) as (Ha & Ht' & Hl).
  destruct (serve_loaded o loaded) as [loaded' a], (serve_built o t) as [t' a']. simpl in *. subst a'.
  destruct (IH loaded' t' Ht') as [Has Hts]; [by rewrite Hl|].
  destruct (session serve_loaded ops loaded') as [l1 as1], (session serve_built ops t') as [l2 as2].
  simpl in *. by rewrite Has.
Qed.

Lemma served_snoc loaded t o pl rest :
  length loaded = length t -> tables loaded t -> alike o pl ->
  tables (loaded ++ o :: rest) (t ++ [pl]).
Proof.
  intros Hl Ht Ho k pl' Hk. destruct (decide (k < length t)%nat) as [Hlt|Hge].
  - rewrite lookup_app_l in Hk by done. destruct (Ht k pl' Hk) as (o' & Ho' & Ha). exists o'.
    by rewrite lookup_app_l by lia.
  - pose proof (lookup_lt_Some _ _ _ Hk) as Hlt. rewrite length_app in Hlt. simpl in Hlt.
    assert (k = length t) as -> by lia. rewrite list_lookup_middle in Hk by done. injection Hk as <-.
    exists o. split; [|done]. apply list_lookup_middle. by symmetry.
Qed.
End Serving.
Arguments wired Call Answer P Host : clear implicits.
Arguments built Call Answer P : clear implicits.

(** ** The two entries of a declaration *)

Section Entries.
Context {jv : Type} `{J : Json jv} {Call Answer P Host Cap Profile W Error : Type}.
Context `{!Serialize jv Profile}.
Variables (ABI : Z) (path : string) (install : comp W unit).
Variable panicked : PluginRegistration (V := wired Call Answer P Host) (Cap := Cap).

Abbreviation entity_ := (entity (V := wired Call Answer P Host) (Plugin := built Call Answer P) (Host := Host)).
Abbreviation declaration_ := (declaration (V := wired Call Answer P Host) (Plugin := built Call Answer P)
  (Cap := Cap) (Profile := Profile) (Host := Host)).
Abbreviation register_entity_ := (register_entities (R := list (built Call Answer P)) (Error := Error) keep).

(** The instance of an entity, loaded on the empty configuration. *)
Definition load_entity (host : Host) (e : entity_) : option (wired Call Answer P Host * P) :=
  load host "" {| variant := ""; registered_name := inner_name e; vtable := make_vtable e |}.

Lemma load_registrations host (es : list entity_) ks :
  length es = length ks ->
  load host "" <$> zip_with (fun e k => {| variant := registration_variant k;
    registered_name := inner_name e; vtable := make_vtable e |}) es ks = load_entity host <$> es.
Proof.
  revert ks. induction es as [|e es IH]; intros [|k ks] Hl; try done. simpl. f_equal. apply IH. by injection Hl.
Qed.

Lemma register_tables host ks (es : list entity_) (calls : list (register_call (jv := jv))) loaded t :
  Forall2 BuildsAgree ks es -> length calls = length es ->
  length loaded = length t -> tables loaded t ->
  exists t' o, register_entity_ host (zip calls es) t = (t', o)
    /\ tables (loaded ++ (load_entity host <$> es)) t'
    /\ (o = Returned (Ok tt) /\ length t' = (length t + length es)%nat
        \/ o = Panicked /\ (loaded ++ (load_entity host <$> es)) !! length t' = Some None).
Proof.
  intros H. revert calls loaded t. induction H as [|k e ks es He _ IH]; intros [|c calls] loaded t Hc Hl Ht;
    try done.
  - exists t, (Returned (Ok tt)). split; [done|]. simpl. rewrite app_nil_r. split; [done|]. left. by rewrite Nat.add_0_r.
  - cbn [zip zip_with register_entities fmap list_fmap length]. destruct (build e "" host) as [pl|] eqn:Hb.
    + assert (Ha : alike (load_entity host e) pl).
      { unfold load_entity, load. simpl. rewrite (agree_makes _ _ _ Hb). simpl. split; [done|].
        intros c' q. by eapply agree_serves. }
      destruct (IH calls (loaded ++ [load_entity host e]) (t ++ [pl])) as (t' & o & E & Ht' & Ho).
      { by injection Hc. } { rewrite !length_app. simpl. lia. } { by apply served_snoc. }
      rewrite <- app_assoc in Ht', Ho. simpl in Ht', Ho. exists t', o. split; [exact E|]. split; [exact Ht'|].
      rewrite length_app in Ho. simpl in Ho. destruct Ho as [[-> Ho]|Ho]; [left|by right].
      split; [done|lia].
    + exists t, Panicked. split; [done|]. split.
      * intros n pl Hn. destruct (Ht n pl Hn) as (o & Ho & Ha). exists o.
        by rewrite (lookup_app_l_Some _ _ _ _ Ho).
      * right. split; [done|]. rewrite list_lookup_middle by done. unfold load_entity, load. simpl.
        by rewrite (agree_panics _ _ Hb).
Qed.

Lemma agree_forall2 ks (es : list entity_) :
  Forall2 BuildsAgree ks es -> Forall2 declared es ks /\ Forall static_kind ks.
Proof.
  induction 1 as [|k e ks es He _ [IH1 IH2]]; [by repeat constructor|].
  split; constructor; try done; [by apply agree_declared|by apply (agree_static (e := e))].
Qed.

(** C33. One declaration serves alike in both builds: its loader's entry and its
    in-process entry exist; the instances the loader makes and those the
    registrar gets are the same, entity by entity, up to the first factory
    that panics, where the registration stops and the loader has the null
    handle; and every sequence of requests to the entities both have, in any
    order, gets the same answers and leaves every instance in the same state. *)
Theorem builds_serve_alike (d : declaration_) ks host w :
  Forall2 BuildsAgree ks (entities d) -> (install w).2 = Returned tt ->
  exists reg st t o,
    mcpg_plugin_register ABI path install panicked d = Ok reg
    /\ register_static keep d = Ok st /\ st host [] = (t, o)
    /\ let loaded := load host "" <$> reg_entities (reg w).2 in
       length loaded = length (entities d)
       /\ (o = Returned (Ok tt (E := Error)) /\ length t = length (entities d)
           \/ o = Panicked /\ loaded !! length t = Some None)
       /\ forall ops, Forall (fun o => (o.1 < length t)%nat) ops ->
            (session serve_loaded ops loaded).2 = (session serve_built ops t).2
            /\ forall k pl, (session serve_built ops t).1 !! k = Some pl ->
                 exists v, (session serve_loaded ops loaded).1 !! k = Some (Some (v, b_instance pl)).
Proof.
  intros H Hw. destruct (agree_forall2 _ _ H) as [Hd Hs].
  unfold mcpg_plugin_register, register_static. rewrite (module_ok _ _ Hd), (registrations_ok _ _ Hd).
  pose proof (proj2 (static_ok (plugin_id d) _ _ Hd) Hs) as Hok.
  destruct (expand _ (entities d)) as [calls|] eqn:Hc; [|done].
  assert (Hlen : length calls = length (entities d)).
  { apply expand_inv, Forall2_length in Hc. by symmetry. }
  destruct (register_tables host ks (entities d) calls [] [] H Hlen eq_refl) as (t & o & E & Ht & Ho).
  { intros k pl Hk. by rewrite lookup_nil in Hk. }
  eexists _, _, t, o. split; [done|]. split; [done|]. split; [exact E|].
  unfold catch_or, bind, ret. destruct (install w) as [w' a]. simpl in Hw. subst a. simpl.
  rewrite load_registrations by (by eapply Forall2_length). rewrite length_fmap. split; [done|].
  split; [exact Ho|]. intros ops Hops. destruct (tables_session ops _ _ Ht Hops) as [Ha Ht'].
  split; [exact Ha|]. intros k pl Hk. destruct (Ht' k pl Hk) as ([[v p]|] & Hv & Hal); [|done].
  exists v. by destruct Hal as [-> _].
Qed.
End Entries.

(** ** The kinds discharge the interface

    The host's requests are of one type [Call]: [req] reads one as a call of
    the kind, [ans] makes an answer of the kind one of the host's. In process a
    panic reaches the host, which takes it for the refusal the slot answers. *)

Section Kinds.
Context {Call Answer P Host : Type}.

Definition serving {C A : Type} (step : C -> P -> P * A) (req : Call -> option C) (ans : A -> Answer)
    (c : Call) (p : P) : P * option Answer :=
  match req c with
  | Some x => let '(q, a) := step x p in (q, Some (ans a))
  | None => (p, None)
  end.

(** An entity of a kind: its table's [make] and slots [wire], its
    [build_static] and the calls [direct] of the adapter it makes. *)
Definition entity_for {C A G : Type} (k : kind) (name : string) (make : Host -> string -> string -> option P)
    (wire : C -> P -> P * A) (build : string -> Host -> outcome (G * P)) (direct : G -> C -> P -> P * A)
    (req : Call -> option C) (ans : A -> Answer)
    : entity (V := wired Call Answer P Host) (Plugin := built Call Answer P) (Host := Host) :=
  {| word := keyword k; inner_name := name;
     make_vtable := {| w_make := make; w_serve := serving wire req ans |};
     build cfg host := outcome_map (fun gp => {| b_serve := serving (direct gp.1) req ans;
                                                 b_instance := gp.2 |}) (build cfg host) |}.

Lemma entity_agrees {C A G : Type} k name factory wire (adapter : G) (direct : G -> C -> P -> P * A) req ans :
  static_kind k -> (forall c x p, req c = Some x -> wire x p = direct adapter x p) ->
  BuildsAgree k (entity_for k name (make_slot factory) wire
                   (build_static factory (fun inner => (adapter, inner))) direct req ans).
Proof.
  intros Hk Hw. split; simpl; [done|done|..]; unfold make_slot, build_static.
  - intros cfg host. by destruct (factory cfg host).
  - intros cfg host pl. destruct (factory cfg host); [|done]. by intros [= <-].
  - intros cfg host pl c p. destruct (factory cfg host); [|done]. intros [= <-]. simpl.
    unfold serving. destruct (req c) as [x|] eqn:Hx; [|done]. by rewrite (Hw c).
Qed.

(** A call in process, its outcome read as the slot's answer. *)
Definition reading {C A O : Type} (direct : C -> P -> P * outcome O) (verdict : C -> outcome O -> A)
    (c : C) (p : P) : P * A :=
  let '(q, o) := direct c p in (q, verdict c o).

Lemma reading_pair {C A O : Type} (direct : C -> P -> P * outcome O) (verdict : C -> outcome O -> A) c p :
  reading direct verdict c p = ((direct c p).1, verdict c (direct c p).2).
Proof. unfold reading. by destruct (direct c p). Qed.

Variable factory : string -> Host -> outcome P.
Variable name : string.

Section Requests.
Context {jv : Type} `{JL : JsonLaws jv} `{E : Envelope jv} `{PA : PluginApi jv}.
Context `{GA : GateApi jv} `{TA : TransformApi jv} `{IA : IdentityApi jv} `{!SerdeRoundtrip jv RequestMetadata}.

Definition gate_entity (plugin : SyncToolGate jv P) (req : Call -> option gate_call) (ans : RGateDecision -> Answer) :=
  let v := tool_gate_make_vtable plugin factory in
  entity_for tool_gate name (tg_v_make v) (gate_wire v) (tool_gate_build_static plugin factory)
    (fun g => reading (gate_direct g) (fun _ => gate_verdict)) req ans.

#[global] Instance gate_agrees plugin req ans : BuildsAgree tool_gate (gate_entity plugin req ans).
Proof.
  apply (entity_agrees tool_gate); [done|]. intros c x p _. rewrite reading_pair. apply gate_wire_direct.
Qed.

Definition transform_entity (plugin : SyncTransform jv P) (req : Call -> option transform_call)
    (ans : RTransformResult -> Answer) :=
  let v := transform_make_vtable plugin factory in
  entity_for transform name (tr_v_make v) (transform_wire v) (transform_build_static plugin factory)
    (fun g => reading (transform_direct g) (fun _ => transform_verdict)) req ans.

#[global] Instance transform_agrees plugin req ans : BuildsAgree transform (transform_entity plugin req ans).
Proof.
  apply (entity_agrees transform); [done|]. intros c x p _. rewrite reading_pair. apply transform_wire_direct.
Qed.

Definition identity_entity (plugin : SyncIdentityResolver jv P) (req : Call -> option identity_call)
    (ans : RIdentityResolution -> Answer) :=
  let v := identity_make_vtable plugin factory in
  entity_for identity name (id_v_make v) (identity_wire v) (identity_build_static plugin factory)
    (fun g => reading (identity_direct g) (fun _ => identity_verdict)) req ans.

#[global] Instance identity_agrees plugin req ans : BuildsAgree identity (identity_entity plugin req ans).
Proof.
  apply (entity_agrees identity); [done|]. intros c x p _. rewrite reading_pair. apply identity_wire_direct.
Qed.

Context {CA : CacheApi jv} {BA : BackendApi jv} `{!SerdeRoundtrip jv BackendRequest}.

(** A cache answers alike the calls whose values are bytes and whose numbers fit
    their widths. *)
Definition cache_entity (plugin : SyncCachePlugin jv P) (req : Call -> option cache_call) (ans : string -> Answer) :=
  let v := cache_make_vtable plugin factory in
  entity_for cache name (ca_v_make v) (cache_wire v) (cache_build_static plugin factory)
    (fun g => reading (cache_direct g) (fun _ => cache_text)) req ans.

Lemma cache_agrees plugin req ans :
  (forall c x, req c = Some x -> cache_call_ok x) -> BuildsAgree cache (cache_entity plugin req ans).
Proof.
  intros Hok. apply (entity_agrees cache); [done|]. intros c x p Hx. rewrite reading_pair.
  apply cache_wire_direct. by eapply Hok.
Qed.

Definition backend_entity (plugin : SyncBackendPlugin jv P) (req : Call -> option backend_call)
    (ans : option string -> Answer) :=
  let v := backend_make_vtable plugin factory in
  entity_for backend name (bk_v_make v) (backend_wire v) (backend_build_static plugin factory)
    (fun g => reading (backend_direct g) backend_text) req ans.

#[global] Instance backend_agrees plugin req ans : BuildsAgree backend (backend_entity plugin req ans).
Proof.
  apply (entity_agrees backend); [done|]. intros c x p _. rewrite reading_pair. apply backend_wire_direct.
Qed.
End Requests.
End Kinds.

(** ** Witness *)

Module Sample.
Import Tree Wire Gates.Sample.

Inductive call := ToGate (c : gate_call (jv := jtree)) | ToTransform (c : transform_call (jv := jtree)).
Inductive answer := Decided (d : bool) | Transformed (r : option jtree).

Definition to_gate (c : call) := match c with ToGate c => Some c | _ => None end.
Definition to_transform (c : call) := match c with ToTransform c => Some c | _ => None end.

(** A gate, a transform, and a gate whose factory panics. *)
Definition plugin : declaration (V := wired call answer nat unit) (Plugin := built call answer nat)
    (Cap := unit) (Profile := string) (Host := unit) :=
  {| plugin_id := "dev.sample"; plugin_version := "1"; descriptor_yaml := "id: dev.sample";
     capabilities := None; backend_profile := None;
     entities := [gate_entity (fun _ _ => Returned 0%nat) "g" counting to_gate Decided;
                  transform_entity (fun _ _ => Returned 5%nat) "t" echo to_transform Transformed;
                  gate_entity (fun _ _ => Panicked) "p" counting to_gate Decided] |}.
Definition none : PluginRegistration (V := wired call answer nat unit) (Cap := unit) :=
  {| abi_version := 0; reg_plugin_id := ""; reg_plugin_version := ""; module_path_prefix := "";
     reg_entities := []; reg_capabilities := []; backend_profile_json := None; reg_descriptor_yaml := "" |}.

Definition ask : call := ToGate (CallPre "c"%string (TNum 1) None (TObj [])).
Definition requests : list (nat * call) :=
  [(0%nat, ask); (1%nat, ToTransform (CallArguments "c"%string (TNum 7) (TObj []))); (0%nat, ask); (1%nat, ask)].

(** The first two serve in both builds; the third is the null handle of the
    loader and the panic of the registration. *)
Lemma builds_serve_alike_witness : exists reg,
  mcpg_plugin_register (W := unit) 33 "sample" (ret tt) none plugin = Ok reg
  /\ (session serve_loaded requests (load tt "" <$> reg_entities (reg tt).2)).2
     = [Some (Decided true); Some (Transformed (Some (TNum 7))); Some (Decided false); None].
Proof.
  destruct (builds_serve_alike (W := unit) (Error := unit) 33 "sample" (ret tt) none plugin
              [tool_gate; transform; tool_gate] tt tt) as (reg & st & t & o & Hreg & Hst & Ht & Hl & Ho & Hs).
  { do 3 (apply Forall2_cons_2; [apply _|]). apply Forall2_nil_2. }
  { reflexivity. }
  exists reg. split; [exact Hreg|].
  assert (Hst' : Some (t, o) = match register_static (Error := unit) keep plugin with
                               | Ok st => Some (st tt []) | Err _ => None end) by (rewrite Hst; by rewrite Ht).
  injection Hst' as -> ->.
  destruct (Hs requests) as [-> _]; [repeat constructor|]. vm_compute. reflexivity.
Defined.
End Sample.
