(* ===== verification/ServingKinds.v ===== *)
(** * More kinds that serve alike in both builds

    Configuration providers, policy engines, approval notifiers, credential
    issuers, catalog providers and the four kinds of sink discharge the
    interface of Serving.v. Their slots answer texts; in process the answer is the value the
    adapter returns, read as the text the slot prints of it. *)

From Stdlib Require Import Ascii String.
From S2P Require Import Prelude Json Ffi Gates StoreFacts Providers ProviderFacts Sinks Declare Serving.

Section Kinds.
Context {Call Answer P Host : Type}.
Variable factory : string -> Host -> outcome P.
Variable name : string.
Variable ans : string -> Answer.

Section Providers.
Context {jv : Type} `{JL : JsonLaws jv} `{E : Envelope jv} `{PA : PluginApi jv}.
Context {CF : ConfigApi jv} {PO : PolicyApi jv} {AA : ApprovalApi jv} {CR : CredentialApi jv} {CT : CatalogApi jv}.
Context `{!SerdeRoundtrip jv PluginContext} `{!SerdeRoundtrip jv PluginIdentity}.
Context `{!SerdeRoundtrip jv NotificationRequest} `{!SerdeRoundtrip jv EnrichedToolDescriptor}.

(** ** config_provider: a snapshot of a reference *)

Definition config_entity (plugin : SyncConfigProvider jv P) (req : Call -> option string) :=
  let v := config_make_vtable plugin factory in
  entity_for config_provider name (co_v_make v) (co_v_snapshot v) (config_build_static plugin factory)
    (fun g reference => answered respond_result ""%string (config_snapshot g reference)) req ans.

#[global] Instance config_agrees plugin req : BuildsAgree config_provider (config_entity plugin req).
Proof. apply (entity_agrees config_provider); [done|]. intros c x p _. apply envelope_slot_answered. Qed.

(** ** policy_engine *)

Inductive policy_call := PoEvaluate (dp : string) (input : jv) (ctx : PluginContext) | PoVersion.

Definition policy_wire (v : PolicyEngineVTable P Host) (c : policy_call) : P -> P * string :=
  match c with
  | PoEvaluate dp input ctx =>
      po_v_evaluate v (j_print (j_obj {["decision_point" := j_str dp; "input" := input;
                                        "context" := to_value ctx]}%string))
  | PoVersion => po_v_policy_version v
  end.
Definition policy_direct (g : PolicyEngine jv P) (c : policy_call) : P -> P * string :=
  match c with
  | PoEvaluate dp input ctx => answered to_string ""%string (policy_evaluate g dp input ctx)
  | PoVersion => answered to_string ""%string (policy_version g)
  end.

Definition policy_entity (plugin : SyncPolicyEngine jv P) (req : Call -> option policy_call) :=
  let v := policy_make_vtable plugin factory in
  entity_for policy_engine name (po_v_make v) (policy_wire v) (policy_build_static plugin factory)
    policy_direct req ans.

#[global] Instance policy_agrees plugin req : BuildsAgree policy_engine (policy_entity plugin req).
Proof.
  apply (entity_agrees policy_engine); [done|]. intros c [dp input ctx|] p _; [|apply bare_slot_answered].
  simpl. unfold __mcpg_policy_evaluate. erewrite args_slot_print by apply policy_args_obj.
  apply catch_to_empty_answered.
Qed.

(** ** approval_notifier *)

Definition approval_entity (plugin : SyncApprovalNotifier jv P) (req : Call -> option NotificationRequest) :=
  let v := approval_make_vtable plugin factory in
  entity_for approval_notifier name (ap_v_make v) (fun r => ap_v_notify v (to_string r))
    (approval_build_static plugin factory) (fun g r => answered result_text ""%string (notify g r)) req ans.

#[global] Instance approval_agrees plugin req : BuildsAgree approval_notifier (approval_entity plugin req).
Proof.
  apply (entity_agrees approval_notifier); [done|]. intros c x p _.
  simpl. unfold __mcpg_appr_notify, to_string. erewrite args_slot_print by apply from_to_value.
  apply catch_to_empty_answered.
Qed.

(** ** credential_issuer *)

Inductive credential_call := CrIssue (who : PluginIdentity) (target : string) (config : jv) | CrRevoke (lease_id : string).

Definition credential_wire (v : CredentialIssuerVTable P Host) (c : credential_call) : P -> P * string :=
  match c with
  | CrIssue who target config =>
      cr_v_issue v (j_print (j_obj {["identity" := to_value who; "target" := j_str target;
                                     "config" := config]}%string))
  | CrRevoke lease_id => cr_v_revoke v lease_id
  end.
Definition credential_direct (g : CredentialIssuer jv P) (c : credential_call) : P -> P * string :=
  match c with
  | CrIssue who target config => answered result_text ""%string (issue g who target config)
  | CrRevoke lease_id => answered respond_result ""%string (revoke g lease_id)
  end.

Definition credential_entity (plugin : SyncCredentialIssuer jv P) (req : Call -> option credential_call) :=
  let v := credential_make_vtable plugin factory in
  entity_for credential_issuer name (cr_v_make v) (credential_wire v) (credential_build_static plugin factory)
    credential_direct req ans.

#[global] Instance credential_agrees plugin req : BuildsAgree credential_issuer (credential_entity plugin req).
Proof.
  apply (entity_agrees credential_issuer); [done|].
  intros c [who target config|lease_id] p _; [|apply envelope_slot_answered].
  simpl. unfold __mcpg_credential_issue. erewrite args_slot_print by apply credential_args_obj.
  apply catch_to_empty_answered.
Qed.

(** ** catalog_provider *)

Inductive catalog_call :=
| CtFilter (ctx : PluginContext) (l : list EnrichedToolDescriptor)
| CtDescribe (tool_id : string)
| CtList.

Definition catalog_wire (v : CatalogProviderVTable P Host) (c : catalog_call) : P -> P * string :=
  match c with
  | CtFilter ctx l =>
      ct_v_filter_and_enrich v (j_print (j_obj {["ctx" := to_value ctx; "in_progress" := to_value l]}%string))
  | CtDescribe tool_id => ct_v_describe v tool_id
  | CtList => ct_v_list_catalog v
  end.
Definition catalog_direct (g : CatalogProvider jv P) (c : catalog_call) : P -> P * string :=
  match c with
  | CtFilter ctx l => answered to_string ""%string (filter_and_enrich g ctx l)
  | CtDescribe tool_id => answered to_string ""%string (describe g tool_id)
  | CtList => answered to_string ""%string (list_catalog g)
  end.

Definition catalog_entity (plugin : SyncCatalogProvider jv P) (req : Call -> option catalog_call) :=
  let v := catalog_make_vtable plugin factory in
  entity_for catalog_provider name (ct_v_make v) (catalog_wire v) (catalog_build_static plugin factory)
    catalog_direct req ans.

#[global] Instance catalog_agrees plugin req : BuildsAgree catalog_provider (catalog_entity plugin req).
Proof.
  apply (entity_agrees catalog_provider); [done|].
  intros c [ctx l|tool_id|] p _; [|apply bare_slot_answered..].
  simpl. unfold __mcpg_catalog_filter_and_enrich. erewrite args_slot_print by apply catalog_args_obj.
  apply catch_to_empty_answered.
Qed.
End Providers.

(** ** audit_sink *)

Section Sinks.
Context {jv : Type} `{JL : JsonLaws jv} `{E : Envelope jv} `{PA : PluginApi jv} {SA : SinkApi jv}.
Context `{!SerdeRoundtrip jv AuditEvent}.

Inductive audit_call := AuEmit (event : AuditEvent) | AuFlush (timeout_ms : Z).

Definition audit_wire (v : AuditSinkVTable P Host) (c : audit_call) : P -> P * string :=
  match c with
  | AuEmit event => au_v_emit v (to_string event)
  | AuFlush timeout_ms => au_v_flush v timeout_ms
  end.
Definition audit_direct (g : AuditSink jv P) (c : audit_call) : P -> P * string :=
  match c with
  | AuEmit event => answered respond_result ""%string (audit_emit g event)
  | AuFlush timeout_ms => answered respond_result ""%string (audit_flush g timeout_ms)
  end.

Definition audit_entity (plugin : SyncAuditSink jv P) (req : Call -> option audit_call) :=
  let v := audit_sink_make_vtable plugin factory in
  entity_for audit_sink name (au_v_make v) (audit_wire v) (audit_sink_build_static plugin factory)
    audit_direct req ans.

#[global] Instance audit_agrees plugin req : BuildsAgree audit_sink (audit_entity plugin req).
Proof.
  apply (entity_agrees audit_sink); [done|].
  intros c [event|t] p _; [apply audit_emit_agree|apply envelope_slot_answered].
Qed.

(** ** log_sink, metrics_sink, telemetry_sink

    An emit answers nothing, a panic included. A flush has its time in
    milliseconds on the wire and as a duration in process, so the builds agree
    on the times a [u64] holds. *)

Context `{!SerdeRoundtrip jv SinkLogRecord} `{!SerdeRoundtrip jv SinkMetric}.
Context `{!Serialize jv SpanStart, !SerdeRoundtrip jv SpanStart}.
Context `{!Serialize jv SpanEnd, !SerdeRoundtrip jv SpanEnd}.

Definition emitted (m : comp P unit) : P -> P * string := answered (fun _ => ""%string) ""%string m.

Lemma emitted_printed {A} `{!Serialize jv A, !Deserialize jv A, !SerdeRoundtrip jv A}
    (emit : A -> comp P unit) (a : A) p :
  (drop_malformed from_value emit (to_string a) p, ""%string) = emitted (emit a) p.
Proof. rewrite drop_malformed_printed. unfold emitted, answered. by destruct (emit a p) as [? []]. Qed.

Lemma flush_agrees {R} `{!Serialize jv R} (flush : Z -> comp P (result unit R)) t p :
  0 <= t <= u64_max ->
  envelope_slot (flush t) p = answered respond_result ""%string (flush (as_u64 (as_millis (ms t)))) p.
Proof. intros Ht. rewrite millis_in_range by done. apply envelope_slot_answered. Qed.

Inductive log_call := LgEmit (record : SinkLogRecord) | LgFlush (timeout_ms : Z).

Definition log_wire (v : LogSinkVTable P Host) (c : log_call) (p : P) : P * string :=
  match c with
  | LgEmit record => (ls_v_emit v (to_string record) p, ""%string)
  | LgFlush timeout_ms => ls_v_flush v timeout_ms p
  end.
Definition log_direct (g : LogSink jv P) (c : log_call) : P -> P * string :=
  match c with
  | LgEmit record => emitted (log_emit g record)
  | LgFlush timeout_ms => answered respond_result ""%string (log_flush g (ms timeout_ms))
  end.
Definition log_call_ok (c : log_call) : Prop :=
  match c with LgFlush t => 0 <= t <= u64_max | _ => True end.

Definition log_entity (plugin : SyncLogSink jv P) (req : Call -> option log_call) :=
  let v := log_sink_make_vtable plugin factory in
  entity_for log_sink name (ls_v_make v) (log_wire v) (log_sink_build_static plugin factory)
    log_direct req ans.

Lemma log_agrees plugin req :
  (forall c x, req c = Some x -> log_call_ok x) -> BuildsAgree log_sink (log_entity plugin req).
Proof.
  intros Hok. apply (entity_agrees log_sink); [done|].
  intros c [record|t] p Hc; [apply emitted_printed|by apply flush_agrees, (Hok c _ Hc)].
Qed.

Inductive metrics_call := MeEmit (metric : SinkMetric) | MeFlush (timeout_ms : Z) | MeRender.

Definition metrics_wire (v : MetricsSinkVTable P Host) (c : metrics_call) (p : P) : P * string :=
  match c with
  | MeEmit metric => (me_v_emit v (to_string metric) p, ""%string)
  | MeFlush timeout_ms => me_v_flush v timeout_ms p
  | MeRender => me_v_render_text_exposition v p
  end.
(** No exposition reads as an empty one. *)
Definition metrics_direct (g : MetricsSink jv P) (c : metrics_call) : P -> P * string :=
  match c with
  | MeEmit metric => emitted (metrics_emit g metric)
  | MeFlush timeout_ms => answered respond_result ""%string (metrics_flush g (ms timeout_ms))
  | MeRender => answered (default ""%string) ""%string (render_text_exposition g)
  end.
Definition metrics_call_ok (c : metrics_call) : Prop :=
  match c with MeFlush t => 0 <= t <= u64_max | _ => True end.

Definition metrics_entity (plugin : SyncMetricsSink jv P) (req : Call -> option metrics_call) :=
  let v := metrics_sink_make_vtable plugin factory in
  entity_for metrics_sink name (me_v_make v) (metrics_wire v) (metrics_sink_build_static plugin factory)
    metrics_direct req ans.

Lemma metrics_agrees plugin req :
  (forall c x, req c = Some x -> metrics_call_ok x) -> BuildsAgree metrics_sink (metrics_entity plugin req).
Proof.
  intros Hok. apply (entity_agrees metrics_sink); [done|].
  intros c [metric|t|] p Hc; [apply emitted_printed|by apply flush_agrees, (Hok c _ Hc)|].
  apply catch_to_empty_answered.
Qed.

Inductive telemetry_call :=
| TeStarted (span : SpanStart) | TeEnded (span : SpanEnd)
| TeMetric (metric : SinkMetric) | TeLog (record : SinkLogRecord)
| TeFlush (timeout_ms : Z).

Definition telemetry_wire (v : TelemetrySinkVTable P Host) (c : telemetry_call) (p : P) : P * string :=
  match c with
  | TeStarted span => (te_v_span_started v (to_string span) p, ""%string)
  | TeEnded span => (te_v_span_ended v (to_string span) p, ""%string)
  | TeMetric metric => (te_v_metric_recorded v (to_string metric) p, ""%string)
  | TeLog record => (te_v_log_recorded v (to_string record) p, ""%string)
  | TeFlush timeout_ms => te_v_flush v timeout_ms p
  end.
Definition telemetry_direct (g : TelemetrySink jv P) (c : telemetry_call) : P -> P * string :=
  match c with
  | TeStarted span => emitted (span_started g span)
  | TeEnded span => emitted (span_ended g span)
  | TeMetric metric => emitted (metric_recorded g metric)
  | TeLog record => emitted (log_recorded g record)
  | TeFlush timeout_ms => answered respond_result ""%string (telemetry_flush g (ms timeout_ms))
  end.
Definition telemetry_call_ok (c : telemetry_call) : Prop :=
  match c with TeFlush t => 0 <= t <= u64_max | _ => True end.

Definition telemetry_entity (plugin : SyncTelemetrySink jv P) (req : Call -> option telemetry_call) :=
  let v := telemetry_sink_make_vtable plugin factory in
  entity_for telemetry_sink name (te_v_make v) (telemetry_wire v) (telemetry_sink_build_static plugin factory)
    telemetry_direct req ans.

Lemma telemetry_agrees plugin req :
  (forall c x, req c = Some x -> telemetry_call_ok x) -> BuildsAgree telemetry_sink (telemetry_entity plugin req).
Proof.
  intros Hok. apply (entity_agrees telemetry_sink); [done|].
  intros c [span|span|metric|record|t] p Hc; [apply emitted_printed..|by apply flush_agrees, (Hok c _ Hc)].
Qed.
End Sinks.
End Kinds.
