(* ===== verification/Template.v ===== *)
(** * Project templates (src/src/template.rs)

    The three templates a plugin project is generated from, with the names put
    into them, and [to_pascal_case], which turns a crate name into the name of
    the generated type. A text is its characters; [char::to_uppercase] is a
    parameter. A literal text is written with a tilde for the double quote. *)

From Stdlib Require Import Ascii String.
From S2P Require Import Prelude.

Definition text : Type := list Z.
Definition underscore : Z := 95.
Definition hyphen : Z := 45.
Definition dot : Z := 46.
Definition quote : Z := 34.
Definition is_separator (c : Z) : bool := (c =? underscore) || (c =? hyphen).

(** [str::split]: the parts between separators, empty ones included. *)
Fixpoint split_parts (s : text) : list text :=
  match s with
  | [] => [[]]
  | c :: s =>
      if is_separator c then [] :: split_parts s
      else match split_parts s with
           | part :: parts => (c :: part) :: parts
           | [] => [[c]]
           end
  end.

Definition lit (s : string) : text :=
  (fun c => if Ascii.eqb c "~" then quote else Z.of_nat (nat_of_ascii c)) <$> chars s.

(** [str::replace] of a character by another. *)
Definition replace (from to : Z) (s : text) : text := (fun c => if c =? from then to else c) <$> s.

Section Pascal.
Variable to_uppercase : Z -> text.

Definition capitalise (part : text) : text :=
  match part with
  | first :: rest => to_uppercase first ++ rest
  | [] => []
  end.

Definition to_pascal_case (s : text) : text :=
  concat (capitalise <$> filter (fun part => part <> []) (split_parts s)).

(** [plugin_name.replace('-', "_")], the crate name of a template. *)
Definition crate_name (plugin_name : text) : text := replace hyphen underscore plugin_name.

(** ** The generated files *)

Definition cargo_toml (name kind : text) : text :=
  lit "[package]
name = ~"
  ++ name
  ++ lit "~
version = ~0.1.0~
edition = ~2024~
description = ~"
  ++ kind
  ++ lit " plugin for MCPG~

[dependencies]
mcpg-plugin-protocol = { version = ~0.1~ }
serde = { version = ~1.0~, features = [~derive~] }
serde_json = ~1.0~

[dev-dependencies]
mcpg-plugin-sdk = { version = ~0.1~ }
".

Definition tool_gate_lib (crate_name plugin_id : text) : text :=
  let struct_name := to_pascal_case crate_name in
  lit "use mcpg_plugin_protocol::{
    GateDecision, PluginClass, PluginContext, PluginManifest,
    ToolGatePlugin, PROTOCOL_VERSION,
};

pub struct "
  ++ struct_name
  ++ lit ";

impl ToolGatePlugin for "
  ++ struct_name
  ++ lit " {
    fn manifest(&self) -> &PluginManifest {
        &PluginManifest {
            license: None,
            id: ~"
  ++ plugin_id
  ++ lit "~.into(),
            version: env!(~CARGO_PKG_VERSION~).into(),
            name: ~"
  ++ struct_name
  ++ lit "~.into(),
            plugin_class: PluginClass::ToolGate,
            protocol_version: PROTOCOL_VERSION.to_owned(),
            required_capabilities: vec![],
            tags: Vec::new(),
                provides: Vec::new(),
                provides_schemes: Vec::new(),
            module_path_prefix: ::std::module_path!().split(~::~).next().unwrap_or(~~).to_owned(),
        }
    }

    fn evaluate_pre_dispatch(
        &self,
        ctx: &PluginContext,
        arguments: &serde_json::Value,
        meta: Option<&serde_json::Value>,
        config: &serde_json::Value,
    ) -> GateDecision {
        // TODO: Implement your pre-dispatch logic here.
        //
        // Return GateDecision::allow() to let the call proceed.
        // Return GateDecision::Deny { .. } to block it.
        // Return GateDecision::Challenge { .. } to require additional input.
        GateDecision::allow()
    }
}

#[cfg(test)]
mod tests {
    use super::*;
    use mcpg_plugin_sdk::testing::{MockGateway, ToolCallResultAssertions};

    #[test]
    fn allows_by_default() {
        let gw = MockGateway::new()
            .with_tool_gate(Box::new("
  ++ struct_name
  ++ lit "));
        let result = gw.call_tool(~any_tool~, serde_json::json!({}));
        result.assert_allowed();
    }
}
".

Definition transform_lib (crate_name plugin_id : text) : text :=
  let struct_name := to_pascal_case crate_name in
  lit "use mcpg_plugin_protocol::{
    PluginClass, PluginContext, PluginManifest,
    TransformPlugin, TransformResult,
};

pub struct "
  ++ struct_name
  ++ lit ";

impl TransformPlugin for "
  ++ struct_name
  ++ lit " {
    fn manifest(&self) -> &PluginManifest {
        &PluginManifest {
            license: None,
            id: ~"
  ++ plugin_id
  ++ lit "~.into(),
            version: env!(~CARGO_PKG_VERSION~).into(),
            name: ~"
  ++ struct_name
  ++ lit "~.into(),
            plugin_class: PluginClass::Transform,
            protocol_version: PROTOCOL_VERSION.to_owned(),
            required_capabilities: vec![],
            tags: Vec::new(),
                provides: Vec::new(),
                provides_schemes: Vec::new(),
            module_path_prefix: ::std::module_path!().split(~::~).next().unwrap_or(~~).to_owned(),
        }
    }

    fn transform_arguments(
        &self,
        ctx: &PluginContext,
        arguments: &serde_json::Value,
        config: &serde_json::Value,
    ) -> TransformResult {
        // TODO: Implement argument transformation here.
        TransformResult::Unchanged
    }

    fn transform_result(
        &self,
        ctx: &PluginContext,
        result: &serde_json::Value,
        config: &serde_json::Value,
    ) -> TransformResult {
        // TODO: Implement result transformation here.
        TransformResult::Unchanged
    }
}

#[cfg(test)]
mod tests {
    use super::*;
    use mcpg_plugin_sdk::testing::{MockGateway, ToolCallResultAssertions};

    #[test]
    fn passes_through_unchanged() {
        let gw = MockGateway::new()
            .with_transform(Box::new("
  ++ struct_name
  ++ lit "));
        let result = gw.call_tool(~any_tool~, serde_json::json!({~key~: ~value~}));
        result.assert_allowed();
        assert_eq!(result.arguments[~key~], ~value~);
    }
}
".

Definition identity_lib (crate_name plugin_id : text) : text :=
  let struct_name := to_pascal_case crate_name in
  lit "use mcpg_plugin_protocol::{
    IdentityProviderPlugin, IdentityResolution, PluginClass, PluginIdentity,
    PluginManifest,
};

pub struct "
  ++ struct_name
  ++ lit ";

impl IdentityProviderPlugin for "
  ++ struct_name
  ++ lit " {
    fn manifest(&self) -> &PluginManifest {
        &PluginManifest {
            license: None,
            id: ~"
  ++ plugin_id
  ++ lit "~.into(),
            version: env!(~CARGO_PKG_VERSION~).into(),
            name: ~"
  ++ struct_name
  ++ lit "~.into(),
            plugin_class: PluginClass::IdentityProvider,
            protocol_version: PROTOCOL_VERSION.to_owned(),
            required_capabilities: vec![],
            tags: Vec::new(),
                provides: Vec::new(),
                provides_schemes: Vec::new(),
            module_path_prefix: ::std::module_path!().split(~::~).next().unwrap_or(~~).to_owned(),
        }
    }

    fn resolve_identity(
        &self,
        headers: &[(String, String)],
        metadata: &mcpg_plugin_protocol::types::RequestMetadata,
        config: &serde_json::Value,
    ) -> IdentityResolution {
        // TODO: Extract and verify identity from headers (and
        // optionally `metadata`, e.g. metadata.tls for native
        // mTLS plugins). Return IdentityResolution::Resolved(..).
        IdentityResolution::None
    }
}

#[cfg(test)]
mod tests {
    use super::*;

    #[test]
    fn returns_no_token_for_empty_headers() {
        let plugin = "
  ++ struct_name
  ++ lit ";
        let result = plugin.resolve_identity(
            &[],
            &mcpg_plugin_protocol::types::RequestMetadata::default(),
            &serde_json::json!({}),
        );
        assert!(matches!(result, IdentityResolution::None));
    }
}
".

Definition readme (name kind : text) : text :=
  let name_dotted := replace hyphen dot name in
  let name_underscored := replace hyphen underscore name in
  lit "# "
  ++ name
  ++ lit "

A "
  ++ kind
  ++ lit " plugin for MCPG.

## Development

```bash
# Run tests
cargo test

# Run with mock gateway harness
cargo test -- --nocapture
```

## Configuration

```yaml
plugins:
  - id: com.example."
  ++ name_dotted
  ++ lit "
    kind: native
    source:
      path: /opt/mcpg/plugins/lib"
  ++ name_underscored
  ++ lit ".so
    config: {}
```
".

Record PluginTemplate := {
  name : text;
  description : text;
  plugin_class : text;
  (** Relative paths and contents. *)
  files : list (text * text);
}.

Definition tool_gate (plugin_name plugin_id : text) : PluginTemplate := {|
  name := lit "tool-gate";
  description := lit "A tool-gate plugin that can allow, deny, or challenge tool calls";
  plugin_class := lit "ToolGate";
  files := [(lit "Cargo.toml", cargo_toml plugin_name (lit "Tool gate"));
            (lit "src/lib.rs", tool_gate_lib (crate_name plugin_name) plugin_id);
            (lit "README.md", readme plugin_name (lit "tool gate"))];
|}.

Definition transform (plugin_name plugin_id : text) : PluginTemplate := {|
  name := lit "transform";
  description := lit "A transform plugin that can rewrite tool arguments and results";
  plugin_class := lit "Transform";
  files := [(lit "Cargo.toml", cargo_toml plugin_name (lit "Transform"));
            (lit "src/lib.rs", transform_lib (crate_name plugin_name) plugin_id);
            (lit "README.md", readme plugin_name (lit "transform"))];
|}.

Definition identity (plugin_name plugin_id : text) : PluginTemplate := {|
  name := lit "identity";
  description := lit "An identity plugin that resolves caller identity from request headers";
  plugin_class := lit "IdentityProvider";
  files := [(lit "Cargo.toml", cargo_toml plugin_name (lit "Identity"));
            (lit "src/lib.rs", identity_lib (crate_name plugin_name) plugin_id);
            (lit "README.md", readme plugin_name (lit "identity"))];
|}.

(** [PluginTemplate::list]. *)
Definition template_list : list (text * text) :=
  [(lit "tool-gate", lit "Pre/post-dispatch gating (payment, rate-limit, approval)");
   (lit "transform", lit "Argument/result rewriting (PII masking, schema migration)");
   (lit "identity", lit "Identity resolution from request headers (JWT, API key)")].

(** ** Names *)

Definition word (w : text) : Prop := w <> [] /\ Forall (fun c => is_separator c = false) w.

Lemma split_parts_cons s : exists part parts, split_parts s = part :: parts.
Proof.
  induction s as [|c s (part & parts & IH)]; simpl; [by eexists _, _|].
  destruct (is_separator c); [by eexists _, _|]. rewrite IH. by eexists _, _.
Qed.

Lemma split_word w s : Forall (fun c => is_separator c = false) w ->
  split_parts (w ++ s) = match split_parts s with part :: parts => (w ++ part) :: parts | [] => [w] end.
Proof.
  destruct (split_parts_cons s) as (part & parts & Hs). rewrite Hs.
  induction 1 as [|c w Hc _ IH]; simpl; [done|]. by rewrite Hc, IH.
Qed.

Lemma split_parts_step c s :
  split_parts (c :: s) = if is_separator c then [] :: split_parts s
                         else match split_parts s with
                              | part :: parts => (c :: part) :: parts
                              | [] => [[c]]
                              end.
Proof. done. Qed.

Lemma crate_name_parts s : split_parts (crate_name s) = split_parts s.
Proof.
  induction s as [|c s IH]; [done|]. unfold crate_name, replace in *. rewrite fmap_cons, !split_parts_step, IH.
  by destruct (Z.eqb_spec c hyphen) as [->|].
Qed.

(** The name does not depend on whether words are joined by hyphens or
    underscores, so the crate name gives what the plugin name gives. *)
Lemma pascal_of_crate s : to_pascal_case (crate_name s) = to_pascal_case s.
Proof. unfold to_pascal_case. by rewrite crate_name_parts. Qed.

(** Words joined by separators come back capitalised, in order. *)
Lemma pascal_words (w : text) (l : list (Z * text)) :
  word w -> Forall (fun p => is_separator p.1 = true /\ word p.2) l ->
  to_pascal_case (w ++ concat ((fun p => p.1 :: p.2) <$> l)) = concat (capitalise <$> (w :: l.*2)).
Proof.
  intros Hw Hl. unfold to_pascal_case. f_equal. f_equal. revert w Hw.
  induction Hl as [|[c v] l [Hc Hv] _ IH]; intros w [Hne Hw]; rewrite split_word by done.
  - cbn. rewrite app_nil_r. by rewrite decide_True by done.
  - simpl. simpl in Hc. rewrite Hc, app_nil_r, filter_cons_True by done. f_equal. by apply IH.
Qed.

(** ** What the files hold *)

(** The templates on offer are the three that are generated. *)
Lemma template_list_names n i :
  template_list.*1 = name <$> [tool_gate n i; transform n i; identity n i].
Proof. done. Qed.

(** A text up to the first [stop], and the text after it. *)
Fixpoint until (stop : Z) (s : text) : option (text * text) :=
  match s with
  | [] => None
  | c :: s =>
      if c =? stop then Some ([], s)
      else match until stop s with Some (a, b) => Some (c :: a, b) | None => None end
  end.

Lemma until_app stop a b : ~ stop ∈ a -> until stop (a ++ stop :: b) = Some (a, b).
Proof.
  induction a as [|c a IH]; intros H; simpl; [by rewrite Z.eqb_refl|].
  apply not_elem_of_cons in H as [Hc Ha]. rewrite (proj2 (Z.eqb_neq c stop)) by done. by rewrite (IH Ha).
Qed.

Lemma until_prefix stop a b x y : until stop a = Some (x, y) -> until stop (a ++ b) = Some (x, y ++ b).
Proof.
  revert x y. induction a as [|c a IH]; intros x y H; simpl in *; [done|].
  destruct (c =? stop); [by simplify_eq|]. destruct (until stop a) as [[u v]|]; [|done].
  rewrite (IH _ _ eq_refl). by simplify_eq.
Qed.

(** Whether a text occurs in another. *)
Fixpoint occurs (pat s : text) : bool :=
  bool_decide (pat `prefix_of` s) || match s with [] => false | _ :: s => occurs pat s end.

Lemma occurs_split pat s : occurs pat s = true <-> exists a b, s = a ++ pat ++ b.
Proof.
  split.
  - induction s as [|c s IH]; simpl; rewrite orb_true_iff, bool_decide_eq_true.
    + intros [[b Hb]|]; [|done]. by exists [], b.
    + intros [[b Hb]|H]; [by exists [], b|]. destruct (IH H) as (a & b & ->). by exists (c :: a), b.
  - intros (a & b & ->). induction a as [|c a IH]; simpl.
    + destruct (pat ++ b) eqn:H; simpl; apply orb_true_iff; left; apply bool_decide_eq_true; by exists b.
    + by rewrite IH, orb_true_r.
Qed.

Lemma occurs_l pat s t : occurs pat s = true -> occurs pat (s ++ t) = true.
Proof. rewrite !occurs_split. intros (a & b & ->). exists a, (b ++ t). by rewrite <- !app_assoc. Qed.
Lemma occurs_r pat s t : occurs pat t = true -> occurs pat (s ++ t) = true.
Proof. rewrite !occurs_split. intros (a & b & ->). exists (s ++ a), b. by rewrite <- app_assoc. Qed.

Definition semicolon : Z := 59.
(** The first item of a file: here, what it imports from the protocol crate. *)
Definition imports (file : text) : option text := fst <$> until semicolon file.

Lemma imports_lit a b x y : until semicolon a = Some (x, y) -> imports (a ++ b) = Some x.
Proof. intros H. unfold imports. by rewrite (until_prefix _ _ _ _ _ H). Qed.

(** Every generated library reads the protocol's version, but only the tool
    gate's imports it: the other two do not compile as generated. *)
Lemma protocol_version_imported crate id :
  let version := lit "PROTOCOL_VERSION" in
  (occurs version <$> imports (tool_gate_lib crate id)) = Some true
  /\ (occurs version <$> imports (transform_lib crate id)) = Some false
  /\ (occurs version <$> imports (identity_lib crate id)) = Some false
  /\ Forall (fun file => occurs version file = true)
       [tool_gate_lib crate id; transform_lib crate id; identity_lib crate id].
Proof.
  intros version. unfold tool_gate_lib, transform_lib, identity_lib. split_and!.
  1-3: erewrite imports_lit by (vm_compute; reflexivity); vm_compute; reflexivity.
  subst version. repeat constructor; cbv zeta;
    repeat (first [apply occurs_l; vm_compute; reflexivity | apply occurs_r]).
Qed.
End Pascal.
